(* ===== verification/_CoqProject ===== *)
-Q . S2P
Prelude.v
Orders.v
Bytes.v
Text.v
Externals.v
Types.v
Merkle.v
Concrete.v
Hash.v
Crypto.v
Validation.v
Mempool.v
Votes.v
Rewards.v
Proposer.v
Digest.v
Sharding.v
Round.v
CrossShard.v
Notes.v
ZkTransfer.v
Conversion.v
Keys.v
Store.v
Circuit.v
Storage.v
Ledger.v
StorageSpec.v
Vm.v
VmSpec.v
Json.v
Api.v
ApiSpec.v
Rpc.v
RpcSpec.v
Transport.v
Peers.v
Config.v
Gossip.v
GossipSpec.v
Start.v
StartSpec.v
Flood.v
Wallet.v
WalletSpec.v
WalletRpc.v
Faucet.v
FaucetSpec.v
Pages.v
Ceremony.v
Node.v
NodeSpec.v
