(* ===== verification/Prelude.v ===== *)
(** * Verification of the Prims node

    Prims is a proof-of-stake blockchain node in Rust: a chain of blocks of
    signed transactions, a sharded execution coordinated by a beacon chain,
    anonymous notes spent with Groth16 proofs, WebAssembly contracts, and the
    programs around the node: its network and its RPC interface, a wallet, a
    website with a faucet, a load generator, and the ceremony that sets up the
    proof system.  This library translates their own logic, function by
    function, into executable definitions and proves what makes it correct.

    ** How the code is read

    A Rust function that cannot fail is a Gallina function.  One that returns
    [Result] or can panic returns [outcome E A]: [Ok], [Err] with the error
    enum of the source as an inductive type of the same constructors, or
    [Panic] for a failed [expect], an index out of range or an overflow.  An
    [anyhow] error, which the source builds from a message, is a constructor
    per message.  A method with [&mut self] takes the state and returns the
    new one.  Integers are [Z] with the width where the code can leave its
    range: [checked], [saturating], [wrap], and [arith] for a plain operator,
    which panics or wraps according to [Profile] (debug or release build), so
    that the theorems cover both builds.  [Vec<u8>] is [list byte]; [HashMap]
    and [BTreeMap] are [gmap], a [BTreeMap] being read in the order of its
    keys; [sort_by] is a stable insertion sort with the comparison of the
    source.  The crates the node calls are type classes of file [Externals]
    (SHA-256, Ed25519, bincode, hexadecimal) and of the files that use them
    (gadgets and Groth16 in [Circuit], RocksDB in [Store], the engine in [Vm], the
    limiter in [Api], HTTP in [Rpc], libp2p in [Gossip] and [Start]), each with a class of
    the documented facts a theorem may assume; hash functions are never
    assumed injective, only collision free on the finitely many payloads a
    theorem names.  File [Concrete] has computable instances, on which every theorem with
    hypotheses has a witness.

    ** The parts

    - [Prelude], [Orders], [Bytes], [Text]: outcomes, machine integers,
      comparison functions and the stable sort, byte strings and their
      encodings, and the functions on text the source uses (UTF-8, trimming,
      splitting, parsing of integers).
    - [Externals], [Concrete]: the crates, and instances of them.
    - [Types]: [src/blockchain/types.rs].
    - [Merkle]: a reference binary hash tree, and its binding property;
      [Hash] proves [src/blockchain/hash.rs] equal to it.
    - [Crypto], [Validation]: [src/crypto/mod.rs],
      [src/blockchain/validation.rs].
    - [Mempool], [Votes], [Rewards], [Proposer]: [src/consensus/mod.rs].  The
      task that owns a partition is a step relation between a bounded channel
      and the list of transactions.
    - [Digest], [Sharding], [CrossShard]: [src/sharding/mod.rs].  [Round] puts
      the consensus together: a round of a shard, from the committee and the
      pool to the state root.
    - [Notes], [ZkTransfer], [Circuit], [Conversion]: [src/privacy/].
      [ZkTransfer] has the native check of a transfer; [Circuit] its synthesis
      as constraints, over the operations of the gadget library, and the
      proofs, over those of Groth16.
    - [Keys], [Store], [Storage]: [src/storage/], over a family of contract
      addresses that keep the keys of slots apart ([Addresses]); clients of
      the storage take the digests that deployments derive.  [Ledger] is the abstract
      specification of the storage, a record of tables, with the relation
      [represents] to the entries of the database; [StorageSpec] proves that
      every operation implements it.
    - [Vm]: [src/vm/mod.rs], over a WebAssembly engine that is a class; its
      properties, on the ledger, are in [VmSpec].
    - [Api]: [src/api/mod.rs], the requests as programs on the storage, the
      pool and the rate limiter; [ApiSpec] states what each answers and
      changes, in terms of the ledger.  [Json] has the values of JSON and the
      reading of structures, [Rpc] the parameters and answers of the methods
      and [rpc_call] of the two clients; [RpcSpec] proves that the clients
      read what the node answered.  Programs that talk to a node are written
      against the interface [RpcClient]; [Transport] compares its two
      implementations, the handlers themselves and HTTP.
    - [Peers]: [src/network/connection.rs] and the penalties of
      [src/network/node.rs]; [Config]: [src/network/config.rs] and the loading
      of keys; [Gossip], [GossipSpec]: [src/network/message.rs], [gossip.rs]
      and the publishing and reception of messages.
    - [Start], [StartSpec]: [src/network/behaviour.rs], [build_gossipsub] and
      [PrimsNode::new], over the operations of libp2p.
    - [Node], [NodeSpec]: [src/main.rs], its setup and its event loop,
      interleaved with requests: the composition of [Start], [Api] and
      [Gossip] on one state.
    - [Wallet], [WalletSpec]: [src/bin/prims-cli.rs], over [RpcClient];
      [WalletRpc] takes what is proved of its commands on the handlers over
      HTTP; [Flood] is its load generator.
    - [Faucet], [FaucetSpec], [Pages]: [src/bin/prims-explorer.rs], the other
      program over [RpcClient], and the pages it renders.
    - [Ceremony]: [src/bin/prims-setup.rs].

    ** What is proved

    - Chain: the Merkle root is total, equals the reference tree and binds the
      transactions of lists of one length; validation accepts exactly the
      blocks and transfers its rules describe; what is signed verifies.
    - Mempool: selection is a permutation of the pool, bounded in total and
      per sender, in arrival order; the asynchronous task is linearizable.
    - Consensus: tallies are exact and independent of the hash map's order;
      two conflicting final blocks expose a third of the stake to slashing; a
      quorum finalises; rewards pay out the pool exactly, panicking or wrapping
      only where their sums leave their width; proposers are drawn
      in proportion to their stake; a proposed block validates.  These meet in
      a round of a shard.
    - Sharding: every reachable beacon chain has sorted, duplicate-free tables
      with one committee and one root per shard of the current epoch, the
      committees partition the active validators evenly; the two-phase
      protocol orders its phases and its receipts are checked exactly.
    - Privacy: note proofs are complete and sound for the tree; the native
      transfer check is characterised; the circuit accepts what it accepts,
      and what the circuit accepts satisfies its rules with the amounts summed
      modulo 2^64; conversion conserves funds.
    - Storage: the key space is free of clashes between records when contract
      addresses are apart, iteration returns exactly the entries of a prefix; every session on the storage
      answers as the ledger does, and the storage roots of contracts are those
      of their slots.
    - Contracts: a call is atomic, and a host call is contained in what the
      machine stages.
    - Interface: a submission is accepted exactly when it is admissible, and
      changes exactly the pool and the slots of a contract call; the queries
      report the ledger; no request panics the node; the JSON of parameters is
      characterised, and a client gets the handler's answer or error.
    - Network: a peer is accepted exactly when its history allows it; a start
      gives the node its configuration asks for or fails for a reason that is
      there; what is published is received; a node's whole life, under any requests and any
      traffic, keeps its ledger and accounts exactly for its pool.
    - Programs: the wallet succeeds exactly when the node can accept what it
      asks and the limiter grants its two calls, does over HTTP what it does on the handlers unless the transport
      fails, and reloads every key it generates; the load generator ends,
      panicking only when its nonces overflow, and its transfers reach the
      pools; the node panics on an error of its setup that comes after its
      pool; visitors of the website can only make the
      faucet pay its fixed amount, and cannot change the markup of a page; the
      transcript of a ceremony binds and publishes every contribution.

    ** Fuel

    [merkle_loop], [root_loop] and [proof_loop] take the number of leaves as
    fuel: every turn replaces [n >= 2] hashes by [ceil(n/2) < n].  That the
    fuel suffices is part of the theorems on totality ([Panic] is the result
    of running out).  The retries of [Flood.publish_loop] take [retry_fuel],
    201: at most 200 retries, then the attempt that decides; that it suffices
    is part of [flood_terminates].  The loops of [Flood.poll_loop] wait until a
    deadline: no bound is known in advance, and [poll_loop_ends] shows that
    some fuel is enough when waiting moves the clock.

    ** Not modelled

    Threads of tokio, sockets and the inside of libp2p, HTTP, the text of
    JSON, argument parsing, and terminal output: pure input and output.  A
    handler of a request is one step of its node.  The gadget library and
    Groth16 are the classes [Gadgets] and [Groth16], with the documented laws
    of their operations as the hypotheses of the theorems that need them; so
    are the WebAssembly engine, RocksDB, and the escaping of templates.  The benchmarks, tests and scripts are not part of the
    program. *)

From Stdlib Require Export ZArith Lia.
From stdpp Require Export base list gmap sorting numbers strings.

#[global] Open Scope Z_scope.
#[global] Unset Printing Use Implicit Types.

(** ** Outcomes of Rust functions

    [Ok] and [Err] are the two variants of [Result]; [Panic] is the third
    way a call can end: an [expect] on an [Err], an index out of range, or an
    arithmetic overflow in a build with overflow checks. *)

Inductive outcome (E A : Type) : Type :=
| Ok (a : A)
| Err (e : E)
| Panic.

Arguments Ok {E A} a.
Arguments Err {E A} e.
Arguments Panic {E A}.

#[global] Instance outcome_eq_dec {E A} `{EqDecision E, EqDecision A} :
  EqDecision (outcome E A).
Proof. solve_decision. Defined.

#[global] Instance outcome_ret {E} : MRet (outcome E) := fun _ a => Ok a.

#[global] Instance Ok_inj {E A} : Inj (=) (=) (@Ok E A).
Proof. intros a b E0. by injection E0. Qed.

(** The [?] operator. *)
#[global] Instance outcome_bind {E} : MBind (outcome E) := fun _ _ f m =>
  match m with
  | Ok a => f a
  | Err e => Err e
  | Panic => Panic
  end.

#[global] Instance outcome_fmap {E} : FMap (outcome E) := fun _ _ f m =>
  match m with
  | Ok a => Ok (f a)
  | Err e => Err e
  | Panic => Panic
  end.

(** [Result::map_err]. *)
Definition map_err {E F A} (f : E -> F) (m : outcome E A) : outcome F A :=
  match m with
  | Ok a => Ok a
  | Err e => Err (f e)
  | Panic => Panic
  end.

(** [Option::ok_or]. *)
Definition ok_or {E A} (e : E) (o : option A) : outcome E A :=
  match o with
  | Some a => Ok a
  | None => Err e
  end.

(** [Option::expect]. *)
Definition expect {E A} (o : option A) : outcome E A :=
  match o with
  | Some a => Ok a
  | None => Panic
  end.

(** [Result::expect]. *)
Definition expect_ok {E F A} (m : outcome E A) : outcome F A :=
  match m with
  | Ok a => Ok a
  | _ => Panic
  end.

Definition is_ok {E A} (m : outcome E A) : bool :=
  match m with
  | Ok _ => true
  | _ => false
  end.

Section outcome_lemmas.
Context {E A B : Type}.
Implicit Types (m : outcome E A) (f : A -> outcome E B).

Lemma bind_Ok m f b :
  (m ≫= f) = Ok b <-> exists a, m = Ok a /\ f a = Ok b.
Proof. destruct m; simpl; naive_solver. Qed.

Lemma bind_Panic m f :
  (m ≫= f) = Panic <-> m = Panic \/ exists a, m = Ok a /\ f a = Panic.
Proof. destruct m; simpl; naive_solver. Qed.

Lemma bind_Err m f e :
  (m ≫= f) = Err e <-> m = Err e \/ exists a, m = Ok a /\ f a = Err e.
Proof. destruct m; simpl; naive_solver. Qed.

Lemma fmap_Ok (g : A -> B) m b :
  (g <$> m) = Ok b <-> exists a, m = Ok a /\ b = g a.
Proof. destruct m; simpl; naive_solver. Qed.

Lemma map_err_Ok {F} (h : E -> F) m a : map_err h m = Ok a <-> m = Ok a.
Proof. destruct m; simpl; naive_solver. Qed.

Lemma ok_or_Ok (e : E) (o : option A) a : ok_or e o = Ok a <-> o = Some a.
Proof. destruct o; simpl; naive_solver. Qed.

Lemma expect_Ok (o : option A) a : expect (E := E) o = Ok a <-> o = Some a.
Proof. destruct o; simpl; naive_solver. Qed.

Lemma expect_ok_Ok {F} m a : expect_ok (F := F) m = Ok a <-> m = Ok a.
Proof. destruct m; simpl; naive_solver. Qed.
End outcome_lemmas.

Lemma ok_or_not_Panic {E A} (e : E) (o : option A) : ok_or e o <> Panic.
Proof. by destruct o. Qed.

Lemma map_err_not_Panic {E F A} (h : E -> F) (m : outcome E A) : m <> Panic -> map_err h m <> Panic.
Proof. by destruct m. Qed.

Lemma bind_not_Panic {E A B} (m : outcome E A) (f : A -> outcome E B) :
  m <> Panic -> (forall a, m = Ok a -> f a <> Panic) -> (m ≫= f) <> Panic.
Proof. destruct m; cbn; eauto. Qed.

(** [outcome_inv]: read off the successful path of a computation. *)
Ltac outcome_step :=
  match goal with
  | H : (_ ≫= _) = Ok _ |- _ => apply bind_Ok in H as (? & ? & ?)
  | H : (_ <$> _) = Ok _ |- _ => apply fmap_Ok in H as (? & ? & ?)
  | H : map_err _ _ = Ok _ |- _ => apply map_err_Ok in H
  | H : ok_or _ _ = Ok _ |- _ => apply ok_or_Ok in H
  | H : expect _ = Ok _ |- _ => apply expect_Ok in H
  | H : expect_ok _ = Ok _ |- _ => apply expect_ok_Ok in H
  | H : Ok _ = Ok _ |- _ => injection H as H
  | H : mret _ = Ok _ |- _ => injection H as H
  | H : Err _ = Ok _ |- _ => discriminate H
  | H : Panic = Ok _ |- _ => discriminate H
  | H : (if ?b then Err _ else _) = Ok _ |- _ => destruct b eqn:?; [discriminate H|]
  | H : (if ?b then _ else Err _) = Ok _ |- _ => destruct b eqn:?; [|discriminate H]
  | H : (if ?b then Panic else _) = Ok _ |- _ => destruct b eqn:?; [discriminate H|]
  | H : (if ?b then _ else Panic) = Ok _ |- _ => destruct b eqn:?; [|discriminate H]
  end.

Ltac outcome_inv := repeat (outcome_step; simpl in * ).

(** ** Machine integers

    An integer of Rust is a [Z]; the width appears where the code can leave
    its range.  [fits w z] is the range of an unsigned [w]-bit integer. *)

Definition fits (w z : Z) : bool := (0 <=? z) && (z <? 2 ^ w).

Definition wrap (w z : Z) : Z := z mod 2 ^ w.

(** [checked_add] and friends, applied to the exact result. *)
Definition checked (w z : Z) : option Z := if fits w z then Some z else None.

(** [saturating_add] and friends. *)
Definition saturating (w z : Z) : Z := Z.max 0 (Z.min z (2 ^ w - 1)).

(** Whether the build panics on overflow (debug) or wraps (release). *)
Class Profile := { overflow_checks : bool }.

(** A plain [+], [-] or [*], given its exact result. *)
Definition arith `{Profile} {E} (w z : Z) : outcome E Z :=
  if fits w z then Ok z
  else if overflow_checks then Panic else Ok (wrap w z).

Definition u16 (z : Z) : Prop := 0 <= z < 2 ^ 16.
Definition u32 (z : Z) : Prop := 0 <= z < 2 ^ 32.
Definition u64 (z : Z) : Prop := 0 <= z < 2 ^ 64.

Create HintDb prims.

#[global] Hint Unfold u16 u32 u64 : prims.

Lemma fits_true w z : fits w z = true <-> 0 <= z < 2 ^ w.
Proof. unfold fits. rewrite andb_true_iff, Z.leb_le, Z.ltb_lt. done. Qed.

Lemma fits_false w z : fits w z = false <-> z < 0 \/ 2 ^ w <= z.
Proof. unfold fits. rewrite andb_false_iff, Z.leb_gt, Z.ltb_ge. done. Qed.

Lemma checked_Some w z r : checked w z = Some r <-> r = z /\ 0 <= z < 2 ^ w.
Proof.
  unfold checked. destruct (fits w z) eqn:F.
  - apply fits_true in F. naive_solver.
  - apply fits_false in F. split; [done | intros [_ ?]; lia].
Qed.

Lemma checked_None w z : checked w z = None <-> z < 0 \/ 2 ^ w <= z.
Proof.
  unfold checked. destruct (fits w z) eqn:F.
  - apply fits_true in F. split; [done | lia].
  - apply fits_false in F. done.
Qed.

Lemma arith_fits `{Profile} {E} w z : 0 <= z < 2 ^ w -> arith (E := E) w z = Ok z.
Proof. intros F. unfold arith. apply fits_true in F. by rewrite F. Qed.

Lemma wrap_range w z : 0 <= w -> 0 <= wrap w z < 2 ^ w.
Proof. intros. apply Z.mod_pos_bound. lia. Qed.

Lemma wrap_small w z : 0 <= z < 2 ^ w -> wrap w z = z.
Proof. apply Z.mod_small. Qed.

(** Both builds at once: a panic for the checks, or the wrapped result. *)
Lemma arith_spec `{Profile} {E} w z :
  arith (E := E) w z = if overflow_checks && negb (fits w z) then Panic else Ok (wrap w z).
Proof.
  unfold arith. destruct (fits w z) eqn:F; [|by destruct overflow_checks].
  rewrite andb_false_r. apply fits_true in F. by rewrite wrap_small.
Qed.

Lemma wrap_add_l w a b : wrap w (wrap w a + b) = wrap w (a + b).
Proof. unfold wrap. by rewrite Zplus_mod_idemp_l. Qed.

Lemma arith_range `{Profile} {E} w z r :
  0 <= w -> arith (E := E) w z = Ok r -> 0 <= r < 2 ^ w.
Proof.
  unfold arith. intros Hw. destruct (fits w z) eqn:F.
  - apply fits_true in F. naive_solver.
  - destruct overflow_checks; [done|]. intros [= <-]. by apply wrap_range.
Qed.

Lemma arith_not_Err `{Profile} {E} w z (e : E) : arith w z <> Err e.
Proof. unfold arith. repeat case_match; done. Qed.

(** ** Values of the machine

    A Rust struct is a record over [Z]; [wf] says its integers are in the
    range of their types, and its arrays have their length. *)
Class WellFormed (A : Type) := wf : A -> Prop.
