(* ===== verification/Orders.v ===== *)
(** * Orders, stable sorting, sums

    The generic list algorithms the components share: three-way comparisons
    as [std::cmp::Ordering] gives them, the stable [sort_by], [max_by],
    [position], and exact integer sums over lists. *)

From S2P Require Import Prelude.

(** ** Comparisons *)

(** [Ordering::then]. *)
Definition cmp_then (c d : comparison) : comparison :=
  match c with
  | Eq => d
  | _ => c
  end.

(** A comparison by a key. *)
Definition cmp_on {A B} (f : A -> B) (cmp : B -> B -> comparison) (x y : A) :
  comparison := cmp (f x) (f y).

(** Lexicographic comparison of slices, as [Ord for [T]]. *)
Fixpoint list_cmp {A} (cmp : A -> A -> comparison) (l k : list A) : comparison :=
  match l, k with
  | [], [] => Eq
  | [], _ :: _ => Lt
  | _ :: _, [] => Gt
  | x :: l', y :: k' => cmp_then (cmp x y) (list_cmp cmp l' k')
  end.

(** A total preorder given by a comparison function. *)
Class CmpOrder {A} (cmp : A -> A -> comparison) : Prop := {
  cmp_sym : forall x y, cmp y x = CompOpp (cmp x y);
  cmp_trans : forall x y z, cmp x y <> Gt -> cmp y z <> Gt -> cmp x z <> Gt;
}.

(** A total order: equivalent elements are equal. *)
Class CmpTotal {A} (cmp : A -> A -> comparison) : Prop := {
  cmp_total_order :: CmpOrder cmp;
  cmp_Eq : forall x y, cmp x y = Eq -> x = y;
}.

Arguments cmp_sym {A} cmp {_} x y.
Arguments cmp_trans {A} cmp {_} x y z.
Arguments cmp_Eq {A} cmp {_} x y.

Section cmp_lemmas.
Context {A : Type} (cmp : A -> A -> comparison) `{!CmpOrder cmp}.

Lemma cmp_refl x : cmp x x = Eq.
Proof. pose proof (cmp_sym cmp x x) as S. by destruct (cmp x x). Qed.

Lemma cmp_Eq_sym x y : cmp x y = Eq -> cmp y x = Eq.
Proof. intros E. by rewrite (cmp_sym cmp), E. Qed.

Lemma cmp_total x y : cmp x y <> Gt \/ cmp y x <> Gt.
Proof. rewrite (cmp_sym cmp x y). destruct (cmp x y); simpl; naive_solver. Qed.

Lemma cmp_Eq_l x y z : cmp x y = Eq -> cmp x z = cmp y z.
Proof.
  intros E. pose proof (cmp_Eq_sym x y E) as E'.
  pose proof (cmp_trans cmp x y z) as T1. pose proof (cmp_trans cmp y x z) as T2.
  pose proof (cmp_trans cmp z x y) as T3. pose proof (cmp_trans cmp z y x) as T4.
  rewrite (cmp_sym cmp x z), (cmp_sym cmp y z) in T3, T4.
  rewrite E, E' in *. destruct (cmp x z), (cmp y z); simpl in *; naive_solver.
Qed.

Lemma cmp_Eq_r x y z : cmp x y = Eq -> cmp z x = cmp z y.
Proof.
  intros E. rewrite (cmp_sym cmp x z), (cmp_sym cmp y z). by rewrite (cmp_Eq_l x y z).
Qed.

Lemma cmp_Lt_trans x y z : cmp x y = Lt -> cmp y z <> Gt -> cmp x z = Lt.
Proof.
  intros L N. pose proof (cmp_trans cmp x y z) as T.
  destruct (cmp x z) eqn:E; [|done|rewrite L in T; naive_solver].
  pose proof (cmp_Eq_l x z y E) as K. rewrite L, (cmp_sym cmp y z) in K.
  destruct (cmp y z); simpl in *; naive_solver.
Qed.
End cmp_lemmas.

#[global] Instance Z_cmp_total : CmpTotal Z.compare.
Proof.
  split; [split|].
  - intros x y. apply Z.compare_antisym.
  - intros x y z. rewrite !Z.compare_gt_iff. lia.
  - intros x y. apply Z.compare_eq.
Qed.

#[global] Instance cmp_on_order {A B} (f : A -> B) cmp `{!CmpOrder cmp} :
  CmpOrder (cmp_on f cmp).
Proof.
  split; unfold cmp_on.
  - intros. apply (cmp_sym cmp).
  - intros x y z. apply (cmp_trans cmp).
Qed.

#[global] Instance cmp_on_total {A B} (f : A -> B) cmp
  `{!CmpTotal cmp, !Inj (=) (=) f} : CmpTotal (cmp_on f cmp).
Proof. split; [apply _|]. intros x y E. apply (inj f). by apply (cmp_Eq cmp). Qed.

#[global] Instance cmp_then_order {A} (c d : A -> A -> comparison)
  `{!CmpOrder c, !CmpOrder d} : CmpOrder (fun x y => cmp_then (c x y) (d x y)).
Proof.
  split.
  - intros x y. rewrite (cmp_sym c x y), (cmp_sym d x y).
    by destruct (c x y).
  - intros x y z. destruct (c x y) eqn:E1, (c y z) eqn:E2; simpl; try done.
    + rewrite (cmp_Eq_l c x y z E1), E2. apply (cmp_trans d).
    + by rewrite (cmp_Eq_l c x y z E1), E2.
    + intros _ _. by rewrite (cmp_Lt_trans c x y z E1); [|rewrite E2].
    + intros _ _. by rewrite (cmp_Lt_trans c x y z E1); [|rewrite E2].
Qed.

Section list_cmp.
Context {A : Type} (cmp : A -> A -> comparison) `{!CmpTotal cmp}.

Lemma list_cmp_Eq l k : list_cmp cmp l k = Eq -> l = k.
Proof.
  revert k. induction l as [|x l IH]; intros [|y k]; simpl; try done.
  destruct (cmp x y) eqn:E; simpl; try done.
  intros ?%IH. apply (cmp_Eq cmp) in E. congruence.
Qed.

#[export] Instance list_cmp_total : CmpTotal (list_cmp cmp).
Proof.
  split; [split|]; [| |apply list_cmp_Eq].
  - intros l. induction l as [|x l IH]; intros [|y k]; simpl; try done.
    rewrite (cmp_sym cmp x y), IH. by destruct (cmp x y).
  - intros l. induction l as [|x l IH]; intros [|y k] [|z m]; simpl; try done.
    destruct (cmp x y) eqn:E1, (cmp y z) eqn:E2; simpl; try done.
    + rewrite (cmp_Eq_l cmp x y z E1), E2. apply IH.
    + by rewrite (cmp_Eq_l cmp x y z E1), E2.
    + intros _ _. by rewrite (cmp_Lt_trans cmp x y z E1); [|rewrite E2].
    + intros _ _. by rewrite (cmp_Lt_trans cmp x y z E1); [|rewrite E2].
Qed.
End list_cmp.
#[global] Existing Instance list_cmp_total.

(** ** The stable sort [slice::sort_by] *)

Fixpoint sort_insert {A} (cmp : A -> A -> comparison) (x : A) (l : list A) : list A :=
  match l with
  | [] => [x]
  | y :: l' =>
      match cmp x y with
      | Gt => y :: sort_insert cmp x l'
      | _ => x :: y :: l'
      end
  end.

Definition sort_by {A} (cmp : A -> A -> comparison) (l : list A) : list A :=
  foldr (sort_insert cmp) [] l.

(** Equivalence classes of [cmp]. *)
Definition same_key {A} (cmp : A -> A -> comparison) (k x : A) : bool :=
  match cmp k x with Eq => true | _ => false end.

Section sort_by.
Context {A : Type} (cmp : A -> A -> comparison) `{!CmpOrder cmp}.

Let le (x y : A) : Prop := cmp x y <> Gt.

Lemma sort_insert_perm x l : sort_insert cmp x l ≡ₚ x :: l.
Proof.
  induction l as [|y l IH]; simpl; [done|].
  destruct (cmp x y); [done..|]. rewrite IH. apply Permutation_swap.
Qed.

Lemma sort_by_perm l : sort_by cmp l ≡ₚ l.
Proof.
  induction l as [|x l IH]; simpl; [done|]. by rewrite sort_insert_perm, IH.
Qed.

Lemma sort_insert_sorted x l :
  StronglySorted le l -> StronglySorted le (sort_insert cmp x l).
Proof.
  induction 1 as [|y l S IH F]; simpl; [repeat constructor|].
  destruct (cmp x y) eqn:E.
  3: { constructor; [done|]. rewrite sort_insert_perm. constructor; [|done].
       unfold le. by rewrite (cmp_sym cmp x y), E. }
  all: assert (le x y) as L by (unfold le; by rewrite E).
  all: constructor; [by constructor|]; constructor; [done|].
  all: eapply Forall_impl; [done|]; intros z; by apply (cmp_trans cmp).
Qed.

Lemma sort_by_sorted l : StronglySorted le (sort_by cmp l).
Proof. induction l; simpl; [constructor | by apply sort_insert_sorted]. Qed.

(** Two sorted permutations agree when equivalent members are equal. *)
Lemma sorted_perm_unique l k :
  (forall x y, x ∈ l -> y ∈ l -> cmp x y = Eq -> x = y) ->
  StronglySorted le l -> StronglySorted le k -> l ≡ₚ k -> l = k.
Proof.
  intros U Sl. revert k U.
  induction Sl as [|x l Sl IH Fl]; intros k U Sk P.
  { by apply Permutation_nil_l in P. }
  destruct Sk as [|y k Sk Fk]; [by apply Permutation_nil_r in P|].
  assert (x = y) as <-.
  { assert (y ∈ x :: l) as Yin by (rewrite P; left).
    assert (x ∈ y :: k) as Xin by (rewrite <- P; left).
    apply elem_of_cons in Yin as [->|Yin]; [done|].
    apply elem_of_cons in Xin as [->|Xin]; [done|].
    rewrite Forall_forall in Fl, Fk.
    specialize (Fl y Yin). specialize (Fk x Xin). unfold le in Fl, Fk.
    apply U; [left | by right |]. rewrite (cmp_sym cmp x y) in Fk.
    by destruct (cmp x y). }
  f_equal. apply IH; [|done|].
  - intros a b ??. apply U; by right.
  - by apply Permutation_cons_inv in P.
Qed.

Lemma sort_by_perm_eq l k :
  (forall x y, x ∈ l -> y ∈ l -> cmp x y = Eq -> x = y) ->
  l ≡ₚ k -> sort_by cmp l = sort_by cmp k.
Proof.
  intros U P. apply sorted_perm_unique; [|apply sort_by_sorted..|].
  - intros x y. rewrite !sort_by_perm. apply U.
  - by rewrite !sort_by_perm.
Qed.

(** Stability: equivalent elements keep their order. *)
Lemma sort_insert_stable k x l :
  StronglySorted le l ->
  filter (fun y => same_key cmp k y = true) (sort_insert cmp x l) =
  filter (fun y => same_key cmp k y = true) (x :: l).
Proof.
  induction 1 as [|y l S IH F]; [done|]. simpl sort_insert.
  destruct (cmp x y) eqn:E; [done..|].
  rewrite filter_cons, IH, !filter_cons. unfold same_key.
  destruct (cmp k x) eqn:Ex, (cmp k y) eqn:Ey; repeat case_decide; try done.
  rewrite <- (cmp_Eq_l cmp k x y Ex) in E. congruence.
Qed.

Lemma sort_by_stable k l :
  filter (fun y => same_key cmp k y = true) (sort_by cmp l) =
  filter (fun y => same_key cmp k y = true) l.
Proof.
  induction l as [|x l IH]; [done|]. simpl sort_by.
  rewrite sort_insert_stable by apply sort_by_sorted.
  rewrite !filter_cons. fold (sort_by cmp l). by rewrite IH.
Qed.

Lemma sort_by_sorted_id l : StronglySorted le l -> sort_by cmp l = l.
Proof.
  induction 1 as [|x l S IH F]; simpl; [done|]. fold (sort_by cmp l). rewrite IH.
  destruct l as [|y l]; [done|]. simpl. inversion F as [|?? L]. unfold le in L.
  by destruct (cmp x y).
Qed.

Lemma sort_by_idemp l : sort_by cmp (sort_by cmp l) = sort_by cmp l.
Proof. apply sort_by_sorted_id, sort_by_sorted. Qed.
End sort_by.

Lemma sort_by_total_perm {A} (cmp : A -> A -> comparison) `{!CmpTotal cmp} l k :
  l ≡ₚ k -> sort_by cmp l = sort_by cmp k.
Proof. apply sort_by_perm_eq; [apply _|]. intros. by apply (cmp_Eq cmp). Qed.

(** ** [Iterator::max_by]: the last of the greatest elements *)

Definition max_by {A} (cmp : A -> A -> comparison) (l : list A) : option A :=
  match l with
  | [] => None
  | x :: l' =>
      Some (fold_left (fun acc y => match cmp acc y with Gt => acc | _ => y end) l' x)
  end.

Section max_by.
Context {A : Type} (cmp : A -> A -> comparison) `{!CmpOrder cmp}.

Lemma max_by_spec l m :
  max_by cmp l = Some m -> m ∈ l /\ forall x, x ∈ l -> cmp x m <> Gt.
Proof.
  destruct l as [|x l]; [done|]. simpl. intros [= <-].
  revert x. induction l as [|y l IH]; intros x; simpl.
  - split; [left|]. intros z ->%list_elem_of_singleton. by rewrite (cmp_refl cmp).
  - destruct (cmp x y) eqn:E.
    1,2: destruct (IH y) as [In Le].
    3: destruct (IH x) as [In Le].
    all: split; [set_solver|].
    all: intros z [->|[->|?]%elem_of_cons]%elem_of_cons; [..|apply Le; by right].
    all: try (by apply Le; left).
    + apply (cmp_trans cmp) with y; [by rewrite E|apply Le; left].
    + apply (cmp_trans cmp) with y; [by rewrite E|apply Le; left].
    + apply (cmp_trans cmp) with x; [by rewrite (cmp_sym cmp x y), E|apply Le; left].
Qed.

Lemma max_by_None l : max_by cmp l = None <-> l = [].
Proof. by destruct l. Qed.
End max_by.

Lemma max_by_perm {A} (cmp : A -> A -> comparison) `{!CmpTotal cmp} l k :
  l ≡ₚ k -> max_by cmp l = max_by cmp k.
Proof.
  intros P. destruct (max_by cmp l) as [m|] eqn:El, (max_by cmp k) as [n|] eqn:Ek.
  - apply max_by_spec in El as [Il Ll]; [|apply _].
    apply max_by_spec in Ek as [Ik Lk]; [|apply _].
    f_equal. apply (cmp_Eq cmp). rewrite P in Il. rewrite <- P in Ik.
    specialize (Ll n Ik). specialize (Lk m Il). rewrite (cmp_sym cmp m n) in Ll.
    by destruct (cmp m n).
  - apply max_by_None in Ek as ->. apply Permutation_nil_r in P. by subst.
  - apply max_by_None in El as ->. apply Permutation_nil_l in P. by subst.
  - done.
Qed.

(** ** [Iterator::position] *)

Fixpoint position {A} (p : A -> bool) (l : list A) : option nat :=
  match l with
  | [] => None
  | x :: l' => if p x then Some 0%nat else S <$> position p l'
  end.

Lemma position_Some {A} (p : A -> bool) l i :
  position p l = Some i -> exists x, l !! i = Some x /\ p x = true.
Proof.
  revert i. induction l as [|x l IH]; intros i; simpl; [done|].
  destruct (p x) eqn:E; [intros [= <-]; eauto|].
  destruct (position p l) as [j|]; simpl; [|done]. intros [= <-]. by apply IH.
Qed.

Lemma position_None {A} (p : A -> bool) l :
  position p l = None <-> Forall (fun x => p x = false) l.
Proof.
  induction l as [|x l IH]; simpl; [by repeat constructor|].
  rewrite Forall_cons, <- IH. destruct (p x); [naive_solver|].
  destruct (position p l); simpl; naive_solver.
Qed.

(** ** Exact sums *)

Definition sumZ {A} (f : A -> Z) (l : list A) : Z := foldr (fun x acc => f x + acc) 0 l.

Section sumZ.
Context {A : Type}.
Implicit Types (f g : A -> Z) (l k : list A).

Lemma sumZ_cons f x l : sumZ f (x :: l) = f x + sumZ f l.
Proof. done. Qed.

Lemma sumZ_app f l k : sumZ f (l ++ k) = sumZ f l + sumZ f k.
Proof. induction l; simpl; lia. Qed.

Lemma sumZ_perm f l k : l ≡ₚ k -> sumZ f l = sumZ f k.
Proof. induction 1; simpl; lia. Qed.

Lemma sumZ_nonneg f l : Forall (fun x => 0 <= f x) l -> 0 <= sumZ f l.
Proof. induction 1; simpl; lia. Qed.

Lemma sumZ_le f g l : Forall (fun x => f x <= g x) l -> sumZ f l <= sumZ g l.
Proof. induction 1; simpl; lia. Qed.

Lemma sumZ_ext f g l : Forall (fun x => f x = g x) l -> sumZ f l = sumZ g l.
Proof. induction 1; simpl; lia. Qed.

Lemma sumZ_add f g l : sumZ (fun x => f x + g x) l = sumZ f l + sumZ g l.
Proof. induction l; simpl; lia. Qed.

Lemma sumZ_const (c : Z) l : sumZ (fun _ => c) l = c * Z.of_nat (length l).
Proof. induction l; simpl; lia. Qed.

Lemma sumZ_fmap {B} (h : B -> A) f (l : list B) : sumZ f (h <$> l) = sumZ (f ∘ h) l.
Proof. induction l as [|x l IH]; [done|]. rewrite fmap_cons, !sumZ_cons, IH. done. Qed.

Lemma sumZ_filter f (P : A -> Prop) `{forall x, Decision (P x)} l :
  sumZ f (filter P l) = sumZ (fun x => if decide (P x) then f x else 0) l.
Proof.
  induction l as [|x l IH]; [done|]. rewrite filter_cons, sumZ_cons, <- IH.
  destruct (decide (P x)); rewrite ?sumZ_cons; lia.
Qed.

Lemma sumZ_elem f l x :
  Forall (fun x => 0 <= f x) l -> x ∈ l -> f x <= sumZ f l.
Proof.
  intros F I. apply list_elem_of_split in I as (l1 & l2 & ->).
  apply Forall_app in F as [F1 [F2 F3]%Forall_cons].
  apply sumZ_nonneg in F1, F3. rewrite sumZ_app. simpl. lia.
Qed.

Lemma sumZ_bound f l b :
  0 <= b -> Forall (fun x => f x <= b) l -> sumZ f l <= b * Z.of_nat (length l).
Proof. intros B. induction 1; simpl; [lia|]. rewrite Nat2Z.inj_succ. nia. Qed.

Lemma sumZ_filter_le f (P : A -> Prop) `{forall x, Decision (P x)} l :
  Forall (fun x => 0 <= f x) l -> sumZ f (filter P l) <= sumZ f l.
Proof.
  intros F. rewrite sumZ_filter. apply sumZ_le. eapply Forall_impl; [done|].
  intros x X. cbv beta in X |- *. destruct (decide (P x)); lia.
Qed.

(** Two parts of a list overlap by at least what exceeds the whole. *)
Lemma sumZ_overlap f (P Q : A -> Prop) `{forall x, Decision (P x), forall x, Decision (Q x)} l :
  Forall (fun x => 0 <= f x) l ->
  sumZ f (filter P l) + sumZ f (filter Q l) <=
  sumZ f l + sumZ f (filter (fun x => P x /\ Q x) l).
Proof.
  intros F. rewrite !sumZ_filter, <- !sumZ_add. apply sumZ_le.
  eapply Forall_impl; [done|]. intros x X. cbv beta in X |- *.
  repeat case_decide; try lia; tauto.
Qed.

Lemma Forall_filter (R P : A -> Prop) `{forall x, Decision (P x)} l :
  Forall R l -> Forall R (filter P l).
Proof. rewrite !Forall_forall. intros F x [_ X]%list_elem_of_filter. by apply F. Qed.
End sumZ.

Lemma foldl_snoc {A B} (f : B -> A -> B) b l x : foldl f b (l ++ [x]) = f (foldl f b l) x.
Proof. by rewrite foldl_app. Qed.

Lemma NoDup_fmap_filter {A B} (f : A -> B) (P : A -> Prop) `{forall x, Decision (P x)} l :
  NoDup (f <$> l) -> NoDup (f <$> filter P l).
Proof.
  induction l as [|x l IH]; [done|]. rewrite fmap_cons, filter_cons.
  intros [NI ND]%NoDup_cons. destruct (decide (P x)); [|by apply IH].
  rewrite fmap_cons. apply NoDup_cons. split; [|by apply IH].
  intros (y & E & [_ I]%list_elem_of_filter)%list_elem_of_fmap. destruct NI. rewrite E.
  by apply list_elem_of_fmap_2.
Qed.

Lemma NoDup_fmap_inj {A B} (f : A -> B) l x y :
  NoDup (f <$> l) -> x ∈ l -> y ∈ l -> f x = f y -> x = y.
Proof.
  intros ND [i Li]%list_elem_of_lookup_1 [j Lj]%list_elem_of_lookup_1 E.
  assert (i = j) as ->; [|congruence].
  apply (NoDup_lookup (f <$> l) i j (f x)); [done|..]; rewrite list_lookup_fmap, ?Li, ?Lj; simpl; congruence.
Qed.

Lemma head_filter_Some {A} (P : A -> Prop) `{forall x, Decision (P x)} l x :
  head (filter P l) = Some x -> P x /\ x ∈ l.
Proof.
  intros E. apply (list_elem_of_filter P). destruct (filter P l); [done|].
  apply (inj Some) in E as ->. left.
Qed.

Lemma StronglySorted_filter {A} (R : A -> A -> Prop) (P : A -> Prop)
  `{forall x, Decision (P x)} l : StronglySorted R l -> StronglySorted R (filter P l).
Proof.
  induction 1 as [|x l S IH F]; [constructor|]. rewrite filter_cons.
  destruct (decide (P x)); [|done]. constructor; [done|]. by apply Forall_filter.
Qed.

Lemma filter_all {A} (P : A -> Prop) `{forall x, Decision (P x)} l : Forall P l -> filter P l = l.
Proof.
  induction 1 as [|x l X F IH]; [done|]. by rewrite filter_cons, decide_True, IH by done.
Qed.

Lemma filter_none {A} (P : A -> Prop) `{forall x, Decision (P x)} l :
  Forall (fun x => ~ P x) l -> filter P l = [].
Proof.
  induction 1 as [|x l X F IH]; [done|]. by rewrite filter_cons, decide_False, IH by done.
Qed.
