(* ===== verification/Bytes.v ===== *)
(** * Bytes, byte strings and the encodings of integers

    [Vec<u8>] and [&[u8]] are [bytes], lists of [Byte.byte]; the fixed-width
    encodings [to_le_bytes] and [to_be_bytes], the decimal rendering of
    integers by [format!], and prefix keys. *)

From Stdlib Require Import Strings.Byte Strings.String DecimalString DecimalN DecimalPos.
From S2P Require Import Prelude Orders.

Abbreviation byte := Byte.byte.
Abbreviation bytes := (list Byte.byte).

#[global] Instance byte_eq_dec : EqDecision byte.
Proof. intros x y. destruct (Byte.byte_eq_dec x y); [by left | by right]. Defined.

#[global] Instance byte_countable : Countable byte.
Proof. apply (inj_countable Byte.to_N Byte.of_N), Byte.of_to_N. Defined.

(** The value of a byte, and the conversion [as u8]. *)
Definition byte_val (b : byte) : Z := Z.of_N (Byte.to_N b).

Definition byte_of (z : Z) : byte := default x00 (Byte.of_N (Z.to_N (z mod 256))).

Lemma byte_val_range b : 0 <= byte_val b < 256.
Proof. unfold byte_val. pose proof (Byte.to_N_bounded b). lia. Qed.

Lemma byte_of_val b : byte_of (byte_val b) = b.
Proof.
  unfold byte_of, byte_val. pose proof (Byte.to_N_bounded b).
  rewrite Z.mod_small by lia. by rewrite N2Z.id, Byte.of_to_N.
Qed.

#[global] Instance byte_val_inj : Inj (=) (=) byte_val.
Proof. intros x y E. by rewrite <- (byte_of_val x), E, byte_of_val. Qed.

Lemma byte_val_of z : byte_val (byte_of z) = z mod 256.
Proof.
  unfold byte_of, byte_val. pose proof (Z.mod_pos_bound z 256 ltac:(lia)) as B.
  destruct (Byte.of_N (Z.to_N (z mod 256))) as [b|] eqn:E; simpl.
  - apply Byte.to_of_N in E. rewrite E. lia.
  - apply Byte.of_N_None_iff in E. lia.
Qed.

(** [Ord for Vec<u8>]. *)
Definition bytes_cmp : bytes -> bytes -> comparison := list_cmp (cmp_on byte_val Z.compare).

#[global] Instance bytes_cmp_total : CmpTotal bytes_cmp.
Proof. unfold bytes_cmp. apply _. Qed.

(** A string literal seen as bytes, [b"..."] or [.as_bytes()]. *)
Definition bytes_of (s : string) : bytes := String.list_byte_of_string s.

Lemma bytes_of_string_of l : bytes_of (String.string_of_list_byte l) = l.
Proof. apply String.list_byte_of_string_of_list_byte. Qed.

Lemma string_of_bytes_of s : String.string_of_list_byte (bytes_of s) = s.
Proof. apply String.string_of_list_byte_of_string. Qed.

#[global] Instance bytes_of_inj : Inj (=) (=) bytes_of.
Proof. intros s t E. by rewrite <- (string_of_bytes_of s), E, string_of_bytes_of. Qed.

(** ** Fixed-width integers *)

(** [to_le_bytes] and [to_be_bytes] of an integer of [n] bytes. *)
Fixpoint le_bytes (n : nat) (z : Z) : bytes :=
  match n with
  | O => []
  | S n' => byte_of z :: le_bytes n' (z / 256)
  end.

Definition be_bytes (n : nat) (z : Z) : bytes := rev (le_bytes n z).

(** [from_le_bytes] and [from_be_bytes]. *)
Fixpoint from_le (l : bytes) : Z :=
  match l with
  | [] => 0
  | b :: l' => byte_val b + 256 * from_le l'
  end.

Definition from_be (l : bytes) : Z := from_le (rev l).

Lemma le_bytes_length n z : length (le_bytes n z) = n.
Proof. revert z. induction n; intros z; simpl; congruence. Qed.

Lemma be_bytes_length n z : length (be_bytes n z) = n.
Proof. unfold be_bytes. by rewrite length_rev, le_bytes_length. Qed.

Lemma from_le_range l : 0 <= from_le l < 2 ^ (8 * Z.of_nat (length l)).
Proof.
  induction l as [|b l IH]; simpl from_le; simpl length; [lia|].
  pose proof (byte_val_range b).
  rewrite Nat2Z.inj_succ, Z.mul_succ_r, Z.pow_add_r by lia. change (2 ^ 8) with 256. nia.
Qed.

Lemma from_be_range l : 0 <= from_be l < 2 ^ (8 * Z.of_nat (length l)).
Proof. unfold from_be. rewrite <- (length_rev l). apply from_le_range. Qed.

Lemma from_le_bytes n z : from_le (le_bytes n z) = z mod 2 ^ (8 * Z.of_nat n).
Proof.
  revert z. induction n as [|n IH]; intros z; simpl.
  { by rewrite Z.mod_1_r. }
  rewrite IH, byte_val_of. rewrite Nat2Z.inj_succ, Z.mul_succ_r, Z.add_comm.
  rewrite (Z.add_comm (8 * Z.of_nat n)), Z.pow_add_r by lia. change (2 ^ 8) with 256.
  rewrite Z.rem_mul_r by lia. lia.
Qed.

Lemma from_le_bytes_small n z :
  0 <= z < 2 ^ (8 * Z.of_nat n) -> from_le (le_bytes n z) = z.
Proof. intros. rewrite from_le_bytes. by apply Z.mod_small. Qed.

Lemma from_be_bytes_small n z :
  0 <= z < 2 ^ (8 * Z.of_nat n) -> from_be (be_bytes n z) = z.
Proof. unfold from_be, be_bytes. rewrite rev_involutive. apply from_le_bytes_small. Qed.

Lemma le_bytes_from l : le_bytes (length l) (from_le l) = l.
Proof.
  induction l as [|b l IH]; simpl; [done|]. pose proof (byte_val_range b).
  rewrite (Z.mul_comm 256), Z.div_add, Z.div_small, Z.add_0_l, IH by lia. f_equal.
  rewrite <- (byte_of_val b) at 2. apply (inj byte_val). rewrite !byte_val_of.
  rewrite Z.mod_add by lia. done.
Qed.

Lemma le_bytes_inj n y z :
  0 <= y < 2 ^ (8 * Z.of_nat n) -> 0 <= z < 2 ^ (8 * Z.of_nat n) ->
  le_bytes n y = le_bytes n z -> y = z.
Proof. intros Y Z E. by rewrite <- (from_le_bytes_small n y), E, from_le_bytes_small. Qed.

Lemma be_bytes_inj n y z :
  0 <= y < 2 ^ (8 * Z.of_nat n) -> 0 <= z < 2 ^ (8 * Z.of_nat n) ->
  be_bytes n y = be_bytes n z -> y = z.
Proof.
  intros Y Z E. apply (le_bytes_inj n); [done..|]. unfold be_bytes in E.
  by rewrite <- (rev_involutive (le_bytes n y)), E, rev_involutive.
Qed.

(** ** Decimal rendering, [format!("{n}")] *)

Definition dec_bytes (z : Z) : bytes :=
  bytes_of (NilZero.string_of_uint (N.to_uint (Z.to_N z))).

Lemma to_uint_nonnil n : N.to_uint n <> Decimal.Nil.
Proof. destruct n; [done | apply DecimalPos.Unsigned.to_uint_nonnil]. Qed.

Lemma dec_bytes_inj y z : 0 <= y -> 0 <= z -> dec_bytes y = dec_bytes z -> y = z.
Proof.
  unfold dec_bytes. intros Y Z E. apply (inj bytes_of) in E.
  apply (f_equal NilZero.uint_of_string) in E.
  rewrite !NilZero.usu in E by apply to_uint_nonnil.
  injection E as E. apply DecimalN.Unsigned.to_uint_inj in E. lia.
Qed.

(** ** Prefixes *)

(** [slice::starts_with] and [slice::strip_prefix]. *)
Fixpoint strip_prefix (p l : bytes) : option bytes :=
  match p, l with
  | [], _ => Some l
  | _ :: _, [] => None
  | a :: p', b :: l' => if decide (a = b) then strip_prefix p' l' else None
  end.

Definition starts_with (l p : bytes) : bool :=
  match strip_prefix p l with
  | Some _ => true
  | None => false
  end.

Lemma strip_prefix_Some p l r : strip_prefix p l = Some r <-> l = p ++ r.
Proof.
  revert l. induction p as [|a p IH]; intros [|b l]; simpl; [naive_solver..|].
  destruct (decide (a = b)) as [->|]; [rewrite IH|]; naive_solver.
Qed.

Lemma starts_with_true l p : starts_with l p = true <-> exists r, l = p ++ r.
Proof.
  unfold starts_with. destruct (strip_prefix p l) as [r|] eqn:E.
  - apply strip_prefix_Some in E. naive_solver.
  - split; [done|]. intros [r R]. apply strip_prefix_Some in R. congruence.
Qed.

Lemma starts_with_app p r : starts_with (p ++ r) p = true.
Proof. apply starts_with_true. eauto. Qed.
