(* ===== verification/Text.v ===== *)
(** * Rust strings

    The functions of [str] the node uses, on the UTF-8 bytes of a string:
    characters, white space, [trim], [strip_prefix], [split], and the parsing
    of unsigned integers. *)

From Stdlib Require Import Strings.Byte Strings.String DecimalString DecimalN.
From S2P Require Import Prelude Bytes.

(** ** Characters *)

Definition is_continuation (b : byte) : bool := (128 <=? byte_val b) && (byte_val b <? 192).

Definition in_range (lo hi z : Z) : bool := (lo <=? z) && (z <=? hi).

(** The second byte of a sequence of three or four bytes. *)
Definition second_of_3 (a b : Z) : bool :=
  if a =? 224 then in_range 160 191 b else if a =? 237 then in_range 128 159 b
  else in_range 128 191 b.

Definition second_of_4 (a b : Z) : bool :=
  if a =? 240 then in_range 144 191 b else if a =? 244 then in_range 128 143 b
  else in_range 128 191 b.

(** [str::from_utf8(text).is_ok()] *)
Fixpoint utf8_valid (text : bytes) : bool :=
  match text with
  | [] => true
  | b1 :: rest1 =>
      if byte_val b1 <? 128 then utf8_valid rest1
      else match rest1 with
      | [] => false
      | b2 :: rest2 =>
          if in_range 194 223 (byte_val b1) then is_continuation b2 && utf8_valid rest2
          else match rest2 with
          | [] => false
          | b3 :: rest3 =>
              if in_range 224 239 (byte_val b1)
              then second_of_3 (byte_val b1) (byte_val b2) && is_continuation b3 && utf8_valid rest3
              else match rest3 with
              | [] => false
              | b4 :: rest4 =>
                  in_range 240 244 (byte_val b1) && second_of_4 (byte_val b1) (byte_val b2) &&
                  is_continuation b3 && is_continuation b4 && utf8_valid rest4
              end
          end
      end
  end.

Definition ascii (b : byte) : Prop := byte_val b < 128.

Lemma utf8_valid_ascii text : Forall ascii text -> utf8_valid text = true.
Proof.
  unfold ascii. induction 1 as [|b text B _ IH]; [done|]. cbn [utf8_valid].
  by rewrite (proj2 (Z.ltb_lt _ _) B).
Qed.

(** The encodings of the characters of a valid UTF-8 string. *)
Fixpoint utf8_chars (text : bytes) : list bytes :=
  match text with
  | [] => []
  | b :: text' =>
      match utf8_chars text' with
      | [] => [[b]]
      | (b' :: c) :: cs =>
          if is_continuation b' then (b :: b' :: c) :: cs else [b] :: (b' :: c) :: cs
      | [] :: cs => [b] :: cs
      end
  end.

Lemma utf8_chars_concat text : concat (utf8_chars text) = text.
Proof.
  induction text as [|b text IH]; [done|]. cbn [utf8_chars].
  destruct (utf8_chars text) as [|[|b' c] cs]; cbn in *; try congruence.
  destruct (is_continuation b'); cbn; congruence.
Qed.

(** [char::is_whitespace], the characters with the property [White_Space]. *)
Definition is_whitespace (c : bytes) : bool :=
  match byte_val <$> c with
  | [a] => ((9 <=? a) && (a <=? 13)) || (a =? 32)
  | [a; b] => (a =? 194) && ((b =? 133) || (b =? 160))
  | [a; b; d] =>
      ((a =? 225) && (b =? 154) && (d =? 128)) ||
      ((a =? 226) && (b =? 128) && (((128 <=? d) && (d <=? 138)) || (d =? 168) || (d =? 169) || (d =? 175))) ||
      ((a =? 226) && (b =? 129) && (d =? 159)) ||
      ((a =? 227) && (b =? 128) && (d =? 128))
  | _ => false
  end.

Fixpoint drop_while {A} (p : A -> bool) (l : list A) : list A :=
  match l with
  | [] => []
  | x :: l' => if p x then drop_while p l' else l
  end.

(** [str::trim] *)
Definition trim (text : bytes) : bytes :=
  concat (rev (drop_while is_whitespace (rev (drop_while is_whitespace (utf8_chars text))))).

(** [text.trim().is_empty()] *)
Definition is_blank (text : bytes) : bool := bool_decide (trim text = []).

Lemma drop_while_nil {A} (p : A -> bool) l : drop_while p l = [] <-> Forall (fun x => p x = true) l.
Proof.
  induction l as [|x l IH]; [done|]. cbn. rewrite Forall_cons. destruct (p x); naive_solver.
Qed.

Lemma drop_while_last {A} (p : A -> bool) l x r :
  drop_while p l = x :: r -> p x = false.
Proof. induction l as [|y l IH]; cbn; [done|]. destruct (p y) eqn:E; [done|]. by intros [= <- _]. Qed.

(** Text without white space is its own trim. *)
Lemma trim_id text :
  Forall (fun c => is_whitespace c = false) (utf8_chars text) -> trim text = text.
Proof.
  intros F. unfold trim.
  assert (forall l : list bytes, Forall (fun c => is_whitespace c = false) l ->
    drop_while is_whitespace l = l) as G.
  { intros l. induction 1 as [|c l C F' IH]; [done|]. cbn. by rewrite C. }
  rewrite (G _ F), G by by apply Forall_rev. by rewrite rev_involutive, utf8_chars_concat.
Qed.

Lemma utf8_chars_ascii text : Forall ascii text -> utf8_chars text = (fun b => [b]) <$> text.
Proof.
  unfold ascii. induction 1 as [|b text B F IH]; [done|]. cbn [utf8_chars]. rewrite IH.
  destruct F as [|b' text' B' F]; [done|]. cbn. unfold is_continuation.
  by rewrite (proj2 (Z.leb_gt 128 (byte_val b'))) by done.
Qed.

(** ASCII text without blanks is its own trim. *)
Lemma trim_ascii text :
  Forall (fun b => 32 < byte_val b < 128) text -> trim text = text.
Proof.
  intros F. apply trim_id. rewrite utf8_chars_ascii by (eapply Forall_impl; [exact F|intros b [? ?]; unfold ascii; lia]).
  apply Forall_fmap. eapply Forall_impl; [exact F|]. intros b [B B']. cbn.
  destruct (Z.leb_spec (byte_val b) 13), (Z.eqb_spec (byte_val b) 32); lia.
Qed.

Lemma drop_while_app {A} (p : A -> bool) l k :
  Forall (fun x => p x = true) l -> drop_while p (l ++ k) = drop_while p k.
Proof. induction 1 as [|x l X _ IH]; [done|]. cbn. by rewrite X. Qed.

Lemma drop_while_keep {A} (p : A -> bool) l k :
  l <> [] -> Forall (fun x => p x = false) l -> drop_while p (l ++ k) = l ++ k.
Proof. intros N F. destruct F as [|x l X _]; [done|]. cbn. by rewrite X. Qed.

(** The ASCII characters [trim] removes. *)
Definition blank (b : byte) : Prop := 9 <= byte_val b <= 13 \/ byte_val b = 32.
Definition printable (b : byte) : Prop := 32 < byte_val b < 128.

Lemma blank_whitespace b : blank b -> is_whitespace [b] = true.
Proof.
  intros B. unfold is_whitespace. cbn. unfold blank in B.
  destruct (Z.leb_spec 9 (byte_val b)), (Z.leb_spec (byte_val b) 13), (Z.eqb_spec (byte_val b) 32); cbn; lia.
Qed.

Lemma printable_whitespace b : printable b -> is_whitespace [b] = false.
Proof.
  intros B. unfold is_whitespace. cbn. unfold printable in B.
  destruct (Z.leb_spec 9 (byte_val b)), (Z.leb_spec (byte_val b) 13), (Z.eqb_spec (byte_val b) 32); cbn; lia.
Qed.

(** [trim] removes blanks around printable text, and nothing else. *)
Lemma trim_padded before text after :
  Forall blank before -> Forall printable text -> Forall blank after ->
  trim (before ++ text ++ after) = text.
Proof.
  intros Fb Ft Fa. unfold trim. rewrite utf8_chars_ascii.
  2: { apply Forall_app; split; [|apply Forall_app; split]; (eapply Forall_impl; [eassumption|]);
       unfold blank, printable, ascii; lia. }
  rewrite !fmap_app, drop_while_app.
  2: { apply Forall_fmap. eapply Forall_impl; [exact Fb|]. exact blank_whitespace. }
  assert (Forall (fun c => is_whitespace c = true) ((fun b => [b]) <$> after)) as Wa.
  { apply Forall_fmap. eapply Forall_impl; [exact Fa|]. exact blank_whitespace. }
  assert (Forall (fun c => is_whitespace c = false) ((fun b => [b]) <$> text)) as Wt.
  { apply Forall_fmap. eapply Forall_impl; [exact Ft|]. exact printable_whitespace. }
  assert (concat ((fun b => [b]) <$> text) = text) as Ec.
  { clear. induction text as [|b text IH]; cbn; congruence. }
  destruct (decide (text = [])) as [->|N].
  - cbn [fmap list_fmap app]. by rewrite (proj2 (drop_while_nil _ _) Wa).
  - rewrite drop_while_keep by (try by destruct text). rewrite rev_app_distr, drop_while_app by by apply Forall_rev.
    rewrite <- (app_nil_r (rev ((fun b => [b]) <$> text))), drop_while_keep.
    + by rewrite app_nil_r, rev_involutive.
    + intros E. apply (f_equal (@length _)) in E. rewrite length_rev, length_fmap in E. by destruct text.
    + by apply Forall_rev.
Qed.

Lemma fmap_rev {A B} (f : A -> B) l : f <$> rev l = rev (f <$> l).
Proof. induction l as [|x l IH]; cbn; [done|]. by rewrite fmap_app, IH. Qed.

(** [trim] keeps a printable first character. *)
Lemma trim_head b text :
  Forall ascii text -> printable b -> exists rest, trim (b :: text) = b :: rest /\ Forall ascii rest.
Proof.
  intros F B. unfold trim. rewrite utf8_chars_ascii by (constructor; [unfold printable, ascii in *; lia|done]).
  cbn [fmap list_fmap drop_while]. rewrite (printable_whitespace b B). cbn [rev].
  assert (forall l : list byte, Forall ascii l -> exists k, Forall ascii k /\
    drop_while is_whitespace (((fun b => [b]) <$> l) ++ [[b]]) = ((fun b => [b]) <$> k) ++ [[b]]) as G.
  { induction 1 as [|x l X Fl IH]; cbn [fmap list_fmap app drop_while].
    - exists []. by rewrite (printable_whitespace b B).
    - destruct (is_whitespace [x]); [exact IH|]. exists (x :: l). split; [by constructor|done]. }
  rewrite <- fmap_rev. destruct (G (rev text) (Forall_rev F)) as (k & Fk & ->).
  rewrite rev_app_distr. cbn [rev app concat]. rewrite <- fmap_rev. exists (rev k). split; [|by apply Forall_rev].
  f_equal. generalize (rev k) as l. intros l. induction l as [|x l IH]; cbn; congruence.
Qed.

Lemma length_drop_while {A} (p : A -> bool) l : sublist (drop_while p l) l.
Proof. induction l as [|x l IH]; cbn; [done|]. destruct (p x); [by constructor|done]. Qed.

Lemma length_concat_sublist {A} (l k : list (list A)) :
  sublist l k -> (length (concat l) <= length (concat k))%nat.
Proof. induction 1; cbn; rewrite ?length_app; lia. Qed.

Lemma trim_length text : (length (trim text) <= length text)%nat.
Proof.
  unfold trim. set (l := drop_while is_whitespace (utf8_chars text)).
  assert (forall k : list bytes, length (concat (rev k)) = length (concat k)) as R.
  { intros k. induction k as [|x k IH]; [done|]. cbn. rewrite concat_app, !length_app. cbn.
    rewrite app_nil_r, IH. lia. }
  rewrite R. etransitivity; [apply length_concat_sublist, length_drop_while|]. rewrite R.
  etransitivity; [apply length_concat_sublist, length_drop_while|]. by rewrite utf8_chars_concat.
Qed.

(** [str::contains] *)
Fixpoint contains (text pattern : bytes) : bool :=
  starts_with text pattern ||
  match text with [] => false | _ :: text' => contains text' pattern end.

(** ** Splitting *)

(** [str::split] at a one-byte character. *)
Fixpoint split_at (sep : byte) (text : bytes) : list bytes :=
  match text with
  | [] => [[]]
  | b :: text' =>
      match split_at sep text' with
      | [] => [[b]]
      | p :: ps => if decide (b = sep) then [] :: p :: ps else (b :: p) :: ps
      end
  end.

Lemma split_at_nonnil sep text : split_at sep text <> [].
Proof. destruct text as [|b t]; [done|]. cbn. destruct (split_at sep t); [done|]. by case_decide. Qed.

(** [str::split_once] at a one-byte character. *)
Fixpoint split_once (sep : byte) (text : bytes) : option (bytes * bytes) :=
  match text with
  | [] => None
  | b :: text' =>
      if decide (b = sep) then Some ([], text')
      else '(before, after) ← split_once sep text'; Some (b :: before, after)
  end.

(** The pieces have no separator and rejoin to the text. *)
Fixpoint join_with (sep : byte) (ps : list bytes) : bytes :=
  match ps with
  | [] => []
  | [p] => p
  | p :: ps' => p ++ sep :: join_with sep ps'
  end.

Lemma split_at_join sep text :
  join_with sep (split_at sep text) = text /\ Forall (fun p => sep ∉ p) (split_at sep text).
Proof.
  induction text as [|b text [J F]]; [split; [done|repeat constructor; set_solver]|]. cbn.
  pose proof (split_at_nonnil sep text) as N.
  destruct (split_at sep text) as [|p ps]; [done|]. apply Forall_cons in F as [P F].
  destruct (decide (b = sep)) as [->|D]; split.
  - cbn in *. by rewrite J.
  - constructor; [set_solver|by constructor].
  - destruct ps; cbn in *; congruence.
  - constructor; [set_solver|done].
Qed.

Lemma split_at_fresh sep p text :
  sep ∉ p -> split_at sep (p ++ sep :: text) = p :: split_at sep text.
Proof.
  intros N. pose proof (split_at_nonnil sep text) as NN. induction p as [|b p IH]; cbn.
  - destruct (split_at sep text) as [|q qs]; [done|]. by rewrite decide_True.
  - rewrite IH by set_solver. by rewrite decide_False by set_solver.
Qed.

Lemma split_at_single sep p : sep ∉ p -> split_at sep p = [p].
Proof.
  induction p as [|b p IH]; intros N; cbn; [done|]. rewrite IH by set_solver.
  by rewrite decide_False by set_solver.
Qed.

(** Joining then splitting. *)
Lemma split_at_join_with sep ps :
  ps <> [] -> Forall (fun p => sep ∉ p) ps -> split_at sep (join_with sep ps) = ps.
Proof.
  induction ps as [|p ps IH]; intros N F; [done|]. apply Forall_cons in F as [P F].
  destruct ps as [|q ps]; [by apply split_at_single|].
  change (join_with sep (p :: q :: ps)) with (p ++ sep :: join_with sep (q :: ps)).
  rewrite split_at_fresh by done. by rewrite IH.
Qed.

(** ** Unsigned integers *)

(** [text.parse::<u..>()]: an optional plus sign, then decimal digits. *)
Definition parse_uint (w : Z) (text : bytes) : option Z :=
  let digits := match strip_prefix (bytes_of "+") text with Some rest => rest | None => text end in
  u ← NilZero.uint_of_string (String.string_of_list_byte digits);
  checked w (Z.of_N (N.of_uint u)).

Lemma uint_string_digit u : u <> Decimal.Nil ->
  exists c s, NilZero.string_of_uint u = String.String c s /\ c <> Ascii.ascii_of_nat 43.
Proof. destruct u; [done|..]; intros _; by do 2 eexists. Qed.

(** Parsing what [format!] prints. *)
Lemma parse_dec w z : 0 <= z < 2 ^ w -> parse_uint w (dec_bytes z) = Some z.
Proof.
  intros Z0. unfold parse_uint, dec_bytes.
  destruct (uint_string_digit (N.to_uint (Z.to_N z)) (to_uint_nonnil _)) as (c & s & E & C).
  destruct (strip_prefix (bytes_of "+") (bytes_of (NilZero.string_of_uint (N.to_uint (Z.to_N z)))))
    as [r|] eqn:Es.
  - exfalso. apply strip_prefix_Some in Es. rewrite E in Es. cbn in Es. injection Es as Eb _.
    apply C. rewrite <- (Ascii.ascii_of_byte_of_ascii c), Eb. done.
  - change (String.string_of_list_byte (bytes_of ?x)) with (String.string_of_list_byte (String.list_byte_of_string x)).
    rewrite String.string_of_list_byte_of_string, NilZero.usu by apply to_uint_nonnil.
    cbn [mbind option_bind]. rewrite Unsigned.of_to, Z2N.id by lia. by apply checked_Some.
Qed.

(** What [format!] prints is ASCII. *)
Lemma uint_string_ascii u : Forall ascii (bytes_of (NilEmpty.string_of_uint u)).
Proof. induction u; cbn; constructor; done. Qed.

Lemma dec_bytes_ascii z : Forall ascii (dec_bytes z).
Proof.
  unfold dec_bytes. destruct (N.to_uint (Z.to_N z)) eqn:E; [by apply to_uint_nonnil in E|..];
    apply (uint_string_ascii (_ _)).
Qed.

(** It has decimal digits only. *)
Lemma uint_string_digits u :
  Forall (fun b => 48 <= byte_val b <= 57) (bytes_of (NilEmpty.string_of_uint u)).
Proof. induction u; cbn; constructor; done. Qed.

Lemma dec_bytes_digits z : Forall (fun b => 48 <= byte_val b <= 57) (dec_bytes z).
Proof.
  unfold dec_bytes. destruct (N.to_uint (Z.to_N z)) eqn:E; [by apply to_uint_nonnil in E|..];
    apply (uint_string_digits (_ _)).
Qed.

(** Splitting at the first separator. *)
Lemma split_once_fresh sep before after :
  sep ∉ before -> split_once sep (before ++ sep :: after) = Some (before, after).
Proof.
  induction before as [|b before IH]; intros N; cbn [app split_once]; [by rewrite decide_True|].
  apply not_elem_of_cons in N as [Nb N]. by rewrite decide_False, IH by done.
Qed.
