(* ===== verification/Externals.v ===== *)
(** * The crates the node calls

    The code outside [src/] that the model needs, as type classes: SHA-256
    ([sha2]), Ed25519 ([ed25519_dalek]), [bincode] and [hex].  Each class of
    operations is followed by the class of the documented facts the code
    relies on.  File [Concrete] gives instances of all of them. *)

From S2P Require Import Prelude Bytes Text.

(** ** [sha2] *)

Class Sha256 := { sha256_digest : bytes -> bytes }.

Class Sha256Ok `{Sha256} : Prop := {
  sha256_digest_length : forall x, length (sha256_digest x) = 32%nat;
}.

(** No two distinct members of [S] have the same digest.  An assumption on
    the finitely many payloads a theorem mentions: over all payloads it would
    contradict the fixed length of the digest. *)
Definition collision_free (h : bytes -> bytes) (S : list bytes) : Prop :=
  forall x y, x ∈ S -> y ∈ S -> h x = h y -> x = y.

Lemma collision_free_subset h S T : T ⊆ S -> collision_free h S -> collision_free h T.
Proof. unfold collision_free. set_solver. Qed.

Definition digests_injective (hs : list (bytes * bytes)) : Prop :=
  Forall (fun p => Forall (fun q => p.2 = q.2 -> p.1 = q.1) hs) hs.

#[global] Instance digests_injective_dec hs : Decision (digests_injective hs).
Proof. unfold digests_injective. apply _. Defined.

(** Each digest is computed once. *)
#[global] Instance collision_free_dec h S : Decision (collision_free h S).
Proof.
  refine (cast_if (digests_injective_dec ((fun x => (x, h x)) <$> S)));
    unfold collision_free, digests_injective in *.
  - intros x y X Y E. rewrite Forall_fmap, Forall_forall in d. specialize (d x X).
    unfold compose in d. rewrite Forall_fmap, Forall_forall in d. by apply (d y Y).
  - intros C. apply n. apply Forall_fmap, Forall_forall. intros x X. unfold compose.
    apply Forall_fmap, Forall_forall. intros y Y E. by apply C.
Defined.

(** ** [ed25519_dalek] *)

Class Ed25519 := {
  (** [VerifyingKey], [VerifyingKey::from_bytes] and [verify(..).is_ok()]. *)
  verifying_key : Type;
  verifying_key_from_bytes : bytes -> option verifying_key;
  ed25519_verify : verifying_key -> bytes -> bytes -> bool;
  (** [SigningKey::from_bytes(sk).verifying_key().to_bytes()]. *)
  public_key_of : bytes -> bytes;
  (** [SigningKey::from_bytes(sk).sign(msg).to_bytes()]. *)
  ed25519_sign : bytes -> bytes -> bytes;
}.

Class Ed25519Ok `{Ed25519} : Prop := {
  public_key_length : forall sk, length (public_key_of sk) = 32%nat;
  signature_length : forall sk msg, length (ed25519_sign sk msg) = 64%nat;
  (** The key of a signer decodes and accepts its signatures. *)
  ed25519_sign_verify : forall sk msg, exists vk,
    verifying_key_from_bytes (public_key_of sk) = Some vk /\
    ed25519_verify vk msg (ed25519_sign sk msg) = true;
}.

(** ** [bincode]

    The error of a failed call is the text [err.to_string()] gives. *)

Class Bincode (A : Type) := {
  bincode_serialize : A -> outcome string bytes;
  bincode_deserialize : bytes -> outcome string A;
}.

Class BincodeOk (A : Type) `{Bincode A, WellFormed A} : Prop := {
  (** Serialising a value of the derived types to a [Vec] succeeds. *)
  bincode_total : forall x : A, wf x -> exists b, bincode_serialize x = Ok b;
  (** What was serialised deserialises to the same value. *)
  bincode_roundtrip : forall (x : A) b,
    wf x -> bincode_serialize x = Ok b -> bincode_deserialize b = Ok x;
}.

Lemma bincode_serialize_inj {A} `{BincodeOk A} (x y : A) b :
  wf x -> wf y -> bincode_serialize x = Ok b -> bincode_serialize y = Ok b -> x = y.
Proof.
  intros X Y Ex Ey. apply bincode_roundtrip in Ex; [|done].
  apply bincode_roundtrip in Ey; [|done]. congruence.
Qed.

(** Deserialising returns, and only values of the type; the input is a slice,
    of at most [isize::MAX] bytes. *)
Class BincodeTyped (A : Type) `{Bincode A, WellFormed A} : Prop := {
  bincode_decoded : forall b (x : A),
    Z.of_nat (length b) < 2 ^ 63 -> bincode_deserialize b = Ok x -> wf x;
  bincode_no_panic : forall b, bincode_deserialize (A := A) b <> Panic;
}.

(** ** [hex] *)

(** [hex::encode] and [hex::decode]; an error is the text of its [Display]. *)
Class Hex := {
  hex_encode : bytes -> bytes;
  hex_decode : bytes -> outcome string bytes;
}.

Definition is_hex_digit (b : byte) : bool :=
  in_range 48 57 (byte_val b) || in_range 97 102 (byte_val b).

(** [encode] uses lowercase digits; [decode] inverts it, takes two digits per
    byte and never panics. *)
Class HexOk `{Hex} : Prop := {
  hex_decode_encode : forall b, hex_decode (hex_encode b) = Ok b;
  hex_encode_digits : forall b, Forall (fun d => is_hex_digit d = true) (hex_encode b);
  hex_decode_length : forall t b, hex_decode t = Ok b -> length t = (2 * length b)%nat;
  hex_decode_no_panic : forall t, hex_decode t <> Panic;
}.
