(* ===== verification/Types.v ===== *)
(** * Data of the chain ([src/blockchain/types.rs])

    The structures blocks, transactions, accounts and validators are made of,
    with the ranges their integer fields have and decidable equality. *)

From S2P Require Import Prelude Bytes Externals.

Definition FIXED_TRANSACTION_FEE : Z := 1.
Definition DEFAULT_SHARD_ID : Z := 0.
Definition RECEIPT_PROOF_LENGTH : nat := 32.

(** A [Vec] holds at most [isize::MAX] bytes. *)
Definition vec_ok {A} (l : list A) : Prop := Z.of_nat (length l) < 2 ^ 63.

Inductive TransactionType :=
| Transfer
| Stake (duration : Z)
| Unstake
| PublicToAnon
| AnonToPublic
| DeployContract
| CallContract.

Inductive CrossShardPhase :=
| Prepare
| Validate
| Commit.

Record CrossShardReceipt := {
  rcpt_tx_hash : bytes;
  rcpt_source_shard : Z;
  rcpt_destination_shard : Z;
  rcpt_phase : CrossShardPhase;
  rcpt_proof : bytes;
}.

Record Transaction := {
  tx_type : TransactionType;
  tx_from : bytes;
  tx_to : bytes;
  tx_amount : Z;
  tx_fee : Z;
  tx_nonce : Z;
  tx_source_shard : Z;
  tx_destination_shard : Z;
  tx_signature : bytes;
  tx_data : option bytes;
}.

Definition is_cross_shard (tx : Transaction) : bool :=
  negb (tx_source_shard tx =? tx_destination_shard tx).

Record BlockHeader := {
  hdr_version : Z;
  hdr_previous_hash : bytes;
  hdr_merkle_root : bytes;
  hdr_timestamp : Z;
  hdr_height : Z;
  hdr_validator : bytes;
  hdr_signature : bytes;
}.

Record Block := {
  blk_header : BlockHeader;
  blk_transactions : list Transaction;
  blk_receipts : list CrossShardReceipt;
}.

Record AnonymousAccountState := {
  viewing_hint : option bytes;
  note_commitments : list bytes;
}.

(** [#[derive(Default)]]. *)
Definition AnonymousAccountState_default : AnonymousAccountState :=
  {| viewing_hint := None; note_commitments := [] |}.

Record Account := {
  acct_balance : Z;
  acct_nonce : Z;
  acct_code_hash : option bytes;
  acct_anonymous_state : AnonymousAccountState;
}.

Record Contract := {
  ctr_code_wasm : bytes;
  ctr_storage_root : bytes;
}.

Record ContractCallPayload := {
  call_method : string;
  call_params : bytes;
  call_gas_limit : Z;
}.

Record Validator := {
  val_address : bytes;
  val_stake : Z;
  val_locked_until : Z;
}.

(** ** Decidable equality, [derive(PartialEq, Eq)] *)

#[global] Instance TransactionType_eq_dec : EqDecision TransactionType.
Proof. solve_decision. Defined.
#[global] Instance CrossShardPhase_eq_dec : EqDecision CrossShardPhase.
Proof. solve_decision. Defined.
#[global] Instance CrossShardReceipt_eq_dec : EqDecision CrossShardReceipt.
Proof. solve_decision. Defined.
#[global] Instance Transaction_eq_dec : EqDecision Transaction.
Proof. solve_decision. Defined.
#[global] Instance BlockHeader_eq_dec : EqDecision BlockHeader.
Proof. solve_decision. Defined.
#[global] Instance Block_eq_dec : EqDecision Block.
Proof. solve_decision. Defined.
#[global] Instance AnonymousAccountState_eq_dec : EqDecision AnonymousAccountState.
Proof. solve_decision. Defined.
#[global] Instance Account_eq_dec : EqDecision Account.
Proof. solve_decision. Defined.
#[global] Instance Contract_eq_dec : EqDecision Contract.
Proof. solve_decision. Defined.
#[global] Instance ContractCallPayload_eq_dec : EqDecision ContractCallPayload.
Proof. solve_decision. Defined.
#[global] Instance Validator_eq_dec : EqDecision Validator.
Proof. solve_decision. Defined.

(** ** Ranges *)

#[global] Instance bytes_wf : WellFormed bytes := vec_ok.

#[global] Instance u64_wf : WellFormed Z := u64.

#[global] Instance option_wf {A} `{WellFormed A} : WellFormed (option A) := fun o =>
  match o with
  | Some a => wf a
  | None => True
  end.

#[global] Instance list_wf {A} `{WellFormed A} : WellFormed (list A) := fun l =>
  vec_ok l /\ Forall wf l.

#[global] Instance TransactionType_wf : WellFormed TransactionType := fun t =>
  match t with
  | Stake d => u64 d
  | _ => True
  end.

#[global] Instance CrossShardReceipt_wf : WellFormed CrossShardReceipt := fun r =>
  vec_ok (rcpt_tx_hash r) /\ u16 (rcpt_source_shard r) /\
  u16 (rcpt_destination_shard r) /\ vec_ok (rcpt_proof r).

#[global] Instance Transaction_wf : WellFormed Transaction := fun tx =>
  wf (tx_type tx) /\ vec_ok (tx_from tx) /\ vec_ok (tx_to tx) /\
  u64 (tx_amount tx) /\ u64 (tx_fee tx) /\ u64 (tx_nonce tx) /\
  u16 (tx_source_shard tx) /\ u16 (tx_destination_shard tx) /\
  vec_ok (tx_signature tx) /\ wf (A := option bytes) (tx_data tx).

#[global] Instance BlockHeader_wf : WellFormed BlockHeader := fun h =>
  u32 (hdr_version h) /\ vec_ok (hdr_previous_hash h) /\ vec_ok (hdr_merkle_root h) /\
  u64 (hdr_timestamp h) /\ u64 (hdr_height h) /\ vec_ok (hdr_validator h) /\
  vec_ok (hdr_signature h).

#[global] Instance Block_wf : WellFormed Block := fun b =>
  wf (blk_header b) /\ wf (blk_transactions b) /\ wf (blk_receipts b).

#[global] Instance AnonymousAccountState_wf : WellFormed AnonymousAccountState := fun s =>
  wf (A := option bytes) (viewing_hint s) /\ wf (A := list bytes) (note_commitments s).

#[global] Instance Account_wf : WellFormed Account := fun a =>
  u64 (acct_balance a) /\ u64 (acct_nonce a) /\
  wf (A := option bytes) (acct_code_hash a) /\ wf (acct_anonymous_state a).

#[global] Instance Contract_wf : WellFormed Contract := fun c =>
  vec_ok (ctr_code_wasm c) /\ vec_ok (ctr_storage_root c).

#[global] Instance ContractCallPayload_wf : WellFormed ContractCallPayload := fun p =>
  vec_ok (bytes_of (call_method p)) /\ vec_ok (call_params p) /\ u64 (call_gas_limit p).

#[global] Instance Validator_wf : WellFormed Validator := fun v =>
  vec_ok (val_address v) /\ u64 (val_stake v) /\ u64 (val_locked_until v).

Lemma vec_ok_nil {A} : vec_ok (A := A) [].
Proof. done. Qed.

(** The ranges [W] of a structure give those of another made of its fields. *)
Ltac solve_ranges W :=
  hnf in W; repeat match goal with H : _ /\ _ |- _ => destruct H end;
  cbv beta; simpl fst; simpl snd; try hnf;
  repeat first [assumption | exact I | apply vec_ok_nil | apply conj].

(** ** Serialisation of the chain's structures

    [#[derive(Serialize, Deserialize)]] with [bincode]. *)

Class ChainCodecs := {
  codec_transaction :: Bincode Transaction;
  codec_header :: Bincode BlockHeader;
  codec_block :: Bincode Block;
  codec_account :: Bincode Account;
  codec_contract :: Bincode Contract;
  codec_payload :: Bincode ContractCallPayload;
  codec_validator :: Bincode Validator;
  codec_u64 :: Bincode Z;
}.

Class ChainCodecsOk `{ChainCodecs} : Prop := {
  codec_transaction_ok :: BincodeOk Transaction;
  codec_header_ok :: BincodeOk BlockHeader;
  codec_block_ok :: BincodeOk Block;
  codec_account_ok :: BincodeOk Account;
  codec_contract_ok :: BincodeOk Contract;
  codec_payload_ok :: BincodeOk ContractCallPayload;
  codec_validator_ok :: BincodeOk Validator;
  codec_u64_ok :: BincodeOk Z;
}.
