(* ===== verification/Merkle.v ===== *)
(** * Merkle trees over an abstract node hash

    The reference the two trees of the node are compared to: the tree of
    transactions in [src/blockchain/hash.rs] and the tree of notes in
    [src/privacy/mod.rs].  Both reduce a level by hashing neighbours, the last
    node of an odd level being paired with itself. *)

From S2P Require Import Prelude Bytes.

(** [slice::chunks(2)]. *)
Fixpoint chunks2 {A} (l : list A) : list (list A) :=
  match l with
  | [] => []
  | [a] => [[a]]
  | a :: b :: l' => [a; b] :: chunks2 l'
  end.

(** Induction two elements at a time. *)
Lemma list_ind2 {A} (P : list A -> Prop) :
  P [] -> (forall a, P [a]) -> (forall a b l, P l -> P (a :: b :: l)) -> forall l, P l.
Proof.
  intros H0 H1 H2. fix IH 1. intros [|a [|b l]]; [done | apply H1 | apply H2, IH].
Qed.

Section merkle.
Context (node : bytes -> bytes -> bytes).

Fixpoint next_level (l : list bytes) : list bytes :=
  match l with
  | [] => []
  | [a] => [node a a]
  | a :: b :: l' => node a b :: next_level l'
  end.

(** Levels are reduced until one node is left. *)
Fixpoint reduce (fuel : nat) (l : list bytes) : list bytes :=
  match l with
  | [] | [_] => l
  | _ =>
      match fuel with
      | O => l
      | S fuel' => reduce fuel' (next_level l)
      end
  end.

Definition tree_root (l : list bytes) : option bytes := head (reduce (length l) l).

(** The pairs hashed on the way to the root. *)
Fixpoint level_pairs (l : list bytes) : list (bytes * bytes) :=
  match l with
  | [] => []
  | [a] => [(a, a)]
  | a :: b :: l' => (a, b) :: level_pairs l'
  end.

Fixpoint tree_pairs_fuel (fuel : nat) (l : list bytes) : list (bytes * bytes) :=
  match l with
  | [] | [_] => []
  | _ =>
      match fuel with
      | O => []
      | S fuel' => level_pairs l ++ tree_pairs_fuel fuel' (next_level l)
      end
  end.

Definition tree_pairs (l : list bytes) : list (bytes * bytes) :=
  tree_pairs_fuel (length l) l.

(** [node] is injective on the pairs of [S]. *)
Definition node_injective_on (S : list (bytes * bytes)) : Prop :=
  forall p q, p ∈ S -> q ∈ S -> node p.1 p.2 = node q.1 q.2 -> p = q.

Lemma node_injective_on_subset S T :
  T ⊆ S -> node_injective_on S -> node_injective_on T.
Proof. unfold node_injective_on. set_solver. Qed.

Lemma next_level_length l : length (next_level l) = Nat.div2 (S (length l)).
Proof. induction l using list_ind2; simpl; [done..|]. by f_equal. Qed.

Lemma next_level_shrinks l :
  (1 < length l)%nat -> (0 < length (next_level l) < length l)%nat.
Proof.
  intros L. rewrite next_level_length, Nat.div2_div.
  pose proof (Nat.div_mod_eq (S (length l)) 2).
  pose proof (Nat.mod_upper_bound (S (length l)) 2). lia.
Qed.

Lemma next_level_shrinks_cons a b l :
  (0 < length (next_level (a :: b :: l)) < S (S (length l)))%nat.
Proof. apply (next_level_shrinks (a :: b :: l)). simpl. lia. Qed.

Lemma next_level_pairs l : next_level l = (fun p => node p.1 p.2) <$> level_pairs l.
Proof. induction l as [| |a b l IH] using list_ind2; simpl; [done..|]. by f_equal. Qed.

Lemma reduce_step fuel a b l :
  reduce (S fuel) (a :: b :: l) = reduce fuel (next_level (a :: b :: l)).
Proof. done. Qed.

(** More fuel than nodes changes nothing. *)
Lemma reduce_fuel fuel fuel' l :
  (length l <= fuel)%nat -> (length l <= fuel')%nat -> reduce fuel l = reduce fuel' l.
Proof.
  revert fuel' l. induction fuel as [|fuel IH]; intros [|fuel'] [|a [|b l]] L L';
    try done; try (simpl in L, L'; lia).
  rewrite !reduce_step. pose proof (next_level_shrinks_cons a b l) as N.
  simpl in L, L'. apply IH; lia.
Qed.

Lemma reduce_singleton fuel l :
  l <> [] -> (length l <= fuel)%nat -> exists r, reduce fuel l = [r].
Proof.
  revert l. induction fuel as [|fuel IH]; intros [|a [|b l]] NE L; try done;
    try (simpl in L; lia); try (by eexists).
  rewrite reduce_step. pose proof (next_level_shrinks_cons a b l) as N.
  simpl in L. apply IH; [done|lia].
Qed.

Lemma tree_root_Some l : l <> [] -> exists r, tree_root l = Some r.
Proof.
  intros NE. unfold tree_root. destruct (reduce_singleton (length l) l NE) as [r ->]; [done|].
  by exists r.
Qed.

Lemma tree_root_step l :
  (1 < length l)%nat -> tree_root l = tree_root (next_level l).
Proof.
  intros L. unfold tree_root. destruct l as [|a [|b l]]; simpl in L; try lia.
  simpl length at 1. rewrite reduce_step. f_equal.
  pose proof (next_level_shrinks_cons a b l) as N. apply reduce_fuel; lia.
Qed.

Lemma tree_pairs_fuel_enough fuel fuel' l :
  (length l <= fuel)%nat -> (length l <= fuel')%nat ->
  tree_pairs_fuel fuel l = tree_pairs_fuel fuel' l.
Proof.
  revert fuel' l. induction fuel as [|fuel IH]; intros [|fuel'] [|a [|b l]] L L';
    try done; try (simpl in L, L'; lia).
  change (level_pairs (a :: b :: l) ++ tree_pairs_fuel fuel (next_level (a :: b :: l)) =
          level_pairs (a :: b :: l) ++ tree_pairs_fuel fuel' (next_level (a :: b :: l))).
  pose proof (next_level_shrinks_cons a b l) as N. simpl in L, L'.
  f_equal. apply IH; lia.
Qed.

Lemma tree_pairs_step l :
  (1 < length l)%nat -> tree_pairs l = level_pairs l ++ tree_pairs (next_level l).
Proof.
  intros L. unfold tree_pairs. destruct l as [|a [|b l]]; simpl in L; try lia.
  change (level_pairs (a :: b :: l) ++
            tree_pairs_fuel (S (length l)) (next_level (a :: b :: l)) =
          level_pairs (a :: b :: l) ++
            tree_pairs_fuel (length (next_level (a :: b :: l))) (next_level (a :: b :: l))).
  pose proof (next_level_shrinks_cons a b l) as N.
  f_equal. apply tree_pairs_fuel_enough; lia.
Qed.

(** Strong induction on the size of the tree. *)
Lemma level_ind (P : list bytes -> Prop) :
  P [] -> (forall a, P [a]) ->
  (forall l, (1 < length l)%nat -> P (next_level l) -> P l) -> forall l, P l.
Proof.
  intros H0 H1 H2 l. remember (length l) as n eqn:E. revert l E.
  induction (lt_wf n) as [n _ IH]. intros l ->.
  destruct l as [|a [|b l]]; [done|apply H1|]. apply H2; [simpl; lia|].
  eapply IH; [|done]. apply (next_level_shrinks_cons a b l).
Qed.

(** ** Binding *)

Lemma level_pairs_inj l k :
  length l = length k -> level_pairs l = level_pairs k -> l = k.
Proof.
  revert k. induction l as [|a|a b l IH] using list_ind2; intros [|c [|d k]] L E;
    simplify_eq/=; [done..|]. by rewrite (IH k).
Qed.

Lemma next_level_inj l k :
  length l = length k -> node_injective_on (level_pairs l ++ level_pairs k) ->
  next_level l = next_level k -> l = k.
Proof.
  intros L I. rewrite !next_level_pairs. intros E.
  apply level_pairs_inj; [done|]. revert I E. generalize (level_pairs l), (level_pairs k).
  clear. intros p. induction p as [|x p IH]; intros [|y q] I E; simplify_eq/=; [done|].
  f_equal; [apply I; set_solver|]. apply IH; [|done].
  eapply node_injective_on_subset; [|exact I]. set_solver.
Qed.

(** Trees of the same width with the same root have the same leaves. *)
Lemma tree_root_binding l k :
  length l = length k -> node_injective_on (tree_pairs l ++ tree_pairs k) ->
  tree_root l = tree_root k -> l = k.
Proof.
  revert k. induction l as [|a|l L IH] using level_ind; intros k Lk I E.
  - by destruct k.
  - destruct k as [|b [|c k]]; try done. by unfold tree_root in E; simplify_eq/=.
  - assert (1 < length k)%nat as Lk' by congruence.
    rewrite (tree_root_step l), (tree_root_step k) in E by done.
    rewrite (tree_pairs_step l), (tree_pairs_step k) in I by done.
    apply next_level_inj; [done| |].
    + eapply node_injective_on_subset; [|exact I]. set_solver.
    + apply IH; [by rewrite !next_level_length, Lk| |done].
      eapply node_injective_on_subset; [|exact I]. set_solver.
Qed.

(** ** Repeating the last leaf of an odd level *)

Lemma next_level_duplicate l x :
  Nat.odd (length l) = true -> last l = Some x -> next_level (l ++ [x]) = next_level l.
Proof.
  induction l as [|a|a b l IH] using list_ind2; simpl; [done|naive_solver|].
  intros O La. f_equal. apply IH; [done|]. by destruct l.
Qed.

Lemma tree_root_duplicate l x :
  (1 < length l)%nat -> Nat.odd (length l) = true -> last l = Some x ->
  tree_root (l ++ [x]) = tree_root l.
Proof.
  intros L O La. rewrite (tree_root_step l), tree_root_step.
  - by rewrite next_level_duplicate.
  - rewrite length_app. lia.
  - done.
Qed.

(** ** Membership paths *)

Definition sibling_at (l : list bytes) (i : nat) : option bytes :=
  let j := if (i mod 2 =? 0)%nat then (i + 1)%nat else (i - 1)%nat in
  if (j <? length l)%nat then l !! j else l !! i.

Fixpoint sibling_path (fuel : nat) (l : list bytes) (i : nat) : option (list bytes) :=
  match l with
  | [] | [_] => Some []
  | _ =>
      match fuel with
      | O => Some []
      | S fuel' =>
          s ← sibling_at l i;
          p ← sibling_path fuel' (next_level l) (i / 2)%nat;
          Some (s :: p)
      end
  end.

Definition step_path (h : bytes) (i : nat) (s : bytes) : bytes :=
  if (i mod 2 =? 0)%nat then node h s else node s h.

Fixpoint fold_path (h : bytes) (i : nat) (p : list bytes) : bytes :=
  match p with
  | [] => h
  | s :: p' => fold_path (step_path h i s) (i / 2)%nat p'
  end.

(** The pairs hashed by [fold_path]. *)
Fixpoint path_pairs (h : bytes) (i : nat) (p : list bytes) : list (bytes * bytes) :=
  match p with
  | [] => []
  | s :: p' =>
      (if (i mod 2 =? 0)%nat then (h, s) else (s, h)) ::
      path_pairs (step_path h i s) (i / 2)%nat p'
  end.

(** The number of levels above [l]. *)
Fixpoint depth_fuel (fuel : nat) (l : list bytes) : nat :=
  match l with
  | [] | [_] => O
  | _ =>
      match fuel with
      | O => O
      | S fuel' => S (depth_fuel fuel' (next_level l))
      end
  end.

Definition depth (l : list bytes) : nat := depth_fuel (length l) l.

Lemma depth_fuel_enough fuel fuel' l :
  (length l <= fuel)%nat -> (length l <= fuel')%nat ->
  depth_fuel fuel l = depth_fuel fuel' l.
Proof.
  revert fuel' l. induction fuel as [|fuel IH]; intros [|fuel'] [|a [|b l]] L L';
    try done; try (simpl in L, L'; lia).
  change (S (depth_fuel fuel (next_level (a :: b :: l))) =
          S (depth_fuel fuel' (next_level (a :: b :: l)))).
  pose proof (next_level_shrinks_cons a b l) as N. simpl in L, L'.
  f_equal. apply IH; lia.
Qed.

Lemma depth_step l : (1 < length l)%nat -> depth l = S (depth (next_level l)).
Proof.
  intros L. unfold depth. destruct l as [|a [|b l]]; simpl in L; try lia.
  change (S (depth_fuel (S (length l)) (next_level (a :: b :: l))) =
          S (depth_fuel (length (next_level (a :: b :: l))) (next_level (a :: b :: l)))).
  pose proof (next_level_shrinks_cons a b l) as N.
  f_equal. apply depth_fuel_enough; lia.
Qed.

Lemma level_pairs_lookup l j x :
  l !! (2 * j)%nat = Some x ->
  level_pairs l !! j = Some (x, default x (l !! (2 * j + 1)%nat)).
Proof.
  revert j. induction l as [|a|a b l IH] using list_ind2; intros [|j] E;
    try done; try (by simplify_eq/=).
  - replace (2 * S j)%nat with (S (S (2 * j))) in * by lia.
    replace (S (S (2 * j)) + 1)%nat with (S (S (2 * j + 1))) by lia.
    simpl in E |- *. by apply IH.
Qed.

Lemma level_pairs_elem l j p : level_pairs l !! j = Some p -> p ∈ level_pairs l.
Proof. apply list_elem_of_lookup_2. Qed.

Lemma next_level_lookup l j x :
  l !! (2 * j)%nat = Some x ->
  next_level l !! j = Some (node x (default x (l !! (2 * j + 1)%nat))).
Proof.
  intros E. rewrite next_level_pairs, list_lookup_fmap, (level_pairs_lookup l j x E). done.
Qed.

(** The position of [i] in its pair. *)
Lemma index_cases i :
  (i mod 2 =? 0)%nat = true /\ i = (2 * (i / 2))%nat \/
  (i mod 2 =? 0)%nat = false /\ i = (2 * (i / 2) + 1)%nat.
Proof.
  pose proof (Nat.div_mod_eq i 2) as E. pose proof (Nat.mod_upper_bound i 2).
  destruct (i mod 2)%nat as [|[|]] eqn:M; [left|right|lia]; (split; [done|lia]).
Qed.

Lemma lookup_even_of_odd (l : list bytes) j (x : bytes) :
  l !! (2 * j + 1)%nat = Some x -> exists y, l !! (2 * j)%nat = Some y.
Proof.
  intros E. apply lookup_lt_is_Some_2. apply lookup_lt_Some in E. lia.
Qed.

Lemma sibling_at_step l i a :
  l !! i = Some a -> exists s, sibling_at l i = Some s /\
    next_level l !! (i / 2)%nat = Some (step_path a i s).
Proof.
  intros E. unfold sibling_at, step_path.
  destruct (index_cases i) as [[-> I]|[-> I]]; set (j := (i / 2)%nat) in *.
  - rewrite I in E. rewrite (next_level_lookup l j a E), I.
    destruct (Nat.ltb_spec (2 * j + 1) (length l)) as [L|L].
    + apply lookup_lt_is_Some_2 in L as [s Es]. rewrite Es. by exists s.
    + rewrite E, (lookup_ge_None_2 l (2 * j + 1)) by lia. by exists a.
  - rewrite I in E. destruct (lookup_even_of_odd l j a E) as [s Es].
    rewrite (next_level_lookup l j s Es), E.
    replace (i - 1)%nat with (2 * j)%nat by lia. rewrite Es.
    apply lookup_lt_Some in Es. destruct (Nat.ltb_spec (2 * j) (length l)); [|lia].
    by exists s.
Qed.

(** The path of a leaf leads to the root. *)
Lemma sibling_path_complete fuel l i a :
  (length l <= fuel)%nat -> l !! i = Some a ->
  exists p, sibling_path fuel l i = Some p /\ length p = depth l /\
    tree_root l = Some (fold_path a i p).
Proof.
  revert l i a. induction fuel as [|fuel IH]; intros [|b [|c l]] i a L E; try done.
  - by simpl in L; lia.
  - by simpl in L; lia.
  - exists []. destruct i; by simplify_eq/=.
  - destruct (sibling_at_step _ i a E) as (s & Es & En).
    pose proof (next_level_shrinks_cons b c l) as N. simpl in L.
    destruct (IH (next_level (b :: c :: l)) (i / 2)%nat (step_path a i s))
      as (p & Ep & Lp & Rp); [lia|done|].
    exists (s :: p). rewrite tree_root_step, depth_step by (simpl; lia).
    split; [|split; [simpl; by rewrite Lp|done]].
    change (sibling_path (S fuel) (b :: c :: l) i) with
      (s ← sibling_at (b :: c :: l) i;
       p ← sibling_path fuel (next_level (b :: c :: l)) (i / 2)%nat; Some (s :: p)).
    rewrite Es. cbv [mbind option_bind]. by rewrite Ep.
Qed.

(** A path of the right length that leads to the root starts at the leaf. *)
Lemma fold_path_sound l i a p :
  (i < length l)%nat -> length p = depth l ->
  node_injective_on (tree_pairs l ++ path_pairs a i p) ->
  tree_root l = Some (fold_path a i p) -> l !! i = Some a.
Proof.
  revert i a p. induction l as [|b|l L IH] using level_ind; intros i a p Li Lp I R.
  - simpl in Li. lia.
  - destruct p; [|done]. destruct i; [|simpl in Li; lia]. by injection R as ->.
  - rewrite depth_step in Lp by done. destruct p as [|s p]; [done|].
    injection Lp as Lp. cbn [path_pairs] in I. cbn [fold_path] in R.
    rewrite tree_pairs_step in I by done. rewrite tree_root_step in R by done.
    assert (next_level l !! (i / 2)%nat = Some (step_path a i s)) as En.
    { apply (IH _ _ p); [|done| |done].
      - rewrite next_level_length, Nat.div2_div.
        pose proof (Nat.div_mod_eq (S (length l)) 2). pose proof (Nat.div_mod_eq i 2).
        pose proof (Nat.mod_upper_bound (S (length l)) 2).
        pose proof (Nat.mod_upper_bound i 2). lia.
      - eapply node_injective_on_subset; [|exact I]. set_solver. }
    apply lookup_lt_is_Some_2 in Li as [x Ex].
    assert (exists y z, l !! (2 * (i / 2))%nat = Some y /\
              z = default y (l !! (2 * (i / 2) + 1)%nat)) as (y & z & Ey & ->).
    { destruct (index_cases i) as [[_ J]|[_ J]].
      - rewrite <- J. by eauto.
      - rewrite J in Ex. destruct (lookup_even_of_odd _ _ _ Ex) as [y Ey]. eauto. }
    rewrite (next_level_lookup l _ y Ey) in En. apply (inj Some) in En.
    pose proof (level_pairs_elem _ _ _ (level_pairs_lookup l _ y Ey)) as Elem.
    unfold step_path in En.
    destruct (index_cases i) as [[M J]|[M J]]; rewrite M in En, I;
      apply (I (_, _) (_, _)) in En; try set_solver.
    + simplify_eq. by rewrite J.
    + rewrite <- J, Ex in En. by simplify_eq/=.
Qed.

(** ** Paths of any length

    The values on the way up a path; a path that leads to the root passes
    through the leaves' level, or starts above it. *)

Fixpoint trace (h : bytes) (i : nat) (p : list bytes) : list bytes :=
  h :: match p with
       | [] => []
       | s :: p' => trace (step_path h i s) (i / 2)%nat p'
       end.

Lemma fold_path_trace h i p : fold_path h i p ∈ trace h i p.
Proof.
  revert h i. induction p as [|s p IH]; intros h i; [left|]. cbn [fold_path trace].
  right. apply IH.
Qed.

Lemma trace_cases h i p v :
  v ∈ trace h i p -> v = h \/ exists q, q ∈ path_pairs h i p /\ v = node q.1 q.2 /\
    (q.1 ∈ trace h i p \/ q.2 ∈ trace h i p).
Proof.
  revert h i. induction p as [|s p IH]; intros h i; cbn [trace path_pairs]; [set_solver|].
  intros [->|V]%elem_of_cons; [by left|]. right.
  destruct (IH _ _ V) as [->|(q & Q & -> & T)].
  - unfold step_path. destruct (i mod 2 =? 0)%nat.
    + exists (h, s). split; [left|]. split; [done|]. left. left.
    + exists (s, h). split; [left|]. split; [done|]. right. left.
  - exists q. split; [by right|]. split; [done|]. destruct T as [T|T]; [left|right]; by right.
Qed.

Lemma level_pairs_members l q : q ∈ level_pairs l -> q.1 ∈ l /\ q.2 ∈ l.
Proof.
  induction l as [|a|a b l IH] using list_ind2; cbn [level_pairs].
  - by intros ?%elem_of_nil.
  - intros ->%list_elem_of_singleton. split; left.
  - intros [->|Q]%elem_of_cons; [split; simpl; set_solver|].
    apply IH in Q as [? ?]. split; by do 2 right.
Qed.

Lemma fold_path_member l h i p :
  node_injective_on (tree_pairs l ++ path_pairs h i p) ->
  tree_root l = Some (fold_path h i p) ->
  (exists v, v ∈ trace h i p /\ v ∈ l) \/ (exists q, q ∈ tree_pairs l /\ h = node q.1 q.2).
Proof.
  induction l as [|a|l L IH] using level_ind; intros I R.
  - done.
  - left. injection R as ->. exists (fold_path h i p). split; [apply fold_path_trace|left].
  - rewrite tree_pairs_step in I |- * by done. rewrite tree_root_step in R by done.
    destruct IH as [(v & T & N)|(q & Q & ->)]; [|done| |].
    + eapply node_injective_on_subset; [|exact I]. set_solver.
    + rewrite next_level_pairs in N. apply list_elem_of_fmap in N as (q & -> & Q).
      destruct (trace_cases h i p _ T) as [E|(q' & Q' & E & C)].
      * right. exists q. split; [set_solver|done].
      * left. apply I in E; [|set_solver..]. subst q'.
        destruct (level_pairs_members l q Q). destruct C; eauto.
    + right. exists q. split; [set_solver|done].
Qed.

(** ** Width of the hashed nodes *)

Definition pair_width (n : nat) (p : bytes * bytes) : Prop :=
  length p.1 = n /\ length p.2 = n.

Section width.
  Context (n : nat) (node_width : forall a b, length (node a b) = n).

Lemma next_level_width l : Forall (fun h => length h = n) (next_level l).
Proof. induction l using list_ind2; simpl; by constructor. Qed.

Lemma level_pairs_width l :
  Forall (fun h => length h = n) l -> Forall (pair_width n) (level_pairs l).
Proof.
  induction l as [|a|a b l IH] using list_ind2; simpl; intros F; [constructor|..].
  - apply Forall_cons in F as [L _]. by repeat constructor.
  - apply Forall_cons in F as [L [L' F]%Forall_cons]. constructor; [done|by apply IH].
Qed.

Lemma tree_pairs_width l :
  Forall (fun h => length h = n) l -> Forall (pair_width n) (tree_pairs l).
Proof.
  induction l as [|a|l L IH] using level_ind; intros F; [done..|].
  rewrite tree_pairs_step by done. apply Forall_app_2; [by apply level_pairs_width|].
  apply IH, next_level_width.
Qed.

Lemma tree_root_width l r :
  Forall (fun h => length h = n) l -> tree_root l = Some r -> length r = n.
Proof.
  induction l as [|a|l L IH] using level_ind; intros F R.
  - done.
  - unfold tree_root in R. simplify_eq/=. by inversion F.
  - rewrite tree_root_step in R by done. apply IH; [apply next_level_width|done].
Qed.

Lemma path_pairs_width h i p :
  length h = n -> Forall (fun s => length s = n) p -> Forall (pair_width n) (path_pairs h i p).
Proof.
  intros L F. revert h i L. induction F as [|s p Ls F IH]; intros h i L; [constructor|].
  cbn [path_pairs]. constructor; [by destruct (i mod 2 =? 0)%nat|].
  apply IH. unfold step_path. destruct (i mod 2 =? 0)%nat; apply node_width.
Qed.
End width.
End merkle.

(** A hash of concatenations is injective on pairs of one width when it is
    free of collisions on the concatenations. *)
Lemma node_injective_concat (h : bytes -> bytes) (n : nat) (payload : bytes -> bytes -> bytes)
    (S : list (bytes * bytes)) :
  (forall a b c d, length a = n -> length c = n -> payload a b = payload c d ->
     a = c /\ b = d) ->
  Forall (pair_width n) S ->
  (forall p q, p ∈ S -> q ∈ S ->
     h (payload p.1 p.2) = h (payload q.1 q.2) -> payload p.1 p.2 = payload q.1 q.2) ->
  node_injective_on (fun a b => h (payload a b)) S.
Proof.
  intros Inj W C [a b] [c d] P Q E. rewrite Forall_forall in W.
  pose proof (W _ P) as [Wa _]. pose proof (W _ Q) as [Wc _].
  apply C in E; [|done..]. simpl in *. by destruct (Inj _ _ _ _ Wa Wc E) as [-> ->].
Qed.
