(* ===== verification/Concrete.v ===== *)
(** * Concrete instances of the external crates

    The theorems are proved for any SHA-256, Ed25519 and bincode that satisfy
    the laws of file [Externals].  This file shows that the laws can hold
    together, and gives the witnesses something to compute with: a
    length-preserving toy digest, a toy signature scheme, and a codec in the
    layout bincode documents (little-endian integers, [u64] lengths, [u32]
    variant tags, one-byte option tags, trailing bytes ignored). *)

From S2P Require Import Prelude Bytes Text Externals Types Merkle.

(** ** Digest and signatures *)

Definition toy_digest (x : bytes) : bytes :=
  be_bytes 32 (foldl (fun acc b => Z.land (257 * acc + byte_val b + 1) (Z.ones 256)) 0 x).

Arguments toy_digest : simpl never.

Definition toy_signature (vk msg : bytes) : bytes :=
  toy_digest (vk ++ msg) ++ toy_digest (msg ++ vk).

Definition toy_sha256 : Sha256 := {| sha256_digest := toy_digest |}.

Definition toy_ed25519 : Ed25519 := {|
  verifying_key := bytes;
  verifying_key_from_bytes := fun b => if (length b =? 32)%nat then Some b else None;
  ed25519_verify := fun vk msg sig => bool_decide (sig = toy_signature vk msg);
  public_key_of := toy_digest;
  ed25519_sign := fun sk msg => toy_signature (toy_digest sk) msg;
|}.

Lemma toy_digest_length x : length (toy_digest x) = 32%nat.
Proof. apply be_bytes_length. Qed.

Lemma toy_signature_length vk msg : length (toy_signature vk msg) = 64%nat.
Proof. unfold toy_signature. by rewrite length_app, !toy_digest_length. Qed.

Lemma toy_sha256_ok : @Sha256Ok toy_sha256.
Proof. exact (@Build_Sha256Ok toy_sha256 toy_digest_length). Qed.

Lemma toy_sign_verify sk msg : exists vk,
  @verifying_key_from_bytes toy_ed25519 (toy_digest sk) = Some vk /\
  @ed25519_verify toy_ed25519 vk msg (toy_signature (toy_digest sk) msg) = true.
Proof.
  exists (toy_digest sk). cbn [toy_ed25519 verifying_key_from_bytes ed25519_verify].
  rewrite toy_digest_length. split; [done|]. by apply bool_decide_true.
Qed.

Lemma toy_ed25519_ok : @Ed25519Ok toy_ed25519.
Proof.
  exact (@Build_Ed25519Ok toy_ed25519 toy_digest_length
           (fun sk => toy_signature_length (toy_digest sk)) toy_sign_verify).
Qed.

(** ** Hexadecimal text *)
Definition toy_hex_digit (z : Z) : byte := byte_of (if z <? 10 then 48 + z else 87 + z).

Definition hex_value (b : byte) : option Z :=
  let v := byte_val b in
  if in_range 48 57 v then Some (v - 48) else if in_range 97 102 v then Some (v - 87) else None.

Fixpoint toy_hex_encode (b : bytes) : bytes :=
  match b with
  | [] => []
  | x :: b' => toy_hex_digit (byte_val x / 16) :: toy_hex_digit (byte_val x mod 16) :: toy_hex_encode b'
  end.

Fixpoint toy_hex_decode (t : bytes) : option bytes :=
  match t with
  | [] => Some []
  | x :: y :: t' =>
      u ← hex_value x; v ← hex_value y; rest ← toy_hex_decode t'; Some (byte_of (16 * u + v) :: rest)
  | _ => None
  end.

Lemma toy_hex_digit_val z : 0 <= z < 16 ->
  hex_value (toy_hex_digit z) = Some z /\ is_hex_digit (toy_hex_digit z) = true.
Proof.
  intros R. rewrite <- (Z2Nat.id z) by lia. assert (Z.to_nat z < 16)%nat as B by lia.
  revert B. generalize (Z.to_nat z) as n. intros n B. do 16 (destruct n as [|n]; [by vm_compute|]). lia.
Qed.

Definition toy_hex : Hex := {|
  hex_encode := toy_hex_encode;
  hex_decode := fun t => ok_or "invalid hex"%string (toy_hex_decode t) |}.

Lemma toy_hex_ok : @HexOk toy_hex.
Proof.
  assert (forall x, 0 <= byte_val x / 16 < 16 /\ 0 <= byte_val x mod 16 < 16) as D.
  { intros x. pose proof (byte_val_range x). split; [split; [apply Z.div_pos; lia|apply Z.div_lt_upper_bound; lia]|].
    apply Z.mod_pos_bound. lia. }
  split; cbn [toy_hex hex_encode hex_decode].
  - intros b. enough (toy_hex_decode (toy_hex_encode b) = Some b) as -> by done.
    induction b as [|x b IH]; [done|]. cbn [toy_hex_encode toy_hex_decode]. destruct (D x).
    rewrite (proj1 (toy_hex_digit_val (byte_val x / 16) ltac:(done))).
    rewrite (proj1 (toy_hex_digit_val (byte_val x mod 16) ltac:(done))). cbn [mbind option_bind]. rewrite IH.
    cbn [mbind option_bind]. by rewrite <- Z.div_mod, byte_of_val.
  - intros b. induction b as [|x b IH]; [constructor|]. cbn [toy_hex_encode]. destruct (D x).
    by repeat (constructor; [by apply toy_hex_digit_val|]).
  - intros t b E%ok_or_Ok. revert b E. induction t as [| |x y t IH] using list_ind2; intros b E.
    + by injection E as <-.
    + done.
    + cbn [toy_hex_decode] in E. apply bind_Some in E as (u & _ & (v & _ & (r & Er & [= <-])%bind_Some)%bind_Some).
      cbn [length]. rewrite (IH r Er). lia.
  - intros t. apply ok_or_not_Panic.
Qed.

(** ** Codecs *)

Record codec (A : Type) := {
  enc : A -> bytes;
  dec : bytes -> option (A * bytes);
}.
Arguments enc {A} _ _.
Arguments dec {A} _ _.

(** Decoding gives back what was encoded, whatever follows. *)
Class CodecOk {A} (P : A -> Prop) (c : codec A) : Prop :=
  codec_ok : forall x r, P x -> dec c (enc c x ++ r) = Some (x, r).

Definition c_uint (n : nat) : codec Z := {|
  enc := le_bytes n;
  dec := fun b =>
    if (length b <? n)%nat then None else Some (from_le (take n b), drop n b);
|}.

Definition c_pair {A B} (ca : codec A) (cb : codec B) : codec (A * B) := {|
  enc := fun p => enc ca p.1 ++ enc cb p.2;
  dec := fun b =>
    '(x, b') ← dec ca b;
    '(y, b'') ← dec cb b';
    Some ((x, y), b'');
|}.

Definition c_map {A B} (f : A -> B) (g : B -> A) (c : codec A) : codec B := {|
  enc := fun y => enc c (g y);
  dec := fun b => '(x, b') ← dec c b; Some (f x, b');
|}.

Fixpoint dec_list {A} (d : bytes -> option (A * bytes)) (n : nat) (b : bytes) :
  option (list A * bytes) :=
  match n with
  | O => Some ([], b)
  | S n' =>
      '(x, b') ← d b;
      '(l, b'') ← dec_list d n' b';
      Some (x :: l, b'')
  end.

Definition c_list {A} (c : codec A) : codec (list A) := {|
  enc := fun l => enc (c_uint 8) (Z.of_nat (length l)) ++ mjoin (enc c <$> l);
  dec := fun b => '(n, b') ← dec (c_uint 8) b; dec_list (dec c) (Z.to_nat n) b';
|}.

(** [Vec<u8>]: a length, then the bytes themselves. *)
Definition c_bytes : codec bytes := {|
  enc := fun l => enc (c_uint 8) (Z.of_nat (length l)) ++ l;
  dec := fun b =>
    '(n, b') ← dec (c_uint 8) b;
    if Z.of_nat (length b') <? n then None
    else Some (take (Z.to_nat n) b', drop (Z.to_nat n) b');
|}.

Definition c_option {A} (c : codec A) : codec (option A) := {|
  enc := fun o =>
    match o with
    | None => le_bytes 1 0
    | Some x => le_bytes 1 1 ++ enc c x
    end;
  dec := fun b =>
    '(t, b') ← dec (c_uint 1) b;
    if t =? 0 then Some (None, b')
    else if t =? 1 then '(x, b'') ← dec c b'; Some (Some x, b'')
    else None;
|}.

Definition c_bool : codec bool :=
  {| enc := fun x : bool => le_bytes 1 (if x then 1 else 0);
     dec := fun b =>
       '(t, b') ← dec (c_uint 1) b;
       if t =? 0 then Some (false, b') else if t =? 1 then Some (true, b') else None |}.

Definition c_string : codec string := c_map String.string_of_list_byte bytes_of c_bytes.

Section codec_laws.
Context {A B : Type}.

Lemma c_uint_ok n : CodecOk (fun z => 0 <= z < 2 ^ (8 * Z.of_nat n)) (c_uint n).
Proof.
  intros z r Z. simpl. rewrite length_app, le_bytes_length.
  destruct (Nat.ltb_spec (n + length r) n); [lia|].
  rewrite take_app_le, drop_app_le by (rewrite le_bytes_length; lia).
  rewrite take_ge, drop_ge by (rewrite le_bytes_length; lia).
  by rewrite from_le_bytes_small.
Qed.

Lemma c_pair_ok P Q (ca : codec A) (cb : codec B) :
  CodecOk P ca -> CodecOk Q cb -> CodecOk (fun p => P p.1 /\ Q p.2) (c_pair ca cb).
Proof.
  intros Ca Cb [x y] r [Px Qy]. simpl. rewrite <- app_assoc.
  rewrite (Ca x _ Px). simpl. by rewrite (Cb y _ Qy).
Qed.

Lemma c_map_ok P (Q : B -> Prop) (f : A -> B) g c :
  CodecOk P c -> (forall y, Q y -> P (g y)) -> (forall y, f (g y) = y) ->
  CodecOk Q (c_map f g c).
Proof. intros C I E y r Qy. simpl. rewrite (C _ _ (I _ Qy)). simpl. by rewrite E. Qed.

Lemma c_option_ok P (c : codec A) :
  CodecOk P c -> CodecOk (fun o => match o with Some x => P x | None => True end) (c_option c).
Proof.
  intros C [x|] r Px; [|done].
  change (dec (c_option c) (enc (c_option c) (Some x) ++ r)) with
    (mbind (M := option) (fun '(x', b'') => Some (Some (x' : A), b'')) (dec c (enc c x ++ r))).
  by rewrite (C x r Px).
Qed.

Lemma dec_list_ok P (c : codec A) l r :
  CodecOk P c -> Forall P l ->
  dec_list (dec c) (length l) (mjoin (enc c <$> l) ++ r) = Some (l, r).
Proof.
  intros C F. induction F as [|x l Px F IH]; [done|].
  change (mjoin (enc c <$> x :: l)) with (enc c x ++ mjoin (enc c <$> l)).
  cbn [dec_list length]. rewrite <- app_assoc, (C x _ Px).
  cbn [mbind option_bind]. by rewrite IH.
Qed.

Lemma c_list_ok P (c : codec A) :
  CodecOk P c -> CodecOk (fun l => vec_ok l /\ Forall P l) (c_list c).
Proof.
  intros C l r [V F]. unfold vec_ok in V. cbn [c_list enc dec]. rewrite <- app_assoc.
  rewrite (c_uint_ok 8 _ _); [|simpl; lia]. simpl. rewrite Nat2Z.id. by apply (dec_list_ok P).
Qed.
End codec_laws.

Lemma c_bytes_ok : CodecOk vec_ok c_bytes.
Proof.
  intros l r V. unfold vec_ok in V. cbn [c_bytes enc dec]. rewrite <- app_assoc.
  rewrite (c_uint_ok 8 _ _); [|simpl; lia]. simpl. rewrite Nat2Z.id, length_app.
  destruct (Z.ltb_spec (Z.of_nat (length l + length r)) (Z.of_nat (length l))); [lia|].
  by rewrite take_app_length, drop_app_length.
Qed.

Lemma c_bool_ok : CodecOk (fun _ => True) c_bool.
Proof. by intros [] r _. Qed.

Lemma c_string_ok : CodecOk (fun s => vec_ok (bytes_of s)) c_string.
Proof. eapply c_map_ok; [apply c_bytes_ok|done|]. apply string_of_bytes_of. Qed.

(** [bincode::serialize] and [bincode::deserialize] through a codec. *)
Definition bincode_of {A} (c : codec A) : Bincode A := {|
  bincode_serialize := fun x => Ok (enc c x);
  bincode_deserialize := fun b =>
    match dec c b with
    | Some (x, _) => Ok x
    | None => Err "io error: unexpected end of file"%string
    end;
|}.

Lemma bincode_of_ok {A} (c : codec A) `{WellFormed A} :
  CodecOk wf c -> @BincodeOk A (bincode_of c) _.
Proof.
  intros C. split; simpl; [eauto|]. intros x b W [= <-].
  specialize (C x [] W). rewrite app_nil_r in C. by rewrite C.
Qed.

(** ** The layouts of the chain's structures *)

Definition c_tx_type : codec TransactionType := {|
  enc := fun t =>
    match t with
    | Transfer => le_bytes 4 0
    | Stake d => le_bytes 4 1 ++ le_bytes 8 d
    | Unstake => le_bytes 4 2
    | PublicToAnon => le_bytes 4 3
    | AnonToPublic => le_bytes 4 4
    | DeployContract => le_bytes 4 5
    | CallContract => le_bytes 4 6
    end;
  dec := fun b =>
    '(t, b') ← dec (c_uint 4) b;
    match t with
    | 0 => Some (Transfer, b')
    | 1 => '(d, b'') ← dec (c_uint 8) b'; Some (Stake d, b'')
    | 2 => Some (Unstake, b')
    | 3 => Some (PublicToAnon, b')
    | 4 => Some (AnonToPublic, b')
    | 5 => Some (DeployContract, b')
    | 6 => Some (CallContract, b')
    | _ => None
    end;
|}.

Definition c_phase : codec CrossShardPhase := {|
  enc := fun p => le_bytes 4 (match p with Prepare => 0 | Validate => 1 | Commit => 2 end);
  dec := fun b =>
    '(t, b') ← dec (c_uint 4) b;
    match t with
    | 0 => Some (Prepare, b')
    | 1 => Some (Validate, b')
    | 2 => Some (Commit, b')
    | _ => None
    end;
|}.

Definition c_receipt : codec CrossShardReceipt :=
  c_map (fun '(a, (b, (c, (d, e)))) => Build_CrossShardReceipt a b c d e)
    (fun r => (rcpt_tx_hash r, (rcpt_source_shard r, (rcpt_destination_shard r,
                (rcpt_phase r, rcpt_proof r)))))
    (c_pair c_bytes (c_pair (c_uint 2) (c_pair (c_uint 2) (c_pair c_phase c_bytes)))).

Definition c_transaction : codec Transaction :=
  c_map (fun '(a, (b, (c, (d, (e, (f, (g, (h, (i, j))))))))) =>
           Build_Transaction a b c d e f g h i j)
    (fun t => (tx_type t, (tx_from t, (tx_to t, (tx_amount t, (tx_fee t, (tx_nonce t,
                (tx_source_shard t, (tx_destination_shard t,
                  (tx_signature t, tx_data t))))))))))
    (c_pair c_tx_type (c_pair c_bytes (c_pair c_bytes (c_pair (c_uint 8)
      (c_pair (c_uint 8) (c_pair (c_uint 8) (c_pair (c_uint 2) (c_pair (c_uint 2)
        (c_pair c_bytes (c_option c_bytes)))))))))).

Definition c_header : codec BlockHeader :=
  c_map (fun '(a, (b, (c, (d, (e, (f, g)))))) => Build_BlockHeader a b c d e f g)
    (fun h => (hdr_version h, (hdr_previous_hash h, (hdr_merkle_root h, (hdr_timestamp h,
                (hdr_height h, (hdr_validator h, hdr_signature h)))))))
    (c_pair (c_uint 4) (c_pair c_bytes (c_pair c_bytes (c_pair (c_uint 8)
      (c_pair (c_uint 8) (c_pair c_bytes c_bytes)))))).

Definition c_block : codec Block :=
  c_map (fun '(a, (b, c)) => Build_Block a b c)
    (fun b => (blk_header b, (blk_transactions b, blk_receipts b)))
    (c_pair c_header (c_pair (c_list c_transaction) (c_list c_receipt))).

Definition c_account : codec Account :=
  c_map (fun '(a, (b, (c, (d, e)))) =>
           Build_Account a b c (Build_AnonymousAccountState d e))
    (fun a => (acct_balance a, (acct_nonce a, (acct_code_hash a,
       (viewing_hint (acct_anonymous_state a), note_commitments (acct_anonymous_state a))))))
    (c_pair (c_uint 8) (c_pair (c_uint 8) (c_pair (c_option c_bytes)
      (c_pair (c_option c_bytes) (c_list c_bytes))))).

Definition c_contract : codec Contract :=
  c_map (fun '(a, b) => Build_Contract a b) (fun c => (ctr_code_wasm c, ctr_storage_root c))
    (c_pair c_bytes c_bytes).

Definition c_call_payload : codec ContractCallPayload :=
  c_map (fun '(a, (b, c)) => Build_ContractCallPayload a b c)
    (fun p => (call_method p, (call_params p, call_gas_limit p)))
    (c_pair c_string (c_pair c_bytes (c_uint 8))).

Definition c_validator : codec Validator :=
  c_map (fun '(a, (b, c)) => Build_Validator a b c)
    (fun v => (val_address v, (val_stake v, val_locked_until v)))
    (c_pair c_bytes (c_pair (c_uint 8) (c_uint 8))).

Ltac solve_codec :=
  eapply c_map_ok;
  [ repeat first [ apply c_pair_ok | apply c_uint_ok | apply c_bytes_ok
                 | apply c_string_ok | apply c_option_ok | apply c_list_ok
                 | eassumption | solve [eauto] ]
  | intros [] W; solve_ranges W
  | by intros [] ].

Lemma c_tx_type_ok : CodecOk wf c_tx_type.
Proof.
  intros [|d| | | | |] r W; try done.
  change (dec c_tx_type (enc c_tx_type (Stake d) ++ r)) with
    (mbind (M := option) (fun '(d', b'') => Some (Stake d', b''))
       (dec (c_uint 8) (le_bytes 8 d ++ r))).
  pose proof (c_uint_ok 8 d r W) as E. cbn [enc c_uint] in E. by rewrite E.
Qed.

Lemma c_phase_ok : CodecOk (fun _ => True) c_phase.
Proof. by intros [] r _. Qed.

Lemma c_receipt_ok : CodecOk wf c_receipt.
Proof. pose proof c_phase_ok. solve_codec. Qed.

Lemma c_transaction_ok : CodecOk wf c_transaction.
Proof. pose proof c_tx_type_ok. solve_codec. Qed.

Lemma c_header_ok : CodecOk wf c_header.
Proof. solve_codec. Qed.

Lemma c_block_ok : CodecOk wf c_block.
Proof.
  pose proof c_header_ok. pose proof c_transaction_ok. pose proof c_receipt_ok. solve_codec.
Qed.

Lemma c_account_ok : CodecOk wf c_account.
Proof.
  eapply c_map_ok; [|intros [? ? ? []]|by intros [? ? ? []]].
  - repeat first [apply c_pair_ok | apply c_uint_ok | apply c_bytes_ok
                 | apply c_option_ok | apply c_list_ok].
  - intros W. solve_ranges W.
Qed.

Lemma c_contract_ok : CodecOk wf c_contract.
Proof. solve_codec. Qed.

Lemma c_call_payload_ok : CodecOk wf c_call_payload.
Proof. solve_codec. Qed.

Lemma c_validator_ok : CodecOk wf c_validator.
Proof. solve_codec. Qed.

(** ** Decoded values *)

(** What a codec decodes from a slice is in range, and the rest is a part of
    the slice. *)
Class CodecTyped {A} (P : A -> Prop) (c : codec A) : Prop :=
  codec_typed : forall b x r, dec c b = Some (x, r) -> vec_ok b -> P x /\ vec_ok r.

Lemma vec_ok_drop n (b : bytes) : vec_ok b -> vec_ok (drop n b).
Proof. unfold vec_ok. rewrite length_drop. lia. Qed.

Lemma c_uint_typed n : CodecTyped (fun z => 0 <= z < 2 ^ (8 * Z.of_nat n)) (c_uint n).
Proof.
  intros b x r E V. simpl in E. destruct (Nat.ltb_spec (length b) n); [done|]. injection E as <- <-.
  split; [|by apply vec_ok_drop]. pose proof (from_le_range (take n b)) as R.
  by rewrite length_take, Nat.min_l in R by lia.
Qed.

Lemma c_pair_typed {A B} P Q (ca : codec A) (cb : codec B) :
  CodecTyped P ca -> CodecTyped Q cb -> CodecTyped (fun p => P p.1 /\ Q p.2) (c_pair ca cb).
Proof.
  intros Ca Cb b p r E V. cbn [dec c_pair] in E.
  apply bind_Some in E as ([x b1] & Ex & ([y b2] & Ey & [= <- <-])%bind_Some).
  destruct (Ca _ _ _ Ex V) as [Px V1]. by destruct (Cb _ _ _ Ey V1).
Qed.

Lemma c_map_typed {A B} P (Q : B -> Prop) (f : A -> B) g c :
  CodecTyped P c -> (forall x, P x -> Q (f x)) -> CodecTyped Q (c_map f g c).
Proof.
  intros C I b y r E V. cbn [dec c_map] in E. apply bind_Some in E as ([x b1] & Ex & [= <- <-]).
  destruct (C _ _ _ Ex V). auto.
Qed.

Lemma c_bytes_typed : CodecTyped vec_ok c_bytes.
Proof.
  intros b x r E V. cbn [dec c_bytes] in E. apply bind_Some in E as ([n b1] & En & E).
  destruct (c_uint_typed 8 _ _ _ En V) as [_ V1]. case_match; [done|]. injection E as <- <-.
  split; [|by apply vec_ok_drop]. unfold vec_ok in *. rewrite length_take. lia.
Qed.

Lemma c_string_typed : CodecTyped (fun s => vec_ok (bytes_of s)) c_string.
Proof. eapply c_map_typed; [apply c_bytes_typed|]. intros x V. by rewrite bytes_of_string_of. Qed.

Lemma c_option_typed {A} P (c : codec A) :
  CodecTyped P c -> CodecTyped (fun o => match o with Some x => P x | None => True end) (c_option c).
Proof.
  intros C b o r E V. cbn [dec c_option] in E. apply bind_Some in E as ([t b1] & Et & E).
  destruct (c_uint_typed 1 _ _ _ Et V) as [_ V1].
  destruct (t =? 0); [by injection E as <- <-|]. destruct (t =? 1); [|done].
  apply bind_Some in E as ([x b2] & Ex & [= <- <-]). by destruct (C _ _ _ Ex V1).
Qed.

Lemma c_tx_type_typed : CodecTyped wf c_tx_type.
Proof.
  intros b t r E V. cbn [dec c_tx_type] in E. apply bind_Some in E as ([n b1] & En & E).
  destruct (c_uint_typed 4 _ _ _ En V) as [_ V1].
  destruct n as [|[[[]|[]|]|[[]|[]|]|]|]; try done; try by injection E as <- <-.
  apply bind_Some in E as ([d b2] & Ed & [= <- <-]). by destruct (c_uint_typed 8 _ _ _ Ed V1).
Qed.

Ltac solve_codec_typed :=
  eapply c_map_typed;
  [ repeat first [ apply c_pair_typed | apply c_uint_typed | apply c_bytes_typed
                 | apply c_string_typed | apply c_option_typed | apply c_tx_type_typed ]
  | intros; repeat match goal with p : _ * _ |- _ => destruct p end;
    match goal with W : _ |- _ => solve_ranges W end ].

Lemma c_transaction_typed : CodecTyped wf c_transaction.
Proof. solve_codec_typed. Qed.

Lemma c_call_payload_typed : CodecTyped wf c_call_payload.
Proof. solve_codec_typed. Qed.

Lemma bincode_of_typed {A} (c : codec A) `{WellFormed A} :
  CodecTyped wf c -> @BincodeTyped A (bincode_of c) _.
Proof.
  intros C. split; simpl.
  - intros b x V E. destruct (dec c b) as [[y r]|] eqn:D; [|done]. injection E as ->.
    by destruct (C b x r D V).
  - intros b. by destruct (dec c b) as [[y r]|].
Qed.

Definition concrete_codecs : ChainCodecs := {|
  codec_transaction := bincode_of c_transaction;
  codec_header := bincode_of c_header;
  codec_block := bincode_of c_block;
  codec_account := bincode_of c_account;
  codec_contract := bincode_of c_contract;
  codec_payload := bincode_of c_call_payload;
  codec_validator := bincode_of c_validator;
  codec_u64 := bincode_of (c_uint 8);
|}.

Lemma concrete_codecs_ok : @ChainCodecsOk concrete_codecs.
Proof.
  exact (@Build_ChainCodecsOk concrete_codecs
    (bincode_of_ok _ c_transaction_ok) (bincode_of_ok _ c_header_ok)
    (bincode_of_ok _ c_block_ok) (bincode_of_ok _ c_account_ok)
    (bincode_of_ok _ c_contract_ok) (bincode_of_ok _ c_call_payload_ok)
    (bincode_of_ok _ c_validator_ok) (bincode_of_ok _ (c_uint_ok 8))).
Qed.

Lemma concrete_transaction_typed : @BincodeTyped Transaction (@codec_transaction concrete_codecs) _.
Proof. exact (bincode_of_typed _ c_transaction_typed). Qed.

Lemma concrete_payload_typed :
  @BincodeTyped ContractCallPayload (@codec_payload concrete_codecs) _.
Proof. exact (bincode_of_typed _ c_call_payload_typed). Qed.

(** A build with overflow checks. *)
Definition debug_profile : Profile := {| overflow_checks := true |}.

(** The instances, for the files that import this module. *)
Module Instances.
#[export] Existing Instances toy_sha256 toy_ed25519 concrete_codecs debug_profile.
#[export] Existing Instances toy_sha256_ok toy_ed25519_ok concrete_codecs_ok.
#[export] Existing Instances concrete_transaction_typed concrete_payload_typed.
End Instances.

(** ** Sample data of the witnesses *)

(** [n] copies of a byte. *)
Definition fill (n : nat) (z : Z) : bytes := repeat (byte_of z) n.

Definition sample_tx (nonce : Z) : Transaction := {|
  tx_type := Transfer; tx_from := fill 4 1; tx_to := fill 4 2; tx_amount := 42;
  tx_fee := 1; tx_nonce := nonce; tx_source_shard := 0; tx_destination_shard := 0;
  tx_signature := fill 4 9; tx_data := None |}.

(** Ranges of concrete data, by evaluation. *)
Ltac solve_wf :=
  repeat (first [ apply Forall_nil_2 | apply Forall_cons_2 | apply conj ]);
  vm_compute; try done; intros ?; discriminate.

(** A decidable statement about concrete data. *)
Ltac by_eval := apply (bool_decide_unpack _); vm_compute; exact I.
