(* ===== verification/Hash.v ===== *)
(** * Hashes of the chain ([src/blockchain/hash.rs])

    Transaction and header hashes, contract addresses, and the Merkle root of
    a block's transactions, related to the reference tree of file [Merkle]. *)

From S2P Require Import Prelude Orders Bytes Externals Types Merkle.

Section hash.
  Context `{Sha256, ChainCodecs}.

Definition sha256 (data : bytes) : bytes := sha256_digest data.

Definition contract_code_hash (code_wasm : bytes) : bytes := sha256 code_wasm.

Definition derive_contract_address (sender code_wasm : bytes) : bytes :=
  let code_hash := contract_code_hash code_wasm in
  sha256 (bytes_of "prims-contract" ++ sender ++ code_hash).

Definition hash_transaction {E} (tx : Transaction) : outcome E bytes :=
  encoded ← expect_ok (bincode_serialize tx);
  Ok (sha256 encoded).

Definition hash_block_header {E} (header : BlockHeader) : outcome E bytes :=
  encoded ← expect_ok (bincode_serialize header);
  Ok (sha256 encoded).

(** [if level.len() % 2 == 1 { level.push(last) }] *)
Definition pad_level {E} (level : list bytes) : outcome E (list bytes) :=
  if (length level mod 2 =? 1)%nat then
    last_hash ← expect (last level);
    Ok (level ++ [last_hash])
  else Ok level.

(** [combined] of one [pair] of [level.chunks(2)]; [pair[1]] is out of range
    on a chunk of one. *)
Definition hash_pair {E} (pair : list bytes) : outcome E bytes :=
  match pair with
  | a :: b :: _ => Ok (sha256 (a ++ b))
  | _ => Panic
  end.

(** The body of the [while] loop. *)
Definition merkle_step {E} (level : list bytes) : outcome E (list bytes) :=
  padded ← pad_level level;
  mapM hash_pair (chunks2 padded).

Fixpoint merkle_loop {E} (fuel : nat) (level : list bytes) : outcome E (list bytes) :=
  if (length level <=? 1)%nat then Ok level
  else
    match fuel with
    | O => Panic
    | S fuel' => merkle_step level ≫= merkle_loop fuel'
    end.

Definition calculate_merkle_root {E} (transactions : list Transaction) : outcome E bytes :=
  if bool_decide (transactions = []) then Ok (sha256 [])
  else
    level ← mapM hash_transaction transactions;
    final ← merkle_loop (length level) level;
    expect (last final).

(** ** The loop computes the reference tree *)

Definition sha256_node (a b : bytes) : bytes := sha256 (a ++ b).

Lemma mapM_hash_pair {E} level :
  (length level mod 2 = 0)%nat ->
  mapM (M := outcome E) hash_pair (chunks2 level) = Ok (next_level sha256_node level).
Proof.
  induction level as [|a|a b l IH] using list_ind2; [done|done|]. intros L.
  cbn [chunks2 mapM hash_pair mbind outcome_bind]. rewrite IH.
  - done.
  - simpl length in L. pose proof (Nat.Div0.add_mod 2 (length l) 2) as M.
    change (2 + length l)%nat with (S (S (length l))) in M.
    rewrite L in M. change (2 mod 2)%nat with O in M.
    rewrite Nat.add_0_l, Nat.Div0.mod_mod in M. done.
Qed.

Lemma next_level_pad level x :
  (length level mod 2 = 1)%nat -> last level = Some x ->
  next_level sha256_node (level ++ [x]) = next_level sha256_node level.
Proof.
  intros L. apply next_level_duplicate. apply Nat.odd_spec.
  exists (length level / 2)%nat. pose proof (Nat.div_mod_eq (length level) 2). lia.
Qed.

Lemma merkle_step_next {E} level :
  level <> [] -> merkle_step (E := E) level = Ok (next_level sha256_node level).
Proof.
  intros NE. unfold merkle_step, pad_level.
  destruct (Nat.eqb_spec (length level mod 2) 1) as [L|L].
  - destruct (last level) as [x|] eqn:La; [|by apply last_None in La].
    cbn [expect mbind outcome_bind].
    rewrite mapM_hash_pair, next_level_pad; [done..|].
    rewrite length_app. change (length [x]) with 1%nat.
    rewrite Nat.Div0.add_mod, L. done.
  - cbn [mbind outcome_bind]. apply mapM_hash_pair.
    pose proof (Nat.mod_upper_bound (length level) 2). lia.
Qed.

Lemma merkle_loop_reduce {E} fuel level :
  (length level <= fuel)%nat ->
  merkle_loop (E := E) fuel level = Ok (reduce sha256_node fuel level).
Proof.
  revert level. induction fuel as [|fuel IH]; intros [|a [|b l]] L;
    try done; try (simpl in L; lia).
  change (merkle_step (E := E) (a :: b :: l) ≫= merkle_loop fuel =
          Ok (reduce sha256_node (S fuel) (a :: b :: l))).
  rewrite merkle_step_next by done. rewrite reduce_step. cbn [mbind outcome_bind].
  apply IH. pose proof (next_level_shrinks_cons sha256_node a b l). simpl in L. lia.
Qed.

(** The root is the root of the reference tree over the transaction hashes;
    the loop terminates and none of its [expect]s fails. *)
Lemma calculate_merkle_root_tree {E} transactions hashes :
  transactions <> [] -> mapM (M := outcome E) hash_transaction transactions = Ok hashes ->
  exists root, calculate_merkle_root (E := E) transactions = Ok root /\
    tree_root sha256_node hashes = Some root.
Proof.
  intros NE Hs. unfold calculate_merkle_root. rewrite bool_decide_false by done.
  rewrite Hs. cbn [mbind outcome_bind]. rewrite merkle_loop_reduce by done.
  cbn [mbind outcome_bind]. unfold tree_root.
  assert (hashes <> []) as NE'.
  { destruct transactions as [|t ts]; [done|]. simpl in Hs. outcome_inv. by subst. }
  destruct (reduce_singleton sha256_node (length hashes) hashes NE') as [r ->]; [done|].
  by exists r.
Qed.

(** ** Properties *)

(** The payloads hashed for the transactions, and all those hashed for the
    root. *)
Definition tx_payloads (transactions : list Transaction) : list bytes :=
  omap (fun tx => match bincode_serialize tx with Ok b => Some b | _ => None end)
    transactions.

Definition merkle_payloads (transactions : list Transaction) : list bytes :=
  tx_payloads transactions ++
  ((fun p => p.1 ++ p.2) <$> tree_pairs sha256_node (sha256 <$> tx_payloads transactions)).

Context `{!Sha256Ok, !ChainCodecsOk}.

Lemma sha256_length x : length (sha256 x) = 32%nat.
Proof. apply sha256_digest_length. Qed.

Lemma hash_transaction_Ok {E} (tx : Transaction) : wf tx -> exists b,
  bincode_serialize tx = Ok b /\ hash_transaction (E := E) tx = Ok (sha256 b).
Proof.
  intros W. destruct (bincode_total tx W) as [b Eb]. exists b.
  unfold hash_transaction. by rewrite Eb.
Qed.

Lemma hash_block_header_Ok {E} (h : BlockHeader) : wf h -> exists b,
  bincode_serialize h = Ok b /\ hash_block_header (E := E) h = Ok (sha256 b).
Proof.
  intros W. destruct (bincode_total h W) as [b Eb]. exists b.
  unfold hash_block_header. by rewrite Eb.
Qed.

Lemma tx_payloads_cons tx txs b :
  bincode_serialize tx = Ok b -> tx_payloads (tx :: txs) = b :: tx_payloads txs.
Proof. intros E. unfold tx_payloads. simpl. by rewrite E. Qed.

Lemma tx_payloads_snoc tx txs b :
  bincode_serialize tx = Ok b -> tx_payloads (txs ++ [tx]) = tx_payloads txs ++ [b].
Proof. intros E. unfold tx_payloads. rewrite omap_app. simpl. by rewrite E. Qed.

Lemma hash_transactions_Ok {E} (txs : list Transaction) :
  Forall wf txs ->
  mapM (M := outcome E) hash_transaction txs = Ok (sha256 <$> tx_payloads txs) /\
  length (tx_payloads txs) = length txs.
Proof.
  induction 1 as [|tx txs W F [IH L]]; [done|].
  destruct (hash_transaction_Ok (E := E) tx W) as (b & Eb & Hb).
  rewrite (tx_payloads_cons tx txs b Eb). simpl. rewrite Hb. simpl. rewrite IH. simpl.
  by rewrite L.
Qed.

Lemma tx_payloads_inj (txs txs' : list Transaction) :
  Forall wf txs -> Forall wf txs' -> tx_payloads txs = tx_payloads txs' -> txs = txs'.
Proof.
  intros F. revert txs'. induction F as [|tx txs W F IH]; intros ? [|tx' txs' W' F'].
  - done.
  - destruct (bincode_total tx' W') as [b Eb]. by rewrite (tx_payloads_cons tx' txs' b).
  - destruct (bincode_total tx W) as [b Eb]. by rewrite (tx_payloads_cons tx txs b).
  - destruct (bincode_total tx W) as [b Eb], (bincode_total tx' W') as [b' Eb'].
    rewrite (tx_payloads_cons tx txs b), (tx_payloads_cons tx' txs' b') by done.
    intros [= -> E]. f_equal; [|by apply IH].
    by apply (bincode_serialize_inj tx tx' b').
Qed.

Lemma hashes_width (l : list bytes) : Forall (fun h => length h = 32%nat) (sha256 <$> l).
Proof. apply Forall_fmap, Forall_true. intros. apply sha256_length. Qed.

Lemma sha256_node_width a b : length (sha256_node a b) = 32%nat.
Proof. apply sha256_length. Qed.

Lemma sha256_node_injective (S : list (bytes * bytes)) :
  Forall (pair_width 32) S ->
  collision_free sha256 ((fun p => p.1 ++ p.2) <$> S) ->
  node_injective_on sha256_node S.
Proof.
  intros W C. apply (node_injective_concat sha256 32 (fun a b => a ++ b)); [|done|].
  - intros a b c d A D E. apply app_inj_1 in E; [done|congruence].
  - intros p q P Q. apply C; apply list_elem_of_fmap; eauto.
Qed.
Lemma calculate_merkle_root_Ok {E} (txs : list Transaction) :
  Forall wf txs ->
  exists root, calculate_merkle_root (E := E) txs = Ok root /\ length root = 32%nat.
Proof.
  intros F. destruct (decide (txs = [])) as [->|NE].
  { eexists. split; [done|]. apply sha256_length. }
  destruct (hash_transactions_Ok (E := E) txs F) as [Hs L].
  destruct (calculate_merkle_root_tree txs _ NE Hs) as (r & Er & Tr). exists r.
  split; [done|]. eapply (tree_root_width sha256_node 32); [|apply hashes_width|exact Tr].
  apply sha256_node_width.
Qed.

(** The error type plays no part. *)
Lemma calculate_merkle_root_any {E E'} (txs : list Transaction) root root' :
  Forall wf txs -> calculate_merkle_root (E := E) txs = Ok root ->
  calculate_merkle_root (E := E') txs = Ok root' -> root = root'.
Proof.
  intros F R R'. destruct (decide (txs = [])) as [->|NE].
  { apply (inj Ok) in R, R'. congruence. }
  destruct (hash_transactions_Ok (E := E) txs F) as [Hs _].
  destruct (hash_transactions_Ok (E := E') txs F) as [Hs' _].
  destruct (calculate_merkle_root_tree txs _ NE Hs) as (r & Er & Tr).
  destruct (calculate_merkle_root_tree txs _ NE Hs') as (r' & Er' & Tr'). congruence.
Qed.
End hash.

(** The Merkle root of any list of well-formed transactions exists: the
    [while] loop ends, no [expect] fails, no pair is indexed out of range, and
    the root has the 32 bytes of a SHA-256 digest. *)
Theorem calculate_merkle_root_total `{Sha256Ok, ChainCodecsOk} {E} (txs : list Transaction) :
  Forall wf txs ->
  exists root, calculate_merkle_root (E := E) txs = Ok root /\ length root = 32%nat.
Proof. apply calculate_merkle_root_Ok. Qed.

(** [C5] The Merkle root binds the transactions of a block: two lists of the
    same length with the same root are equal, unless two of the payloads
    hashed for the two roots collide under SHA-256. *)
Theorem merkle_root_binding `{Sha256Ok, ChainCodecsOk} {E} (txs txs' : list Transaction) root :
  Forall wf txs -> Forall wf txs' -> length txs = length txs' ->
  collision_free sha256 (merkle_payloads txs ++ merkle_payloads txs') ->
  calculate_merkle_root (E := E) txs = Ok root ->
  calculate_merkle_root (E := E) txs' = Ok root -> txs = txs'.
Proof.
  intros F F' L C R R'. destruct (decide (txs = [])) as [->|NE]; [by destruct txs'|].
  assert (txs' <> []) as NE' by (by destruct txs, txs').
  destruct (hash_transactions_Ok (E := E) txs F) as [Hs Ls].
  destruct (hash_transactions_Ok (E := E) txs' F') as [Hs' Ls'].
  destruct (calculate_merkle_root_tree txs _ NE Hs) as (r & Er & Tr).
  destruct (calculate_merkle_root_tree txs' _ NE' Hs') as (r' & Er' & Tr').
  assert (r = r') as <- by congruence. apply tx_payloads_inj; [done..|].
  assert (sha256 <$> tx_payloads txs = sha256 <$> tx_payloads txs') as Eh.
  { apply (tree_root_binding sha256_node); [by rewrite !length_fmap; congruence| |congruence].
    apply sha256_node_injective.
    - apply Forall_app_2; apply tree_pairs_width;
        auto using sha256_node_width, hashes_width.
    - eapply collision_free_subset; [|exact C]. rewrite fmap_app.
      unfold merkle_payloads. set_solver. }
  apply (list_eq_same_length _ _ (length txs)); [congruence..|].
  intros i x y _ Ex Ey. apply C.
  - apply elem_of_app. left. apply elem_of_app. left. by eapply list_elem_of_lookup_2.
  - apply elem_of_app. right. apply elem_of_app. left. by eapply list_elem_of_lookup_2.
  - apply (f_equal (.!! i)) in Eh. rewrite !list_lookup_fmap, Ex, Ey in Eh. by injection Eh.
Qed.

(** The root does not bind the number of transactions: repeating the last
    transaction of a list of odd length (at least three) leaves the root
    unchanged, because an odd level is padded with its last node. *)
Theorem merkle_root_odd_duplicate `{Sha256Ok, ChainCodecsOk} {E} (txs : list Transaction) tx :
  Forall wf txs -> (1 < length txs)%nat -> Nat.odd (length txs) = true ->
  last txs = Some tx ->
  calculate_merkle_root (E := E) (txs ++ [tx]) = calculate_merkle_root txs.
Proof.
  intros F L O La.
  assert (wf tx) as Wx by (rewrite Forall_forall in F; by apply F, last_Some_elem_of).
  assert (Forall wf (txs ++ [tx])) as F' by (apply Forall_app_2; [done|by apply Forall_singleton]).
  destruct (hash_transactions_Ok (E := E) txs F) as [Hs Ls].
  destruct (hash_transactions_Ok (E := E) _ F') as [Hs' Ls'].
  destruct (calculate_merkle_root_tree txs _ ltac:(by destruct txs) Hs) as (r & -> & Tr).
  destruct (calculate_merkle_root_tree (txs ++ [tx]) _ ltac:(by destruct txs) Hs')
    as (r' & -> & Tr'). f_equal. apply (inj Some). rewrite <- Tr, <- Tr'.
  destruct (hash_transaction_Ok (E := E) tx Wx) as (b & Eb & _).
  rewrite (tx_payloads_snoc tx txs b Eb), fmap_app. apply tree_root_duplicate; rewrite ?length_fmap, ?Ls; [done..|].
  apply last_Some in La as [l ->]. rewrite (tx_payloads_snoc tx l b Eb), fmap_app. apply last_snoc.
Qed.

(** ** Witnesses *)

From S2P Require Import Concrete.
Import Concrete.Instances.

Lemma calculate_merkle_root_total_witness :
  exists root, calculate_merkle_root (E := unit) [sample_tx 1; sample_tx 2; sample_tx 3] = Ok root
    /\ length root = 32%nat.
Proof. apply calculate_merkle_root_total. solve_wf. Defined.

Lemma merkle_root_binding_witness : exists root,
  calculate_merkle_root (E := unit) [sample_tx 1; sample_tx 2] = Ok root /\
  [sample_tx 1; sample_tx 2] = [sample_tx 1; sample_tx 2].
Proof.
  eexists. split; [vm_compute; reflexivity|].
  eapply (merkle_root_binding (E := unit) [sample_tx 1; sample_tx 2] [sample_tx 1; sample_tx 2]);
    [solve_wf|solve_wf|reflexivity|by_eval|vm_compute; reflexivity|vm_compute; reflexivity].
Defined.

Lemma merkle_root_odd_duplicate_witness :
  calculate_merkle_root (E := unit) ([sample_tx 1; sample_tx 2; sample_tx 3] ++ [sample_tx 3]) =
  calculate_merkle_root [sample_tx 1; sample_tx 2; sample_tx 3].
Proof.
  apply merkle_root_odd_duplicate; [solve_wf|simpl; lia|reflexivity|reflexivity].
Defined.
