(* ===== verification/Crypto.v ===== *)
(** * Signing transactions ([src/crypto/mod.rs])

    Key pairs, the bytes a transaction signature covers, signing and
    verification over the abstract Ed25519 of file [Externals]. *)

From S2P Require Import Prelude Bytes Externals Types.

(** [anyhow::Error], by origin. *)
Inductive CryptoError :=
| InvalidPublicKey                       (** [VerifyingKey::from_bytes(..)?] *)
| InvalidSignatureLength                 (** [anyhow!("invalid transaction signature length..")] *)
| SerializationFailed (message : string) (** [bincode::serialize(..)?] *).

#[global] Instance CryptoError_eq_dec : EqDecision CryptoError.
Proof. solve_decision. Defined.

Record KeyPair := {
  secret_key : bytes;
  public_key : bytes;
}.

Section crypto.
Context `{Ed25519, ChainCodecs}.

(** [entropy] is what [SigningKey::generate(&mut OsRng)] drew. *)
Definition generate_keypair (entropy : bytes) : KeyPair :=
  {| secret_key := entropy; public_key := public_key_of entropy |}.

(** [unsigned.signature.clear()] on a clone. *)
Definition clear_signature (tx : Transaction) : Transaction := {|
  tx_type := tx_type tx; tx_from := tx_from tx; tx_to := tx_to tx;
  tx_amount := tx_amount tx; tx_fee := tx_fee tx; tx_nonce := tx_nonce tx;
  tx_source_shard := tx_source_shard tx;
  tx_destination_shard := tx_destination_shard tx;
  tx_signature := []; tx_data := tx_data tx |}.

(** [transaction.signature = signature] *)
Definition set_signature (tx : Transaction) (signature : bytes) : Transaction := {|
  tx_type := tx_type tx; tx_from := tx_from tx; tx_to := tx_to tx;
  tx_amount := tx_amount tx; tx_fee := tx_fee tx; tx_nonce := tx_nonce tx;
  tx_source_shard := tx_source_shard tx;
  tx_destination_shard := tx_destination_shard tx;
  tx_signature := signature; tx_data := tx_data tx |}.

Definition unsigned_transaction_bytes (tx : Transaction) : outcome CryptoError bytes :=
  map_err SerializationFailed (bincode_serialize (clear_signature tx)).

Definition sign_transaction (tx : Transaction) (secret_key : bytes) :
  outcome CryptoError bytes :=
  message ← unsigned_transaction_bytes tx;
  Ok (ed25519_sign secret_key message).

Definition verify_transaction (tx : Transaction) (public_key : bytes) :
  outcome CryptoError bool :=
  vk ← ok_or InvalidPublicKey (verifying_key_from_bytes public_key);
  if negb (length (tx_signature tx) =? 64)%nat then Err InvalidSignatureLength
  else
    message ← unsigned_transaction_bytes tx;
    Ok (ed25519_verify vk message (tx_signature tx)).

(** ** Lemmas *)

Lemma clear_set_signature tx s : clear_signature (set_signature tx s) = clear_signature tx.
Proof. done. Qed.

Lemma unsigned_transaction_bytes_set tx s :
  unsigned_transaction_bytes (set_signature tx s) = unsigned_transaction_bytes tx.
Proof. done. Qed.

Lemma clear_signature_wf tx : wf tx -> wf (clear_signature tx).
Proof. intros W. solve_ranges W. Qed.

Context `{!ChainCodecsOk}.

Lemma unsigned_transaction_bytes_Ok tx : wf tx -> exists b,
  bincode_serialize (clear_signature tx) = Ok b /\ unsigned_transaction_bytes tx = Ok b.
Proof.
  intros W. destruct (bincode_total _ (clear_signature_wf tx W)) as [b Eb].
  exists b. unfold unsigned_transaction_bytes. by rewrite Eb.
Qed.

(** The signed bytes determine every field but the signature. *)
Lemma unsigned_transaction_bytes_inj tx tx' b :
  wf tx -> wf tx' -> unsigned_transaction_bytes tx = Ok b ->
  unsigned_transaction_bytes tx' = Ok b -> clear_signature tx = clear_signature tx'.
Proof.
  unfold unsigned_transaction_bytes. intros W W' E E'.
  apply map_err_Ok in E, E'. by apply (bincode_serialize_inj _ _ b); try apply clear_signature_wf.
Qed.
End crypto.

(** Signing then verifying succeeds: a well-formed transaction carrying
    the signature [sign_transaction] computes verifies under the public key of
    the signing key. *)
Theorem sign_then_verify `{Ed25519Ok, ChainCodecsOk} (tx : Transaction) (entropy : bytes) :
  wf tx ->
  exists signature,
    sign_transaction tx (secret_key (generate_keypair entropy)) = Ok signature /\
    verify_transaction (set_signature tx signature)
      (public_key (generate_keypair entropy)) = Ok true.
Proof.
  intros W. destruct (unsigned_transaction_bytes_Ok tx W) as (b & _ & Eb).
  exists (ed25519_sign entropy b). unfold sign_transaction. simpl. rewrite Eb.
  split; [done|]. unfold verify_transaction. rewrite unsigned_transaction_bytes_set, Eb. simpl.
  destruct (ed25519_sign_verify entropy b) as (vk & -> & V). simpl.
  by rewrite signature_length, V.
Qed.

(** A transaction under the signature of a key. *)
Definition signed_by `{Ed25519, ChainCodecs} (sk : bytes) (tx : Transaction) : Transaction :=
  match sign_transaction tx sk with Ok s => set_signature tx s | _ => tx end.

Lemma signed_by_Ok `{Ed25519Ok, ChainCodecsOk} sk tx :
  wf tx -> tx_from tx = public_key_of sk -> exists s,
  sign_transaction tx sk = Ok s /\ signed_by sk tx = set_signature tx s /\
  wf (signed_by sk tx) /\ verify_transaction (signed_by sk tx) (tx_from tx) = Ok true.
Proof.
  intros W F. destruct (sign_then_verify tx sk W) as (s & Es & V). cbn [generate_keypair secret_key public_key] in *.
  exists s. unfold signed_by. rewrite Es, F. split; [done|]. split; [done|]. split; [|done].
  assert (length s = 64%nat) as Ls.
  { unfold sign_transaction in Es. apply bind_Ok in Es as (m & _ & [= <-]). apply signature_length. }
  assert (vec_ok s) as Vs by (unfold vec_ok; rewrite Ls; by vm_compute).
  destruct W as (? & ? & ? & ? & ? & ? & ? & ? & ? & ?). by repeat (split; [done|]).
Qed.

(** ** Witness *)

From S2P Require Import Concrete.
Import Concrete.Instances.

Lemma sign_then_verify_witness : exists signature,
  sign_transaction (sample_tx 1) (fill 32 7) = Ok signature /\
  verify_transaction (set_signature (sample_tx 1) signature)
    (public_key_of (fill 32 7)) = Ok true.
Proof. apply (sign_then_verify (sample_tx 1) (fill 32 7)). solve_wf. Defined.
