(* ===== verification/Validation.v ===== *)
(** * Validation of blocks and transactions ([src/blockchain/validation.rs])

    The checks a block and a transaction go through, with the error of each
    branch in the order the code tries them. *)

From S2P Require Import Prelude Orders Bytes Externals Types Merkle Hash.

Definition MAX_TRANSACTION_SIZE_BYTES : Z := 1048576.
Definition MAX_BLOCK_SIZE_BYTES : Z := 10485760.

Inductive BlockValidationError :=
| BlockTooLarge (size limit : Z)
| InvalidPreviousHash
| InvalidMerkleRoot
| InvalidValidatorKeyLength
| InvalidValidatorSignatureLength
| InvalidValidatorSignature
| BlockSerialization (message : string).

Inductive TransactionValidationError :=
| NonceNotStrictlyGreater (last_nonce received_nonce : Z)
| AmountMustBePositive
| InvalidFee (expected received : Z)
| AmountOverflow
| InsufficientBalance (balance required : Z)
| TransactionTooLarge (size limit : Z)
| TransactionSerialization (message : string).

#[global] Instance BlockValidationError_eq_dec : EqDecision BlockValidationError.
Proof. solve_decision. Defined.
#[global] Instance TransactionValidationError_eq_dec : EqDecision TransactionValidationError.
Proof. solve_decision. Defined.

(** [unsigned.signature.clear()] on a clone. *)
Definition clear_header_signature (h : BlockHeader) : BlockHeader := {|
  hdr_version := hdr_version h; hdr_previous_hash := hdr_previous_hash h;
  hdr_merkle_root := hdr_merkle_root h; hdr_timestamp := hdr_timestamp h;
  hdr_height := hdr_height h; hdr_validator := hdr_validator h; hdr_signature := [] |}.

Section validation.
Context `{Sha256, Ed25519, ChainCodecs}.

Definition unsigned_block_header_bytes (h : BlockHeader) : outcome BlockValidationError bytes :=
  map_err BlockSerialization (bincode_serialize (clear_header_signature h)).

Definition validate_block_size (block : Block) : outcome BlockValidationError unit :=
  encoded ← map_err BlockSerialization (bincode_serialize block);
  if MAX_BLOCK_SIZE_BYTES <=? Z.of_nat (length encoded)
  then Err (BlockTooLarge (Z.of_nat (length encoded)) MAX_BLOCK_SIZE_BYTES)
  else Ok tt.

Definition validate_block (block : Block) (expected_previous_hash : bytes) :
  outcome BlockValidationError unit :=
  validate_block_size block;;
  if negb (bool_decide (hdr_previous_hash (blk_header block) = expected_previous_hash))
  then Err InvalidPreviousHash
  else
    expected_merkle_root ← calculate_merkle_root (blk_transactions block);
    if negb (bool_decide (hdr_merkle_root (blk_header block) = expected_merkle_root))
    then Err InvalidMerkleRoot
    else if negb (length (hdr_validator (blk_header block)) =? 32)%nat
    then Err InvalidValidatorKeyLength
    else
      vk ← ok_or InvalidValidatorKeyLength
             (verifying_key_from_bytes (hdr_validator (blk_header block)));
      if negb (length (hdr_signature (blk_header block)) =? 64)%nat
      then Err InvalidValidatorSignatureLength
      else
        message ← unsigned_block_header_bytes (blk_header block);
        if ed25519_verify vk message (hdr_signature (blk_header block))
        then Ok tt
        else Err InvalidValidatorSignature.

Definition validate_transaction_nonce (tx : Transaction) (sender_account : option Account) :
  outcome TransactionValidationError unit :=
  match sender_account with
  | Some account =>
      if tx_nonce tx <=? acct_nonce account
      then Err (NonceNotStrictlyGreater (acct_nonce account) (tx_nonce tx))
      else Ok tt
  | None => Ok tt
  end.

Definition validate_transaction_balance (tx : Transaction) (sender_account : option Account) :
  outcome TransactionValidationError unit :=
  if tx_amount tx =? 0 then Err AmountMustBePositive
  else if negb (tx_fee tx =? FIXED_TRANSACTION_FEE)
  then Err (InvalidFee FIXED_TRANSACTION_FEE (tx_fee tx))
  else
    required ← ok_or AmountOverflow (checked 64 (tx_amount tx + tx_fee tx));
    let balance := from_option acct_balance 0 sender_account in
    if balance <? required then Err (InsufficientBalance balance required)
    else Ok tt.

Definition validate_transaction_size (tx : Transaction) :
  outcome TransactionValidationError unit :=
  encoded ← map_err TransactionSerialization (bincode_serialize tx);
  if MAX_TRANSACTION_SIZE_BYTES <=? Z.of_nat (length encoded)
  then Err (TransactionTooLarge (Z.of_nat (length encoded)) MAX_TRANSACTION_SIZE_BYTES)
  else Ok tt.

(** ** What an accepted block satisfies *)

(** The conditions on a block, independent of the order of the checks. *)
Record block_acceptable (block : Block) (prev : bytes) : Prop := {
  acc_size : exists b, bincode_serialize block = Ok b /\ Z.of_nat (length b) < MAX_BLOCK_SIZE_BYTES;
  acc_prev : hdr_previous_hash (blk_header block) = prev;
  acc_root : calculate_merkle_root (E := BlockValidationError) (blk_transactions block) =
             Ok (hdr_merkle_root (blk_header block));
  acc_key_length : length (hdr_validator (blk_header block)) = 32%nat;
  acc_sig_length : length (hdr_signature (blk_header block)) = 64%nat;
  acc_signature : exists vk message,
    verifying_key_from_bytes (hdr_validator (blk_header block)) = Some vk /\
    bincode_serialize (clear_header_signature (blk_header block)) = Ok message /\
    ed25519_verify vk message (hdr_signature (blk_header block)) = true;
}.

Lemma validate_block_size_Ok block :
  validate_block_size block = Ok tt <->
  exists b, bincode_serialize block = Ok b /\ Z.of_nat (length b) < MAX_BLOCK_SIZE_BYTES.
Proof.
  unfold validate_block_size. destruct (bincode_serialize block) as [b|e|]; simpl.
  - destruct (Z.leb_spec MAX_BLOCK_SIZE_BYTES (Z.of_nat (length b))); split; try done.
    + intros (? & [= <-] & ?). lia.
    + by eauto.
  - naive_solver.
  - naive_solver.
Qed.

Lemma validate_transaction_size_Ok tx :
  validate_transaction_size tx = Ok tt <->
  exists b, bincode_serialize tx = Ok b /\ Z.of_nat (length b) < MAX_TRANSACTION_SIZE_BYTES.
Proof.
  unfold validate_transaction_size. destruct (bincode_serialize tx) as [b|e|]; simpl.
  - destruct (Z.leb_spec MAX_TRANSACTION_SIZE_BYTES (Z.of_nat (length b))); split; try done.
    + intros (? & [= <-] & ?). lia.
    + by eauto.
  - naive_solver.
  - naive_solver.
Qed.
Lemma validate_block_acceptable block prev :
  validate_block block prev = Ok tt <-> block_acceptable block prev.
Proof.
  unfold validate_block, unsigned_block_header_bytes. split.
  - intros V. apply bind_Ok in V as ([] & S & V). apply validate_block_size_Ok in S.
    outcome_inv.
    repeat match goal with
    | H : negb _ = false |- _ => apply negb_false_iff in H
    | H : bool_decide _ = true |- _ => apply bool_decide_eq_true in H
    | H : (_ =? _)%nat = true |- _ => apply Nat.eqb_eq in H
    end.
    split; try done; [congruence|]. by eauto 6.
  - intros [S P R K G (vk & m & Ek & Em & Ev)].
    apply validate_block_size_Ok in S. rewrite S. cbn [mbind outcome_bind].
    rewrite bool_decide_true by done. rewrite R. cbn [negb mbind outcome_bind].
    rewrite bool_decide_true by done. rewrite K, G, Ek, Em. cbn. by rewrite Ev.
Qed.
End validation.

(** [validate_block] accepts exactly the blocks that are smaller than the
    limit, extend the expected block, commit to their transactions, and carry
    a 64-byte signature of the unsigned header by a decodable 32-byte key. *)
Theorem validate_block_spec `{Sha256, Ed25519, ChainCodecs} (block : Block) prev :
  validate_block block prev = Ok tt <-> block_acceptable block prev.
Proof. apply validate_block_acceptable. Qed.

(** [validate_transaction_balance] on every branch: acceptance means a
    positive amount, the fixed fee, a total that fits in [u64] and a balance
    that covers it (an absent account counts as empty); the overflow error is
    reached only by the greatest amount. *)
Theorem validate_transaction_balance_spec (tx : Transaction) (account : option Account) :
  wf tx ->
  let balance := from_option acct_balance 0 account in
  match validate_transaction_balance tx account with
  | Ok _ => 0 < tx_amount tx /\ tx_fee tx = FIXED_TRANSACTION_FEE /\
            tx_amount tx + tx_fee tx < 2 ^ 64 /\ tx_amount tx + tx_fee tx <= balance
  | Err AmountMustBePositive => tx_amount tx = 0
  | Err (InvalidFee e r) =>
      0 < tx_amount tx /\ e = FIXED_TRANSACTION_FEE /\ r = tx_fee tx /\ r <> e
  | Err AmountOverflow => tx_amount tx = 2 ^ 64 - 1 /\ tx_fee tx = FIXED_TRANSACTION_FEE
  | Err (InsufficientBalance b r) =>
      b = balance /\ r = tx_amount tx + tx_fee tx /\ 0 < tx_amount tx /\
      tx_fee tx = FIXED_TRANSACTION_FEE /\ r < 2 ^ 64 /\ b < r
  | _ => False
  end.
Proof.
  intros (_ & _ & _ & A & F & _) balance. unfold u64 in A, F.
  unfold validate_transaction_balance, FIXED_TRANSACTION_FEE.
  destruct (Z.eqb_spec (tx_amount tx) 0); [done|].
  destruct (Z.eqb_spec (tx_fee tx) 1); simpl; [|lia].
  destruct (checked 64 (tx_amount tx + tx_fee tx)) as [r|] eqn:C; simpl.
  - apply checked_Some in C as [-> R]. fold balance.
    destruct (Z.ltb_spec balance (tx_amount tx + tx_fee tx)); simpl; lia.
  - apply checked_None in C. lia.
Qed.

(** ** Witness *)

From S2P Require Import Concrete.

Lemma validate_transaction_balance_spec_witness :
  let account := {| acct_balance := 43; acct_nonce := 0; acct_code_hash := None;
                    acct_anonymous_state := AnonymousAccountState_default |} in
  validate_transaction_balance (sample_tx 1) (Some account) = Ok tt /\
  0 < tx_amount (sample_tx 1) /\ tx_fee (sample_tx 1) = FIXED_TRANSACTION_FEE /\
  tx_amount (sample_tx 1) + tx_fee (sample_tx 1) < 2 ^ 64 /\
  tx_amount (sample_tx 1) + tx_fee (sample_tx 1) <= 43.
Proof.
  intros account. split; [reflexivity|].
  exact (validate_transaction_balance_spec (sample_tx 1) (Some account) ltac:(solve_wf)).
Defined.
