(* ===== verification/Mempool.v ===== *)
(** * The partitioned mempool ([src/consensus/mod.rs], first part)

    Each partition is a task that owns a vector of transactions and serves the
    commands of its channel; [Mempool] routes by sender address and collects
    the answers.  The synchronous methods are functions on the vectors; the
    task and its bounded channel are a step relation, shown to run the
    commands in the order they were sent. *)

From S2P Require Import Prelude Orders Bytes Types.

Definition MAX_TRANSACTIONS_PER_ADDRESS_PER_BLOCK : nat := 100.

(** ** One partition *)

Inductive MempoolCommand :=
| AddTransaction (tx : Transaction)
| TakeForBlock (max_transactions : nat)
| Len
| PendingTransactions.

(** What the task sends on the [oneshot] channel of a command. *)
Inductive MempoolResponse :=
| NoResponse
| Taken (selected : list Transaction)
| Length (n : nat)
| Pending (txs : list Transaction).

(** [selected], [remaining_transactions] and [selected_per_sender]. *)
Record TakeState := {
  selected : list Transaction;
  remaining : list Transaction;
  selected_per_sender : gmap bytes nat;
}.

(** One turn of the loop over [std::mem::take(&mut transactions)]. *)
Definition take_step (max_transactions : nat) (s : TakeState) (tx : Transaction) : TakeState :=
  if (length (selected s) =? max_transactions)%nat then
    {| selected := selected s; remaining := remaining s ++ [tx];
       selected_per_sender := selected_per_sender s |}
  else
    let sender_count := default 0%nat (selected_per_sender s !! tx_from tx) in
    if (sender_count <? MAX_TRANSACTIONS_PER_ADDRESS_PER_BLOCK)%nat then
      {| selected := selected s ++ [tx]; remaining := remaining s;
         selected_per_sender := <[tx_from tx := S sender_count]> (selected_per_sender s) |}
    else
      {| selected := selected s; remaining := remaining s ++ [tx];
         selected_per_sender := <[tx_from tx := sender_count]> (selected_per_sender s) |}.

Definition take_start : TakeState :=
  {| selected := []; remaining := []; selected_per_sender := ∅ |}.

Definition take_partition (max_transactions : nat) (txs : list Transaction) : TakeState :=
  foldl (take_step max_transactions) take_start txs.

(** The body of [while let Some(command) = receiver.recv().await]. *)
Definition handle_command (txs : list Transaction) (c : MempoolCommand) :
  list Transaction * MempoolResponse :=
  match c with
  | AddTransaction tx => (txs ++ [tx], NoResponse)
  | TakeForBlock max_transactions =>
      let s := take_partition max_transactions txs in
      (remaining s, Taken (selected s))
  | Len => (txs, Length (length txs))
  | PendingTransactions => (txs, Pending txs)
  end.

(** ** The mempool *)

Record Mempool := {
  partition_count : nat;
  partitions : list (list Transaction);
}.

Definition with_partition_count (n : nat) : Mempool :=
  let n := Nat.max n 1 in
  {| partition_count := n; partitions := replicate n [] |}.

(** [acc.wrapping_mul(31).wrapping_add(byte as u64)] over the address. *)
Definition address_hash (address : bytes) : Z :=
  foldl (fun acc b => wrap 64 (wrap 64 (acc * 31) + byte_val b)) 0 address.

Definition partition_for_address (m : Mempool) (address : bytes) : nat :=
  match address with
  | [] => O
  | _ => Z.to_nat (address_hash address mod Z.of_nat (partition_count m))
  end.

(** [self.partitions[partition].sender.send(AddTransaction(transaction))] *)
Definition add_transaction {E} (m : Mempool) (tx : Transaction) : outcome E Mempool :=
  let partition := partition_for_address m (tx_from tx) in
  match partitions m !! partition with
  | Some txs =>
      Ok {| partition_count := partition_count m;
            partitions := <[partition := (handle_command txs (AddTransaction tx)).1]>
                            (partitions m) |}
  | None => Panic
  end.

Definition mempool_len (m : Mempool) : nat :=
  foldl (fun total txs => (total + length txs)%nat) 0%nat (partitions m).

Definition mempool_is_empty (m : Mempool) : bool := (mempool_len m =? 0)%nat.

Definition pending_transactions (m : Mempool) : list Transaction :=
  foldl (fun pending txs => pending ++ txs) [] (partitions m).

(** The loop of [take_for_block] over the partitions not yet visited. *)
Fixpoint take_loop (max_transactions : nat) (sel : list Transaction)
    (parts : list (list Transaction)) : list Transaction * list (list Transaction) :=
  match parts with
  | [] => (sel, [])
  | txs :: parts' =>
      if (length sel =? max_transactions)%nat then (sel, parts)
      else
        let s := take_partition (max_transactions - length sel) txs in
        let '(sel', rest) := take_loop max_transactions (sel ++ selected s) parts' in
        (sel', remaining s :: rest)
  end.

Definition take_for_block (m : Mempool) (max_transactions : nat) :
  list Transaction * Mempool :=
  if ((max_transactions =? 0)%nat || mempool_is_empty m)%bool then ([], m)
  else
    let '(sel, parts) := take_loop max_transactions [] (partitions m) in
    (sel, {| partition_count := partition_count m; partitions := parts |}).

(** ** The task and its channel *)

Definition CHANNEL_CAPACITY : nat := 1024.

Record PartitionTask := {
  inbox : list MempoolCommand;
  transactions : list Transaction;
  answered : list (MempoolCommand * MempoolResponse);
}.

Definition spawn_partition_task : PartitionTask :=
  {| inbox := []; transactions := []; answered := [] |}.

(** A send completes when the channel has room; the task receives in order. *)
Inductive task_step : PartitionTask -> PartitionTask -> Prop :=
| task_send c t :
    (length (inbox t) < CHANNEL_CAPACITY)%nat ->
    task_step t {| inbox := inbox t ++ [c]; transactions := transactions t;
                   answered := answered t |}
| task_receive c inbox' txs done :
    task_step {| inbox := c :: inbox'; transactions := txs; answered := done |}
      {| inbox := inbox'; transactions := (handle_command txs c).1;
         answered := done ++ [(c, (handle_command txs c).2)] |}.

Definition task_reachable : PartitionTask -> Prop := rtc task_step spawn_partition_task.

(** ** Taking from one partition *)

Definition from_sender (a : bytes) (txs : list Transaction) : list Transaction :=
  filter (fun tx => tx_from tx = a) txs.

Lemma from_sender_app a l k : from_sender a (l ++ k) = from_sender a l ++ from_sender a k.
Proof. apply filter_app. Qed.

Lemma from_sender_one a tx :
  from_sender a [tx] = if decide (tx_from tx = a) then [tx] else [].
Proof. done. Qed.

(** The loop invariant: [taken] is what the loop has gone through. *)
Record take_inv (max : nat) (taken : list Transaction) (s : TakeState) : Prop := {
  ti_length : (length (selected s) <= max)%nat;
  ti_perm : selected s ++ remaining s ≡ₚ taken;
  ti_count : forall a, default 0%nat (selected_per_sender s !! a) =
                       length (from_sender a (selected s));
  ti_cap : forall a, (length (from_sender a (selected s)) <=
                      MAX_TRANSACTIONS_PER_ADDRESS_PER_BLOCK)%nat;
  ti_fifo : forall a, from_sender a (selected s) ++ from_sender a (remaining s) =
                      from_sender a taken;
  ti_max : length (selected s) <> max -> forall a, from_sender a (remaining s) <> [] ->
           length (from_sender a (selected s)) = MAX_TRANSACTIONS_PER_ADDRESS_PER_BLOCK;
}.

Lemma take_step_inv max taken s tx :
  take_inv max taken s -> take_inv max (taken ++ [tx]) (take_step max s tx).
Proof.
  intros [L P C K F M]. unfold take_step.
  destruct (Nat.eqb_spec (length (selected s)) max) as [E|E];
    [|destruct (Nat.ltb_spec (default 0%nat (selected_per_sender s !! tx_from tx))
                 MAX_TRANSACTIONS_PER_ADDRESS_PER_BLOCK) as [T|T]];
    split; simpl; try done.
  - by rewrite app_assoc, P.
  - intros a. by rewrite !from_sender_app, app_assoc, F.
  - rewrite length_app. simpl. lia.
  - rewrite <- app_assoc. rewrite (Permutation_app_comm [tx]). by rewrite app_assoc, P.
  - intros a. rewrite from_sender_app, from_sender_one, length_app.
    destruct (decide (tx_from tx = a)) as [<-|N].
    + rewrite lookup_insert_eq. simpl. rewrite C. lia.
    + rewrite lookup_insert_ne by done. simpl. rewrite C. lia.
  - intros a. rewrite from_sender_app, from_sender_one, length_app.
    destruct (decide (tx_from tx = a)) as [<-|N]; simpl.
    + rewrite <- C. lia.
    + rewrite Nat.add_0_r. apply K.
  - intros a. rewrite !from_sender_app, from_sender_one, <- (F a).
    destruct (decide (tx_from tx = a)) as [<-|N]; [|by rewrite !app_nil_r].
    destruct (from_sender (tx_from tx) (remaining s)) as [|x l] eqn:R;
      [by rewrite !app_nil_r|].
    specialize (M E (tx_from tx)). rewrite R, <- C in M. specialize (M ltac:(done)). lia.
  - intros E' a R. rewrite from_sender_app, length_app. specialize (M E a R).
    specialize (K a). rewrite from_sender_one.
    destruct (decide (tx_from tx = a)) as [<-|N]; simpl; [rewrite C in T; lia|lia].
  - by rewrite app_assoc, P.
  - intros a. destruct (decide (tx_from tx = a)) as [<-|N].
    + by rewrite lookup_insert_eq, C.
    + by rewrite lookup_insert_ne, C.
  - intros a. by rewrite !from_sender_app, app_assoc, F.
  - intros _ a. rewrite from_sender_app, from_sender_one.
    destruct (decide (tx_from tx = a)) as [<-|N].
    + intros _. specialize (K (tx_from tx)). rewrite C in T. lia.
    + rewrite app_nil_r. by apply M.
Qed.

Lemma take_partition_inv max txs : take_inv max txs (take_partition max txs).
Proof.
  unfold take_partition.
  enough (forall taken s, take_inv max taken s ->
            take_inv max (taken ++ txs) (foldl (take_step max) s txs)) as G.
  { apply (G []). split; simpl; [lia|done|done| |done|naive_solver]. intros a. simpl. lia. }
  induction txs as [|tx txs IH]; intros taken s I; simpl; [by rewrite app_nil_r|].
  rewrite cons_middle, app_assoc. by apply IH, take_step_inv.
Qed.

(** ** Taking from all partitions *)

(** What one partition gave ([out.1]) and kept ([out.2]). *)
Record split_of (txs : list Transaction) (out : list Transaction * list Transaction) : Prop := {
  so_perm : out.1 ++ out.2 ≡ₚ txs;
  so_cap : forall a, (length (from_sender a out.1) <=
                      MAX_TRANSACTIONS_PER_ADDRESS_PER_BLOCK)%nat;
  so_fifo : forall a, from_sender a out.1 ++ from_sender a out.2 = from_sender a txs;
}.

Definition exhausted (out : list Transaction * list Transaction) : Prop :=
  forall a, from_sender a out.2 <> [] ->
  length (from_sender a out.1) = MAX_TRANSACTIONS_PER_ADDRESS_PER_BLOCK.

(** Partitions the loop does not reach give nothing. *)
Definition untouched (txs : list Transaction) : list Transaction * list Transaction := ([], txs).

Lemma untouched_split parts :
  concat (untouched <$> parts).*1 = [] /\ (untouched <$> parts).*2 = parts /\
  Forall2 split_of parts (untouched <$> parts).
Proof.
  induction parts as [|txs parts (E1 & E2 & F)]; [by repeat constructor|].
  rewrite !fmap_cons. simpl. rewrite E1, E2. split; [done|]. split; [done|].
  constructor; [|done]. split; simpl; [done| |done]. intros. lia.
Qed.

Lemma take_loop_split max parts sel sel' rest :
  (length sel <= max)%nat -> take_loop max sel parts = (sel', rest) ->
  (length sel' <= max)%nat /\ exists outs,
    sel' = sel ++ concat outs.*1 /\ rest = outs.*2 /\ Forall2 split_of parts outs /\
    (length sel' <> max -> Forall exhausted outs).
Proof.
  revert sel sel' rest. induction parts as [|txs parts IH]; intros sel sel' rest L; simpl.
  { intros [= <- <-]. split; [done|]. exists []. rewrite app_nil_r. by repeat constructor. }
  destruct (Nat.eqb_spec (length sel) max) as [E|E].
  { intros [= <- <-]. split; [done|]. exists (untouched <$> (txs :: parts)).
    destruct (untouched_split (txs :: parts)) as (-> & -> & S).
    by rewrite app_nil_r. }
  destruct (take_partition_inv (max - length sel) txs) as [Ls P C K F M].
  set (s := take_partition (max - length sel) txs) in *.
  destruct (take_loop max _ parts) as [sel1 rest1] eqn:T. intros [= <- <-].
  apply IH in T as (L' & outs & -> & -> & S & X); [|rewrite length_app; lia].
  split; [done|]. exists ((selected s, remaining s) :: outs). simpl. rewrite <- app_assoc.
  split; [done|]. split; [done|]. split; [by constructor|].
  intros N. constructor; [|apply X; by rewrite <- app_assoc].
  intros a R. apply M; [|done]. intros Full. rewrite !length_app, Full in N, L'. lia.
Qed.

(** ** Routing *)

(** Every transaction sits in the partition of its sender. *)
Record routed (m : Mempool) : Prop := {
  rt_count : (0 < partition_count m)%nat;
  rt_length : length (partitions m) = partition_count m;
  rt_sender : forall i txs tx, partitions m !! i = Some txs -> tx ∈ txs ->
              partition_for_address m (tx_from tx) = i;
}.

Lemma partition_for_address_lt m a :
  (0 < partition_count m)%nat -> (partition_for_address m a < partition_count m)%nat.
Proof.
  intros P. unfold partition_for_address. destruct a as [|b a]; [done|].
  pose proof (Z.mod_pos_bound (address_hash (b :: a)) (Z.of_nat (partition_count m))). lia.
Qed.

Lemma with_partition_count_routed n : routed (with_partition_count n).
Proof.
  split; simpl; [lia|by rewrite length_replicate|].
  intros i txs tx I T. apply lookup_replicate in I as [-> _]. by apply not_elem_of_nil in T.
Qed.

Lemma add_transaction_routed {E} m tx : routed m ->
  exists m', add_transaction (E := E) m tx = Ok m' /\ routed m' /\
    partition_count m' = partition_count m.
Proof.
  intros [P L R]. unfold add_transaction.
  pose proof (partition_for_address_lt m (tx_from tx) P) as Lt. rewrite <- L in Lt.
  apply lookup_lt_is_Some_2 in Lt as [txs Etxs]. rewrite Etxs.
  eexists. split; [done|]. split; [|done]. split; simpl; [done|by rewrite length_insert|].
  change (partition_for_address _ (tx_from ?t)) with (partition_for_address m (tx_from t)).
  intros i l t I T. destruct (decide (partition_for_address m (tx_from tx) = i)) as [<-|N].
  - rewrite list_lookup_insert_eq in I by (by apply lookup_lt_Some in Etxs).
    injection I as <-. apply elem_of_app in T as [T| ->%list_elem_of_singleton]; [|done].
    by apply (R _ txs).
  - rewrite list_lookup_insert_ne in I by done. by apply (R _ l).
Qed.

Lemma add_transaction_pending {E} m tx m' :
  add_transaction (E := E) m tx = Ok m' ->
  concat (partitions m') ≡ₚ tx :: concat (partitions m).
Proof.
  unfold add_transaction. intros A.
  destruct (partitions m !! partition_for_address m (tx_from tx)) as [txs|] eqn:L; [|done].
  injection A as <-. cbn [partitions handle_command fst].
  rewrite <- (list_insert_id _ _ _ L) at 2. rewrite !insert_take_drop by by eapply lookup_lt_Some.
  rewrite !concat_app. cbn [concat]. rewrite <- app_assoc. cbn [app].
  by rewrite <- !Permutation_middle.
Qed.

Lemma mempool_len_pending m : mempool_len m = length (pending_transactions m).
Proof.
  unfold mempool_len, pending_transactions.
  enough (forall n acc, foldl (fun t txs => (t + length txs)%nat) (n + length acc)%nat (partitions m) =
            (n + length (foldl (fun p txs => p ++ txs) acc (partitions m)))%nat) as G by apply (G 0%nat []).
  induction (partitions m) as [|txs parts IH]; intros n acc; simpl; [done|].
  by rewrite <- IH, length_app, Nat.add_assoc.
Qed.

Lemma pending_concat m : pending_transactions m = concat (partitions m).
Proof.
  unfold pending_transactions.
  enough (forall acc, foldl (fun p txs => p ++ txs) acc (partitions m) =
            acc ++ concat (partitions m)) as G by apply (G []).
  induction (partitions m) as [|txs parts IH]; intros acc; simpl; [by rewrite app_nil_r|].
  by rewrite IH, app_assoc.
Qed.

Lemma from_sender_nil a txs :
  (forall tx, tx ∈ txs -> tx_from tx <> a) -> from_sender a txs = [].
Proof.
  intros N. induction txs as [|tx txs IH]; [done|]. unfold from_sender.
  rewrite filter_cons, decide_False by (apply N; left). apply IH. intros. apply N. by right.
Qed.

(** The transactions of a sender all come from one list. *)
Lemma from_sender_concat a i (parts : list (list Transaction)) :
  (forall j txs tx, parts !! j = Some txs -> tx ∈ txs -> tx_from tx = a -> j = i) ->
  from_sender a (concat parts) = from_sender a (default [] (parts !! i)).
Proof.
  revert i. induction parts as [|txs parts IH]; intros i R; simpl; [by destruct i|].
  rewrite from_sender_app. destruct i as [|i]; simpl.
  - rewrite (from_sender_nil a (concat parts)), app_nil_r; [done|].
    intros tx T E. apply list_elem_of_In, in_concat in T as (l & Il & It).
    apply list_elem_of_In, list_elem_of_lookup in Il as [j J].
    apply list_elem_of_In in It. by specialize (R (S j) l tx J It E).
  - rewrite from_sender_nil; [|intros tx T E; by specialize (R 0%nat txs tx eq_refl T E)].
    apply IH. intros j l tx J T E. specialize (R (S j) l tx J T E). congruence.
Qed.

Lemma split_of_elem txs out tx :
  split_of txs out -> tx ∈ out.1 \/ tx ∈ out.2 -> tx ∈ txs.
Proof. intros [P _ _] H. rewrite <- P. by apply elem_of_app. Qed.

Lemma Forall2_split_perm parts outs :
  Forall2 split_of parts outs -> concat outs.*1 ++ concat outs.*2 ≡ₚ concat parts.
Proof.
  induction 1 as [|txs [o1 o2] parts outs S F IH]; [done|]. simpl.
  rewrite <- IH, <- (so_perm _ _ S). simpl. solve_Permutation.
Qed.

(** What [take_for_block] does to a routed mempool, sender by sender. *)
Lemma take_for_block_split m max sel m' :
  routed m -> take_for_block m max = (sel, m') ->
  partition_count m' = partition_count m /\ (length sel <= max)%nat /\ exists outs,
    sel = concat outs.*1 /\ partitions m' = outs.*2 /\
    Forall2 split_of (partitions m) outs /\ (length sel <> max -> Forall exhausted outs).
Proof.
  intros R. unfold take_for_block.
  destruct ((max =? 0)%nat || mempool_is_empty m) eqn:Z.
  - intros [= <- <-]. split; [done|]. split; [simpl; lia|].
    exists (untouched <$> partitions m).
    destruct (untouched_split (partitions m)) as (-> & -> & S). do 3 (split; [done|]).
    intros N. apply orb_true_iff in Z as [Z|Z]; apply Nat.eqb_eq in Z; [by subst|].
    rewrite mempool_len_pending, pending_concat in Z. apply nil_length_inv in Z.
    apply Forall_fmap, Forall_forall. intros txs T a. simpl. intros A. destruct A.
    apply from_sender_nil. intros tx Tx. apply list_elem_of_In in T, Tx.
    assert (In tx (concat (partitions m))) as I by (apply in_concat; eauto).
    by rewrite Z in I.
  - destruct (take_loop max [] (partitions m)) as [sel1 parts] eqn:T. intros [= <- <-].
    split; [done|]. apply take_loop_split in T; [|simpl; lia].
    destruct T as (L & outs & -> & -> & ?). split; [done|]. by exists outs.
Qed.

Lemma split_sender m outs a :
  routed m -> Forall2 split_of (partitions m) outs ->
  let i := partition_for_address m a in
  from_sender a (concat outs.*1) = from_sender a (default [] (fst <$> outs !! i)) /\
  from_sender a (concat outs.*2) = from_sender a (default [] (snd <$> outs !! i)) /\
  from_sender a (concat (partitions m)) = from_sender a (default [] (partitions m !! i)).
Proof.
  intros R S i. rewrite <- !list_lookup_fmap.
  assert (forall j out tx, outs !! j = Some out -> tx ∈ out.1 \/ tx ∈ out.2 ->
            tx_from tx = a -> j = i) as G.
  { intros j out tx J T E. destruct (Forall2_lookup_r _ _ _ _ _ S J) as (txs & Jt & So).
    apply (split_of_elem _ _ _ So) in T. subst a i. symmetry. by eapply rt_sender. }
  split; [|split]; apply from_sender_concat.
  - intros j l tx J T. apply list_lookup_fmap_Some in J as (out & -> & J). eauto.
  - intros j l tx J T. apply list_lookup_fmap_Some in J as (out & -> & J). eauto.
  - intros j l tx J T E. subst a i. symmetry. by eapply rt_sender.
Qed.

Lemma take_for_block_routed m max sel m' :
  routed m -> take_for_block m max = (sel, m') -> routed m'.
Proof.
  intros R T. destruct (take_for_block_split m max sel m' R T) as (C & _ & outs & _ & P & S & _).
  destruct R as [Pos L R]. split; [by rewrite C| |].
  - rewrite C, P, length_fmap. by rewrite <- L, (Forall2_length _ _ _ S).
  - intros i l tx I X. rewrite P in I. apply list_lookup_fmap_Some in I as (out & -> & I).
    destruct (Forall2_lookup_r _ _ _ _ _ S I) as (txs & It & So).
    assert (partition_for_address m' (tx_from tx) = partition_for_address m (tx_from tx)) as ->
      by (unfold partition_for_address; by rewrite C).
    apply (R _ txs); [done|]. eapply split_of_elem; [done|by right].
Qed.

Lemma take_for_block_perm m max sel m' :
  routed m -> take_for_block m max = (sel, m') ->
  (length sel <= max)%nat /\ sel ++ pending_transactions m' ≡ₚ pending_transactions m.
Proof.
  intros R T. destruct (take_for_block_split m max sel m' R T) as (_ & L & outs & -> & P & S & _).
  split; [done|]. rewrite !pending_concat, P. by apply Forall2_split_perm.
Qed.

(** ** Reachable mempools *)

Inductive mempool_reachable : Mempool -> Prop :=
| mr_new n : mempool_reachable (with_partition_count n)
| mr_add m m' tx : mempool_reachable m -> add_transaction (E := False) m tx = Ok m' ->
    mempool_reachable m'
| mr_take m m' max sel : mempool_reachable m -> take_for_block m max = (sel, m') ->
    mempool_reachable m'.

Lemma mempool_reachable_routed m : mempool_reachable m -> routed m.
Proof.
  induction 1 as [n|m m' tx _ R A|m m' max sel _ R T].
  - apply with_partition_count_routed.
  - destruct (add_transaction_routed (E := False) m tx R) as (m1 & E & R1 & _). congruence.
  - by eapply take_for_block_routed.
Qed.

(** ** The task runs the commands in the order they were sent *)

(** All commands sent so far, in order: answered, then waiting. *)
Definition sent (t : PartitionTask) : list MempoolCommand := (answered t).*1 ++ inbox t.

(** The commands run one after the other, without a channel. *)
Fixpoint run_commands (txs : list Transaction) (cs : list MempoolCommand) :
  list Transaction * list MempoolResponse :=
  match cs with
  | [] => (txs, [])
  | c :: cs' =>
      let '(txs', r) := handle_command txs c in
      let '(txs'', rs) := run_commands txs' cs' in
      (txs'', r :: rs)
  end.

Definition added_transactions (log : list (MempoolCommand * MempoolResponse)) : list Transaction :=
  omap (fun p => match p.1 with AddTransaction tx => Some tx | _ => None end) log.

Definition taken_transactions (log : list (MempoolCommand * MempoolResponse)) : list Transaction :=
  concat ((fun p => match p.2 with Taken txs => txs | _ => [] end) <$> log).

Lemma run_commands_snoc txs cs c :
  run_commands txs (cs ++ [c]) =
  let '(txs', rs) := run_commands txs cs in
  ((handle_command txs' c).1, rs ++ [(handle_command txs' c).2]).
Proof.
  revert txs. induction cs as [|d cs IH]; intros txs; simpl.
  - by destruct (handle_command txs c).
  - destruct (handle_command txs d) as [txs1 r]. rewrite IH.
    by destruct (run_commands txs1 cs) as [txs2 rs].
Qed.

Lemma task_step_sent t t' : task_step t t' -> exists cs, sent t' = sent t ++ cs.
Proof.
  destruct 1 as [c t L|c inbox' txs log]; unfold sent; simpl.
  - exists [c]. by rewrite app_assoc.
  - exists []. rewrite fmap_app, <- app_assoc, app_nil_r. done.
Qed.

Lemma task_step_run t t' :
  task_step t t' -> run_commands [] (answered t).*1 = (transactions t, (answered t).*2) ->
  run_commands [] (answered t').*1 = (transactions t', (answered t').*2).
Proof.
  destruct 1 as [c t L|c inbox' txs log]; simpl; [done|]. intros E.
  rewrite !fmap_app. simpl. by rewrite run_commands_snoc, E.
Qed.

Lemma handle_command_conserves txs c :
  let '(txs', r) := handle_command txs c in
  taken_transactions [(c, r)] ++ txs' ≡ₚ txs ++ added_transactions [(c, r)].
Proof.
  destruct c as [tx|max| |]; simpl; rewrite ?app_nil_r; try done.
  unfold taken_transactions. simpl. rewrite app_nil_r.
  apply (ti_perm _ _ _ (take_partition_inv max txs)).
Qed.

Lemma task_step_conserves t t' :
  task_step t t' ->
  taken_transactions (answered t) ++ transactions t ≡ₚ added_transactions (answered t) ->
  taken_transactions (answered t') ++ transactions t' ≡ₚ added_transactions (answered t').
Proof.
  destruct 1 as [c t L|c inbox' txs log]; simpl; [done|]. intros E.
  unfold taken_transactions, added_transactions in *.
  rewrite fmap_app, concat_app, omap_app, <- E, <- !app_assoc.
  apply Permutation_app_head. pose proof (handle_command_conserves txs c) as H.
  by destruct (handle_command txs c).
Qed.

(** ** Properties *)

(** [C22] A block takes at most [max_transactions]
    transactions and at most 100 of any sender; nothing is lost or duplicated;
    and each sender's transactions leave the pool in the order they entered
    it, although the order between senders is not kept. *)
Theorem take_for_block_spec m max sel m' :
  mempool_reachable m -> take_for_block m max = (sel, m') ->
  (length sel <= max)%nat /\
  (forall a, (length (from_sender a sel) <= MAX_TRANSACTIONS_PER_ADDRESS_PER_BLOCK)%nat) /\
  sel ++ pending_transactions m' ≡ₚ pending_transactions m /\
  (forall a, from_sender a sel ++ from_sender a (pending_transactions m') =
             from_sender a (pending_transactions m)).
Proof.
  intros R%mempool_reachable_routed T.
  destruct (take_for_block_split m max sel m' R T) as (_ & L & outs & -> & P & S & _).
  split; [done|]. rewrite !pending_concat, P. split; [|split].
  - intros a. destruct (split_sender m outs a R S) as (-> & _ & _).
    destruct (outs !! _) as [out|] eqn:O; simpl; [|lia].
    destruct (Forall2_lookup_r _ _ _ _ _ S O) as (txs & _ & So). apply So.
  - by apply Forall2_split_perm.
  - intros a. destruct (split_sender m outs a R S) as (-> & -> & ->).
    destruct (outs !! _) as [out|] eqn:O; simpl.
    + destruct (Forall2_lookup_r _ _ _ _ _ S O) as (txs & -> & So). apply So.
    + apply lookup_ge_None in O. rewrite <- (Forall2_length _ _ _ S) in O.
      apply lookup_ge_None in O. by rewrite O.
Qed.

(** A block that is not full leaves behind only
    senders that reached the limit of 100: no transaction is held back without
    a reason. *)
Theorem take_for_block_maximal m max sel m' a :
  mempool_reachable m -> take_for_block m max = (sel, m') ->
  (length sel < max)%nat -> from_sender a (pending_transactions m') <> [] ->
  length (from_sender a sel) = MAX_TRANSACTIONS_PER_ADDRESS_PER_BLOCK.
Proof.
  intros R%mempool_reachable_routed T L N.
  destruct (take_for_block_split m max sel m' R T) as (_ & _ & outs & -> & P & S & X).
  rewrite pending_concat, P in N.
  destruct (split_sender m outs a R S) as (-> & E & _). rewrite E in N.
  specialize (X ltac:(lia)). rewrite Forall_lookup in X.
  destruct (outs !! _) as [out|] eqn:O; simpl in *; [|done]. by apply (X _ _ O).
Qed.

(** [C2] Whatever the interleaving of senders with
    the task, the channel holds at most 1024 commands, the answers are those of
    running the commands one at a time in the order they were sent, commands
    once sent keep their place, and every transaction added was either taken
    once or is still pending. *)
Theorem partition_task_linearizable t :
  task_reachable t ->
  (length (inbox t) <= CHANNEL_CAPACITY)%nat /\
  run_commands [] (answered t).*1 = (transactions t, (answered t).*2) /\
  (forall t', rtc task_step t t' -> exists cs, sent t' = sent t ++ cs) /\
  taken_transactions (answered t) ++ transactions t ≡ₚ added_transactions (answered t).
Proof.
  intros R. split; [|split; [|split]].
  - revert R. apply (rtc_ind_r (fun t => (length (inbox t) <= CHANNEL_CAPACITY)%nat)); [simpl; lia|].
    intros u v _ St L. destruct St; simpl in *; rewrite ?length_app; simpl; lia.
  - revert R. apply (rtc_ind_r (fun t =>
      run_commands [] (answered t).*1 = (transactions t, (answered t).*2))); [done|].
    intros u v _. apply task_step_run.
  - clear R. induction 1 as [u|u v w St _ [cs IH]]; [exists []; by rewrite app_nil_r|].
    apply task_step_sent in St as [cs' E]. rewrite IH, E, <- app_assoc. by eexists.
  - revert R. apply (rtc_ind_r (fun t =>
      taken_transactions (answered t) ++ transactions t ≡ₚ added_transactions (answered t)));
      [done|]. intros u v _. apply task_step_conserves.
Qed.

(** ** Witnesses *)

(** Adding a list of transactions to a mempool. *)
Definition add_all (m : Mempool) (txs : list Transaction) : Mempool :=
  foldl (fun m tx => match add_transaction (E := False) m tx with Ok m' => m' | _ => m end) m txs.

Lemma add_all_reachable m txs : mempool_reachable m -> mempool_reachable (add_all m txs).
Proof.
  revert m. induction txs as [|tx txs IH]; intros m R; simpl; [done|]. apply IH.
  destruct (add_transaction_routed (E := False) m tx (mempool_reachable_routed m R))
    as (m' & E & _). rewrite E. by eapply mr_add.
Qed.

From S2P Require Import Concrete.

Definition sample_pool : Mempool :=
  add_all (with_partition_count 2) [sample_tx 1; sample_tx 2; sample_tx 3].

Lemma sample_pool_reachable : mempool_reachable sample_pool.
Proof. apply add_all_reachable, mr_new. Qed.

Lemma take_for_block_spec_witness :
  let '(sel, m') := take_for_block sample_pool 2 in
  (length sel <= 2)%nat /\
  (forall a, (length (from_sender a sel) <= MAX_TRANSACTIONS_PER_ADDRESS_PER_BLOCK)%nat) /\
  sel ++ pending_transactions m' ≡ₚ pending_transactions sample_pool /\
  (forall a, from_sender a sel ++ from_sender a (pending_transactions m') =
             from_sender a (pending_transactions sample_pool)).
Proof.
  destruct (take_for_block sample_pool 2) as [sel m'] eqn:T.
  exact (take_for_block_spec sample_pool 2 sel m' sample_pool_reachable T).
Defined.

(** 101 transactions of one sender: 100 are taken, one stays. *)
Definition crowded_pool : Mempool :=
  add_all (with_partition_count 1) (sample_tx ∘ Z.of_nat <$> seq 0 101).

Lemma crowded_pool_reachable : mempool_reachable crowded_pool.
Proof. apply add_all_reachable, mr_new. Qed.

Lemma take_for_block_maximal_witness :
  length (from_sender (fill 4 1) (take_for_block crowded_pool 200).1) =
  MAX_TRANSACTIONS_PER_ADDRESS_PER_BLOCK.
Proof.
  apply (take_for_block_maximal crowded_pool 200 _ (take_for_block crowded_pool 200).2).
  - apply crowded_pool_reachable.
  - by destruct (take_for_block crowded_pool 200).
  - apply Nat.ltb_lt. vm_compute. reflexivity.
  - assert (length (from_sender (fill 4 1)
              (pending_transactions (take_for_block crowded_pool 200).2)) = 1%nat) as E
      by (vm_compute; reflexivity).
    intros N. rewrite N in E. discriminate E.
Defined.

(** A task that was sent one transaction and has received it. *)
Definition busy_task : PartitionTask :=
  {| inbox := []; transactions := [sample_tx 1];
     answered := [(AddTransaction (sample_tx 1), NoResponse)] |}.

Lemma busy_task_reachable : task_reachable busy_task.
Proof.
  eapply rtc_l; [apply (task_send (AddTransaction (sample_tx 1))); simpl; unfold CHANNEL_CAPACITY; lia|].
  simpl. apply rtc_once. apply (task_receive (AddTransaction (sample_tx 1)) [] [] []).
Qed.

Lemma partition_task_linearizable_witness :
  (length (inbox busy_task) <= CHANNEL_CAPACITY)%nat /\
  run_commands [] (answered busy_task).*1 = (transactions busy_task, (answered busy_task).*2) /\
  (forall t', rtc task_step busy_task t' -> exists cs, sent t' = sent busy_task ++ cs) /\
  taken_transactions (answered busy_task) ++ transactions busy_task
    ≡ₚ added_transactions (answered busy_task).
Proof. exact (partition_task_linearizable busy_task busy_task_reachable). Defined.
