(* ===== verification/Votes.v ===== *)
(** * Votes, finality and slashing ([src/consensus/mod.rs], first part)

    Signed votes, the collector and its tally, finalisation by more than two
    thirds of the active stake, and the slashing of double voters.  The last
    part proves accountable safety: two conflicting finalised blocks expose
    more than a third of the stake to slashing. *)

From S2P Require Import Prelude Orders Bytes Externals Types.

(** ** Checked folds over stakes *)

(** [iter().map(f).sum()] in a [w]-bit unsigned type. *)
Definition sum_uint `{Profile} {E A} (w : Z) (f : A -> Z) (l : list A) : outcome E Z :=
  foldl (fun acc x => acc ≫= fun s => arith w (s + f x)) (Ok 0) l.

Section sum_uint.
Context `{Profile} {E A : Type} (w : Z) (f : A -> Z).

Lemma sum_uint_from (s : Z) l :
  0 <= s -> Forall (fun x => 0 <= f x) l -> s + sumZ f l < 2 ^ w ->
  foldl (fun acc x => acc ≫= fun s => arith (E := E) w (s + f x)) (Ok s) l = Ok (s + sumZ f l).
Proof.
  intros S F. revert s S. induction F as [|x l X F IH]; intros s S B; simpl in *.
  { by rewrite Z.add_0_r. }
  pose proof (sumZ_nonneg f l F). unfold sumZ in *. rewrite arith_fits by lia.
  rewrite IH by lia. f_equal. lia.
Qed.

Lemma sum_uint_Ok l :
  Forall (fun x => 0 <= f x) l -> sumZ f l < 2 ^ w -> sum_uint (E := E) w f l = Ok (sumZ f l).
Proof. intros F B. unfold sum_uint. by rewrite sum_uint_from. Qed.

(** In every build, for values that are not negative. *)
Lemma sum_uint_spec l : 0 <= w -> Forall (fun x => 0 <= f x) l ->
  sum_uint (E := E) w f l =
  if overflow_checks && negb (fits w (sumZ f l)) then Panic else Ok (wrap w (sumZ f l)).
Proof.
  intros W. induction l as [|x l IH] using rev_ind.
  { intros _. change (sumZ f []) with 0. assert (0 <= 0 < 2 ^ w) as Z0 by lia.
    rewrite (proj2 (fits_true w 0) Z0), andb_false_r. by rewrite wrap_small. }
  intros [F [P _]%Forall_cons]%Forall_app. unfold sum_uint. rewrite foldl_snoc, sumZ_app, sumZ_cons.
  fold (sum_uint (E := E) w f l). rewrite IH by done. change (sumZ f []) with 0. rewrite Z.add_0_r.
  pose proof (sumZ_nonneg f l F) as N. destruct overflow_checks eqn:C; cbn [andb].
  - destruct (fits w (sumZ f l)) eqn:Fl; cbn [negb].
    + cbn [mbind outcome_bind]. apply fits_true in Fl. rewrite wrap_small by done. rewrite arith_spec, C. done.
    + apply fits_false in Fl. rewrite (proj2 (fits_false w (sumZ f l + f x))) by lia. done.
  - cbn [mbind outcome_bind]. rewrite arith_spec, C. cbn [andb]. by rewrite wrap_add_l.
Qed.
End sum_uint.

(** ** Votes *)

Record ConsensusVote := {
  vote_height : Z;
  vote_block_hash : bytes;
  vote_voter : bytes;
  vote_approve : bool;
  vote_signature : bytes;
}.

#[global] Instance ConsensusVote_eq_dec : EqDecision ConsensusVote.
Proof. solve_decision. Defined.

#[global] Instance ConsensusVote_wf : WellFormed ConsensusVote := fun v =>
  u64 (vote_height v) /\ vec_ok (vote_block_hash v) /\ vec_ok (vote_voter v) /\
  vec_ok (vote_signature v).

Record VoteTally := {
  approve_stake : Z;
  reject_stake : Z;
  total_votes : nat;
}.

Record VoteCollector := { votes_by_voter : gmap bytes ConsensusVote }.

Module VoteError.
Inductive t :=
| InvalidVoterKeyLength
| InvalidSignatureLength
| InvalidSignature
| UnknownValidator
| DuplicateVote
| Serialization (message : string).
End VoteError.

Definition VoteCollector_new : VoteCollector := {| votes_by_voter := ∅ |}.

Definition votes_len (c : VoteCollector) : nat := size (votes_by_voter c).

Definition votes_is_empty (c : VoteCollector) : bool :=
  bool_decide (votes_by_voter c = ∅).

(** [validators.iter().find(address matches and stake > 0).map(stake)] *)
Definition validator_stake (validators : list Validator) (address : bytes) : option Z :=
  val_stake <$>
  head (filter (fun v => val_address v = address /\ 0 < val_stake v) validators).

Definition clear_vote_signature (v : ConsensusVote) : ConsensusVote := {|
  vote_height := vote_height v; vote_block_hash := vote_block_hash v;
  vote_voter := vote_voter v; vote_approve := vote_approve v; vote_signature := [] |}.

Section votes.
Context `{Ed25519, !Bincode ConsensusVote}.

Definition unsigned_vote_bytes (v : ConsensusVote) : outcome VoteError.t bytes :=
  map_err VoteError.Serialization (bincode_serialize (clear_vote_signature v)).

Definition create_signed_vote (height : Z) (block_hash : bytes) (approve : bool)
    (secret_key : bytes) : outcome VoteError.t ConsensusVote :=
  let voter := public_key_of secret_key in
  let vote := {| vote_height := height; vote_block_hash := block_hash; vote_voter := voter;
                 vote_approve := approve; vote_signature := [] |} in
  message ← unsigned_vote_bytes vote;
  Ok {| vote_height := height; vote_block_hash := block_hash; vote_voter := voter;
        vote_approve := approve; vote_signature := ed25519_sign secret_key message |}.

Definition verify_vote (v : ConsensusVote) : outcome VoteError.t bool :=
  if negb (length (vote_voter v) =? 32)%nat then Err VoteError.InvalidVoterKeyLength
  else
    vk ← ok_or VoteError.InvalidVoterKeyLength (verifying_key_from_bytes (vote_voter v));
    if negb (length (vote_signature v) =? 64)%nat then Err VoteError.InvalidSignatureLength
    else
      message ← unsigned_vote_bytes v;
      Ok (ed25519_verify vk message (vote_signature v)).

Definition collect_vote (c : VoteCollector) (v : ConsensusVote) (validators : list Validator) :
  outcome VoteError.t VoteCollector :=
  match validator_stake validators (vote_voter v) with
  | None => Err VoteError.UnknownValidator
  | Some _ =>
      valid ← verify_vote v;
      if negb valid then Err VoteError.InvalidSignature
      else
        match votes_by_voter c !! vote_voter v with
        | Some _ => Err VoteError.DuplicateVote
        | None => Ok {| votes_by_voter := <[vote_voter v := v]> (votes_by_voter c) |}
        end
  end.
End votes.

(** One turn of the loop of [tally]; the [expect]s panic on overflow. *)
Definition tally_step (validators : list Validator) (t : VoteTally) (v : ConsensusVote) :
  outcome VoteError.t VoteTally :=
  stake ← ok_or VoteError.UnknownValidator (validator_stake validators (vote_voter v));
  if vote_approve v then
    approve ← expect (checked 64 (approve_stake t + stake));
    Ok {| approve_stake := approve; reject_stake := reject_stake t;
          total_votes := S (total_votes t) |}
  else
    reject ← expect (checked 64 (reject_stake t + stake));
    Ok {| approve_stake := approve_stake t; reject_stake := reject;
          total_votes := S (total_votes t) |}.

Definition VoteTally_default : VoteTally :=
  {| approve_stake := 0; reject_stake := 0; total_votes := 0 |}.

(** The loop over the votes in the order the iterator yields them. *)
Definition tally_votes (validators : list Validator) (votes : list ConsensusVote) :
  outcome VoteError.t VoteTally :=
  foldl (fun acc v => acc ≫= fun t => tally_step validators t v) (Ok VoteTally_default) votes.

(** [self.votes_by_voter.values()] comes in an unspecified order; by
    [tally_votes_Ok] the result does not depend on it. *)
Definition tally (c : VoteCollector) (validators : list Validator) :
  outcome VoteError.t VoteTally :=
  tally_votes validators (map_to_list (votes_by_voter c)).*2.

Definition is_active (v : Validator) : Prop := 0 < val_stake v.
#[global] Instance is_active_dec v : Decision (is_active v) := _.

Definition address_cmp : Validator -> Validator -> comparison := cmp_on val_address bytes_cmp.

Definition total_active_stake `{Profile} {E} (validators : list Validator) : outcome E Z :=
  sum_uint 64 val_stake (filter is_active validators).

Definition is_block_finalized `{Profile} {E} (t : VoteTally) (validators : list Validator) :
  outcome E bool :=
  total_stake ← total_active_stake validators;
  if total_stake =? 0 then Ok false
  else Ok (total_stake * 2 <? approve_stake t * 3).

(** ** Slashing *)

Record DoubleVoteProof := {
  first_vote : ConsensusVote;
  second_vote : ConsensusVote;
}.

Module SlashingError.
Inductive t :=
| DifferentVoters
| DifferentHeights
| SameBlockHash
| InvalidFirstVote
| InvalidSecondVote
| InvalidPenaltyBps
| ValidatorDoesNotMatchProof.
End SlashingError.

Definition detect_double_vote `{Ed25519, !Bincode ConsensusVote}
    (first second : ConsensusVote) : outcome SlashingError.t DoubleVoteProof :=
  if negb (bool_decide (vote_voter first = vote_voter second))
  then Err SlashingError.DifferentVoters
  else if negb (vote_height first =? vote_height second)
  then Err SlashingError.DifferentHeights
  else if bool_decide (vote_block_hash first = vote_block_hash second)
  then Err SlashingError.SameBlockHash
  else
    match verify_vote first with
    | Ok true =>
        match verify_vote second with
        | Ok true => Ok {| first_vote := first; second_vote := second |}
        | _ => Err SlashingError.InvalidSecondVote
        end
    | _ => Err SlashingError.InvalidFirstVote
    end.

Definition slash_validator_for_double_vote `{Profile} (v : Validator) (proof : DoubleVoteProof)
    (penalty_bps : Z) : outcome SlashingError.t Validator :=
  if (penalty_bps =? 0) || (10000 <? penalty_bps) then Err SlashingError.InvalidPenaltyBps
  else if negb (bool_decide (val_address v = vote_voter (first_vote proof)))
  then Err SlashingError.ValidatorDoesNotMatchProof
  else if val_stake v =? 0 then Ok v
  else
    let computed_penalty := val_stake v * penalty_bps / 10000 in
    let penalty := Z.min (Z.max computed_penalty 1) (val_stake v) in
    stake ← arith 64 (val_stake v - penalty);
    Ok {| val_address := val_address v; val_stake := stake;
          val_locked_until := val_locked_until v |}.


(** ** Looking up stakes *)

(** The validators the code counts, and what each address stands for. *)
Definition active_set (validators : list Validator) : list Validator :=
  filter is_active validators.

(** No two active validators share an address, and stakes are unsigned. *)
Record validators_ok (validators : list Validator) : Prop := {
  vs_distinct : NoDup (val_address <$> active_set validators);
  vs_stakes : sumZ val_stake (active_set validators) < 2 ^ 64;
}.

Section stakes.
Context (validators : list Validator).

Lemma active_set_pos : Forall (fun v => 0 <= val_stake v) (active_set validators).
Proof.
  apply Forall_forall. intros v [A _]%list_elem_of_filter. unfold is_active in A. lia.
Qed.

Lemma validator_stake_head address :
  validator_stake validators address =
  val_stake <$> head (filter (fun v => val_address v = address) (active_set validators)).
Proof.
  unfold validator_stake, active_set. rewrite list_filter_filter.
  done.
Qed.

Lemma validator_stake_Some address s :
  validator_stake validators address = Some s ->
  exists v, v ∈ active_set validators /\ val_address v = address /\ val_stake v = s.
Proof.
  rewrite validator_stake_head. intros (v & H & ->)%fmap_Some.
  apply head_filter_Some in H as [E I]. eauto.
Qed.

Lemma validator_stake_unique v :
  NoDup (val_address <$> active_set validators) -> v ∈ active_set validators ->
  validator_stake validators (val_address v) = Some (val_stake v).
Proof.
  rewrite validator_stake_head. generalize (active_set validators) as l. intros l ND I.
  induction l as [|w l IH]; [by apply elem_of_nil in I|].
  rewrite fmap_cons in ND. apply NoDup_cons in ND as [NI ND].
  rewrite filter_cons. destruct (decide (val_address w = val_address v)) as [E|E].
  - apply elem_of_cons in I as [->|I]; [done|]. destruct NI. rewrite E.
    by apply list_elem_of_fmap_2.
  - apply elem_of_cons in I as [->|I]; [done|]. by apply IH.
Qed.

Lemma total_active_stake_Ok `{Profile} {E} :
  validators_ok validators ->
  total_active_stake (E := E) validators = Ok (sumZ val_stake (active_set validators)).
Proof. intros V. apply sum_uint_Ok; [apply active_set_pos|apply V]. Qed.
End stakes.

(** ** Collected votes *)

(** The collectors the code can hold for a validator set. *)
Inductive collector_reachable `{Ed25519, !Bincode ConsensusVote} (validators : list Validator) :
  VoteCollector -> Prop :=
| reachable_new : collector_reachable validators VoteCollector_new
| reachable_collect c v c' :
    collector_reachable validators c -> collect_vote c v validators = Ok c' ->
    collector_reachable validators c'.

(** The stake behind a vote, and the active validators whose vote is [b]. *)
Definition vote_stake (validators : list Validator) (v : ConsensusVote) : Z :=
  default 0 (validator_stake validators (vote_voter v)).

Definition has_voted (c : VoteCollector) (b : bool) (v : Validator) : Prop :=
  is_active v /\ vote_approve <$> votes_by_voter c !! val_address v = Some b.
#[global] Instance has_voted_dec c b v : Decision (has_voted c b v) := _.

Section collector.
Context `{Ed25519, !Bincode ConsensusVote} (validators : list Validator).

(** What is stored under an address. *)
Record vote_ok (address : bytes) (v : ConsensusVote) : Prop := {
  vote_key : vote_voter v = address;
  vote_verified : verify_vote v = Ok true;
  vote_known : is_Some (validator_stake validators address);
}.

Lemma collect_vote_Ok c v c' :
  collect_vote c v validators = Ok c' <->
  is_Some (validator_stake validators (vote_voter v)) /\ verify_vote v = Ok true /\
  votes_by_voter c !! vote_voter v = None /\
  c' = {| votes_by_voter := <[vote_voter v := v]> (votes_by_voter c) |}.
Proof.
  unfold collect_vote. destruct (validator_stake validators (vote_voter v)) as [s|] eqn:S.
  2: { split; [done|]. by intros ([? ?] & _). }
  destruct (verify_vote v) as [[]|e|]; simpl;
    destruct (votes_by_voter c !! vote_voter v); naive_solver.
Qed.

Lemma reachable_votes c : collector_reachable validators c ->
  map_Forall vote_ok (votes_by_voter c).
Proof.
  induction 1 as [|c v c' _ IH E]; [apply map_Forall_empty|].
  apply collect_vote_Ok in E as (K & V & _ & ->). apply map_Forall_insert_2; done.
Qed.

Lemma reachable_keys c : collector_reachable validators c ->
  vote_voter <$> (map_to_list (votes_by_voter c)).*2 = (map_to_list (votes_by_voter c)).*1.
Proof.
  intros R%reachable_votes. apply map_Forall_to_list in R. rewrite <- list_fmap_compose.
  apply list_fmap_ext. intros i [a v] E. rewrite Forall_forall in R.
  apply list_elem_of_lookup_2 in E. by destruct (R _ E).
Qed.

Lemma vote_stake_nonneg v : 0 <= vote_stake validators v.
Proof.
  unfold vote_stake. destruct (validator_stake validators (vote_voter v)) as [s|] eqn:S; [|done].
  apply validator_stake_Some in S as (w & [A _]%list_elem_of_filter & _ & <-).
  unfold is_active in A. simpl. lia.
Qed.

(** The exact tally of a list of votes. *)
Definition exact_tally (votes : list ConsensusVote) : VoteTally := {|
  approve_stake :=
    sumZ (vote_stake validators) (filter (fun v => vote_approve v = true) votes);
  reject_stake :=
    sumZ (vote_stake validators) (filter (fun v => vote_approve v = false) votes);
  total_votes := length votes |}.

Lemma tally_votes_Ok votes :
  Forall (fun v => is_Some (validator_stake validators (vote_voter v))) votes ->
  approve_stake (exact_tally votes) < 2 ^ 64 -> reject_stake (exact_tally votes) < 2 ^ 64 ->
  tally_votes validators votes = Ok (exact_tally votes).
Proof.
  induction votes as [|v votes IH] using rev_ind; [done|].
  intros [K [[s S] _]%Forall_cons]%Forall_app A R.
  unfold exact_tally in A, R. simpl in A, R. rewrite filter_app, sumZ_app in A, R.
  assert (forall b l, 0 <= sumZ (vote_stake validators) (filter (fun v => vote_approve v = b) l))
    as P by (intros; apply sumZ_nonneg, Forall_forall; intros; apply vote_stake_nonneg).
  pose proof (P true votes). pose proof (P false votes).
  pose proof (P true [v]). pose proof (P false [v]).
  unfold tally_votes. rewrite foldl_snoc. fold (tally_votes validators votes).
  rewrite IH by (unfold exact_tally; simpl; first [done | lia]).
  unfold exact_tally, tally_step. simpl. rewrite S. simpl.
  assert (vote_stake validators v = s) as Es by (unfold vote_stake; by rewrite S).
  rewrite !filter_app, !sumZ_app, length_app, Nat.add_1_r in *. rewrite !filter_cons in *.
  destruct (vote_approve v); simpl in *; rewrite Es in *.
  all: rewrite (proj2 (checked_Some 64 _ _)) by (split; [done|lia]).
  all: simpl; do 2 f_equal; lia.
Qed.

(** Votes and validators are two enumerations of the same stake. *)
Lemma voters_perm c b :
  validators_ok validators -> collector_reachable validators c ->
  vote_voter <$> filter (fun v => vote_approve v = b) (map_to_list (votes_by_voter c)).*2 ≡ₚ
  val_address <$> filter (has_voted c b) validators.
Proof.
  intros V R. pose proof (reachable_votes c R) as I. apply NoDup_Permutation.
  - apply NoDup_fmap_filter. rewrite (reachable_keys c R). apply NoDup_fst_map_to_list.
  - assert (filter (has_voted c b) validators = filter (has_voted c b) (active_set validators)) as ->.
    { unfold active_set. rewrite list_filter_filter. apply list_filter_iff.
      unfold has_voted. naive_solver. }
    apply NoDup_fmap_filter, V.
  - intros a. rewrite !list_elem_of_fmap. split.
    + intros (v & -> & [A Iv]%list_elem_of_filter).
      apply list_elem_of_fmap in Iv as ([k v'] & -> & L%elem_of_map_to_list).
      simpl in *. destruct (I k v' L) as [K _ [s S]].
      apply validator_stake_Some in S as (w & Iw & Ew & _).
      apply list_elem_of_filter in Iw as [Aw Iw]. exists w. split; [congruence|].
      apply list_elem_of_filter. split; [|done]. split; [done|]. rewrite Ew, L. simpl. by f_equal.
    + intros (w & -> & [[Aw (v & L & A)%fmap_Some] Iw]%list_elem_of_filter).
      exists v. destruct (I _ _ L) as [K _ _]. split; [done|].
      apply list_elem_of_filter. split; [done|]. apply list_elem_of_fmap.
      exists (val_address w, v). split; [done|]. by apply elem_of_map_to_list.
Qed.

(** The stake of one side, computed over the votes, is the stake of the
    validators that voted so. *)
Lemma side_stake c b :
  validators_ok validators -> collector_reachable validators c ->
  sumZ (vote_stake validators)
    (filter (fun v => vote_approve v = b) (map_to_list (votes_by_voter c)).*2) =
  sumZ val_stake (filter (has_voted c b) validators).
Proof.
  intros V R. pose proof (voters_perm c b V R) as P.
  transitivity (sumZ (fun a => default 0 (validator_stake validators a))
    (vote_voter <$>
       filter (fun v => vote_approve v = b) (map_to_list (votes_by_voter c)).*2)).
  { by rewrite sumZ_fmap. }
  rewrite (sumZ_perm _ _ _ P), sumZ_fmap. apply sumZ_ext, Forall_forall.
  intros w [[A _] I]%list_elem_of_filter. simpl.
  rewrite validator_stake_unique; [done|apply V|]. by apply list_elem_of_filter.
Qed.

Lemma has_voted_active c b :
  filter (has_voted c b) validators = filter (has_voted c b) (active_set validators).
Proof.
  unfold active_set. rewrite list_filter_filter. apply list_filter_iff.
  unfold has_voted. naive_solver.
Qed.

Lemma side_stake_le c b :
  sumZ val_stake (filter (has_voted c b) validators) <= sumZ val_stake (active_set validators).
Proof. rewrite has_voted_active. apply sumZ_filter_le, active_set_pos. Qed.

Lemma tally_Ok c :
  validators_ok validators -> collector_reachable validators c ->
  tally c validators = Ok {|
    approve_stake := sumZ val_stake (filter (has_voted c true) validators);
    reject_stake := sumZ val_stake (filter (has_voted c false) validators);
    total_votes := votes_len c |}.
Proof.
  intros V R. unfold tally. pose proof (side_stake_le c true). pose proof (side_stake_le c false).
  pose proof (vs_stakes _ V). rewrite tally_votes_Ok; unfold exact_tally; simpl;
    rewrite ?side_stake by done; try lia.
  - do 2 f_equal. by rewrite length_fmap, length_map_to_list.
  - apply Forall_forall. intros v ([k w] & -> & L%elem_of_map_to_list)%list_elem_of_fmap.
    destruct (reachable_votes c R k w L) as [K _ S]. simpl in *. congruence.
Qed.

End collector.

Lemma is_block_finalized_Ok `{Profile} {E} validators t :
  validators_ok validators -> approve_stake t <= sumZ val_stake (active_set validators) ->
  is_block_finalized (E := E) t validators =
  Ok (sumZ val_stake (active_set validators) * 2 <? approve_stake t * 3).
Proof.
  intros V N. unfold is_block_finalized. rewrite total_active_stake_Ok by done. simpl.
  destruct (Z.eqb_spec (sumZ val_stake (active_set validators)) 0) as [Z|Z]; [|done].
  rewrite Z in *. f_equal. symmetry. apply Z.ltb_ge. lia.
Qed.

(** ** Slashing *)

Definition penalty_of (stake bps : Z) : Z := Z.min (Z.max (stake * bps / 10000) 1) stake.

Lemma penalty_of_range stake bps :
  0 < stake -> 1 <= bps <= 10000 -> 1 <= penalty_of stake bps <= stake.
Proof. unfold penalty_of. lia. Qed.

Lemma slash_Ok `{Profile} v pf bps :
  0 < val_stake v < 2 ^ 64 -> 1 <= bps <= 10000 -> val_address v = vote_voter (first_vote pf) ->
  slash_validator_for_double_vote v pf bps =
  Ok {| val_address := val_address v; val_stake := val_stake v - penalty_of (val_stake v) bps;
        val_locked_until := val_locked_until v |}.
Proof.
  intros S B A. unfold slash_validator_for_double_vote.
  destruct (Z.eqb_spec bps 0), (Z.ltb_spec 10000 bps); try lia. simpl.
  rewrite bool_decide_true by done. simpl.
  destruct (Z.eqb_spec (val_stake v) 0); [lia|].
  pose proof (penalty_of_range (val_stake v) bps ltac:(lia) B) as P.
  fold (penalty_of (val_stake v) bps).
  rewrite arith_fits by lia. done.
Qed.

Lemma detect_double_vote_Ok `{Ed25519, !Bincode ConsensusVote} v1 v2 pf :
  detect_double_vote v1 v2 = Ok pf <->
  pf = {| first_vote := v1; second_vote := v2 |} /\ vote_voter v1 = vote_voter v2 /\
  vote_height v1 = vote_height v2 /\ vote_block_hash v1 <> vote_block_hash v2 /\
  verify_vote v1 = Ok true /\ verify_vote v2 = Ok true.
Proof.
  unfold detect_double_vote. rewrite bool_decide_decide.
  destruct (decide (vote_voter v1 = vote_voter v2)); simpl; [|naive_solver].
  destruct (Z.eqb_spec (vote_height v1) (vote_height v2)); simpl; [|naive_solver].
  rewrite bool_decide_decide.
  destruct (decide (vote_block_hash v1 = vote_block_hash v2)); [naive_solver|].
  destruct (verify_vote v1) as [[]|e1|]; destruct (verify_vote v2) as [[]|e2|];
    split; try (intros (-> & ?); naive_solver); intros [= <-]; tauto.
Qed.

(** The approvals of [c] are all for one block at one height. *)
Definition approves_only (c : VoteCollector) (height : Z) (block_hash : bytes) : Prop :=
  map_Forall (fun _ v => vote_approve v = true ->
                vote_height v = height /\ vote_block_hash v = block_hash) (votes_by_voter c).

Section safety.
Context `{Ed25519, !Bincode ConsensusVote} (validators : list Validator).

Lemma has_voted_vote c b v :
  collector_reachable validators c -> has_voted c b v -> exists vote,
    votes_by_voter c !! val_address v = Some vote /\ vote_approve vote = b /\
    vote_voter vote = val_address v /\ verify_vote vote = Ok true.
Proof.
  intros R [_ (vote & L & A)%fmap_Some].
  destruct (reachable_votes validators c R _ _ L) as [K V _]. eauto.
Qed.

(** Two approvals of one validator in collectors for two blocks of a height
    prove its double vote. *)
Lemma conflicting_approvals c1 c2 height hash1 hash2 v :
  collector_reachable validators c1 -> collector_reachable validators c2 ->
  approves_only c1 height hash1 -> approves_only c2 height hash2 -> hash1 <> hash2 ->
  has_voted c1 true v -> has_voted c2 true v -> exists vote1 vote2,
    votes_by_voter c1 !! val_address v = Some vote1 /\
    votes_by_voter c2 !! val_address v = Some vote2 /\
    vote_voter vote1 = val_address v /\
    detect_double_vote vote1 vote2 = Ok {| first_vote := vote1; second_vote := vote2 |}.
Proof.
  intros R1 R2 A1 A2 N V1 V2.
  destruct (has_voted_vote c1 true v R1 V1) as (vote1 & L1 & B1 & K1 & S1).
  destruct (has_voted_vote c2 true v R2 V2) as (vote2 & L2 & B2 & K2 & S2).
  destruct (A1 _ _ L1 B1) as [H1 H1']. destruct (A2 _ _ L2 B2) as [H2 H2'].
  exists vote1, vote2. repeat split; try done. apply detect_double_vote_Ok.
  repeat split; congruence.
Qed.

Lemma finalized_stake `{Profile} c t :
  validators_ok validators -> collector_reachable validators c ->
  tally c validators = Ok t -> is_block_finalized (E := VoteError.t) t validators = Ok true ->
  sumZ val_stake (active_set validators) * 2 <
  sumZ val_stake (filter (has_voted c true) validators) * 3.
Proof.
  intros V R T F. rewrite tally_Ok in T by done. apply (inj Ok) in T as <-.
  rewrite is_block_finalized_Ok in F; [|done|by apply side_stake_le].
  apply (inj Ok) in F. by apply Z.ltb_lt in F.
Qed.

(** Two finalising collectors share approvers holding more than a third. *)
Lemma quorum_intersection c1 c2 :
  sumZ val_stake (active_set validators) * 2 <
    sumZ val_stake (filter (has_voted c1 true) validators) * 3 ->
  sumZ val_stake (active_set validators) * 2 <
    sumZ val_stake (filter (has_voted c2 true) validators) * 3 ->
  sumZ val_stake (active_set validators) <
  sumZ val_stake (filter (fun v => has_voted c1 true v /\ has_voted c2 true v)
                    (active_set validators)) * 3.
Proof.
  rewrite (has_voted_active validators c1), (has_voted_active validators c2). intros Q1 Q2.
  pose proof (sumZ_overlap val_stake (has_voted c1 true) (has_voted c2 true)
    (active_set validators) (active_set_pos validators)). lia.
Qed.

Lemma active_set_stake_lt v :
  validators_ok validators -> v ∈ active_set validators -> 0 < val_stake v < 2 ^ 64.
Proof.
  intros V I. pose proof (sumZ_elem val_stake _ v (active_set_pos validators) I).
  pose proof (vs_stakes _ V). apply list_elem_of_filter in I as [A _].
  unfold is_active in A. lia.
Qed.
End safety.

(** ** Casting votes *)

(** What a validator client does: sign a vote, and hand it to the collector. *)
Record ballot := {
  bal_secret_key : bytes;
  bal_height : Z;
  bal_block_hash : bytes;
  bal_approve : bool;
}.

Section casting.
Context `{Ed25519, !Bincode ConsensusVote} (validators : list Validator).

Definition bal_key (b : ballot) : bytes := public_key_of (bal_secret_key b).

Definition cast_step (acc : outcome VoteError.t VoteCollector) (b : ballot) :
  outcome VoteError.t VoteCollector :=
  c ← acc;
  v ← create_signed_vote (bal_height b) (bal_block_hash b) (bal_approve b) (bal_secret_key b);
  collect_vote c v validators.

Definition cast_ballots (ballots : list ballot) : outcome VoteError.t VoteCollector :=
  foldl cast_step (Ok VoteCollector_new) ballots.

Definition ballot_ok (b : ballot) : Prop :=
  u64 (bal_height b) /\ vec_ok (bal_block_hash b) /\
  is_Some (validator_stake validators (bal_key b)).

Definition ballot_stake (b : ballot) : Z := default 0 (validator_stake validators (bal_key b)).

Context `{!Ed25519Ok, !BincodeOk ConsensusVote}.

Lemma create_signed_vote_Ok height hash approve sk :
  u64 height -> vec_ok hash -> exists v,
    create_signed_vote height hash approve sk = Ok v /\ vote_voter v = public_key_of sk /\
    vote_height v = height /\ vote_block_hash v = hash /\ vote_approve v = approve /\
    verify_vote v = Ok true.
Proof.
  intros U W. set (u := {| vote_height := height; vote_block_hash := hash;
    vote_voter := public_key_of sk; vote_approve := approve; vote_signature := [] |}).
  assert (wf u) as Wu.
  { repeat split; try apply U; try done. unfold vec_ok. simpl. by rewrite public_key_length. }
  destruct (bincode_total u Wu) as [m Em].
  exists {| vote_height := height; vote_block_hash := hash; vote_voter := public_key_of sk;
            vote_approve := approve; vote_signature := ed25519_sign sk m |}.
  unfold create_signed_vote, verify_vote, unsigned_vote_bytes, clear_vote_signature.
  cbn [vote_height vote_block_hash vote_voter vote_approve vote_signature].
  fold u. rewrite Em. cbn [map_err mbind outcome_bind].
  destruct (ed25519_sign_verify sk m) as (vk & Ek & Ev).
  rewrite public_key_length, signature_length, Ek. cbn. rewrite Ev. done.
Qed.

(** Ballots of distinct known validators are all collected. *)
Lemma cast_ballots_Ok ballots :
  NoDup (bal_key <$> ballots) -> Forall ballot_ok ballots -> exists c votes,
    cast_ballots ballots = Ok c /\ collector_reachable validators c /\
    (map_to_list (votes_by_voter c)).*2 ≡ₚ votes /\
    Forall2 (fun b v => vote_voter v = bal_key b /\ vote_approve v = bal_approve b)
      ballots votes.
Proof.
  induction ballots as [|b ballots IH] using rev_ind; intros ND F.
  { exists VoteCollector_new, []. split; [done|]. split; [constructor|].
    split; [|constructor]. simpl. by rewrite map_to_list_empty. }
  rewrite fmap_app in ND. apply NoDup_app in ND as (ND & Dis & _).
  apply Forall_app in F as [F [(U & W & K) _]%Forall_cons].
  destruct (IH ND F) as (c & votes & E & R & P & F2).
  destruct (create_signed_vote_Ok _ _ (bal_approve b) (bal_secret_key b) U W)
    as (v & Ev & Kv & _ & _ & Av & Vv).
  assert (votes_by_voter c !! vote_voter v = None) as Fresh.
  { apply eq_None_not_Some. intros [w Lw].
    destruct (reachable_votes _ _ R _ _ Lw) as [Kw _ _].
    assert (w ∈ votes) as Iw.
    { rewrite <- P. apply list_elem_of_fmap. exists (vote_voter v, w).
      split; [done|]. by apply elem_of_map_to_list. }
    apply list_elem_of_lookup_1 in Iw as [i Li].
    destruct (Forall2_lookup_r _ _ _ _ _ F2 Li) as (b' & Lb & Kb & _).
    apply (Dis (bal_key b)); [|by left]. apply list_elem_of_fmap. exists b'.
    split; [unfold bal_key in *; congruence|by apply list_elem_of_lookup_2 in Lb]. }
  eexists _, (votes ++ [v]). unfold cast_ballots. rewrite foldl_snoc.
  fold (cast_ballots ballots). rewrite E. unfold cast_step. cbn [mbind outcome_bind].
  rewrite Ev. cbn [mbind outcome_bind].
  assert (collect_vote c v validators =
          Ok {| votes_by_voter := <[vote_voter v := v]> (votes_by_voter c) |}) as Ec.
  { apply collect_vote_Ok. unfold bal_key in K. rewrite Kv in *. done. }
  split; [exact Ec|]. split; [by econstructor|]. split.
  - cbn [votes_by_voter]. rewrite map_to_list_insert by done. rewrite fmap_cons, P.
    cbn [snd]. apply Permutation_cons_append.
  - apply Forall2_app; [done|]. by repeat constructor.
Qed.
End casting.

(** ** Properties *)

(** [C1] Accountable safety of finality: when two collectors
    of the same validator set finalise two different blocks of one height, the
    active validators that approved both hold more than a third of the active
    stake; for each of them the two stored votes are an accepted double-vote
    proof, with which slashing at any legal rate takes stake away. *)
Theorem accountable_safety `{Profile, Ed25519, !Bincode ConsensusVote} validators
    c1 c2 t1 t2 height hash1 hash2 bps :
  validators_ok validators ->
  collector_reachable validators c1 -> collector_reachable validators c2 ->
  approves_only c1 height hash1 -> approves_only c2 height hash2 -> hash1 <> hash2 ->
  tally c1 validators = Ok t1 -> tally c2 validators = Ok t2 ->
  is_block_finalized (E := VoteError.t) t1 validators = Ok true ->
  is_block_finalized (E := VoteError.t) t2 validators = Ok true ->
  1 <= bps <= 10000 ->
  exists culprits, culprits `sublist_of` validators /\
    NoDup (val_address <$> culprits) /\
    sumZ val_stake (active_set validators) < sumZ val_stake culprits * 3 /\
    Forall (fun v => exists vote1 vote2 pf slashed,
      votes_by_voter c1 !! val_address v = Some vote1 /\
      votes_by_voter c2 !! val_address v = Some vote2 /\
      detect_double_vote vote1 vote2 = Ok pf /\
      slash_validator_for_double_vote v pf bps = Ok slashed /\
      val_stake slashed < val_stake v) culprits.
Proof.
  intros V R1 R2 A1 A2 N T1 T2 F1 F2 B.
  exists (filter (fun v => has_voted c1 true v /\ has_voted c2 true v) (active_set validators)).
  split; [etransitivity; [apply sublist_filter|apply sublist_filter]|].
  split; [apply NoDup_fmap_filter, V|].
  split; [by apply quorum_intersection; eapply finalized_stake|].
  apply Forall_forall. intros v [[V1 V2] I]%list_elem_of_filter.
  destruct (conflicting_approvals validators c1 c2 height hash1 hash2 v)
    as (vote1 & vote2 & L1 & L2 & K & D); [done..|].
  pose proof (active_set_stake_lt validators v V I) as S.
  eexists vote1, vote2, _, _. split; [done|]. split; [done|]. split; [done|].
  rewrite slash_Ok by done. split; [done|].
  cbn [val_stake]. pose proof (penalty_of_range (val_stake v) bps ltac:(lia) B). lia.
Qed.

(** Tallying a reachable collector never fails or panics: each
    side's stake is that of the active validators whose stored vote is on that
    side, whatever the order the hash map yields them, the two sides together
    do not exceed the active stake, and the block is final exactly when the
    approving stake exceeds two thirds of it. *)
Theorem tally_spec `{Profile, Ed25519, !Bincode ConsensusVote} validators c :
  validators_ok validators -> collector_reachable validators c ->
  let total := sumZ val_stake (active_set validators) in
  let side b := sumZ val_stake (filter (has_voted c b) validators) in
  tally c validators = Ok {| approve_stake := side true; reject_stake := side false;
                             total_votes := votes_len c |} /\
  (forall votes, votes ≡ₚ (map_to_list (votes_by_voter c)).*2 ->
     tally_votes validators votes = tally c validators) /\
  side true + side false <= total /\
  is_block_finalized (E := VoteError.t)
    {| approve_stake := side true; reject_stake := side false; total_votes := votes_len c |}
    validators = Ok (total * 2 <? side true * 3).
Proof.
  intros V R total side. split; [by apply tally_Ok|]. split.
  { intros votes P. rewrite tally_Ok by done.
    pose proof (side_stake_le validators c true). pose proof (side_stake_le validators c false).
    pose proof (vs_stakes _ V).
    assert (forall b, filter (fun v => vote_approve v = b) votes ≡ₚ
              filter (fun v => vote_approve v = b) (map_to_list (votes_by_voter c)).*2) as Pf
      by (intros b; by rewrite P).
    assert (forall b, sumZ (vote_stake validators) (filter (fun v => vote_approve v = b) votes)
              = side b) as Es.
    { intros b. rewrite (sumZ_perm _ _ _ (Pf b)). by apply side_stake. }
    rewrite tally_votes_Ok; unfold exact_tally; simpl; rewrite ?Es; try (unfold side; lia).
    - do 2 f_equal. rewrite P. by rewrite length_fmap, length_map_to_list.
    - rewrite P. apply Forall_forall.
      intros v ([k w] & -> & L%elem_of_map_to_list)%list_elem_of_fmap.
      destruct (reachable_votes _ c R k w L) as [K _ S]. simpl in *. congruence. }
  split; [|by apply is_block_finalized_Ok; [done|apply side_stake_le]].
  unfold side, total. rewrite (has_voted_active _ c true), (has_voted_active _ c false).
  rewrite !sumZ_filter, <- sumZ_add.
  apply sumZ_le. eapply Forall_impl; [apply active_set_pos|]. intros v P. cbv beta in P |- *.
  unfold has_voted. repeat case_decide; try lia. destruct_and?. congruence.
Qed.

(** Ballots of distinct active validators, their tally and the decision. *)
Lemma cast_quorum `{Profile, Ed25519Ok, !Bincode ConsensusVote, !BincodeOk ConsensusVote} {X} validators ballots :
  validators_ok validators -> NoDup (bal_key <$> ballots) ->
  Forall (ballot_ok validators) ballots ->
  let total := sumZ val_stake (active_set validators) in
  let approving := sumZ (ballot_stake validators)
                     (filter (fun b => bal_approve b = true) ballots) in
  exists c t, cast_ballots validators ballots = Ok c /\ tally c validators = Ok t /\
    approve_stake t = approving /\ total_votes t = length ballots /\
    is_block_finalized (E := X) t validators = Ok (total * 2 <? approving * 3).
Proof.
  intros V ND F total approving.
  destruct (cast_ballots_Ok validators ballots ND F) as (c & votes & E & R & P & F2).
  assert (sumZ val_stake (filter (has_voted c true) validators) = approving) as Ea.
  { rewrite <- side_stake by done.
    transitivity (sumZ (vote_stake validators) (filter (fun v => vote_approve v = true) votes)).
    { apply sumZ_perm. by rewrite P. }
    unfold approving. clear -F2. induction F2 as [|b v bs vs [K A] _ IH]; [done|].
    rewrite !filter_cons, A. destruct (decide (bal_approve b = true)); [|done].
    rewrite !sumZ_cons, IH. unfold vote_stake, ballot_stake. by rewrite K. }
  eexists c, _. split; [done|]. split; [by apply tally_Ok|].
  cbn [approve_stake total_votes]. split; [done|]. split.
  - unfold votes_len. rewrite <- length_map_to_list, <- (length_fmap snd), P.
    symmetry. by apply Forall2_length in F2.
  - rewrite is_block_finalized_Ok; [by rewrite <- Ea|done|apply side_stake_le].
Qed.

(** [C30] Liveness of voting: when distinct active validators
    sign and hand in their ballots, every vote is collected, and the tally
    finalises the block exactly when the approving ballots carry more than two
    thirds of the active stake.  The heights and block hashes of the ballots
    are arbitrary: nothing compares them with each other. *)
Theorem quorum_finalizes `{Profile, Ed25519Ok, !Bincode ConsensusVote, !BincodeOk ConsensusVote} validators ballots :
  validators_ok validators -> NoDup (bal_key <$> ballots) ->
  Forall (ballot_ok validators) ballots ->
  let total := sumZ val_stake (active_set validators) in
  let approving := sumZ (ballot_stake validators)
                     (filter (fun b => bal_approve b = true) ballots) in
  exists c t, cast_ballots validators ballots = Ok c /\ tally c validators = Ok t /\
    approve_stake t = approving /\ total_votes t = length ballots /\
    is_block_finalized (E := VoteError.t) t validators = Ok (total * 2 <? approving * 3).
Proof. apply cast_quorum. Qed.

(** The first vote of a validator is final: further
    collection only adds votes of new voters, and a second vote of a stored
    voter is never accepted; if it is well signed and its voter known, the
    error is [DuplicateVote]. *)
Theorem votes_are_final `{Ed25519, !Bincode ConsensusVote} validators c c' :
  rtc (fun c1 c2 => exists v, collect_vote c1 v validators = Ok c2) c c' ->
  votes_by_voter c ⊆ votes_by_voter c' /\
  forall v, is_Some (votes_by_voter c !! vote_voter v) ->
    (forall c'', collect_vote c' v validators <> Ok c'') /\
    (is_Some (validator_stake validators (vote_voter v)) -> verify_vote v = Ok true ->
     collect_vote c' v validators = Err VoteError.DuplicateVote).
Proof.
  intros St. assert (votes_by_voter c ⊆ votes_by_voter c') as Sub.
  { induction St as [|c1 c2 c3 [v E] _ IH]; [done|]. etransitivity; [|exact IH].
    apply collect_vote_Ok in E as (_ & _ & N & ->). by apply insert_subseteq. }
  split; [done|]. intros v [w L]. eapply lookup_weaken in L; [|exact Sub]. split.
  - intros c'' E. apply collect_vote_Ok in E as (_ & _ & N & _). congruence.
  - intros [s S] Ve. unfold collect_vote. rewrite S, Ve. simpl. by rewrite L.
Qed.

(** Slashing on every branch, in every build: it never
    overflows; an accepted proof of the validator takes away at least one unit
    and at most all of its stake, no more than the rate says unless that is
    less than one unit, everything at the full rate; the other fields stay. *)
Theorem slash_spec `{Profile} v pf bps :
  wf v -> u16 bps ->
  match slash_validator_for_double_vote v pf bps with
  | Ok v' =>
      1 <= bps <= 10000 /\ val_address v = vote_voter (first_vote pf) /\
      val_address v' = val_address v /\ val_locked_until v' = val_locked_until v /\
      0 <= val_stake v' <= val_stake v /\
      (0 < val_stake v -> val_stake v' < val_stake v) /\
      (bps = 10000 -> val_stake v' = 0) /\
      (val_stake v - val_stake v' = 1 \/
       (val_stake v - val_stake v') * 10000 <= val_stake v * bps)
  | Err SlashingError.InvalidPenaltyBps => bps = 0 \/ 10000 < bps
  | Err SlashingError.ValidatorDoesNotMatchProof =>
      1 <= bps <= 10000 /\ val_address v <> vote_voter (first_vote pf)
  | _ => False
  end.
Proof.
  intros (_ & S & _) B. unfold u64 in S. unfold u16 in B.
  destruct (decide (1 <= bps <= 10000)) as [L|L].
  2: { unfold slash_validator_for_double_vote.
       destruct (Z.eqb_spec bps 0), (Z.ltb_spec 10000 bps); simpl; lia. }
  destruct (decide (val_address v = vote_voter (first_vote pf))) as [A|A].
  2: { unfold slash_validator_for_double_vote.
       destruct (Z.eqb_spec bps 0), (Z.ltb_spec 10000 bps); try lia. simpl.
       by rewrite bool_decide_false. }
  destruct (decide (val_stake v = 0)) as [Z0|Z0].
  { unfold slash_validator_for_double_vote.
    destruct (Z.eqb_spec bps 0), (Z.ltb_spec 10000 bps); try lia. simpl.
    rewrite bool_decide_true by done. rewrite Z0. simpl. rewrite Z0. intuition lia. }
  rewrite slash_Ok by (done || lia). cbn [val_address val_stake val_locked_until].
  pose proof (penalty_of_range (val_stake v) bps ltac:(lia) L) as P.
  repeat split; try done; try lia; unfold penalty_of in *.
  - intros ->. rewrite Z.div_mul by lia. lia.
  - pose proof (Z.mul_div_le (val_stake v * bps) 10000 ltac:(lia)). lia.
Qed.

(** ** Witnesses *)

From S2P Require Import Concrete.
Import Concrete.Instances.

Definition c_vote : codec ConsensusVote :=
  c_map (fun '(a, (b, (c, (d, e)))) => Build_ConsensusVote a b c d e)
    (fun v => (vote_height v, (vote_block_hash v, (vote_voter v,
                (vote_approve v, vote_signature v)))))
    (c_pair (c_uint 8) (c_pair c_bytes (c_pair c_bytes (c_pair c_bool c_bytes)))).

Lemma c_vote_ok : CodecOk wf c_vote.
Proof. pose proof c_bool_ok. solve_codec. Qed.

Module VoteInstances.
#[export] Instance toy_vote_codec : Bincode ConsensusVote := bincode_of c_vote.
#[export] Instance toy_vote_codec_ok : BincodeOk ConsensusVote := bincode_of_ok _ c_vote_ok.
End VoteInstances.
Import VoteInstances.

Definition sample_validator (seed stake : Z) : Validator := {|
  val_address := public_key_of (fill 32 seed); val_stake := stake; val_locked_until := 0 |}.

(** Four validators of equal stake; an idle one does not count. *)
Definition sample_validators : list Validator :=
  [sample_validator 1 10; sample_validator 2 10; sample_validator 3 0;
   sample_validator 4 10; sample_validator 5 10].

Definition sample_ballot (seed : Z) (hash : bytes) : ballot := {|
  bal_secret_key := fill 32 seed; bal_height := 7; bal_block_hash := hash; bal_approve := true |}.

Definition cast_all (ballots : list ballot) : VoteCollector :=
  match cast_ballots sample_validators ballots with Ok c => c | _ => VoteCollector_new end.

Lemma sample_validators_ok : validators_ok sample_validators.
Proof. split; [by_eval|by vm_compute]. Qed.

Lemma cast_all_reachable ballots :
  NoDup (bal_key <$> ballots) -> Forall (ballot_ok sample_validators) ballots ->
  collector_reachable sample_validators (cast_all ballots).
Proof.
  intros ND F. destruct (cast_ballots_Ok sample_validators ballots ND F) as (c & ? & E & R & _).
  unfold cast_all. by rewrite E.
Qed.

Definition ballots_a : list ballot :=
  [sample_ballot 1 (fill 2 1); sample_ballot 2 (fill 2 1); sample_ballot 4 (fill 2 1)].
Definition ballots_b : list ballot :=
  [sample_ballot 2 (fill 2 2); sample_ballot 4 (fill 2 2); sample_ballot 5 (fill 2 2)].

Ltac solve_ballots :=
  repeat (apply Forall_cons_2; [split; [done|split; [done|vm_compute; eauto]]|]);
  apply Forall_nil_2.

Lemma reachable_a : collector_reachable sample_validators (cast_all ballots_a).
Proof. apply cast_all_reachable; [by_eval|solve_ballots]. Qed.

Lemma reachable_b : collector_reachable sample_validators (cast_all ballots_b).
Proof. apply cast_all_reachable; [by_eval|solve_ballots]. Qed.

Definition tally_30 : VoteTally := {| approve_stake := 30; reject_stake := 0; total_votes := 3 |}.

Lemma accountable_safety_witness : exists culprits, culprits `sublist_of` sample_validators /\
  NoDup (val_address <$> culprits) /\
  sumZ val_stake (active_set sample_validators) < sumZ val_stake culprits * 3 /\
  Forall (fun v => exists vote1 vote2 pf slashed,
    votes_by_voter (cast_all ballots_a) !! val_address v = Some vote1 /\
    votes_by_voter (cast_all ballots_b) !! val_address v = Some vote2 /\
    detect_double_vote vote1 vote2 = Ok pf /\
    slash_validator_for_double_vote v pf 500 = Ok slashed /\
    val_stake slashed < val_stake v) culprits.
Proof.
  apply (accountable_safety sample_validators _ _ tally_30 tally_30 7 (fill 2 1) (fill 2 2) 500
    sample_validators_ok reachable_a reachable_b).
  - by_eval.
  - by_eval.
  - done.
  - vm_compute. reflexivity.
  - vm_compute. reflexivity.
  - vm_compute. reflexivity.
  - vm_compute. reflexivity.
  - lia.
Defined.

Lemma tally_spec_witness :
  let side b := sumZ val_stake (filter (has_voted (cast_all ballots_a) b) sample_validators) in
  tally (cast_all ballots_a) sample_validators =
  Ok {| approve_stake := side true; reject_stake := side false;
        total_votes := votes_len (cast_all ballots_a) |}.
Proof.
  exact (proj1 (tally_spec sample_validators (cast_all ballots_a) sample_validators_ok
                  reachable_a)).
Defined.

(** A quorum need not agree on the block: here each approves another one. *)
Definition ballots_mixed : list ballot :=
  [sample_ballot 1 (fill 2 1); sample_ballot 2 (fill 2 2); sample_ballot 4 (fill 2 3)].

Lemma quorum_finalizes_witness :
  let total := sumZ val_stake (active_set sample_validators) in
  let approving := sumZ (ballot_stake sample_validators)
                     (filter (fun b => bal_approve b = true) ballots_mixed) in
  exists c t, cast_ballots sample_validators ballots_mixed = Ok c /\
    tally c sample_validators = Ok t /\ approve_stake t = approving /\ total_votes t = 3%nat /\
    is_block_finalized (E := VoteError.t) t sample_validators = Ok (total * 2 <? approving * 3).
Proof.
  exact (quorum_finalizes sample_validators ballots_mixed sample_validators_ok
           ltac:(by_eval) ltac:(solve_ballots)).
Defined.

Definition second_ballot : ConsensusVote :=
  from_option id {| vote_height := 0; vote_block_hash := []; vote_voter := [];
                    vote_approve := false; vote_signature := [] |}
    (votes_by_voter (cast_all ballots_b) !! public_key_of (fill 32 2)).

Lemma votes_are_final_witness :
  collect_vote (cast_all ballots_a) second_ballot sample_validators =
  Err VoteError.DuplicateVote.
Proof.
  refine (proj2 (proj2 (votes_are_final sample_validators (cast_all ballots_a)
    (cast_all ballots_a) (rtc_refl _ _)) second_ballot _) _ _); vm_compute; eauto.
Defined.

Definition sample_proof : DoubleVoteProof :=
  let vote hash := {| vote_height := 7; vote_block_hash := fill 2 hash;
    vote_voter := val_address (sample_validator 1 10); vote_approve := true;
    vote_signature := [] |} in
  {| first_vote := vote 1; second_vote := vote 2 |}.

Lemma slash_spec_witness : exists v',
  slash_validator_for_double_vote (sample_validator 1 10) sample_proof 3300 = Ok v' /\
  0 <= val_stake v' < val_stake (sample_validator 1 10).
Proof.
  pose proof (slash_spec (sample_validator 1 10) sample_proof 3300 ltac:(solve_wf) ltac:(done)) as S.
  destruct (slash_validator_for_double_vote (sample_validator 1 10) sample_proof 3300)
    as [v'|[]|]; try done.
  - exists v'. split; [done|]. destruct S as (_ & _ & _ & _ & B & L & _).
    split; [lia|]. by apply L.
  - lia.
  - by destruct S.
Defined.
