(* ===== verification/Rewards.v ===== *)
(** * Voting rewards ([src/consensus/mod.rs], second part)

    The reward pool of fees and inflation, its split in proportion to the
    stake of the voters, and the theorem that nothing is lost or created. *)

From S2P Require Import Prelude Orders Bytes Externals Types Votes.

(** ** Rewards *)

Definition ANNUAL_INFLATION_BPS : Z := 200.
Definition SECONDS_PER_YEAR : Z := 31536000.

Record ValidatorReward := {
  reward_validator : bytes;
  reward_amount : Z;
}.

Module RewardError.
Inductive t :=
| FeeOverflow
| RewardOverflow
| NoVotingStake.
End RewardError.

Definition total_transaction_fees (txs : list Transaction) : outcome RewardError.t Z :=
  foldl (fun acc tx => acc ≫= fun s => ok_or RewardError.FeeOverflow (checked 64 (s + tx_fee tx)))
    (Ok 0) txs.

Definition annualized_inflation_reward `{Profile} {E} (total_stake elapsed_secs : Z) :
  outcome E Z :=
  if (total_stake =? 0) || (elapsed_secs =? 0) then Ok 0
  else
    a ← arith 128 (total_stake * ANNUAL_INFLATION_BPS);
    b ← arith 128 (a * elapsed_secs);
    Ok (wrap 64 (b / 10000 / SECONDS_PER_YEAR)).

Definition voted (c : VoteCollector) (v : Validator) : Prop :=
  is_active v /\ is_Some (votes_by_voter c !! val_address v).
#[global] Instance voted_dec c v : Decision (voted c v) := _.

(** One turn of the loop that fills [rewards]. *)
Definition reward_step `{Profile} (reward_pool voting_stake : Z)
    (acc : Z * list ValidatorReward) (v : Validator) :
  outcome RewardError.t (Z * list ValidatorReward) :=
  product ← arith 128 (reward_pool * val_stake v);
  let amount := wrap 64 (product / voting_stake) in
  distributed ← ok_or RewardError.RewardOverflow (checked 64 (acc.1 + amount));
  Ok (distributed, acc.2 ++ [{| reward_validator := val_address v; reward_amount := amount |}]).

(** [for reward in rewards.iter_mut().take(n) { reward.amount += 1 }] *)
Fixpoint bump_rewards `{Profile} {E} (n : Z) (rewards : list ValidatorReward) :
  outcome E (list ValidatorReward) :=
  match rewards with
  | [] => Ok []
  | r :: rewards' =>
      if n <=? 0 then Ok rewards
      else
        amount ← arith 64 (reward_amount r + 1);
        rest ← bump_rewards (n - 1) rewards';
        Ok ({| reward_validator := reward_validator r; reward_amount := amount |} :: rest)
  end.

Definition distribute_voting_rewards `{Profile} (validators : list Validator)
    (c : VoteCollector) (txs : list Transaction) (elapsed_secs : Z) :
  outcome RewardError.t (list ValidatorReward) :=
  fees ← total_transaction_fees txs;
  active ← total_active_stake validators;
  inflation ← annualized_inflation_reward active elapsed_secs;
  reward_pool ← ok_or RewardError.RewardOverflow (checked 64 (fees + inflation));
  let participants := sort_by address_cmp (filter (voted c) validators) in
  voting_stake ← sum_uint 128 val_stake participants;
  if voting_stake =? 0 then Err RewardError.NoVotingStake
  else
    filled ← foldl (fun acc v => acc ≫= fun a => reward_step reward_pool voting_stake a v)
               (Ok (0, [])) participants;
    remainder ← arith 64 (reward_pool - filled.1);
    bump_rewards remainder filled.2.


(** ** Exact values *)

Definition total_fees (txs : list Transaction) : Z := sumZ tx_fee txs.

(** Checked addition fails exactly when the exact sum does not fit. *)
Lemma total_transaction_fees_spec txs :
  Forall (fun tx => 0 <= tx_fee tx) txs ->
  total_transaction_fees txs = if fits 64 (total_fees txs) then Ok (total_fees txs)
                               else Err RewardError.FeeOverflow.
Proof.
  induction txs as [|tx txs IH] using rev_ind; [done|]. intros [F [P _]%Forall_cons]%Forall_app.
  unfold total_transaction_fees, total_fees. rewrite foldl_snoc, sumZ_app, sumZ_cons.
  fold (total_transaction_fees txs). rewrite IH by done. simpl sumZ. rewrite Z.add_0_r.
  fold (total_fees txs). pose proof (sumZ_nonneg tx_fee txs F) as N. unfold total_fees in *.
  destruct (fits 64 (sumZ tx_fee txs)) eqn:E; simpl; unfold checked.
  - by destruct (fits 64 (sumZ tx_fee txs + tx_fee tx)).
  - apply fits_false in E. replace (fits 64 (sumZ tx_fee txs + tx_fee tx)) with false; [done|].
    symmetry. apply fits_false. lia.
Qed.

(** The validators a distribution pays, in payment order. *)
Definition participants (validators : list Validator) (c : VoteCollector) : list Validator :=
  sort_by address_cmp (filter (voted c) validators).

Definition share (pool total : Z) (v : Validator) : Z := pool * val_stake v / total.

Definition reward_of (pool total : Z) (v : Validator) : ValidatorReward :=
  {| reward_validator := val_address v; reward_amount := share pool total v |}.

Section shares.
Context (pool total : Z) (pool_range : 0 <= pool < 2 ^ 64) (total_pos : 0 < total).

Lemma share_range v : 0 <= val_stake v <= total -> 0 <= share pool total v <= pool.
Proof.
  intros S. unfold share. split; [apply Z.div_pos; nia|].
  apply Z.div_le_upper_bound; nia.
Qed.

(** Rounding down loses less than one unit per share. *)
Lemma shares_sum l :
  sumZ (share pool total) l * total <= pool * sumZ val_stake l <=
  sumZ (share pool total) l * total + (total - 1) * Z.of_nat (length l).
Proof.
  induction l as [|v l IH]; [simpl; lia|]. rewrite !sumZ_cons. simpl length.
  rewrite Nat2Z.inj_succ. unfold share at 1 3.
  pose proof (Z.div_mod (pool * val_stake v) total ltac:(lia)) as D.
  pose proof (Z.mod_pos_bound (pool * val_stake v) total ltac:(lia)). lia.
Qed.

Lemma shares_remainder l :
  sumZ val_stake l = total -> l <> [] ->
  0 <= pool - sumZ (share pool total) l < Z.of_nat (length l).
Proof.
  intros T NE. pose proof (shares_sum l) as S. rewrite T in S.
  destruct l; [done|]. simpl length in *. nia.
Qed.

(** The loop computes the rounded shares; none of its checks fails. *)
Lemma reward_loop `{Profile} l d out :
  Forall (fun v => 0 <= val_stake v < 2 ^ 64) l -> 0 <= d ->
  Forall (fun v => val_stake v <= total) l -> d + sumZ (share pool total) l <= pool ->
  foldl (fun acc v => acc ≫= fun a => reward_step pool total a v) (Ok (d, out)) l =
  Ok (d + sumZ (share pool total) l, out ++ (reward_of pool total <$> l)).
Proof.
  revert d out. induction l as [|v l IH]; intros d out F D L B.
  { simpl. by rewrite Z.add_0_r, app_nil_r. }
  apply Forall_cons in F as [Fv F]. apply Forall_cons in L as [Lv L].
  pose proof (share_range v ltac:(lia)) as Sv. rewrite sumZ_cons in B.
  assert (0 <= sumZ (share pool total) l) as N.
  { apply sumZ_nonneg, Forall_forall. intros w I. rewrite Forall_forall in F, L.
    specialize (F w I). specialize (L w I). apply share_range. lia. }
  cbn [foldl mbind outcome_bind]. unfold reward_step at 2.
  rewrite arith_fits by nia. cbn [mbind outcome_bind fst snd].
  fold (share pool total v). rewrite wrap_small by lia.
  rewrite (proj2 (checked_Some 64 _ _)) by (split; [done|lia]).
  cbn [ok_or mbind outcome_bind]. rewrite IH by (done || lia).
  rewrite <- app_assoc, sumZ_cons, Z.add_assoc. done.
Qed.
End shares.

(** ** The remainder *)

(** What [bump_rewards] makes of the reward at index [i]. *)
Definition bump_one (n : Z) (i : nat) (r : ValidatorReward) : ValidatorReward := {|
  reward_validator := reward_validator r;
  reward_amount := reward_amount r + (if Z.of_nat i <? n then 1 else 0) |}.

Lemma imap_id_ext {A} (f : nat -> A -> A) (l : list A) :
  (forall i x, f i x = x) -> imap f l = l.
Proof.
  intros E. revert f E. induction l as [|x l IH]; intros f E; [done|].
  rewrite imap_cons, E. f_equal. apply IH. intros. apply E.
Qed.

Lemma bump_one_none n i r : n <= 0 -> bump_one n i r = r.
Proof.
  intros N. destruct r as [v a]. unfold bump_one. simpl.
  destruct (Z.ltb_spec (Z.of_nat i) n); [lia|]. f_equal. lia.
Qed.

Lemma imap_bump_cons n r rs :
  0 < n ->
  imap (bump_one n) (r :: rs) =
  {| reward_validator := reward_validator r; reward_amount := reward_amount r + 1 |} ::
  imap (bump_one (n - 1)) rs.
Proof.
  intros N. rewrite imap_cons. f_equal.
  - unfold bump_one. by rewrite (proj2 (Z.ltb_lt (Z.of_nat 0) n)).
  - apply imap_ext. intros i r' _. unfold bump_one, compose. f_equal. rewrite Nat2Z.inj_succ.
    destruct (Z.ltb_spec (Z.of_nat i) (n - 1)), (Z.ltb_spec (Z.succ (Z.of_nat i)) n); lia.
Qed.

Lemma bump_rewards_Ok `{Profile} {E} n rs :
  Forall (fun r => 0 <= reward_amount r /\ (0 < n -> reward_amount r < 2 ^ 64 - 1)) rs ->
  bump_rewards (E := E) n rs = Ok (imap (bump_one n) rs).
Proof.
  revert n. induction rs as [|r rs IH]; intros n F; [done|].
  apply Forall_cons in F as [R F]. cbn [bump_rewards]. destruct (Z.leb_spec n 0).
  { rewrite imap_id_ext; [done|]. intros. by apply bump_one_none. }
  rewrite arith_fits by lia. cbn [mbind outcome_bind].
  rewrite IH by (eapply Forall_impl; [done|]; intros r' ?; cbv beta in *; lia).
  cbn [mbind outcome_bind].
  by rewrite imap_bump_cons.
Qed.

Lemma bump_sum n rs :
  0 <= n <= Z.of_nat (length rs) ->
  sumZ reward_amount (imap (bump_one n) rs) = sumZ reward_amount rs + n.
Proof.
  revert n. induction rs as [|r rs IH]; intros n N; [simpl in *; lia|].
  simpl length in N. rewrite Nat2Z.inj_succ in N. destruct (decide (n = 0)) as [->|N0].
  { rewrite imap_id_ext by (intros; by apply (bump_one_none 0)). lia. }
  rewrite imap_bump_cons, !sumZ_cons, IH by lia. cbn [reward_amount]. lia.
Qed.

(** ** Inflation *)

(** The inflation of a stake: the product modulo [2^128], the quotient modulo
    [2^64]; exact below these bounds. *)
Definition inflation (stake elapsed : Z) : Z :=
  wrap 64 (wrap 128 (stake * ANNUAL_INFLATION_BPS * elapsed) / (10000 * SECONDS_PER_YEAR)).

Lemma annualized_inflation_reward_spec `{Profile} {E} stake elapsed : u64 stake -> 0 <= elapsed ->
  annualized_inflation_reward (E := E) stake elapsed =
  if overflow_checks && negb (fits 128 (stake * ANNUAL_INFLATION_BPS * elapsed)) then Panic
  else Ok (inflation stake elapsed).
Proof.
  intros S T. unfold annualized_inflation_reward, inflation, ANNUAL_INFLATION_BPS in *. unfold u64 in S.
  destruct (Z.eqb_spec stake 0) as [->|]; [by rewrite andb_false_r|].
  destruct (Z.eqb_spec elapsed 0) as [->|]; simpl orb; cbv iota.
  { by rewrite Z.mul_0_r, andb_false_r. }
  rewrite arith_fits by lia. cbn [mbind outcome_bind]. rewrite arith_spec.
  destruct (_ && _); [done|]. cbn [mbind outcome_bind].
  rewrite Z.div_div; [done|lia|unfold SECONDS_PER_YEAR; lia].
Qed.

(** ** Participants *)

Section participants.
Context (validators : list Validator) (c : VoteCollector).

Lemma participants_perm : participants validators c ≡ₚ filter (voted c) (active_set validators).
Proof.
  unfold participants, active_set. rewrite sort_by_perm, list_filter_filter.
  apply reflexive_eq, list_filter_iff. unfold voted. tauto.
Qed.

Lemma participants_sum : sumZ val_stake (participants validators c) <=
  sumZ val_stake (active_set validators).
Proof. rewrite (sumZ_perm _ _ _ participants_perm). apply sumZ_filter_le, active_set_pos. Qed.

Lemma participants_u64 : Forall (fun v => u64 (val_stake v)) validators ->
  Forall (fun v => 0 <= val_stake v < 2 ^ 64) (participants validators c).
Proof. intros F. rewrite participants_perm. by do 2 apply Forall_filter. Qed.

Lemma participants_length : (length (participants validators c) <= length validators)%nat.
Proof. rewrite participants_perm. etrans; apply length_filter. Qed.

Lemma participants_pos : Forall (fun v => 0 < val_stake v) (participants validators c).
Proof.
  rewrite participants_perm. apply Forall_forall.
  intros v [_ [A _]%list_elem_of_filter]%list_elem_of_filter. exact A.
Qed.

Lemma participants_le : Forall (fun v => val_stake v <= sumZ val_stake (participants validators c))
  (participants validators c).
Proof.
  apply Forall_forall. intros v I. apply sumZ_elem; [|done].
  eapply Forall_impl; [apply participants_pos|]. intros w W. cbv beta in W |- *. lia.
Qed.

Lemma participants_nil :
  sumZ val_stake (participants validators c) = 0 <-> participants validators c = [].
Proof.
  split; [|by intros ->]. pose proof participants_pos as P.
  destruct (participants validators c) as [|v l]; [done|]. rewrite sumZ_cons.
  apply Forall_cons in P as [P F]. pose proof (sumZ_nonneg val_stake l) as N.
  rewrite Forall_forall in F, N. intros E. pose proof (N ltac:(intros w I; specialize (F w I); lia)).
  lia.
Qed.
End participants.

(** The split of a pool among the participants. *)
Definition payout (validators : list Validator) (c : VoteCollector) (pool : Z) :
  list ValidatorReward :=
  let l := participants validators c in
  let total := sumZ val_stake l in
  imap (bump_one (pool - sumZ (share pool total) l)) (reward_of pool total <$> l).

Section payout.
Context (validators : list Validator) (c : VoteCollector) (pool : Z).
Context (pool_range : 0 <= pool < 2 ^ 64) (voters : participants validators c <> []).

Let l := participants validators c.
Let total := sumZ val_stake l.

Lemma voting_stake_pos : 0 < total.
Proof.
  assert (0 <= total).
  { apply sumZ_nonneg. eapply Forall_impl; [apply participants_pos|].
    intros w W. cbv beta in W |- *. lia. }
  assert (total <> 0); [|lia]. intros E. by apply participants_nil in E.
Qed.

Lemma payout_remainder : 0 <= pool - sumZ (share pool total) l < Z.of_nat (length l).
Proof. apply (shares_remainder pool total voting_stake_pos); done. Qed.

Lemma payout_shares : Forall (fun v => 0 <= share pool total v <= sumZ (share pool total) l) l.
Proof.
  assert (Forall (fun v => 0 <= share pool total v) l) as N.
  { apply Forall_forall. intros v I.
    pose proof (participants_pos validators c) as P. pose proof (participants_le validators c) as L.
    rewrite Forall_forall in P, L. specialize (P v I). specialize (L v I).
    apply (share_range pool total pool_range voting_stake_pos). fold l total in L. lia. }
  apply Forall_forall. intros v I. split; [|by apply sumZ_elem].
  rewrite Forall_forall in N. by apply N.
Qed.

Lemma payout_sum : sumZ reward_amount (payout validators c pool) = pool.
Proof.
  unfold payout. fold l total. pose proof payout_remainder.
  rewrite bump_sum by (rewrite length_fmap; lia). rewrite sumZ_fmap.
  change (sumZ (reward_amount ∘ reward_of pool total) l) with (sumZ (share pool total) l). lia.
Qed.

Lemma payout_spec :
  reward_validator <$> payout validators c pool = val_address <$> l /\
  forall i v r, l !! i = Some v -> payout validators c pool !! i = Some r ->
    share pool total v <= reward_amount r <= share pool total v + 1.
Proof.
  unfold payout. fold l total. split.
  - rewrite fmap_imap. apply list_eq. intros i.
    rewrite list_lookup_imap, !list_lookup_fmap. by destruct (l !! i).
  - intros i v r Lv. rewrite list_lookup_imap, list_lookup_fmap, Lv. intros [= <-].
    unfold bump_one. cbn [reward_amount reward_of].
    destruct (Z.of_nat i <? _); lia.
Qed.
End payout.

Lemma distribute_payout `{Profile} validators c pool :
  0 <= pool < 2 ^ 64 -> Forall (fun v => u64 (val_stake v)) validators ->
  participants validators c <> [] ->
  let l := participants validators c in
  let total := sumZ val_stake l in
  (filled ← foldl (fun acc v => acc ≫= fun a => reward_step pool total a v) (Ok (0, [])) l;
   remainder ← arith 64 (pool - filled.1);
   bump_rewards remainder filled.2) = Ok (payout validators c pool).
Proof.
  intros P A NE l total.
  pose proof (voting_stake_pos validators c NE) as T. fold l total in T.
  pose proof (payout_remainder validators c pool NE) as R. fold l total in R.
  pose proof (payout_shares validators c pool P NE) as Sh. fold l total in Sh.
  pose proof (participants_pos validators c) as Pos. pose proof (participants_le validators c) as L.
  fold l in Pos, L. fold total in L.
  rewrite (reward_loop pool total P T); [| |done|done|lia].
  - assert (0 <= sumZ (share pool total) l) as N.
    { apply sumZ_nonneg. eapply Forall_impl; [exact Sh|]. intros v Sv. cbv beta in Sv |- *. lia. }
    cbn [mbind outcome_bind fst snd]. rewrite arith_fits by lia. cbn [mbind outcome_bind].
    rewrite Z.add_0_l, app_nil_l. apply bump_rewards_Ok. apply Forall_fmap.
    eapply Forall_impl; [exact Sh|]. intros v. unfold compose, reward_of.
    cbn [reward_amount]. lia.
  - by apply participants_u64.
Qed.

(** ** Properties *)

(** [C23] The rewards on every branch, in every
    build, for less than 2^64 validators, with fees and a time of their types.  Nothing but two
    sums can overflow: the active stake, 64 bits, and its product with the
    rate and the time, 128 bits; a build with overflow checks panics exactly
    when one of them does (and the fees do not overflow before), and a build
    without them goes on with the wrapped value.  The pool of fees and
    inflation is paid out exactly, to the active validators with a collected
    vote, in the order of their addresses, each receiving its stake's share of
    the pool rounded down or that plus one; otherwise the error names the sum
    that overflows or says that no active validator voted. *)
Theorem distribute_voting_rewards_spec `{Profile} validators c txs elapsed :
  Forall (fun v => u64 (val_stake v)) validators -> Z.of_nat (length validators) < 2 ^ 64 ->
  Forall (fun tx => 0 <= tx_fee tx) txs -> 0 <= elapsed ->
  let active := sumZ val_stake (active_set validators) in
  let stake := wrap 64 active in
  let overflows := 2 ^ 64 <= active \/ 2 ^ 128 <= stake * ANNUAL_INFLATION_BPS * elapsed in
  let pool := total_fees txs + inflation stake elapsed in
  let voters := participants validators c in
  match distribute_voting_rewards validators c txs elapsed with
  | Ok rewards =>
      (overflow_checks = true -> ~ overflows) /\
      pool < 2 ^ 64 /\ sumZ reward_amount rewards = pool /\
      reward_validator <$> rewards = val_address <$> voters /\
      forall i v r, voters !! i = Some v -> rewards !! i = Some r ->
        share pool (sumZ val_stake voters) v <= reward_amount r <=
        share pool (sumZ val_stake voters) v + 1
  | Err RewardError.FeeOverflow => 2 ^ 64 <= total_fees txs
  | Err RewardError.RewardOverflow =>
      (overflow_checks = true -> ~ overflows) /\ total_fees txs < 2 ^ 64 <= pool
  | Err RewardError.NoVotingStake =>
      (overflow_checks = true -> ~ overflows) /\ pool < 2 ^ 64 /\ voters = []
  | Panic => overflow_checks = true /\ overflows /\ total_fees txs < 2 ^ 64
  end.
Proof.
  intros V Len F El active stake overflows pool voters. unfold distribute_voting_rewards.
  pose proof (sumZ_nonneg _ _ F) as Fn. fold (total_fees txs) in Fn.
  rewrite total_transaction_fees_spec by done.
  destruct (fits 64 (total_fees txs)) eqn:Ff; [apply fits_true in Ff|apply fits_false in Ff; cbn; lia].
  cbn [mbind outcome_bind]. unfold total_active_stake. fold (active_set validators).
  assert (0 <= active) as An by apply sumZ_nonneg, active_set_pos.
  rewrite (sum_uint_spec 64 val_stake (active_set validators)) by (lia || apply active_set_pos). fold active stake.
  destruct (overflow_checks && negb (fits 64 active)) eqn:O1.
  { apply andb_true_iff in O1 as [C O%negb_true_iff%fits_false]. cbn [mbind outcome_bind].
    split; [done|]. split; [left; lia|lia]. }
  pose proof (wrap_range 64 active ltac:(lia)) as Ws. fold stake in Ws.
  cbn [mbind outcome_bind]. rewrite annualized_inflation_reward_spec by done.
  destruct (overflow_checks && negb (fits 128 _)) eqn:O2.
  { apply andb_true_iff in O2 as [C O%negb_true_iff%fits_false]. cbn [mbind outcome_bind].
    split; [done|]. split; [right; unfold ANNUAL_INFLATION_BPS in *; nia|lia]. }
  assert (overflow_checks = true -> ~ overflows) as NO.
  { intros C. rewrite C in O1, O2. cbn [andb] in O1, O2.
    apply negb_false_iff, fits_true in O1, O2. unfold overflows. lia. }
  clear O1 O2. cbn [mbind outcome_bind]. fold pool.
  pose proof (wrap_range 64 (wrap 128 (stake * ANNUAL_INFLATION_BPS * elapsed) / (10000 * SECONDS_PER_YEAR))
    ltac:(lia)) as W. fold (inflation stake elapsed) in W.
  destruct (checked 64 pool) as [q|] eqn:C.
  2: { apply checked_None in C. unfold pool in *. cbn [ok_or mbind outcome_bind]. split; [done|]. lia. }
  apply checked_Some in C as [-> P]. cbn [ok_or mbind outcome_bind].
  fold (participants validators c) voters. pose proof (participants_u64 validators c V) as Vu.
  rewrite sum_uint_Ok; cycle 1.
  { eapply Forall_impl; [exact Vu|]. intros v Pv. cbv beta in Pv |- *. lia. }
  { pose proof (participants_length validators c) as Lp. fold voters in Lp, Vu.
    pose proof (sumZ_bound val_stake voters (2 ^ 64 - 1) ltac:(lia)) as B.
    assert (sumZ val_stake voters <= (2 ^ 64 - 1) * Z.of_nat (length voters)); [|nia].
    apply B. eapply Forall_impl; [exact Vu|]. intros v Pv. cbv beta in Pv |- *. lia. }
  cbn [mbind outcome_bind].
  destruct (Z.eqb_spec (sumZ val_stake voters) 0) as [Z0|Z0].
  { split; [done|]. split; [lia|]. by apply participants_nil. }
  assert (voters <> []) as NE by (intros E; by rewrite E in Z0).
  rewrite (distribute_payout validators c pool P V NE).
  split; [done|]. split; [lia|]. split; [by apply payout_sum|]. by apply payout_spec.
Qed.

(** ** Witness *)

From S2P Require Import Concrete.
Import Concrete.Instances Votes.VoteInstances.

Definition toy_release : Profile := {| overflow_checks := false |}.
Definition toy_debug : Profile := {| overflow_checks := true |}.

(** A year of the sample validators; and a stake that overflows the sum, which
    a build with overflow checks does not survive. *)
Definition whale (n : Z) : Validator :=
  {| val_address := [byte_of n]; val_stake := 2 ^ 63; val_locked_until := 0 |}.

Lemma distribute_voting_rewards_spec_witness :
  (exists rewards,
     distribute_voting_rewards sample_validators (cast_all ballots_a) [sample_tx 1] 31536000 = Ok rewards /\
     sumZ reward_amount rewards = total_fees [sample_tx 1] +
       inflation (wrap 64 (sumZ val_stake (active_set sample_validators))) 31536000) /\
  @distribute_voting_rewards toy_debug [whale 1; whale 2] (cast_all ballots_a) [] 1 = Panic /\
  @distribute_voting_rewards toy_release [whale 1; whale 2] (cast_all ballots_a) [] 1 = Err RewardError.NoVotingStake.
Proof.
  split; [|split].
  - pose proof (distribute_voting_rewards_spec sample_validators (cast_all ballots_a)
      [sample_tx 1] 31536000 ltac:(by_eval) ltac:(by vm_compute) ltac:(by repeat constructor) ltac:(done)) as S.
    cbv zeta in S.
    destruct (distribute_voting_rewards sample_validators (cast_all ballots_a) [sample_tx 1] 31536000)
      as [rewards|e|] eqn:E.
    + exists rewards. split; [reflexivity|exact (proj1 (proj2 (proj2 S)))].
    + clear S. vm_compute in E. discriminate E.
    + clear S. vm_compute in E. discriminate E.
  - vm_compute. reflexivity.
  - vm_compute. reflexivity.
Defined.

Example rewards_example :
  (fmap (M := list) reward_amount <$> distribute_voting_rewards sample_validators (cast_all ballots_a)
     [sample_tx 1] (50 * 31536000)) = Ok [14; 14; 13].
Proof. vm_compute. reflexivity. Qed.
