(* ===== verification/Proposer.v ===== *)
(** * Forks, proposers and block proposal ([src/consensus/mod.rs], third part)

    The heaviest-chain rule, stake-weighted proposer selection, and the block
    a proposer builds from the mempool, which validates. *)

From S2P Require Import Prelude Orders Bytes Externals Types Hash Validation Mempool Votes.

(** ** Forks *)

Record ChainFork := {
  tip_hash : bytes;
  fork_height : Z;
  cumulative_stake_weight : Z;
}.

#[global] Instance ChainFork_eq_dec : EqDecision ChainFork.
Proof. solve_decision. Defined.

Definition cumulative_chain_weight `{Profile} {E} (tallies : list VoteTally) : outcome E Z :=
  sum_uint 128 approve_stake tallies.

Definition fork_cmp (left right : ChainFork) : comparison :=
  cmp_then
    (cmp_then (cumulative_stake_weight left ?= cumulative_stake_weight right)
       (fork_height left ?= fork_height right))
    (bytes_cmp (tip_hash left) (tip_hash right)).

#[global] Instance fork_cmp_total : CmpTotal fork_cmp.
Proof.
  split; [apply _|]. intros [h1 n1 w1] [h2 n2 w2]. unfold fork_cmp. simpl.
  destruct (Z.compare_spec w1 w2) as [->| |]; simpl; [|done..].
  destruct (Z.compare_spec n1 n2) as [->| |]; simpl; [|done..].
  intros E. apply (cmp_Eq bytes_cmp) in E as ->. done.
Qed.

Definition choose_heaviest_chain (forks : list ChainFork) : option ChainFork :=
  max_by fork_cmp forks.

(** ** Proposers *)

Module ProposerError.
Inductive t :=
| NoEligibleValidators
| ZeroTotalStake
| SelectionFailed.
End ProposerError.

Definition proposer_seed `{Sha256} {E} (previous_block_hash : bytes) (height : Z) :
  outcome E bytes :=
  let hash := sha256 (previous_block_hash ++ be_bytes 8 height) in
  if (length hash =? 32)%nat then Ok hash else Panic.

(** The loop over [cumulative]. *)
Fixpoint pick_proposer `{Profile} (draw cumulative : Z) (eligible : list Validator) :
  outcome ProposerError.t Validator :=
  match eligible with
  | [] => Err ProposerError.SelectionFailed
  | v :: eligible' =>
      cumulative' ← arith 128 (cumulative + val_stake v);
      if draw <? cumulative' then Ok v else pick_proposer draw cumulative' eligible'
  end.

Definition select_proposer_by_seed `{Profile} (validators : list Validator) (seed : bytes) :
  outcome ProposerError.t Validator :=
  let eligible := filter is_active validators in
  if bool_decide (eligible = []) then Err ProposerError.NoEligibleValidators
  else
    let sorted := sort_by address_cmp eligible in
    total_stake ← sum_uint 128 val_stake sorted;
    if total_stake =? 0 then Err ProposerError.ZeroTotalStake
    else pick_proposer (from_be (take 16 seed) mod total_stake) 0 sorted.

Definition select_proposer `{Profile, Sha256} (validators : list Validator)
    (previous_block_hash : bytes) (height : Z) : outcome ProposerError.t Validator :=
  seed ← proposer_seed previous_block_hash height;
  select_proposer_by_seed validators seed.

Module ProposeError.
Inductive t :=
| ZeroMaxTransactions
| Serialization (message : string).
End ProposeError.

Section propose.
Context `{Sha256, Ed25519, ChainCodecs}.

(** The [unsigned_block_header_bytes] of this module. *)
Definition proposal_bytes (h : BlockHeader) : outcome ProposeError.t bytes :=
  map_err ProposeError.Serialization (bincode_serialize (clear_header_signature h)).

Definition sign_block_header (h : BlockHeader) (secret_key : bytes) :
  outcome ProposeError.t bytes :=
  message ← proposal_bytes h;
  Ok (ed25519_sign secret_key message).

(** The header with its [signature] assigned. *)
Definition set_header_signature (h : BlockHeader) (signature : bytes) : BlockHeader := {|
  hdr_version := hdr_version h; hdr_previous_hash := hdr_previous_hash h;
  hdr_merkle_root := hdr_merkle_root h; hdr_timestamp := hdr_timestamp h;
  hdr_height := hdr_height h; hdr_validator := hdr_validator h;
  hdr_signature := signature |}.

(** The mempool is drained before the header is signed, so it is returned
    whatever the outcome. *)
Definition propose_block (proposer : Validator) (proposer_secret_key previous_block_hash : bytes)
    (height timestamp : Z) (mempool : Mempool) (max_transactions : nat) :
  outcome ProposeError.t Block * Mempool :=
  if (max_transactions =? 0)%nat then (Err ProposeError.ZeroMaxTransactions, mempool)
  else
    let '(txs, mempool') := take_for_block mempool max_transactions in
    (merkle_root ← calculate_merkle_root txs;
     let header := {|
       hdr_version := 1; hdr_previous_hash := previous_block_hash;
       hdr_merkle_root := merkle_root; hdr_timestamp := timestamp; hdr_height := height;
       hdr_validator := val_address proposer; hdr_signature := [] |} in
     signature ← sign_block_header header proposer_secret_key;
     Ok {| blk_header := set_header_signature header signature;
           blk_transactions := txs; blk_receipts := [] |}, mempool').
End propose.

(** ** Selection *)

Definition eligible_set (validators : list Validator) : list Validator :=
  sort_by address_cmp (active_set validators).

Section pick.
Context `{Profile}.

(** The interval of draws that select the validator at index [i]. *)
Definition slot_start (l : list Validator) (i : nat) : Z := sumZ val_stake (take i l).

Lemma pick_proposer_spec l draw cumulative :
  Forall (fun v => 0 < val_stake v) l -> 0 <= cumulative <= draw ->
  cumulative + sumZ val_stake l < 2 ^ 128 -> draw < cumulative + sumZ val_stake l ->
  exists i v, l !! i = Some v /\ pick_proposer draw cumulative l = Ok v /\
    cumulative + slot_start l i <= draw < cumulative + slot_start l i + val_stake v.
Proof.
  revert cumulative. induction l as [|v l IH]; intros cumulative F C B D; simpl in *; [lia|].
  apply Forall_cons in F as [Fv F].
  assert (0 <= sumZ val_stake l).
  { apply sumZ_nonneg. eapply Forall_impl; [done|]. intros w W. cbv beta in W |- *. lia. }
  unfold sumZ in *. simpl in *.
  rewrite arith_fits by lia. simpl.
  destruct (Z.ltb_spec draw (cumulative + val_stake v)).
  - exists O, v. unfold slot_start. simpl. split; [done|]. split; [done|]. lia.
  - destruct (IH (cumulative + val_stake v)) as (i & w & L & E & R); [done|lia..|].
    exists (S i), w. unfold slot_start, sumZ in *. simpl. split; [done|]. split; [done|]. lia.
Qed.

(** Distinct indices have disjoint slots. *)
Lemma slot_unique l i j v w draw :
  Forall (fun v => 0 < val_stake v) l -> l !! i = Some v -> l !! j = Some w ->
  slot_start l i <= draw < slot_start l i + val_stake v ->
  slot_start l j <= draw < slot_start l j + val_stake w -> i = j.
Proof.
  intros F Li Lj Ri Rj.
  assert (forall a b x, (a < b)%nat -> l !! a = Some x ->
            slot_start l a + val_stake x <= slot_start l b) as Mono.
  { intros a b x AB La. unfold slot_start.
    rewrite <- (take_drop (S a) (take b l)). rewrite take_take, Nat.min_l by lia.
    rewrite (take_S_r l a x La), !sumZ_app. simpl sumZ.
    assert (0 <= sumZ val_stake (drop (S a) (take b l))); [|lia].
    apply sumZ_nonneg, Forall_drop, Forall_take. eapply Forall_impl; [done|].
    intros y Y. cbv beta in Y |- *. lia. }
  destruct (Nat.lt_trichotomy i j) as [L|[E|L]]; [|done|].
  - pose proof (Mono i j v L Li). lia.
  - pose proof (Mono j i w L Lj). lia.
Qed.

Lemma slot_bounds l i v :
  Forall (fun v => 0 < val_stake v) l -> l !! i = Some v ->
  0 <= slot_start l i /\ slot_start l i + val_stake v <= sumZ val_stake l.
Proof.
  intros F L. assert (forall k, Forall (fun v => 0 < val_stake v) k -> 0 <= sumZ val_stake k) as N.
  { intros k Fk. apply sumZ_nonneg. eapply Forall_impl; [done|].
    intros w W. cbv beta in W |- *. lia. }
  rewrite <- (take_drop_middle l i v L) at 3. rewrite sumZ_app, sumZ_cons. unfold slot_start.
  pose proof (N _ (Forall_take _ i _ F)). pose proof (N _ (Forall_drop _ (S i) _ F)). lia.
Qed.
End pick.

Section eligible.
Context (validators : list Validator).

Lemma eligible_perm : eligible_set validators ≡ₚ active_set validators.
Proof. apply sort_by_perm. Qed.

Lemma eligible_pos : Forall (fun v => 0 < val_stake v) (eligible_set validators).
Proof.
  rewrite eligible_perm. apply Forall_forall. by intros v [A _]%list_elem_of_filter.
Qed.

Lemma eligible_sum :
  sumZ val_stake (eligible_set validators) = sumZ val_stake (active_set validators).
Proof. apply sumZ_perm, eligible_perm. Qed.

Lemma eligible_total_pos :
  active_set validators <> [] -> 0 < sumZ val_stake (eligible_set validators).
Proof.
  rewrite eligible_sum. unfold active_set. intros NE.
  destruct (filter is_active validators) as [|v l] eqn:E; [done|].
  assert (v ∈ filter is_active validators) as I by (rewrite E; left).
  pose proof (sumZ_elem val_stake _ v (active_set_pos validators) I) as S.
  unfold active_set in S. rewrite E in S.
  apply list_elem_of_filter in I as [A _]. unfold is_active in A. lia.
Qed.

Lemma select_by_seed_eq `{Profile} seed :
  active_set validators <> [] -> sumZ val_stake (active_set validators) < 2 ^ 128 ->
  select_proposer_by_seed validators seed =
  pick_proposer (from_be (take 16 seed) mod sumZ val_stake (eligible_set validators)) 0
    (eligible_set validators).
Proof.
  intros NE B. unfold select_proposer_by_seed.
  fold (active_set validators). rewrite bool_decide_false by done.
  fold (eligible_set validators). pose proof (eligible_total_pos NE).
  rewrite sum_uint_Ok; cycle 1.
  { eapply Forall_impl; [apply eligible_pos|]. intros v V. cbv beta in V |- *. lia. }
  { by rewrite eligible_sum. }
  cbn [mbind outcome_bind].
  destruct (Z.eqb_spec (sumZ val_stake (eligible_set validators)) 0); [lia|done].
Qed.

(** The slot a seed falls into. *)
Lemma select_by_seed_slot `{Profile} seed :
  active_set validators <> [] -> sumZ val_stake (active_set validators) < 2 ^ 128 ->
  let draw := from_be (take 16 seed) mod sumZ val_stake (active_set validators) in
  exists i v, eligible_set validators !! i = Some v /\
    select_proposer_by_seed validators seed = Ok v /\
    slot_start (eligible_set validators) i <= draw < slot_start (eligible_set validators) i + val_stake v.
Proof.
  intros NE B draw. pose proof (eligible_total_pos NE) as T. rewrite eligible_sum in T.
  rewrite select_by_seed_eq, eligible_sum by done.
  pose proof (Z.mod_pos_bound (from_be (take 16 seed)) _ T).
  apply (pick_proposer_spec (eligible_set validators)); rewrite ?eligible_sum;
    [apply eligible_pos|unfold draw in *; lia..].
Qed.
End eligible.

(** ** Proposing *)

Section propose_lemmas.
Context `{Sha256Ok, Ed25519Ok, ChainCodecsOk}.

Lemma proposal_bytes_Ok h : wf h -> exists b,
  bincode_serialize (clear_header_signature h) = Ok b /\ proposal_bytes h = Ok b.
Proof.
  intros W. assert (wf (clear_header_signature h)) as W' by solve_ranges W.
  destruct (bincode_total _ W') as [b Eb]. exists b. unfold proposal_bytes. by rewrite Eb.
Qed.

(** A signed header over the right root passes every check but the size. *)
Lemma signed_block_acceptable h sk b txs prev :
  hdr_validator h = public_key_of sk -> hdr_previous_hash h = prev ->
  bincode_serialize (clear_header_signature h) = Ok b ->
  calculate_merkle_root (E := BlockValidationError) txs = Ok (hdr_merkle_root h) ->
  let block := {| blk_header := set_header_signature h (ed25519_sign sk b);
                  blk_transactions := txs; blk_receipts := [] |} in
  (exists e, bincode_serialize block = Ok e /\ Z.of_nat (length e) < MAX_BLOCK_SIZE_BYTES) ->
  block_acceptable block prev.
Proof.
  intros K P B R block S. destruct (ed25519_sign_verify sk b) as (vk & Ek & Ev).
  split; try done; cbn [block blk_header set_header_signature hdr_validator hdr_signature].
  - rewrite K. apply public_key_length.
  - apply signature_length.
  - exists vk, b. by rewrite K.
Qed.
End propose_lemmas.

(** ** Properties *)

(** [C27] Proposer selection is total and proportional
    to stake: every seed selects an active validator, and each active
    validator is selected exactly by the draws of an interval as long as its
    stake, inside the range [[0, total)] of the draw. *)
Theorem select_proposer_weighted `{Profile} validators :
  active_set validators <> [] -> sumZ val_stake (active_set validators) < 2 ^ 128 ->
  NoDup (val_address <$> active_set validators) ->
  let total := sumZ val_stake (active_set validators) in
  let draw seed := from_be (take 16 seed) mod total in
  (forall seed, exists v, v ∈ active_set validators /\
     select_proposer_by_seed validators seed = Ok v) /\
  (forall v, v ∈ active_set validators -> exists lo, 0 <= lo /\ lo + val_stake v <= total /\
     forall seed, select_proposer_by_seed validators seed = Ok v <->
                  lo <= draw seed < lo + val_stake v).
Proof.
  intros NE B ND total draw.
  assert (forall seed, exists i v, eligible_set validators !! i = Some v /\
    select_proposer_by_seed validators seed = Ok v /\
    slot_start (eligible_set validators) i <= draw seed <
    slot_start (eligible_set validators) i + val_stake v) as Sel.
  { intros seed. by apply select_by_seed_slot. }
  split.
  - intros seed. destruct (Sel seed) as (i & v & L & E & _). exists v. split; [|done].
    rewrite <- eligible_perm. by apply list_elem_of_lookup_2 in L.
  - intros v I. assert (v ∈ eligible_set validators) as Iv by (by rewrite eligible_perm).
    apply list_elem_of_lookup_1 in Iv as [i Li].
    destruct (slot_bounds (eligible_set validators) i v (eligible_pos validators) Li) as [Lo Hi].
    rewrite eligible_sum in Hi. exists (slot_start (eligible_set validators) i).
    split; [done|]. split; [done|]. intros seed.
    destruct (Sel seed) as (j & w & Lj & E & R). rewrite E. split.
    + intros Ew. apply (inj Ok) in Ew as ->.
      assert (i = j) as <-; [|done]. eapply NoDup_lookup; [|exact Li|exact Lj].
      rewrite eligible_perm. by eapply NoDup_fmap_1.
    + intros Rv. assert (i = j) as <-.
      { by eapply (slot_unique _ i j v w); [apply eligible_pos|..]. }
      congruence.
Qed.

(** Every node selects the same proposer: the result
    does not depend on the order in which the validators are listed. *)
Theorem select_proposer_order `{Profile, Sha256} validators validators' prev height :
  NoDup (val_address <$> active_set validators) -> validators ≡ₚ validators' ->
  select_proposer validators prev height = select_proposer validators' prev height.
Proof.
  intros ND P. unfold select_proposer. destruct (proposer_seed prev height) as [seed|e|]; [|done..].
  cbn [mbind outcome_bind]. unfold select_proposer_by_seed.
  fold (active_set validators) (active_set validators').
  assert (active_set validators ≡ₚ active_set validators') as Pa by (unfold active_set; by rewrite P).
  assert (sort_by address_cmp (active_set validators) =
          sort_by address_cmp (active_set validators')) as ->.
  { apply sort_by_perm_eq; [apply _| |done]. intros x y X Y E.
    apply (cmp_Eq bytes_cmp) in E. by eapply (NoDup_fmap_inj val_address). }
  rewrite (bool_decide_ext (active_set validators = []) (active_set validators' = [])); [done|].
  split; intros E; rewrite E in Pa; [by apply Permutation_nil_l in Pa|by apply Permutation_nil_r in Pa].
Qed.

(** The fork choice returns a fork of the list
    that no fork exceeds in stake weight, then height, then tip hash; it fails
    only on the empty list, and does not depend on the order of the list. *)
Theorem choose_heaviest_chain_spec forks :
  (choose_heaviest_chain forks = None <-> forks = []) /\
  (forall best, choose_heaviest_chain forks = Some best -> best ∈ forks /\
     forall f, f ∈ forks ->
       cumulative_stake_weight f < cumulative_stake_weight best \/
       cumulative_stake_weight f = cumulative_stake_weight best /\
       (fork_height f < fork_height best \/
        fork_height f = fork_height best /\ bytes_cmp (tip_hash f) (tip_hash best) <> Gt)) /\
  (forall forks', forks ≡ₚ forks' -> choose_heaviest_chain forks = choose_heaviest_chain forks').
Proof.
  split; [apply max_by_None|]. split.
  - intros best E. apply max_by_spec in E as [I L]; [|apply _]. split; [done|].
    intros f F. specialize (L f F). unfold fork_cmp in L.
    destruct (Z.compare_spec (cumulative_stake_weight f) (cumulative_stake_weight best));
      simpl in L; [|by left|done]. right. split; [done|].
    destruct (Z.compare_spec (fork_height f) (fork_height best)); simpl in L; [|by left|done].
    by right.
  - intros forks'. apply (max_by_perm fork_cmp).
Qed.

(** A proposal, its root, and its validation. *)
Lemma propose_block_run `{Sha256Ok, Ed25519Ok, ChainCodecsOk} proposer sk prev height
    timestamp m max :
  mempool_reachable m -> Forall wf (pending_transactions m) ->
  Z.of_nat (length (pending_transactions m)) < 2 ^ 63 ->
  val_address proposer = public_key_of sk -> vec_ok prev -> u64 height -> u64 timestamp ->
  (0 < max)%nat ->
  exists block encoded, propose_block proposer sk prev height timestamp m max =
      (Ok block, (take_for_block m max).2) /\
    blk_transactions block = (take_for_block m max).1 /\ blk_receipts block = [] /\
    hdr_height (blk_header block) = height /\
    calculate_merkle_root (E := ProposeError.t) (blk_transactions block) =
      Ok (hdr_merkle_root (blk_header block)) /\ length (hdr_merkle_root (blk_header block)) = 32%nat /\
    bincode_serialize block = Ok encoded /\
    validate_block block prev =
      if MAX_BLOCK_SIZE_BYTES <=? Z.of_nat (length encoded)
      then Err (BlockTooLarge (Z.of_nat (length encoded)) MAX_BLOCK_SIZE_BYTES) else Ok tt.
Proof.
  intros R%mempool_reachable_routed F N K Wp Wh Wt M.
  destruct (take_for_block m max) as [txs m'] eqn:T.
  destruct (take_for_block_perm m max txs m' R T) as [_ P].
  assert (Forall wf txs) as Ft.
  { rewrite <- P in F. by apply Forall_app in F as [? _]. }
  assert (vec_ok txs) as Vt.
  { apply Permutation_length in P. rewrite length_app in P. unfold vec_ok. lia. }
  destruct (calculate_merkle_root_Ok (E := ProposeError.t) txs Ft) as (root & Er & Lr).
  destruct (calculate_merkle_root_Ok (E := BlockValidationError) txs Ft) as (root' & Er' & _).
  assert (root' = root) as -> by (eapply calculate_merkle_root_any; eauto).
  set (h := {| hdr_version := 1; hdr_previous_hash := prev; hdr_merkle_root := root;
    hdr_timestamp := timestamp; hdr_height := height; hdr_validator := val_address proposer;
    hdr_signature := [] |}).
  assert (vec_ok root) as Vr by (unfold vec_ok; rewrite Lr; done).
  assert (vec_ok (val_address proposer)) as Vk
    by (unfold vec_ok; rewrite K, public_key_length; done).
  assert (wf h) as Wh' by (by repeat split; try apply Wh; try apply Wt).
  destruct (proposal_bytes_Ok h Wh') as (b & Eb & Pb).
  set (block := {| blk_header := set_header_signature h (ed25519_sign sk b);
                   blk_transactions := txs; blk_receipts := [] |}).
  assert (wf block) as Wb.
  { assert (vec_ok (ed25519_sign sk b)) by (unfold vec_ok; by rewrite signature_length).
    split; [|by repeat split]. by repeat split; try apply Wh; try apply Wt. }
  destruct (bincode_total block Wb) as [e Ee]. exists block, e.
  unfold propose_block. destruct (Nat.eqb_spec max 0); [lia|]. rewrite T.
  fold h. rewrite Er. cbn [mbind outcome_bind]. fold h. unfold sign_block_header. rewrite Pb.
  cbn [mbind outcome_bind snd]. do 4 (split; [done|]). split; [exact Er|]. split; [exact Lr|]. split; [exact Ee|].
  destruct (Z.leb_spec MAX_BLOCK_SIZE_BYTES (Z.of_nat (length e))) as [L|L].
  - unfold validate_block, validate_block_size. rewrite Ee. cbn [map_err mbind outcome_bind].
    by destruct (Z.leb_spec MAX_BLOCK_SIZE_BYTES (Z.of_nat (length e))); [|lia].
  - apply validate_block_acceptable. apply signed_block_acceptable; [done..|]. eauto.
Qed.

(** [C24] A proposed block is valid: from a mempool of
    well-formed transactions, a proposer whose address is the public key of
    its secret key always gets a block with the transactions taken from the
    mempool and no receipts, and [validate_block] accepts it on top of the
    block it extends, unless it exceeds the size limit, which proposing does
    not check. *)
Theorem propose_block_valid `{Sha256Ok, Ed25519Ok, ChainCodecsOk} proposer sk prev height
    timestamp m max :
  mempool_reachable m -> Forall wf (pending_transactions m) ->
  Z.of_nat (length (pending_transactions m)) < 2 ^ 63 ->
  val_address proposer = public_key_of sk -> vec_ok prev -> u64 height -> u64 timestamp ->
  (0 < max)%nat ->
  exists block encoded, propose_block proposer sk prev height timestamp m max =
      (Ok block, (take_for_block m max).2) /\
    blk_transactions block = (take_for_block m max).1 /\ blk_receipts block = [] /\
    hdr_height (blk_header block) = height /\
    bincode_serialize block = Ok encoded /\
    validate_block block prev =
      if MAX_BLOCK_SIZE_BYTES <=? Z.of_nat (length encoded)
      then Err (BlockTooLarge (Z.of_nat (length encoded)) MAX_BLOCK_SIZE_BYTES) else Ok tt.
Proof.
  intros R F N K Wp Wh Wt M.
  destruct (propose_block_run proposer sk prev height timestamp m max R F N K Wp Wh Wt M)
    as (block & e & E & Et & Er & Eh & _ & _ & Ee & V). by exists block, e.
Qed.

(** ** Witnesses *)

From S2P Require Import Concrete.
Import Concrete.Instances.

Lemma select_proposer_weighted_witness :
  (forall seed, exists v, v ∈ active_set sample_validators /\
     select_proposer_by_seed sample_validators seed = Ok v) /\
  exists lo, 0 <= lo /\ lo + 10 <= sumZ val_stake (active_set sample_validators) /\
    forall seed, select_proposer_by_seed sample_validators seed = Ok (sample_validator 4 10) <->
      lo <= from_be (take 16 seed) mod sumZ val_stake (active_set sample_validators) < lo + 10.
Proof.
  destruct (select_proposer_weighted sample_validators ltac:(done) ltac:(done)
    ltac:(apply sample_validators_ok)) as [S W].
  split; [exact S|]. apply (W (sample_validator 4 10)). by_eval.
Defined.

Lemma select_proposer_order_witness :
  select_proposer sample_validators (fill 32 3) 9 =
  select_proposer (rev sample_validators) (fill 32 3) 9.
Proof.
  apply select_proposer_order; [apply sample_validators_ok|]. apply Permutation_rev.
Defined.

Lemma propose_block_valid_witness : exists block encoded,
  propose_block (sample_validator 1 10) (fill 32 1) (fill 32 5) 9 100 sample_pool 4 =
    (Ok block, (take_for_block sample_pool 4).2) /\
  bincode_serialize block = Ok encoded /\
  validate_block block (fill 32 5) =
    if MAX_BLOCK_SIZE_BYTES <=? Z.of_nat (length encoded)
    then Err (BlockTooLarge (Z.of_nat (length encoded)) MAX_BLOCK_SIZE_BYTES) else Ok tt.
Proof.
  assert (pending_transactions sample_pool = [sample_tx 1; sample_tx 2; sample_tx 3]) as P
    by (vm_compute; reflexivity).
  assert (Forall wf (pending_transactions sample_pool)) as W by (rewrite P; solve_wf).
  assert (vec_ok (fill 32 5)) as Wp by solve_wf.
  assert (Z.of_nat (length (pending_transactions sample_pool)) < 2 ^ 63) as N by (by rewrite P).
  assert (val_address (sample_validator 1 10) = public_key_of (fill 32 1)) as K by reflexivity.
  assert (u64 9) as U by (split; lia).
  assert (u64 100) as U' by (split; lia).
  assert (0 < 4)%nat as L by lia.
  pose proof (propose_block_valid (sample_validator 1 10) (fill 32 1) (fill 32 5) 9 100
    sample_pool 4 sample_pool_reachable W N K Wp U U' L) as V.
  destruct V as (block & encoded & E & _ & _ & _ & S & V).
  exists block, encoded. split; [exact E|]. split; [exact S|exact V].
Defined.
