(* ===== verification/Digest.v ===== *)
(** * The deterministic digest of receipts ([src/sharding/mod.rs], end)

    [splitmix64] on 64-bit words, the digest built from it for cross-shard
    receipts, and the score that shuffles validators.  [splitmix64] is a
    bijection, so two receipts that differ in their phase alone never share a
    proof. *)

From S2P Require Import Prelude Bytes Types.

Definition GOLDEN_GAMMA : Z := 0x9E3779B97F4A7C15.
Definition MIX_1 : Z := 0xBF58476D1CE4E5B9.
Definition MIX_2 : Z := 0x94D049BB133111EB.

(** [value ^ (value >> n)] *)
Definition xorshift (n value : Z) : Z := Z.lxor value (Z.shiftr value n).

Definition splitmix64 (value : Z) : Z :=
  let value := wrap 64 (value + GOLDEN_GAMMA) in
  let value := wrap 64 (xorshift 30 value * MIX_1) in
  let value := wrap 64 (xorshift 27 value * MIX_2) in
  xorshift 31 value.

(** The body of the loops over [bytes.iter().enumerate()]; [index] is below
    [2 ^ 63], so [index + 1] does not overflow. *)
Definition absorb_byte (index state : Z) (b : byte) : Z :=
  splitmix64 (Z.lxor state (wrap 64 (byte_val b + wrap 64 ((index + 1) * GOLDEN_GAMMA)))).

Fixpoint absorb (index state : Z) (payload : bytes) : Z :=
  match payload with
  | [] => state
  | b :: payload' => absorb (index + 1) (absorb_byte index state b) payload'
  end.

Definition digest_lane (state lane : Z) : bytes := be_bytes 8 (splitmix64 (Z.lxor state lane)).

Definition deterministic_digest (payload : bytes) (seed : Z) : bytes :=
  let state := Z.lxor seed (wrap 64 (Z.of_nat (length payload) * GOLDEN_GAMMA)) in
  let state := absorb 0 state payload in
  mjoin (digest_lane state <$> seqZ 0 (Z.of_nat RECEIPT_PROOF_LENGTH / 8)).

Definition assignment_score (epoch : Z) (address : bytes) : Z :=
  splitmix64 (absorb 0 (Z.lxor epoch GOLDEN_GAMMA) address).

Arguments splitmix64 : simpl never.

(** ** [splitmix64] is a bijection *)

(** The multiplicative inverses of the two odd constants modulo [2 ^ 64]. *)
Definition MIX_1_INV : Z := 0x96DE1B173F119089.
Definition MIX_2_INV : Z := 0x319642B2D24D8EC3.

Definition splitmix64_inv (value : Z) : Z :=
  let value := Z.lxor (xorshift 31 value) (Z.shiftr value 62) in
  let value := wrap 64 (value * MIX_2_INV) in
  let value := Z.lxor (xorshift 27 value) (Z.shiftr value 54) in
  let value := wrap 64 (value * MIX_1_INV) in
  let value := Z.lxor (xorshift 30 value) (Z.shiftr value 60) in
  wrap 64 (value - GOLDEN_GAMMA).

Lemma lxor_u64 a b : u64 a -> u64 b -> u64 (Z.lxor a b).
Proof.
  unfold u64. intros A B. assert (0 <= Z.lxor a b) as N by (apply Z.lxor_nonneg; lia).
  split; [done|]. destruct (decide (Z.lxor a b = 0)) as [->|Z0]; [done|].
  apply Z.log2_lt_pow2; [lia|]. eapply Z.le_lt_trans; [apply Z.log2_lxor; lia|].
  apply Z.max_lub_lt.
  - destruct (decide (a = 0)) as [->|]; [done|]. apply Z.log2_lt_pow2; lia.
  - destruct (decide (b = 0)) as [->|]; [done|]. apply Z.log2_lt_pow2; lia.
Qed.

Lemma shiftr_u64 n a : 0 <= n -> u64 a -> u64 (Z.shiftr a n).
Proof.
  unfold u64. intros N A. rewrite Z.shiftr_div_pow2 by done.
  split; [apply Z.div_pos; lia|]. apply Z.div_lt_upper_bound; nia.
Qed.

Lemma xorshift_u64 n a : 0 <= n -> u64 a -> u64 (xorshift n a).
Proof. intros. apply lxor_u64; [done|by apply shiftr_u64]. Qed.

Lemma wrap_u64 a : u64 (wrap 64 a).
Proof. apply wrap_range. lia. Qed.

Lemma splitmix64_u64 a : u64 (splitmix64 a).
Proof. apply xorshift_u64; [lia|]. apply wrap_u64. Qed.

Lemma xorshift_inverse n x :
  0 < n -> 64 <= 3 * n -> u64 x ->
  Z.lxor (xorshift n (xorshift n x)) (Z.shiftr (xorshift n x) (2 * n)) = x.
Proof.
  intros N M X. unfold xorshift.
  rewrite !Z.shiftr_lxor, !Z.shiftr_shiftr by lia.
  replace (n + n) with (2 * n) by lia. replace (n + 2 * n) with (3 * n) by lia.
  assert (Z.shiftr x (3 * n) = 0) as ->.
  { rewrite Z.shiftr_div_pow2 by lia. apply Z.div_small. split; [apply X|].
    eapply Z.lt_le_trans; [apply X|]. apply Z.pow_le_mono_r; lia. }
  apply Z.bits_inj'. intros i I. rewrite !Z.lxor_spec, Z.bits_0.
  destruct (Z.testbit x i), (Z.testbit (Z.shiftr x n) i), (Z.testbit (Z.shiftr x (2 * n)) i); done.
Qed.

Lemma wrap_mul_inverse a c d : u64 a -> (c * d) mod 2 ^ 64 = 1 -> wrap 64 (wrap 64 (a * c) * d) = a.
Proof.
  intros A I. unfold wrap. rewrite Z.mul_mod_idemp_l by done.
  rewrite <- Z.mul_assoc, <- Z.mul_mod_idemp_r, I, Z.mul_1_r by done.
  by apply Z.mod_small.
Qed.

Lemma splitmix64_inverse x : u64 x -> splitmix64_inv (splitmix64 x) = x.
Proof.
  intros X. unfold splitmix64_inv, splitmix64.
  change 62 with (2 * 31). rewrite xorshift_inverse by (try lia; apply wrap_u64).
  rewrite wrap_mul_inverse by (first [apply xorshift_u64; [lia|apply wrap_u64] | reflexivity]).
  change 54 with (2 * 27). rewrite xorshift_inverse by (try lia; apply wrap_u64).
  rewrite wrap_mul_inverse by (first [apply xorshift_u64; [lia|apply wrap_u64] | reflexivity]).
  change 60 with (2 * 30). rewrite xorshift_inverse by (try lia; apply wrap_u64).
  unfold wrap. rewrite Zminus_mod_idemp_l. replace (x + GOLDEN_GAMMA - GOLDEN_GAMMA) with x by lia.
  by apply Z.mod_small.
Qed.

Lemma splitmix64_inj x y : u64 x -> u64 y -> splitmix64 x = splitmix64 y -> x = y.
Proof.
  intros X Y E. by rewrite <- (splitmix64_inverse x X), <- (splitmix64_inverse y Y), E.
Qed.

(** ** The digest *)

Lemma absorb_app i s p q :
  absorb i s (p ++ q) = absorb (i + Z.of_nat (length p)) (absorb i s p) q.
Proof.
  revert i s. induction p as [|b p IH]; intros i s; simpl; [f_equal; lia|].
  rewrite IH. f_equal. lia.
Qed.

Lemma absorb_byte_u64 i s b : u64 (absorb_byte i s b).
Proof. apply splitmix64_u64. Qed.

Lemma absorb_u64 i s p : u64 s -> u64 (absorb i s p).
Proof.
  revert i s. induction p as [|b p IH]; intros i s S; simpl; [done|].
  apply IH, absorb_byte_u64.
Qed.

Lemma lxor_inj_r a b c : Z.lxor c a = Z.lxor c b -> a = b.
Proof.
  intros E. apply (f_equal (Z.lxor c)) in E.
  by rewrite <- !Z.lxor_assoc, Z.lxor_nilpotent, !Z.lxor_0_l in E.
Qed.

Lemma lxor_inj_l a b c : Z.lxor a c = Z.lxor b c -> a = b.
Proof. rewrite (Z.lxor_comm a), (Z.lxor_comm b). apply lxor_inj_r. Qed.

(** Each byte is absorbed injectively, and each state is. *)
Lemma absorb_byte_inj i s a b : u64 s -> absorb_byte i s a = absorb_byte i s b -> a = b.
Proof.
  intros S E. apply splitmix64_inj in E; [|by apply lxor_u64; [|apply wrap_u64]..].
  apply lxor_inj_r in E. unfold wrap in E at 1 3.
  set (w := wrap 64 ((i + 1) * GOLDEN_GAMMA)) in E.
  apply (inj byte_val). pose proof (byte_val_range a). pose proof (byte_val_range b).
  assert (byte_val a mod 2 ^ 64 = byte_val b mod 2 ^ 64) as M.
  { replace (byte_val a) with (byte_val a + w - w) by lia.
    replace (byte_val b) with (byte_val b + w - w) by lia.
    by rewrite <- Zminus_mod_idemp_l, E, Zminus_mod_idemp_l. }
  rewrite !Z.mod_small in M by lia. done.
Qed.

Lemma absorb_byte_state_inj i s t b :
  u64 s -> u64 t -> absorb_byte i s b = absorb_byte i t b -> s = t.
Proof.
  intros S T E. apply splitmix64_inj in E; [|by apply lxor_u64; [|apply wrap_u64]..].
  by apply lxor_inj_l in E.
Qed.

Lemma absorb_state_inj i s t p :
  u64 s -> u64 t -> absorb i s p = absorb i t p -> s = t.
Proof.
  revert i s t. induction p as [|b p IH]; intros i s t S T; simpl; [done|].
  intros E. apply IH in E; [|apply absorb_byte_u64..]. by apply absorb_byte_state_inj in E.
Qed.

(** Payloads that differ in one byte reach different states. *)
Lemma absorb_one_byte i s p a b q :
  u64 s -> absorb i s (p ++ a :: q) = absorb i s (p ++ b :: q) -> a = b.
Proof.
  intros S. rewrite !absorb_app. simpl. intros E.
  apply absorb_state_inj in E; [|apply absorb_byte_u64..].
  apply absorb_byte_inj in E; [done|]. by apply absorb_u64.
Qed.

Lemma digest_lane_length s l : length (digest_lane s l) = 8%nat.
Proof. apply be_bytes_length. Qed.

Lemma deterministic_digest_lanes payload seed :
  deterministic_digest payload seed =
  let state := absorb 0 (Z.lxor seed (wrap 64 (Z.of_nat (length payload) * GOLDEN_GAMMA))) payload in
  digest_lane state 0 ++ digest_lane state 1 ++ digest_lane state 2 ++ digest_lane state 3.
Proof.
  unfold deterministic_digest. change (seqZ 0 (Z.of_nat RECEIPT_PROOF_LENGTH / 8)) with [0; 1; 2; 3].
  rewrite !fmap_cons. cbn [mjoin list_join fmap list_fmap]. by rewrite app_nil_r.
Qed.

Lemma deterministic_digest_length payload seed :
  length (deterministic_digest payload seed) = RECEIPT_PROOF_LENGTH.
Proof.
  rewrite deterministic_digest_lanes. cbv zeta. by rewrite !length_app, !digest_lane_length.
Qed.

Lemma digest_state_inj payload payload' seed :
  u64 seed -> length payload = length payload' ->
  deterministic_digest payload seed = deterministic_digest payload' seed ->
  let s := Z.lxor seed (wrap 64 (Z.of_nat (length payload) * GOLDEN_GAMMA)) in
  u64 s /\ absorb 0 s payload = absorb 0 s payload'.
Proof.
  intros U L E s. assert (u64 s) as S by (apply lxor_u64; [done|apply wrap_u64]).
  split; [done|]. rewrite !deterministic_digest_lanes, <- L in E. fold s in E. cbv zeta in E.
  apply app_inj_1 in E as [E _]; [|exact (eq_trans (digest_lane_length _ _) (eq_sym (digest_lane_length _ _)))].
  unfold digest_lane in E. rewrite !Z.lxor_0_r in E.
  apply be_bytes_inj in E; [|apply splitmix64_u64..].
  apply splitmix64_inj in E; [done|by apply absorb_u64..].
Qed.

Lemma digest_one_byte p a b q seed :
  u64 seed -> deterministic_digest (p ++ a :: q) seed = deterministic_digest (p ++ b :: q) seed ->
  a = b.
Proof.
  intros U E. assert (length (p ++ a :: q) = length (p ++ b :: q)) as L
    by (by rewrite !length_app).
  destruct (digest_state_inj _ _ _ U L E) as [S F]. by eapply absorb_one_byte.
Qed.

(** ** Property *)

(** The digest of any payload has 32 bytes, and
    two payloads of one length that differ in a single byte have different
    digests: each step of the mixing is a bijection of the 64-bit state. *)
Theorem deterministic_digest_spec p a b q seed :
  u64 seed ->
  length (deterministic_digest (p ++ a :: q) seed) = RECEIPT_PROOF_LENGTH /\
  (deterministic_digest (p ++ a :: q) seed = deterministic_digest (p ++ b :: q) seed <-> a = b).
Proof.
  intros U. split; [apply deterministic_digest_length|].
  split; [by apply digest_one_byte|by intros ->].
Qed.

Lemma deterministic_digest_spec_witness :
  deterministic_digest (bytes_of "receipt-" ++ [byte_of 97]) 7 <>
  deterministic_digest (bytes_of "receipt-" ++ [byte_of 98]) 7.
Proof.
  intros E. assert (u64 7) as U by (split; lia).
  pose proof (proj1 (proj2 (deterministic_digest_spec (bytes_of "receipt-") (byte_of 97)
    (byte_of 98) [] 7 U)) E) as F.
  discriminate F.
Defined.
