(* ===== verification/Sharding.v ===== *)
(** * Shards, committees and the beacon chain ([src/sharding/mod.rs])

    The sharding configuration, the assignment of validators to committees,
    the beacon chain's epochs and state roots, and the consensus of one shard.
    The two-phase protocol between shards is in file [CrossShard]. *)

From S2P Require Import Prelude Orders Bytes Externals Types Votes Digest.

Definition DEFAULT_INITIAL_SHARD_COUNT : Z := 64.
Definition MIN_SHARD_COUNT : Z := 1.
Definition SHARD_STATE_ROOT_LENGTH : nat := 32.
Definition EMPTY_SHARD_STATE_ROOT : bytes := repeat (byte_of 0) SHARD_STATE_ROOT_LENGTH.

(** ** Configuration *)

Module ShardingConfigError.
Inductive t :=
| ShardCountTooLow (minimum : Z)
| ShardCountMustBePowerOfTwo (provided : Z).
End ShardingConfigError.

Record ShardingConfig := { shard_count : Z }.

(** [u16::is_power_of_two] *)
Definition is_power_of_two (z : Z) : bool := (0 <? z) && (2 ^ Z.log2 z =? z).

Definition validate_shard_count (count : Z) : outcome ShardingConfigError.t unit :=
  if count <? MIN_SHARD_COUNT then Err (ShardingConfigError.ShardCountTooLow MIN_SHARD_COUNT)
  else if negb (is_power_of_two count)
  then Err (ShardingConfigError.ShardCountMustBePowerOfTwo count)
  else Ok tt.

Definition ShardingConfig_default : ShardingConfig :=
  {| shard_count := DEFAULT_INITIAL_SHARD_COUNT |}.

Definition ShardingConfig_new (count : Z) : outcome ShardingConfigError.t ShardingConfig :=
  validate_shard_count count;;
  Ok {| shard_count := count |}.

Definition apply_governance_update (config : ShardingConfig) (new_shard_count : Z) :
  outcome ShardingConfigError.t ShardingConfig :=
  validate_shard_count new_shard_count;;
  Ok {| shard_count := new_shard_count |}.

(** ** State *)

Record ShardCommitteeAssignment := {
  asg_epoch : Z;
  asg_shard_id : Z;
  validator_addresses : list bytes;
}.

Record ShardStateRoot := {
  root_epoch : Z;
  root_shard_id : Z;
  state_root : bytes;
}.

Record BeaconChain := {
  config : ShardingConfig;
  validators : list Validator;
  current_epoch : Z;
  shard_committees : list ShardCommitteeAssignment;
  shard_state_roots : list ShardStateRoot;
}.

Module BeaconChainError.
Inductive t :=
| InvalidShardId (shard_id shard_count : Z)
| InvalidStateRootLength (expected provided : Z).
End BeaconChainError.

Definition validate_shard_id (shard_id count : Z) : outcome BeaconChainError.t unit :=
  if count <=? shard_id then Err (BeaconChainError.InvalidShardId shard_id count) else Ok tt.

Definition validate_state_root_length (root : bytes) : outcome BeaconChainError.t unit :=
  if negb (length root =? SHARD_STATE_ROOT_LENGTH)%nat
  then Err (BeaconChainError.InvalidStateRootLength (Z.of_nat SHARD_STATE_ROOT_LENGTH)
              (Z.of_nat (length root)))
  else Ok tt.

(** ** Validators and committees *)

Definition validator_cmp (left right : Validator) : comparison :=
  cmp_then
    (cmp_then (bytes_cmp (val_address left) (val_address right))
       (val_stake left ?= val_stake right))
    (val_locked_until left ?= val_locked_until right).

Definition sort_validators (l : list Validator) : list Validator := sort_by validator_cmp l.

(** The order of the shuffle: by score, then by address. *)
Definition score_cmp (epoch : Z) (left right : Validator) : comparison :=
  cmp_then
    (assignment_score epoch (val_address left) ?= assignment_score epoch (val_address right))
    (bytes_cmp (val_address left) (val_address right)).

Definition push_address (address : bytes) (a : ShardCommitteeAssignment) :
  ShardCommitteeAssignment := {|
  asg_epoch := asg_epoch a; asg_shard_id := asg_shard_id a;
  validator_addresses := validator_addresses a ++ [address] |}.

(** [assignments[i].validator_addresses.push(address)] *)
Definition push_at {E} (i : nat) (address : bytes) (l : list ShardCommitteeAssignment) :
  outcome E (list ShardCommitteeAssignment) :=
  a ← expect (l !! i);
  Ok (<[i := push_address address a]> l).

(** The loop over [shuffled_validators.into_iter().enumerate()]; [%] panics
    when there are no shards. *)
Fixpoint assign_loop {E} (count : Z) (index : Z) (shuffled : list Validator)
    (assignments : list ShardCommitteeAssignment) : outcome E (list ShardCommitteeAssignment) :=
  match shuffled with
  | [] => Ok assignments
  | v :: shuffled' =>
      if count =? 0 then Panic
      else
        assignments' ← push_at (Z.to_nat (index mod count)) (val_address v) assignments;
        assign_loop count (index + 1) shuffled' assignments'
  end.

Definition build_committee_assignments {E} (epoch count : Z) (vs : list Validator) :
  outcome E (list ShardCommitteeAssignment) :=
  let assignments := (fun shard_id => {| asg_epoch := epoch; asg_shard_id := shard_id;
                                         validator_addresses := [] |}) <$> seqZ 0 count in
  let shuffled := sort_by (score_cmp epoch) (filter is_active vs) in
  assign_loop count 0 shuffled assignments.

(** The order of the two tables: by epoch, then by shard. *)
Definition asg_key (a : ShardCommitteeAssignment) : Z * Z := (asg_epoch a, asg_shard_id a).
Definition root_key (r : ShardStateRoot) : Z * Z := (root_epoch r, root_shard_id r).
Definition key_cmp (k l : Z * Z) : comparison := cmp_then (k.1 ?= l.1) (k.2 ?= l.2).

(** ** Operations of the beacon chain *)

Definition active_validators (b : BeaconChain) : list Validator :=
  filter is_active (validators b).

Definition replace_committees_for_epoch {E} (b : BeaconChain) (epoch : Z) :
  outcome E BeaconChain :=
  assignments ← build_committee_assignments epoch (shard_count (config b)) (active_validators b);
  let retained := filter (fun a => asg_epoch a <> epoch) (shard_committees b) in
  Ok {| config := config b; validators := validators b; current_epoch := current_epoch b;
        shard_committees := sort_by (cmp_on asg_key key_cmp) (retained ++ assignments);
        shard_state_roots := shard_state_roots b |}.

(** One turn of the loop over the shard ids. *)
Definition init_root (epoch : Z) (roots : list ShardStateRoot) (shard_id : Z) :
  list ShardStateRoot :=
  if existsb (fun r => (root_epoch r =? epoch) && (root_shard_id r =? shard_id)) roots
  then roots
  else roots ++ [{| root_epoch := epoch; root_shard_id := shard_id;
                    state_root := EMPTY_SHARD_STATE_ROOT |}].

Definition initialize_state_roots_for_epoch (b : BeaconChain) (epoch : Z) : BeaconChain := {|
  config := config b; validators := validators b; current_epoch := current_epoch b;
  shard_committees := shard_committees b;
  shard_state_roots :=
    sort_by (cmp_on root_key key_cmp)
      (foldl (init_root epoch) (shard_state_roots b) (seqZ 0 (shard_count (config b)))) |}.

Definition rebuild_epoch {E} (b : BeaconChain) (epoch : Z) : outcome E BeaconChain :=
  b' ← replace_committees_for_epoch
    {| config := config b; validators := validators b; current_epoch := epoch;
       shard_committees := shard_committees b; shard_state_roots := shard_state_roots b |} epoch;
  Ok (initialize_state_roots_for_epoch b' epoch).

Definition set_validators (b : BeaconChain) (vs : list Validator) : BeaconChain := {|
  config := config b; validators := vs; current_epoch := current_epoch b;
  shard_committees := shard_committees b; shard_state_roots := shard_state_roots b |}.

Definition BeaconChain_new {E} (cfg : ShardingConfig) (vs : list Validator) :
  outcome E BeaconChain :=
  rebuild_epoch {| config := cfg; validators := sort_validators vs; current_epoch := 0;
                   shard_committees := []; shard_state_roots := [] |} 0.

Definition register_validator {E} (b : BeaconChain) (v : Validator) : outcome E BeaconChain :=
  rebuild_epoch (set_validators b (sort_validators (validators b ++ [v]))) (current_epoch b).

Definition replace_validators {E} (b : BeaconChain) (vs : list Validator) :
  outcome E BeaconChain :=
  rebuild_epoch (set_validators b (sort_validators vs)) (current_epoch b).

Definition advance_epoch `{Profile} {E} (b : BeaconChain) : outcome E BeaconChain :=
  next_epoch ← arith 64 (current_epoch b + 1);
  rebuild_epoch b next_epoch.

Definition committees_for_epoch (b : BeaconChain) (epoch : Z) : list ShardCommitteeAssignment :=
  filter (fun a => asg_epoch a = epoch) (shard_committees b).

Definition committee_for_shard (b : BeaconChain) (epoch shard_id : Z) :
  option ShardCommitteeAssignment :=
  head (filter (fun a => asg_epoch a = epoch /\ asg_shard_id a = shard_id) (shard_committees b)).

Module ShardConsensusError.
Inductive t :=
| BeaconChain (e : BeaconChainError.t)
| Vote (e : VoteError.t)
| MissingCommitteeAssignment (epoch shard_id : Z).
End ShardConsensusError.

Definition validators_for_shard (b : BeaconChain) (epoch shard_id : Z) :
  outcome ShardConsensusError.t (list Validator) :=
  map_err ShardConsensusError.BeaconChain (validate_shard_id shard_id (shard_count (config b)));;
  assignment ← ok_or (ShardConsensusError.MissingCommitteeAssignment epoch shard_id)
                 (committee_for_shard b epoch shard_id);
  let committee :=
    filter (fun v => val_address v ∈ validator_addresses assignment) (active_validators b) in
  Ok (sort_validators committee).

(** ** Shard state roots *)

(** [iter_mut().find(..)] then the assignment of [state_root]. *)
Definition replace_root (epoch shard_id : Z) (new : bytes) (roots : list ShardStateRoot) :
  option (list ShardStateRoot) :=
  i ← position (fun r => (root_epoch r =? epoch) && (root_shard_id r =? shard_id)) roots;
  r ← roots !! i;
  Some (<[i := {| root_epoch := root_epoch r; root_shard_id := root_shard_id r;
                  state_root := new |}]> roots).

Definition set_roots (b : BeaconChain) (roots : list ShardStateRoot) : BeaconChain := {|
  config := config b; validators := validators b; current_epoch := current_epoch b;
  shard_committees := shard_committees b; shard_state_roots := roots |}.

Definition store_shard_state_root (b : BeaconChain) (epoch shard_id : Z) (new : bytes) :
  outcome BeaconChainError.t BeaconChain :=
  validate_shard_id shard_id (shard_count (config b));;
  validate_state_root_length new;;
  match replace_root epoch shard_id new (shard_state_roots b) with
  | Some roots => Ok (set_roots b roots)
  | None =>
      Ok (set_roots b
            (sort_by (cmp_on root_key key_cmp)
               (shard_state_roots b ++
                  [{| root_epoch := epoch; root_shard_id := shard_id; state_root := new |}])))
  end.

Definition state_root_for_shard (b : BeaconChain) (epoch shard_id : Z) : option bytes :=
  state_root <$>
  head (filter (fun r => root_epoch r = epoch /\ root_shard_id r = shard_id)
          (shard_state_roots b)).

Definition update_shard_state_root_from_block (b : BeaconChain) (epoch shard_id : Z)
    (block : Block) : outcome BeaconChainError.t BeaconChain :=
  store_shard_state_root b epoch shard_id (hdr_merkle_root (blk_header block)).

(** ** Consensus of a shard *)

Record ShardConsensus := {
  sc_epoch : Z;
  sc_shard_id : Z;
  sc_committee : list Validator;
  sc_collector : VoteCollector;
}.

Definition ShardConsensus_new (epoch shard_id : Z) (committee : list Validator) :
  ShardConsensus := {|
  sc_epoch := epoch; sc_shard_id := shard_id; sc_committee := sort_validators committee;
  sc_collector := VoteCollector_new |}.

Definition shard_vote_count (s : ShardConsensus) : nat := votes_len (sc_collector s).

Definition shard_collect_vote `{Ed25519, !Bincode ConsensusVote} (s : ShardConsensus)
    (v : ConsensusVote) : outcome ShardConsensusError.t ShardConsensus :=
  collector ← map_err ShardConsensusError.Vote (collect_vote (sc_collector s) v (sc_committee s));
  Ok {| sc_epoch := sc_epoch s; sc_shard_id := sc_shard_id s; sc_committee := sc_committee s;
        sc_collector := collector |}.

Definition shard_tally (s : ShardConsensus) : outcome ShardConsensusError.t VoteTally :=
  map_err ShardConsensusError.Vote (tally (sc_collector s) (sc_committee s)).

Definition shard_is_finalized `{Profile} (s : ShardConsensus) :
  outcome ShardConsensusError.t bool :=
  t ← shard_tally s;
  is_block_finalized t (sc_committee s).

Definition consensus_for_shard (b : BeaconChain) (epoch shard_id : Z) :
  outcome ShardConsensusError.t ShardConsensus :=
  committee ← validators_for_shard b epoch shard_id;
  Ok (ShardConsensus_new epoch shard_id committee).

(** ** Configuration lemmas *)

Lemma is_power_of_two_spec z : is_power_of_two z = true <-> exists k, 0 <= k /\ z = 2 ^ k.
Proof.
  unfold is_power_of_two. rewrite andb_true_iff, Z.ltb_lt, Z.eqb_eq. split.
  - intros [P E]. exists (Z.log2 z). split; [apply Z.log2_nonneg|done].
  - intros (k & K & ->). rewrite Z.log2_pow2 by done. split; [|done]. apply Z.pow_pos_nonneg; lia.
Qed.

Lemma validate_shard_count_Ok count :
  validate_shard_count count = Ok tt <-> exists k, 0 <= k /\ count = 2 ^ k.
Proof.
  unfold validate_shard_count, MIN_SHARD_COUNT. rewrite <- is_power_of_two_spec.
  destruct (Z.ltb_spec count 1) as [L|L].
  - split; [done|]. unfold is_power_of_two. destruct (Z.ltb_spec 0 count); [lia|done].
  - by destruct (is_power_of_two count).
Qed.

(** ** Dealing validators to committees *)

Section deal.
Context (epoch count : Z) (count_pos : 0 < count).

(** The committees after the validators [done_] were dealt. *)
Record dealt (done_ : list Validator) (l : list ShardCommitteeAssignment) : Prop := {
  dealt_ids : asg_shard_id <$> l = seqZ 0 count;
  dealt_epochs : Forall (fun a => asg_epoch a = epoch) l;
  dealt_members : concat (validator_addresses <$> l) ≡ₚ val_address <$> done_;
  dealt_sizes : forall i a, l !! i = Some a ->
    Z.of_nat (length (validator_addresses a)) =
    (Z.of_nat (length done_) + count - 1 - Z.of_nat i) / count;
}.

(** The share of slot [i] grows by one exactly when the index falls on it. *)
Lemma next_share n i :
  0 <= n -> 0 <= i < count ->
  (n + 1 + count - 1 - i) / count =
  (n + count - 1 - i) / count + (if n mod count =? i then 1 else 0).
Proof.
  intros N I. pose proof (Z.div_mod n count ltac:(lia)) as D.
  pose proof (Z.mod_pos_bound n count count_pos) as M.
  set (q := n / count) in *. set (r := n mod count) in *.
  destruct (Z.eqb_spec r i) as [E|E].
  - rewrite <- (Z.div_unique_pos (n + 1 + count - 1 - i) count (q + 1) 0) by lia.
    rewrite <- (Z.div_unique_pos (n + count - 1 - i) count q (count - 1)) by lia. lia.
  - destruct (Z.lt_ge_cases r i).
    + rewrite <- (Z.div_unique_pos (n + 1 + count - 1 - i) count q (r + count - i)) by lia.
      rewrite <- (Z.div_unique_pos (n + count - 1 - i) count q (r + count - 1 - i)) by lia. lia.
    + rewrite <- (Z.div_unique_pos (n + 1 + count - 1 - i) count (q + 1) (r - i)) by lia.
      rewrite <- (Z.div_unique_pos (n + count - 1 - i) count (q + 1) (r - 1 - i)) by lia. lia.
Qed.

Lemma concat_push i a l :
  l !! i = Some a -> forall address,
  concat (validator_addresses <$> <[i := push_address address a]> l) ≡ₚ
  concat (validator_addresses <$> l) ++ [address].
Proof.
  intros L address. pose proof (lookup_lt_Some _ _ _ L) as Lt.
  rewrite <- (take_drop_middle l i a L) at 2. rewrite insert_take_drop by done.
  rewrite !fmap_app, !fmap_cons, !concat_app. cbn [concat push_address validator_addresses].
  solve_Permutation.
Qed.

Lemma dealt_length done_ l : dealt done_ l -> length l = Z.to_nat count.
Proof. intros D. by rewrite <- (length_fmap asg_shard_id), (dealt_ids _ _ D), length_seqZ. Qed.

Lemma dealt_push done_ l v a i :
  dealt done_ l -> i = Z.to_nat (Z.of_nat (length done_) mod count) -> l !! i = Some a ->
  dealt (done_ ++ [v]) (<[i := push_address (val_address v) a]> l).
Proof.
  intros D Ei L. pose proof (lookup_lt_Some _ _ _ L) as Lt. split.
  - rewrite list_fmap_insert. cbn [push_address asg_shard_id].
    rewrite list_insert_id; [apply D|]. by rewrite list_lookup_fmap, L.
  - apply Forall_insert; [apply D|]. pose proof (dealt_epochs _ _ D) as F.
    rewrite Forall_lookup in F. by apply (F i a).
  - rewrite (concat_push i a l L), (dealt_members _ _ D). by rewrite fmap_app.
  - intros j b B. rewrite length_app. simpl length. rewrite Nat2Z.inj_add. change (Z.of_nat 1) with 1.
    assert (Z.of_nat j < count) as J.
    { apply lookup_lt_Some in B. rewrite length_insert, (dealt_length _ _ D) in B. lia. }
    rewrite next_share by lia.
    pose proof (Z.mod_pos_bound (Z.of_nat (length done_)) count count_pos) as M.
    destruct (decide (i = j)) as [->|N].
    + rewrite list_lookup_insert_eq in B by done. injection B as <-.
      cbn [push_address validator_addresses]. rewrite length_app. simpl length.
      rewrite Nat2Z.inj_add, (dealt_sizes _ _ D j a L), Ei, Z2Nat.id, Z.eqb_refl by lia. done.
    + rewrite list_lookup_insert_ne in B by done. rewrite (dealt_sizes _ _ D j b B).
      destruct (Z.eqb_spec (Z.of_nat (length done_) mod count) (Z.of_nat j)); lia.
Qed.

Lemma assign_loop_Ok {E} todo done_ l :
  dealt done_ l -> exists l',
    assign_loop (E := E) count (Z.of_nat (length done_)) todo l = Ok l' /\ dealt (done_ ++ todo) l'.
Proof.
  revert done_ l. induction todo as [|v todo IH]; intros done_ l D.
  { exists l. split; [done|]. by rewrite app_nil_r. }
  cbn [assign_loop]. destruct (Z.eqb_spec count 0); [lia|].
  pose proof (Z.mod_pos_bound (Z.of_nat (length done_)) count count_pos) as M.
  set (i := Z.to_nat (Z.of_nat (length done_) mod count)).
  destruct (lookup_lt_is_Some_2 l i) as [a L].
  { rewrite (dealt_length _ _ D). unfold i. lia. }
  unfold push_at. rewrite L. cbn [expect mbind outcome_bind].
  pose proof (dealt_push done_ l v a i D eq_refl L) as D'.
  destruct (IH _ _ D') as (l' & El & Dl). exists l'.
  rewrite length_app, Nat2Z.inj_add in El. simpl Z.of_nat in El.
  split; [exact El|]. by rewrite <- app_assoc in Dl.
Qed.

Lemma dealt_empty :
  dealt [] ((fun shard_id => {| asg_epoch := epoch; asg_shard_id := shard_id;
                                validator_addresses := [] |}) <$> seqZ 0 count).
Proof.
  split.
  - rewrite <- list_fmap_compose. apply list_fmap_id.
  - by apply Forall_fmap, Forall_true.
  - rewrite <- list_fmap_compose. generalize (seqZ 0 count). intros k. by induction k.
  - intros i a L. apply list_lookup_fmap_Some in L as (s & -> & L). simpl.
    apply lookup_seqZ in L as [-> L]. symmetry. apply Z.div_small. lia.
Qed.

Lemma build_committees_Ok {E} vs : exists l,
  build_committee_assignments (E := E) epoch count vs = Ok l /\
  dealt (sort_by (score_cmp epoch) (active_set vs)) l.
Proof.
  destruct (assign_loop_Ok (E := E) (sort_by (score_cmp epoch) (active_set vs)) [] _ dealt_empty)
    as (l & El & D).
  exists l. split; [exact El|exact D].
Qed.
End deal.

(** ** The tables of the beacon chain *)

#[global] Instance key_cmp_total : CmpTotal key_cmp.
Proof.
  split; [unfold key_cmp; split|].
  - intros [a b] [c d]. simpl. rewrite (Z.compare_antisym a c), (Z.compare_antisym b d).
    by destruct (a ?= c).
  - intros [a b] [c d] [e f]. simpl.
    destruct (Z.compare_spec a c), (Z.compare_spec c e), (Z.compare_spec a e); simpl; try done; try lia.
    destruct (Z.compare_spec b d), (Z.compare_spec d f), (Z.compare_spec b f); simpl; try done; lia.
  - intros [a b] [c d]. unfold key_cmp. simpl.
    destruct (Z.compare_spec a c) as [->| |]; simpl; [|done..].
    by intros ->%Z.compare_eq.
Qed.

(** A table: its keys are distinct and in increasing order. *)
Record table_ok {A} (key : A -> Z * Z) (l : list A) : Prop := {
  table_distinct : NoDup (key <$> l);
  table_sorted : StronglySorted (fun x y => cmp_on key key_cmp x y <> Gt) l;
}.

Section table.
Context {A : Type} (key : A -> Z * Z).

(** Only the keys matter. *)
Lemma sorted_keys l k :
  key <$> k = key <$> l ->
  StronglySorted (fun x y => cmp_on key key_cmp x y <> Gt) l ->
  StronglySorted (fun x y => cmp_on key key_cmp x y <> Gt) k.
Proof.
  intros E S. revert k E. induction S as [|x l S IH F]; intros [|y k] E; try done; [constructor|].
  rewrite !fmap_cons in E. pose proof (f_equal head E) as Ey. apply (inj Some) in Ey.
  apply (f_equal tail) in E. cbn [tail] in E.
  constructor; [by apply IH|]. apply Forall_forall. intros z Z.
  apply (list_elem_of_fmap_2 key) in Z. rewrite E in Z. apply list_elem_of_fmap in Z as (w & Ez & W).
  unfold cmp_on. rewrite Ey, Ez. rewrite Forall_forall in F. by apply F.
Qed.

Lemma table_sort l : NoDup (key <$> l) -> table_ok key (sort_by (cmp_on key key_cmp) l).
Proof.
  intros ND. split; [by rewrite sort_by_perm|]. apply sort_by_sorted. apply _.
Qed.

(** A part of a table is determined by its members. *)
Lemma table_filter (P : A -> Prop) `{forall x, Decision (P x)} l k :
  table_ok key l -> filter P l ≡ₚ k ->
  StronglySorted (fun x y => cmp_on key key_cmp x y <> Gt) k -> filter P l = k.
Proof.
  intros [ND S] Pm Sk. apply (sorted_perm_unique (cmp_on key key_cmp)); [| |done|done].
  - intros x y X Y E. apply (cmp_Eq key_cmp) in E.
    apply (NoDup_fmap_inj key l); [done| | |done];
      [by apply list_elem_of_filter in X as [_ X]|by apply list_elem_of_filter in Y as [_ Y]].
  - by apply StronglySorted_filter.
Qed.

Lemma table_find l x (P : A -> Prop) `{forall x, Decision (P x)} :
  NoDup (key <$> l) -> (forall x y, P x -> P y -> key x = key y) ->
  x ∈ l -> P x -> head (filter P l) = Some x.
Proof.
  intros ND U X Px. assert (x ∈ filter P l) as I by (by apply list_elem_of_filter).
  destruct (filter P l) as [|y k] eqn:E; [by apply elem_of_nil in I|].
  assert (y ∈ filter P l) as Iy by (rewrite E; left).
  apply list_elem_of_filter in Iy as [Py Iy]. simpl. f_equal.
  by apply (NoDup_fmap_inj key l); [|..|apply U].
Qed.
End table.

(** ** The invariant *)

Record beacon_ok (b : BeaconChain) : Prop := {
  beacon_count : 1 <= shard_count (config b) < 2 ^ 16;
  beacon_validators : sort_validators (validators b) = validators b;
  beacon_committees : table_ok asg_key (shard_committees b);
  beacon_current : dealt (current_epoch b) (shard_count (config b))
    (sort_by (score_cmp (current_epoch b)) (active_validators b))
    (committees_for_epoch b (current_epoch b));
  beacon_roots : table_ok root_key (shard_state_roots b);
  beacon_root_shape : Forall (fun r => length (state_root r) = SHARD_STATE_ROOT_LENGTH /\
    0 <= root_shard_id r < shard_count (config b)) (shard_state_roots b);
  beacon_initialised : forall s, 0 <= s < shard_count (config b) ->
    is_Some (state_root_for_shard b (current_epoch b) s);
}.

(** What [rebuild_epoch] relies on. *)
Record beacon_pre (b : BeaconChain) : Prop := {
  pre_count : 1 <= shard_count (config b) < 2 ^ 16;
  pre_validators : sort_validators (validators b) = validators b;
  pre_committees : table_ok asg_key (shard_committees b);
  pre_roots : table_ok root_key (shard_state_roots b);
  pre_shape : Forall (fun r => length (state_root r) = SHARD_STATE_ROOT_LENGTH /\
    0 <= root_shard_id r < shard_count (config b)) (shard_state_roots b);
}.

Lemma beacon_ok_pre b : beacon_ok b -> beacon_pre b.
Proof. by intros []. Qed.

Section roots.
Context (epoch count : Z).

Lemma init_root_cases roots s :
  (exists r, r ∈ roots /\ root_key r = (epoch, s) /\ init_root epoch roots s = roots) \/
  ((forall r, r ∈ roots -> root_key r <> (epoch, s)) /\
   init_root epoch roots s = roots ++ [{| root_epoch := epoch; root_shard_id := s;
                                          state_root := EMPTY_SHARD_STATE_ROOT |}]).
Proof.
  unfold init_root. destruct (existsb _ roots) eqn:E.
  - left. apply existsb_exists in E as (r & I & K). apply list_elem_of_In in I.
    apply andb_true_iff in K as [K1%Z.eqb_eq K2%Z.eqb_eq]. exists r.
    split; [done|]. split; [|done]. unfold root_key. congruence.
  - right. split; [|done]. intros r I K. unfold root_key in K. injection K as K1 K2.
    assert (existsb (fun r => (root_epoch r =? epoch) && (root_shard_id r =? s)) roots = true);
      [|congruence].
    apply existsb_exists. exists r. split; [by apply list_elem_of_In|].
    by rewrite K1, K2, !Z.eqb_refl.
Qed.

(** What the loop over the shard ids does to the table of roots. *)
Lemma init_roots_spec ids roots :
  NoDup (root_key <$> roots) -> Forall (fun s => 0 <= s < count) ids ->
  Forall (fun r => length (state_root r) = SHARD_STATE_ROOT_LENGTH /\
                   0 <= root_shard_id r < count) roots ->
  let roots' := foldl (init_root epoch) roots ids in
  NoDup (root_key <$> roots') /\
  Forall (fun r => length (state_root r) = SHARD_STATE_ROOT_LENGTH /\
                   0 <= root_shard_id r < count) roots' /\
  roots `prefix_of` roots' /\
  (forall s, s ∈ ids -> (epoch, s) ∈ root_key <$> roots').
Proof.
  revert roots. induction ids as [|s ids IH]; intros roots ND F Sh roots'.
  { do 2 (split; [done|]). split; [done|]. by intros s ?%elem_of_nil. }
  apply Forall_cons in F as [Fs F]. subst roots'. cbn [foldl].
  destruct (init_root_cases roots s) as [(r & I & K & ->)|[N ->]].
  - destruct (IH roots ND F Sh) as (ND' & Sh' & Pre & In'). do 3 (split; [done|]).
    intros t [->|T]%elem_of_cons; [|by apply In']. rewrite <- K. apply list_elem_of_fmap_2.
    destruct Pre as [k ->]. set_solver.
  - set (new := {| root_epoch := epoch; root_shard_id := s;
                   state_root := EMPTY_SHARD_STATE_ROOT |}).
    destruct (IH (roots ++ [new])) as (ND' & Sh' & Pre & In').
    + rewrite fmap_app. apply NoDup_app. split; [done|]. split; [|apply NoDup_singleton].
      intros k (r & -> & I)%list_elem_of_fmap K%list_elem_of_singleton. by apply (N r).
    + done.
    + apply Forall_app_2; [done|]. repeat constructor; simpl; lia.
    + do 2 (split; [done|]). split; [by eapply prefix_app_l|].
      intros t [->|T]%elem_of_cons; [|by apply In'].
      change (epoch, s) with (root_key new). apply list_elem_of_fmap_2.
      destruct Pre as [k ->]. set_solver.
Qed.
End roots.

Lemma committees_for_other (old : list ShardCommitteeAssignment) epoch e :
  e <> epoch ->
  filter (fun a => asg_epoch a = e) (filter (fun a => asg_epoch a <> epoch) old) =
  filter (fun a => asg_epoch a = e) old.
Proof.
  intros N. rewrite list_filter_filter. apply list_filter_iff.
  intros a. split; [tauto|]. intros <-. done.
Qed.

Section dealt_table.
Context (epoch count : Z) (done_ : list Validator) (l : list ShardCommitteeAssignment).
Context (D : dealt epoch count done_ l).

Lemma dealt_keys : asg_key <$> l = (fun s => (epoch, s)) <$> seqZ 0 count.
Proof.
  rewrite <- (dealt_ids _ _ _ _ D), <- list_fmap_compose. pose proof (dealt_epochs _ _ _ _ D) as F.
  apply Forall_fmap_ext_1. eapply Forall_impl; [exact F|]. intros a <-. done.
Qed.

Lemma seqZ_sorted m n : StronglySorted Z.lt (seqZ m n).
Proof.
  destruct (Z.le_gt_cases 0 n) as [N|N];
    [|rewrite seqZ_nil by lia; constructor].
  revert m. pattern n. apply natlike_ind; [by intros; constructor| |done].
  clear n N. intros n N IH m. rewrite seqZ_cons by lia. rewrite Z.pred_succ.
  constructor; [apply IH|]. apply Forall_forall. intros x X%elem_of_seqZ. lia.
Qed.

Lemma dealt_sorted : StronglySorted (fun x y => cmp_on asg_key key_cmp x y <> Gt) l.
Proof.
  pose proof (seqZ_sorted 0 count) as S. pose proof dealt_keys as K.
  revert K S. generalize (seqZ 0 count). clear D. induction l as [|a k IH]; intros ids K S.
  { constructor. }
  destruct ids as [|s ids]; [done|]. rewrite !fmap_cons in K.
  pose proof (f_equal head K) as Ka. apply (inj Some) in Ka. apply (f_equal tail) in K.
  cbn [tail] in K.
  inversion S as [|?? S' F]; subst. constructor; [by eapply IH|].
  apply Forall_forall. intros b B. unfold cmp_on. rewrite Ka.
  apply (list_elem_of_fmap_2 asg_key) in B. rewrite K in B.
  apply list_elem_of_fmap in B as (t & -> & T). rewrite Forall_forall in F. specialize (F t T).
  unfold key_cmp. simpl. rewrite Z.compare_refl. simpl. rewrite Z.compare_gt_iff. lia.
Qed.
End dealt_table.

(** The committees of an epoch dealt beside those of the others. *)
Section replacing.
Context (epoch n : Z) (vs : list Validator) (l old : list ShardCommitteeAssignment).
Hypotheses (D : dealt epoch n vs l) (T : table_ok asg_key old).
Let merged := filter (fun a => asg_epoch a <> epoch) old ++ l.

Lemma merged_keys : NoDup (asg_key <$> merged).
Proof.
  unfold merged. rewrite fmap_app. apply NoDup_app. split; [apply NoDup_fmap_filter, T|]. split.
  - intros k (a & -> & [N _]%list_elem_of_filter)%list_elem_of_fmap (a' & Ek & I)%list_elem_of_fmap.
    pose proof (dealt_epochs _ _ _ _ D) as F. rewrite Forall_forall in F.
    apply N. specialize (F a' I). injection Ek as Ek _. congruence.
  - rewrite (dealt_keys _ _ _ _ D). apply NoDup_fmap_2; [|apply NoDup_seqZ].
    intros x y Exy. by injection Exy.
Qed.

Lemma merged_here :
  filter (fun a => asg_epoch a = epoch) (sort_by (cmp_on asg_key key_cmp) merged) = l.
Proof.
  apply (table_filter asg_key); [by apply table_sort, merged_keys| |by eapply dealt_sorted].
  unfold merged. rewrite sort_by_perm, filter_app, (filter_all _ l) by apply D.
  rewrite filter_none; [done|]. apply Forall_forall. by intros a [N _]%list_elem_of_filter.
Qed.

Lemma merged_other e : e <> epoch ->
  filter (fun a => asg_epoch a = e) (sort_by (cmp_on asg_key key_cmp) merged) =
  filter (fun a => asg_epoch a = e) old.
Proof.
  intros N. apply (table_filter asg_key); [by apply table_sort, merged_keys| |].
  - unfold merged. rewrite sort_by_perm, filter_app, committees_for_other by done.
    rewrite (filter_none (fun a => asg_epoch a = e) l); [by rewrite app_nil_r|].
    eapply Forall_impl; [apply D|]. intros a <-. done.
  - apply StronglySorted_filter, T.
Qed.
End replacing.

(** A root of the table is found under its key. *)
Lemma state_root_found b e s r roots :
  shard_state_roots b = sort_by (cmp_on root_key key_cmp) roots -> NoDup (root_key <$> roots) ->
  r ∈ roots -> root_epoch r = e -> root_shard_id r = s ->
  state_root_for_shard b e s = Some (state_root r).
Proof.
  intros E ND I Ee Es. unfold state_root_for_shard. rewrite E.
  erewrite (table_find root_key _ r); [done| | | |done].
  - by rewrite sort_by_perm.
  - intros x y [? ?] [? ?]. unfold root_key. congruence.
  - by rewrite sort_by_perm.
Qed.

(** Rebuilding an epoch establishes the invariant; it keeps the roots stored
    before, and the committees of the other epochs. *)
Lemma rebuild_epoch_Ok {E} b epoch :
  beacon_pre b -> exists b', rebuild_epoch (E := E) b epoch = Ok b' /\ beacon_ok b' /\
    config b' = config b /\ validators b' = validators b /\ current_epoch b' = epoch /\
    (forall e s r, state_root_for_shard b e s = Some r -> state_root_for_shard b' e s = Some r) /\
    (forall e, e <> epoch -> committees_for_epoch b' e = committees_for_epoch b e).
Proof.
  intros [C V TC TR Sh]. set (n := shard_count (config b)) in *.
  destruct (build_committees_Ok epoch n ltac:(lia) (E := E) (active_validators b)) as (l & El & D).
  unfold rebuild_epoch, replace_committees_for_epoch. unfold active_validators in El |- *.
  cbn [config validators active_validators shard_committees shard_state_roots current_epoch].
  fold n. rewrite El. cbn [mbind outcome_bind]. eexists. split; [reflexivity|].
  destruct (init_roots_spec epoch n (seqZ 0 n) (shard_state_roots b)) as (NDr & Shr & Pre & Inr);
    [apply TR|apply Forall_forall; intros s S%elem_of_seqZ; lia|done|].
  pose proof (merged_keys _ _ _ _ _ D TC) as ND.
  assert (filter is_active (active_validators b) = active_validators b) as Act.
  { apply filter_all. apply Forall_forall. by intros v [A _]%list_elem_of_filter. }
  split; [|do 3 (split; [done|]); split].
  - split; cbn [initialize_state_roots_for_epoch config validators current_epoch
                 shard_committees shard_state_roots];
      [done|done|by apply table_sort| |by apply table_sort|by rewrite sort_by_perm|].
    + unfold committees_for_epoch, active_validators.
      cbn [initialize_state_roots_for_epoch config validators current_epoch
                 shard_committees shard_state_roots].
      unfold active_set in D. rewrite Act in D.
      rewrite (merged_here _ _ _ _ _ D TC). exact D.
    + intros s S. assert ((epoch, s) ∈ root_key <$> foldl (init_root epoch) (shard_state_roots b) (seqZ 0 n))
        as I by (apply Inr, elem_of_seqZ; lia).
      apply list_elem_of_fmap in I as (r & K & I). injection K as K1 K2. eexists.
      by eapply state_root_found; [reflexivity|exact NDr|exact I|..].
  - intros e s r. unfold state_root_for_shard at 1. intros (x & [[Ex Sx] I]%head_filter_Some & ->)%fmap_Some.
    eapply state_root_found; [reflexivity|exact NDr| |done|done].
    enough (x ∈ foldl (init_root epoch) (shard_state_roots b) (seqZ 0 n)) by done.
    destruct Pre as [k ->]. set_solver.
  - intros e N. apply (merged_other _ _ _ _ _ D TC e N).
Qed.

(** ** Storing state roots *)

Lemma root_lookup b e s v :
  NoDup (root_key <$> shard_state_roots b) ->
  state_root_for_shard b e s = Some v <->
  exists r, r ∈ shard_state_roots b /\ root_key r = (e, s) /\ state_root r = v.
Proof.
  intros ND. unfold state_root_for_shard. split.
  - intros (r & Hr & ->)%fmap_Some. apply head_filter_Some in Hr as [[<- <-] I]. by exists r.
  - intros (r & I & K & <-). injection K as K1 K2.
    erewrite (table_find root_key _ r); [done|done| |done|done].
    intros x y [? ?] [? ?]. unfold root_key. congruence.
Qed.

Lemma replace_root_cases epoch s new roots :
  (exists i r, roots !! i = Some r /\ root_key r = (epoch, s) /\
     replace_root epoch s new roots =
     Some (<[i := {| root_epoch := epoch; root_shard_id := s; state_root := new |}]> roots)) \/
  ((forall r, r ∈ roots -> root_key r <> (epoch, s)) /\ replace_root epoch s new roots = None).
Proof.
  unfold replace_root. destruct (position _ roots) as [i|] eqn:P.
  - left. apply position_Some in P as (r & L & K).
    apply andb_true_iff in K as [K1%Z.eqb_eq K2%Z.eqb_eq]. exists i, r.
    split; [done|]. split; [unfold root_key; congruence|]. simpl. rewrite L. simpl.
    by rewrite K1, K2.
  - right. split; [|done]. apply position_None in P. rewrite Forall_forall in P.
    intros r I K. specialize (P r I). injection K as K1 K2. by rewrite K1, K2, !Z.eqb_refl in P.
Qed.

(** The table after a store: the old one with one key set. *)
Lemma store_table b epoch s new b' :
  table_ok root_key (shard_state_roots b) ->
  store_shard_state_root b epoch s new = Ok b' ->
  (config b' = config b /\ validators b' = validators b /\ current_epoch b' = current_epoch b /\
   shard_committees b' = shard_committees b) /\
  s < shard_count (config b) /\ length new = SHARD_STATE_ROOT_LENGTH /\
  table_ok root_key (shard_state_roots b') /\
  forall r, r ∈ shard_state_roots b' <->
    r = {| root_epoch := epoch; root_shard_id := s; state_root := new |} \/
    r ∈ shard_state_roots b /\ root_key r <> (epoch, s).
Proof.
  intros T E. unfold store_shard_state_root, validate_shard_id, validate_state_root_length in E.
  destruct (Z.leb_spec (shard_count (config b)) s) as [L|L]; [done|].
  cbn [mbind outcome_bind] in E.
  destruct (Nat.eqb_spec (length new) SHARD_STATE_ROOT_LENGTH) as [Ln|Ln]; [|done].
  cbn [mbind outcome_bind negb] in E.
  set (x := {| root_epoch := epoch; root_shard_id := s; state_root := new |}) in *.
  destruct (replace_root_cases epoch s new (shard_state_roots b)) as [(i & r & Li & K & Er)|[N Er]];
    rewrite Er in E; apply (inj Ok) in E as <-; cbn [set_roots shard_state_roots config
      validators current_epoch shard_committees]; do 3 (split; [done|]); fold x.
  - pose proof (lookup_lt_Some _ _ _ Li) as Lt.
    assert (root_key <$> <[i := x]> (shard_state_roots b) = root_key <$> shard_state_roots b) as Ek.
    { rewrite list_fmap_insert. apply list_insert_id. rewrite list_lookup_fmap, Li. simpl. by rewrite K. }
    split; [split|].
    + rewrite Ek. apply T.
    + apply (sorted_keys root_key (shard_state_roots b)); [done|apply T].
    + intros y. split.
      * intros [j Lj]%list_elem_of_lookup_1. destruct (decide (i = j)) as [->|Nij].
        { rewrite list_lookup_insert_eq in Lj by done. left. by apply (inj Some) in Lj. }
        rewrite list_lookup_insert_ne in Lj by done. right.
        split; [by eapply list_elem_of_lookup_2|]. intros Ky. apply Nij.
        apply (NoDup_lookup (root_key <$> shard_state_roots b) i j (epoch, s)); [apply T| |];
          rewrite list_lookup_fmap, ?Li, ?Lj; simpl; congruence.
      * intros [->|[[j Lj]%list_elem_of_lookup_1 Ky]].
        { eapply list_elem_of_lookup_2. by apply list_lookup_insert_eq. }
        apply (list_elem_of_lookup_2 _ j). rewrite list_lookup_insert_ne; [done|]. naive_solver.
  - split.
    + apply table_sort. rewrite fmap_app. apply NoDup_app. split; [apply T|].
      split; [|apply NoDup_singleton].
      intros k (r & -> & I)%list_elem_of_fmap Kr%list_elem_of_singleton. by apply (N r).
    + intros y. rewrite sort_by_perm, elem_of_app, list_elem_of_singleton. naive_solver.
Qed.

Lemma store_beacon_ok b epoch s new b' :
  beacon_ok b -> 0 <= s -> store_shard_state_root b epoch s new = Ok b' ->
  beacon_ok b' /\
  forall e t, state_root_for_shard b' e t =
    if decide ((e, t) = (epoch, s)) then Some new else state_root_for_shard b e t.
Proof.
  intros B S E. destruct (store_table b epoch s new b' (beacon_roots b B) E)
    as ((Ec & Ev & Ee & Es) & Sc & Ln & T' & In').
  assert (forall e t, state_root_for_shard b' e t =
    if decide ((e, t) = (epoch, s)) then Some new else state_root_for_shard b e t) as Look.
  { intros e t. apply option_eq. intros v. rewrite root_lookup by apply T'.
    destruct (decide ((e, t) = (epoch, s))) as [K|K].
    - split.
      + intros (r & I & Kr & <-). apply In' in I as [->|[_ N]]; [done|congruence].
      + intros [= <-]. eexists. split; [apply In'; by left|]. done.
    - rewrite root_lookup by apply (beacon_roots b B). split.
      + intros (r & I & Kr & Er). apply In' in I as [->|[I _]]; [by destruct K|by exists r].
      + intros (r & I & Kr & Er). exists r. split; [|done]. apply In'. right. split; [done|congruence]. }
  split; [|exact Look]. destruct B as [C V TC D TR Sh In0].
  split; unfold active_validators, committees_for_epoch; rewrite ?Ec, ?Ev, ?Ee, ?Es; try done.
  - apply Forall_forall. intros r [->|[I _]]%In'; [simpl; lia|].
    rewrite Forall_forall in Sh. by apply Sh.
  - intros t Bt. rewrite Look. case_decide; [done|by apply In0].
Qed.

(** The beacon chains the methods can build. *)
Inductive beacon_reachable `{Profile} : BeaconChain -> Prop :=
| br_new cfg vs b :
    1 <= shard_count cfg < 2 ^ 16 -> BeaconChain_new (E := False) cfg vs = Ok b ->
    beacon_reachable b
| br_register b v b' :
    beacon_reachable b -> register_validator (E := False) b v = Ok b' -> beacon_reachable b'
| br_replace b vs b' :
    beacon_reachable b -> replace_validators (E := False) b vs = Ok b' -> beacon_reachable b'
| br_advance b b' :
    beacon_reachable b -> advance_epoch (E := False) b = Ok b' -> beacon_reachable b'
| br_store b e s new b' :
    beacon_reachable b -> u16 s -> store_shard_state_root b e s new = Ok b' ->
    beacon_reachable b'.

#[global] Instance validator_cmp_order : CmpOrder validator_cmp.
Proof. unfold validator_cmp. apply _. Qed.

Lemma sort_validators_idemp vs : sort_validators (sort_validators vs) = sort_validators vs.
Proof. apply sort_by_idemp. apply _. Qed.

Lemma set_validators_pre b vs : beacon_pre b -> beacon_pre (set_validators b (sort_validators vs)).
Proof. intros [C V TC TR Sh]. split; try done. apply sort_validators_idemp. Qed.

Lemma new_pre cfg vs :
  1 <= shard_count cfg < 2 ^ 16 ->
  beacon_pre {| config := cfg; validators := sort_validators vs; current_epoch := 0;
                shard_committees := []; shard_state_roots := [] |}.
Proof.
  intros C. split; [exact C|apply sort_validators_idemp|split; constructor|split; constructor|].
  apply Forall_nil_2.
Qed.

Lemma rebuild_preserves {E} b epoch b' :
  beacon_pre b -> rebuild_epoch (E := E) b epoch = Ok b' -> beacon_ok b'.
Proof.
  intros P E'. destruct (rebuild_epoch_Ok (E := E) b epoch P) as (b1 & E1 & B & _). congruence.
Qed.

Lemma beacon_reachable_invariant `{Profile} b : beacon_reachable b -> beacon_ok b.
Proof.
  induction 1 as [cfg vs b C E|b v b' _ IH E|b vs b' _ IH E|b b' _ IH E|b e s new b' _ IH S E].
  - eapply rebuild_preserves; [by apply new_pre|exact E].
  - eapply rebuild_preserves; [|exact E]. by apply set_validators_pre, beacon_ok_pre.
  - eapply rebuild_preserves; [|exact E]. by apply set_validators_pre, beacon_ok_pre.
  - unfold advance_epoch in E. apply bind_Ok in E as (next & _ & E).
    eapply rebuild_preserves; [|exact E]. by apply beacon_ok_pre.
  - destruct (store_beacon_ok b e s new b' IH (proj1 S) E) as [B _]. exact B.
Qed.

(** ** Committees as parts of the validator set *)

Lemma filter_parts {A B} `{EqDecision B} (f : A -> B) (parts : list (list B)) (l : list A) :
  NoDup (concat parts) ->
  mjoin ((fun p => filter (fun x => f x ∈ p) l) <$> parts) ≡ₚ filter (fun x => f x ∈ concat parts) l.
Proof.
  induction parts as [|p parts IH]; intros ND.
  { simpl. rewrite filter_none; [done|]. apply Forall_true. intros x ?%elem_of_nil. done. }
  cbn [concat] in ND. apply NoDup_app in ND as (_ & Dis & ND).
  rewrite fmap_cons. cbn [mjoin list_join concat]. change (list_join ?x) with (mjoin x).
  rewrite (IH ND). clear IH. induction l as [|x l IHl]; [done|].
  pose proof (elem_of_app p (concat parts) (f x)) as App. pose proof (Dis (f x)) as Dx.
  rewrite !filter_cons. repeat case_decide; try tauto.
  - rewrite <- IHl. done.
  - rewrite <- IHl. solve_Permutation.
Qed.

(** The committee the beacon chain answers with. *)
Lemma validators_for_shard_Ok b s :
  beacon_ok b -> 0 <= s < shard_count (config b) -> exists a,
    committees_for_epoch b (current_epoch b) !! Z.to_nat s = Some a /\
    validators_for_shard b (current_epoch b) s =
    Ok (sort_validators
          (filter (fun v => val_address v ∈ validator_addresses a) (active_validators b))).
Proof.
  intros B S. pose proof (beacon_current b B) as D. set (e := current_epoch b) in *.
  destruct (lookup_lt_is_Some_2 (committees_for_epoch b e) (Z.to_nat s)) as [a L].
  { rewrite (dealt_length _ _ _ _ D). lia. }
  exists a. split; [done|]. unfold validators_for_shard, validate_shard_id.
  destruct (Z.leb_spec (shard_count (config b)) s); [lia|]. cbn [map_err mbind outcome_bind].
  assert (asg_shard_id a = s) as Ea.
  { pose proof (f_equal (.!! Z.to_nat s) (dealt_ids _ _ _ _ D)) as I.
    rewrite list_lookup_fmap, L, lookup_seqZ_lt in I by lia. apply (inj Some) in I. lia. }
  assert (committee_for_shard b e s = Some a) as ->; [|done].
  apply list_elem_of_lookup_2, list_elem_of_filter in L as [Ep I].
  apply (table_find asg_key); [apply B| |done|done].
  intros x y [? ?] [? ?]. unfold asg_key. congruence.
Qed.

(** ** Properties *)

(** A shard count is accepted, at creation and by a
    governance update, exactly when it is a power of two; zero and the other
    counts are refused with their own errors. *)
Theorem sharding_config_spec config count :
  u16 count ->
  ShardingConfig_new count = apply_governance_update config count /\
  match apply_governance_update config count with
  | Ok config' => shard_count config' = count /\ exists k, 0 <= k < 16 /\ count = 2 ^ k
  | Err (ShardingConfigError.ShardCountTooLow m) => m = 1 /\ count = 0
  | Err (ShardingConfigError.ShardCountMustBePowerOfTwo p) =>
      p = count /\ 0 < count /\ forall k, 0 <= k -> count <> 2 ^ k
  | Panic => False
  end.
Proof.
  unfold u16. intros C. split; [done|]. unfold apply_governance_update.
  destruct (validate_shard_count count) as [[]|e|] eqn:E; cbn [mbind outcome_bind].
  - split; [done|]. apply validate_shard_count_Ok in E as (k & K & ->). exists k.
    split; [|done]. split; [done|]. apply (Z.pow_lt_mono_r_iff 2); lia.
  - unfold validate_shard_count, MIN_SHARD_COUNT in E.
    destruct (Z.ltb_spec count 1); [injection E as <-; lia|].
    destruct (is_power_of_two count) eqn:P; [done|]. injection E as <-.
    split; [done|]. split; [lia|]. intros k K ->.
    assert (is_power_of_two (2 ^ k) = true); [|congruence]. apply is_power_of_two_spec. eauto.
  - unfold validate_shard_count, MIN_SHARD_COUNT in E.
    destruct (count <? 1); [done|]. by destruct (is_power_of_two count).
Qed.

(** [C31] The committees of an epoch partition the
    active validators: with at least one shard the assignment never fails, has
    one committee per shard in order, places every active validator in exactly
    one, and the committees' sizes differ by at most one. *)
Theorem committee_assignment_spec {E} epoch count vs :
  1 <= count < 2 ^ 16 ->
  let n := Z.of_nat (length (active_set vs)) in
  exists committees, build_committee_assignments (E := E) epoch count vs = Ok committees /\
    asg_key <$> committees = (fun s => (epoch, s)) <$> seqZ 0 count /\
    concat (validator_addresses <$> committees) ≡ₚ val_address <$> active_set vs /\
    Forall (fun a => n / count <= Z.of_nat (length (validator_addresses a)) <= n / count + 1)
      committees.
Proof.
  intros C n. destruct (build_committees_Ok epoch count ltac:(lia) (E := E) vs) as (l & El & D).
  exists l. split; [done|]. split; [by eapply dealt_keys|]. split.
  - rewrite (dealt_members _ _ _ _ D). by rewrite sort_by_perm.
  - apply Forall_lookup. intros i a L. rewrite (dealt_sizes _ _ _ _ D i a L), sort_by_perm.
    fold n. apply lookup_lt_Some in L. rewrite (dealt_length _ _ _ _ D) in L.
    split; [apply Z.div_le_mono; lia|].
    rewrite <- Z.div_add by lia. apply Z.div_le_mono; lia.
Qed.

(** [C3] Every beacon chain the methods build, in any order of
    registration, replacement, epoch change and root storage, keeps its
    invariant: validators sorted, both tables sorted with distinct
    (epoch, shard) keys, the current epoch's committees those the assignment
    deals from the current active validators, roots of 32 bytes for existing
    shards, and a root for every shard of the current epoch. *)
Theorem beacon_invariant `{Profile} b : beacon_reachable b -> beacon_ok b.
Proof. apply beacon_reachable_invariant. Qed.

(** A stored state root is read back, and nothing else
    changes: lookups of other shards and epochs are as before; a bad shard id
    or length is refused with its error. *)
Theorem store_root_spec `{Profile} b epoch s new :
  beacon_reachable b -> u16 s ->
  match store_shard_state_root b epoch s new with
  | Ok b' => s < shard_count (config b) /\ length new = SHARD_STATE_ROOT_LENGTH /\
      state_root_for_shard b' epoch s = Some new /\
      (forall e t, (e, t) <> (epoch, s) ->
         state_root_for_shard b' e t = state_root_for_shard b e t) /\
      shard_committees b' = shard_committees b /\ validators b' = validators b
  | Err (BeaconChainError.InvalidShardId i c) => i = s /\ c = shard_count (config b) /\ c <= s
  | Err (BeaconChainError.InvalidStateRootLength x p) =>
      x = 32 /\ p = Z.of_nat (length new) /\ p <> 32 /\ s < shard_count (config b)
  | Panic => False
  end.
Proof.
  intros B%beacon_reachable_invariant S.
  destruct (store_shard_state_root b epoch s new) as [b'|e|] eqn:E.
  - destruct (store_table b epoch s new b' (beacon_roots b B) E) as ((_ & ? & _ & ?) & ? & ? & _).
    destruct (store_beacon_ok b epoch s new b' B (proj1 S) E) as [_ L].
    do 2 (split; [done|]). split; [by rewrite L, decide_True|]. split; [|done].
    intros e t N. by rewrite L, decide_False.
  - unfold store_shard_state_root, validate_shard_id, validate_state_root_length in E.
    destruct (Z.leb_spec (shard_count (config b)) s); [by injection E as <-|].
    cbn [mbind outcome_bind] in E.
    destruct (Nat.eqb_spec (length new) SHARD_STATE_ROOT_LENGTH) as [L|L].
    + cbn [negb mbind outcome_bind] in E. by destruct (replace_root _ _ _ _).
    + injection E as <-. unfold SHARD_STATE_ROOT_LENGTH in *. repeat split; try done; lia.
  - unfold store_shard_state_root, validate_shard_id, validate_state_root_length in E.
    destruct (shard_count (config b) <=? s); [done|].
    destruct (length new =? SHARD_STATE_ROOT_LENGTH)%nat; cbn [negb mbind outcome_bind] in E; [|done].
    by destruct (replace_root _ _ _ _).
Qed.

(** Advancing the epoch always succeeds below the last
    one, and keeps history: the roots stored before can still be read, and the
    committees of the earlier epochs are untouched. *)
Theorem epoch_change_spec `{Profile} {E} b :
  beacon_reachable b -> 0 <= current_epoch b -> current_epoch b + 1 < 2 ^ 64 -> exists b',
    advance_epoch (E := E) b = Ok b' /\ current_epoch b' = current_epoch b + 1 /\
    validators b' = validators b /\
    (forall e s r, state_root_for_shard b e s = Some r -> state_root_for_shard b' e s = Some r) /\
    (forall e, e <> current_epoch b + 1 -> committees_for_epoch b' e = committees_for_epoch b e).
Proof.
  intros B%beacon_reachable_invariant N M. unfold advance_epoch. rewrite arith_fits by lia.
  cbn [mbind outcome_bind].
  destruct (rebuild_epoch_Ok (E := E) b (current_epoch b + 1) (beacon_ok_pre b B))
    as (b' & E' & _ & _ & V & C & R & O). eauto 10.
Qed.

(** For the current epoch of a reachable beacon
    chain whose active validators have distinct addresses, every shard has a
    committee, and the shards' committees together are exactly the active
    validators, so that their stakes add up to the active stake. *)
Theorem shard_committees_partition `{Profile} b :
  beacon_reachable b -> NoDup (val_address <$> active_validators b) ->
  exists committees : list (list Validator),
    Forall2 (fun s l => validators_for_shard b (current_epoch b) s = Ok l)
      (seqZ 0 (shard_count (config b))) committees /\
    mjoin committees ≡ₚ active_validators b /\
    sumZ (fun l => sumZ val_stake l) committees = sumZ val_stake (active_validators b).
Proof.
  intros B%beacon_reachable_invariant ND. pose proof (beacon_current b B) as D.
  set (table := committees_for_epoch b (current_epoch b)) in *.
  set (part a := filter (fun v => val_address v ∈ validator_addresses a) (active_validators b)).
  assert (mjoin ((sort_validators ∘ part) <$> table) ≡ₚ active_validators b) as J.
  { transitivity (mjoin (part <$> table)).
    { clear. induction table as [|a k IH]; [done|]. rewrite !fmap_cons.
      change (sort_validators (part a) ++ mjoin ((sort_validators ∘ part) <$> k) ≡ₚ
              part a ++ mjoin (part <$> k)).
      unfold sort_validators. by rewrite sort_by_perm, IH. }
    assert (concat (validator_addresses <$> table) ≡ₚ val_address <$> active_validators b) as Pm.
    { rewrite (dealt_members _ _ _ _ D). by rewrite sort_by_perm. }
    transitivity (filter (fun v => val_address v ∈ concat (validator_addresses <$> table))
                    (active_validators b)).
    { rewrite <- filter_parts by (by rewrite Pm). by rewrite <- list_fmap_compose. }
    rewrite filter_all; [done|]. apply Forall_forall. intros v I. rewrite Pm.
    by apply list_elem_of_fmap_2. }
  exists ((sort_validators ∘ part) <$> table). split; [|split; [exact J|]].
  - apply Forall2_lookup. intros i. rewrite list_lookup_fmap.
    destruct (decide (Z.of_nat i < shard_count (config b))) as [L|L].
    + destruct (validators_for_shard_Ok b (Z.of_nat i) B ltac:(lia)) as (a & La & Ea).
      rewrite Nat2Z.id in La. fold table in La. rewrite La, lookup_seqZ_lt by done.
      constructor. by rewrite Z.add_0_l.
    + rewrite lookup_seqZ_ge by lia. rewrite lookup_ge_None_2; [constructor|].
      rewrite (dealt_length _ _ _ _ D). lia.
  - rewrite <- (sumZ_perm _ _ _ J). generalize ((sort_validators ∘ part) <$> table).
    intros k. induction k as [|l k IH]; [done|].
    change (mjoin (l :: k)) with (l ++ mjoin k). by rewrite sumZ_cons, sumZ_app, IH.
Qed.

(** ** Witnesses *)

From S2P Require Import Concrete.
Import Concrete.Instances.

Definition sample_config : ShardingConfig := {| shard_count := 2 |}.

Definition plain_validator (seed stake : Z) : Validator :=
  {| val_address := fill 4 seed; val_stake := stake; val_locked_until := 0 |}.

Definition plain_validators : list Validator :=
  [plain_validator 1 10; plain_validator 2 20; plain_validator 3 0; plain_validator 4 30].

Definition sample_beacon : BeaconChain :=
  match BeaconChain_new (E := False) sample_config plain_validators with
  | Ok b => b
  | _ => {| config := sample_config; validators := []; current_epoch := 0;
            shard_committees := []; shard_state_roots := [] |}
  end.

Lemma sample_beacon_reachable : beacon_reachable sample_beacon.
Proof.
  apply (br_new sample_config plain_validators); [simpl; lia|]. vm_compute. reflexivity.
Qed.

Lemma sharding_config_spec_witness :
  match apply_governance_update sample_config 48 with
  | Ok config' => shard_count config' = 48 /\ exists k, 0 <= k < 16 /\ 48 = 2 ^ k
  | Err (ShardingConfigError.ShardCountTooLow m) => m = 1 /\ 48 = 0
  | Err (ShardingConfigError.ShardCountMustBePowerOfTwo p) =>
      p = 48 /\ 0 < 48 /\ forall k, 0 <= k -> 48 <> 2 ^ k
  | Panic => False
  end.
Proof. exact (proj2 (sharding_config_spec sample_config 48 ltac:(split; lia))). Defined.

Lemma committee_assignment_spec_witness :
  exists committees, build_committee_assignments (E := False) 3 2 plain_validators = Ok committees /\
    asg_key <$> committees = (fun s => (3, s)) <$> seqZ 0 2 /\
    concat (validator_addresses <$> committees) ≡ₚ
      val_address <$> active_set plain_validators /\
    Forall (fun a => 1 <= Z.of_nat (length (validator_addresses a)) <= 2) committees.
Proof. exact (committee_assignment_spec (E := False) 3 2 plain_validators ltac:(lia)). Defined.

Lemma beacon_invariant_witness : beacon_ok sample_beacon.
Proof. exact (beacon_invariant sample_beacon sample_beacon_reachable). Defined.

Lemma store_root_spec_witness :
  match store_shard_state_root sample_beacon 0 1 (fill 32 9) with
  | Ok b' => state_root_for_shard b' 0 1 = Some (fill 32 9)
  | Err _ => True
  | Panic => False
  end.
Proof.
  pose proof (store_root_spec sample_beacon 0 1 (fill 32 9) sample_beacon_reachable
    ltac:(split; lia)) as S.
  destruct (store_shard_state_root sample_beacon 0 1 (fill 32 9)); [apply S|exact I|exact S].
Defined.

Lemma epoch_change_spec_witness : exists b',
  advance_epoch (E := False) sample_beacon = Ok b' /\ current_epoch b' = 1.
Proof.
  destruct (epoch_change_spec (E := False) sample_beacon sample_beacon_reachable)
    as (b' & E & C & _); [by vm_compute|by vm_compute|].
  exists b'. split; [exact E|exact C].
Defined.

Lemma shard_committees_partition_witness : exists committees : list (list Validator),
  Forall2 (fun s l => validators_for_shard sample_beacon (current_epoch sample_beacon) s = Ok l)
    (seqZ 0 2) committees /\
  mjoin committees ≡ₚ active_validators sample_beacon /\
  sumZ (fun l => sumZ val_stake l) committees = sumZ val_stake (active_validators sample_beacon).
Proof.
  exact (shard_committees_partition sample_beacon sample_beacon_reachable ltac:(by_eval)).
Defined.
