(* ===== verification/Round.v ===== *)
(** * A round of a shard ([src/sharding/mod.rs], [src/consensus/mod.rs], [src/blockchain])

    How the parts of the consensus fit together: the committee the beacon
    chain gives a shard, the proposer among it, the block it proposes from a
    pool, the votes on it, and the state root the beacon chain keeps.  The
    repository has these parts as functions that take each other's results. *)

From Stdlib Require Import Strings.Byte.
From S2P Require Import Prelude Orders Bytes Externals Types Hash Crypto Validation Mempool Votes Proposer Sharding.

(** What the members of a committee do: sign, and hand in. *)
Definition shard_cast `{Ed25519, !Bincode ConsensusVote} (acc : outcome ShardConsensusError.t ShardConsensus)
    (b : ballot) : outcome ShardConsensusError.t ShardConsensus :=
  s ← acc;
  v ← map_err ShardConsensusError.Vote
        (create_signed_vote (bal_height b) (bal_block_hash b) (bal_approve b) (bal_secret_key b));
  shard_collect_vote s v.

Section round.
Context `{Profile, Sha256Ok, Ed25519Ok, ChainCodecsOk, !Bincode ConsensusVote, !BincodeOk ConsensusVote}.

Definition with_collector (s : ShardConsensus) (c : VoteCollector) : ShardConsensus := {|
  sc_epoch := sc_epoch s; sc_shard_id := sc_shard_id s; sc_committee := sc_committee s; sc_collector := c |}.

(** The votes of a shard are those of its collector. *)
Lemma shard_cast_run s ballots : sc_collector s = VoteCollector_new ->
  foldl shard_cast (Ok s) ballots =
  map_err ShardConsensusError.Vote (with_collector s <$> cast_ballots (sc_committee s) ballots).
Proof.
  intros N. induction ballots as [|b ballots IH] using rev_ind.
  { unfold cast_ballots. cbn. f_equal. destruct s. cbn in *. by rewrite N. }
  unfold cast_ballots in *. rewrite !foldl_snoc, IH.
  destruct (foldl (cast_step (sc_committee s)) (Ok VoteCollector_new) ballots) as [c|e|]; [|done..].
  cbn [fmap outcome_fmap map_err]. unfold shard_cast, cast_step. cbn [mbind outcome_bind].
  destruct (create_signed_vote _ _ _ _) as [v|e|]; [|done..]. cbn [map_err mbind outcome_bind].
  unfold shard_collect_vote. cbn [with_collector sc_collector sc_committee sc_epoch sc_shard_id].
  by destruct (collect_vote c v (sc_committee s)).
Qed.

(** A committee is a part of the active validators. *)
Lemma consensus_for_shard_Ok b s : beacon_ok b -> 0 <= s < shard_count (config b) -> exists sc,
  consensus_for_shard b (current_epoch b) s = Ok sc /\
  sc_collector sc = VoteCollector_new /\ sc_committee sc ⊆+ active_validators b.
Proof.
  intros B R. destruct (validators_for_shard_Ok b s B R) as (a & _ & E).
  eexists. unfold consensus_for_shard. rewrite E. cbn [mbind outcome_bind]. split; [done|]. split; [done|].
  unfold ShardConsensus_new. cbn [sc_committee]. rewrite sort_validators_idemp. unfold sort_validators.
  rewrite sort_by_perm. apply sublist_submseteq, sublist_filter.
Qed.

(** Its members are distinct and active, so votes count in it. *)
Lemma committee_ok b s sc : beacon_ok b -> validators_ok (validators b) -> 0 <= s < shard_count (config b) ->
  consensus_for_shard b (current_epoch b) s = Ok sc ->
  validators_ok (sc_committee sc) /\ active_set (sc_committee sc) = sc_committee sc /\
  sc_committee sc ⊆+ active_validators b /\ sc_collector sc = VoteCollector_new.
Proof.
  intros B V R E. destruct (consensus_for_shard_Ok b s B R) as (sc' & E' & N & M).
  assert (sc' = sc) as -> by congruence.
  assert (active_set (sc_committee sc) = sc_committee sc) as A.
  { unfold active_set. apply filter_all, Forall_forall. intros v I.
    by apply (elem_of_submseteq _ _ _ I), list_elem_of_filter in M as [? _]. }
  split; [|by repeat split]. destruct V as [D T]. change (active_set (validators b)) with (active_validators b) in *.
  apply submseteq_Permutation in M as [k P]. split; rewrite A.
  - rewrite P, fmap_app in D. by apply NoDup_app in D as [? _].
  - eapply Z.le_lt_trans; [|exact T]. rewrite (sumZ_perm _ _ _ P), sumZ_app.
    enough (0 <= sumZ val_stake k) by lia. apply sumZ_nonneg.
    pose proof (active_set_pos (validators b)) as Pos. change (active_set (validators b)) with (active_validators b) in Pos.
    rewrite P in Pos. by apply Forall_app in Pos as [_ ?].
Qed.

(** The proposer is one of them. *)
Lemma select_proposer_member validators prev height :
  validators_ok validators -> active_set validators <> [] ->
  exists v, select_proposer validators prev height = Ok v /\ v ∈ active_set validators.
Proof.
  intros V NE. unfold select_proposer, proposer_seed. rewrite sha256_length. cbn [Nat.eqb mbind outcome_bind].
  pose proof (vs_stakes _ V).
  destruct (select_by_seed_slot validators (sha256 (prev ++ be_bytes 8 height)) NE ltac:(lia))
    as (i & v & L & E & _). exists v. split; [exact E|].
  rewrite <- eligible_perm. by apply list_elem_of_lookup_2 in L.
Qed.

(** The root of a block becomes the state root of its shard, and nothing else
    changes. *)
Lemma update_root_run b s block : beacon_reachable b -> 0 <= s < shard_count (config b) ->
  length (hdr_merkle_root (blk_header block)) = 32%nat -> exists b',
    update_shard_state_root_from_block b (current_epoch b) s block = Ok b' /\ beacon_reachable b' /\
    (forall e t, state_root_for_shard b' e t =
       if decide ((e, t) = (current_epoch b, s)) then Some (hdr_merkle_root (blk_header block))
       else state_root_for_shard b e t) /\
    forall e t, consensus_for_shard b' e t = consensus_for_shard b e t.
Proof.
  intros R S L. pose proof (beacon_reachable_invariant b R) as B. pose proof (beacon_count b B).
  assert (exists b', store_shard_state_root b (current_epoch b) s (hdr_merkle_root (blk_header block)) = Ok b')
    as [b' E].
  { unfold store_shard_state_root, validate_shard_id, validate_state_root_length.
    destruct (Z.leb_spec (shard_count (config b)) s); [lia|]. rewrite L. cbn [mbind outcome_bind].
    change ((32 =? SHARD_STATE_ROOT_LENGTH)%nat) with true. cbn [negb mbind outcome_bind].
    destruct (replace_root _ _ _ _); by eexists. }
  exists b'. split; [exact E|]. destruct (store_beacon_ok b _ s _ b' B (proj1 S) E) as [_ Look].
  destruct (store_table b _ s _ b' (beacon_roots b B) E) as ((Ec & Ev & _ & Es) & _).
  split; [|split; [exact Look|]].
  - eapply br_store; [exact R| |exact E]. unfold u16. lia.
  - intros e t. unfold consensus_for_shard, validators_for_shard, committee_for_shard, active_validators.
    by rewrite Ec, Ev, Es.
Qed.

(** [C4] A round of a shard, from the beacon chain and the pool to the
    state root.  For the current epoch, every shard has a committee of active
    validators; when it has a member, one of them is the proposer; the block
    it proposes from the pool carries the Merkle root of its transactions and,
    unless it is too large, is valid on top of the block it extends; the
    votes of distinct members, whatever they vote on and in whatever order
    they come, are all counted, and finalise exactly when those that approve
    hold more than two thirds of the stake of the committee; and the block's
    root becomes the state root of this shard, while every other root and
    every committee stays as it was. *)
Theorem shard_round b s prev height timestamp m max :
  beacon_reachable b -> validators_ok (validators b) -> 0 <= s < shard_count (config b) ->
  mempool_reachable m -> Forall wf (pending_transactions m) ->
  Z.of_nat (length (pending_transactions m)) < 2 ^ 63 ->
  vec_ok prev -> u64 height -> u64 timestamp -> (0 < max)%nat ->
  exists sc, consensus_for_shard b (current_epoch b) s = Ok sc /\
    sc_committee sc ⊆+ active_validators b /\
    (sc_committee sc <> [] -> exists leader,
       select_proposer (sc_committee sc) prev height = Ok leader /\ leader ∈ sc_committee sc /\
       forall sk, val_address leader = public_key_of sk -> exists block root,
         propose_block leader sk prev height timestamp m max = (Ok block, (take_for_block m max).2) /\
         blk_transactions block = (take_for_block m max).1 /\
         calculate_merkle_root (E := ProposeError.t) (blk_transactions block) = Ok root /\
         (validate_block block prev = Ok tt \/
          exists size, MAX_BLOCK_SIZE_BYTES <= size /\
            validate_block block prev = Err (BlockTooLarge size MAX_BLOCK_SIZE_BYTES)) /\
         exists b', update_shard_state_root_from_block b (current_epoch b) s block = Ok b' /\
           beacon_reachable b' /\ state_root_for_shard b' (current_epoch b) s = Some root /\
           (forall e t, (e, t) <> (current_epoch b, s) ->
              state_root_for_shard b' e t = state_root_for_shard b e t) /\
           forall e t, consensus_for_shard b' e t = consensus_for_shard b e t) /\
    forall ballots, NoDup (bal_key <$> ballots) -> Forall (ballot_ok (sc_committee sc)) ballots ->
      let approving := sumZ (ballot_stake (sc_committee sc))
                         (filter (fun x => bal_approve x = true) ballots) in
      exists sc', foldl shard_cast (Ok sc) ballots = Ok sc' /\ sc_committee sc' = sc_committee sc /\
        shard_is_finalized sc' = Ok (sumZ val_stake (sc_committee sc) * 2 <? approving * 3).
Proof.
  intros R V S M F N Wp Wh Wt Mx. pose proof (beacon_reachable_invariant b R) as B.
  destruct (consensus_for_shard_Ok b s B S) as (sc & E & _).
  destruct (committee_ok b s sc B V S E) as (Vc & Ac & Sub & Nc).
  exists sc. split; [exact E|]. split; [exact Sub|]. split.
  - intros NE. destruct (select_proposer_member (sc_committee sc) prev height Vc) as (leader & El & Il);
      [by rewrite Ac|]. rewrite Ac in Il. exists leader. split; [exact El|]. split; [exact Il|]. intros sk K.
    destruct (propose_block_run leader sk prev height timestamp m max M F N K Wp Wh Wt Mx)
      as (block & encoded & Ep & Et & _ & _ & Er & Lr & _ & Ev).
    exists block, (hdr_merkle_root (blk_header block)). do 3 (split; [done|]). split.
    { rewrite Ev. destruct (Z.leb_spec MAX_BLOCK_SIZE_BYTES (Z.of_nat (length encoded))); [|by left].
      right. by eexists. }
    destruct (update_root_run b s block R S Lr) as (b' & Eb & Rb & Look & Con).
    exists b'. do 2 (split; [done|]). split; [by rewrite Look, decide_True|]. split; [|exact Con].
    intros e t Ne. by rewrite Look, decide_False.
  - intros ballots ND Fb approving.
    destruct (cast_quorum (X := ShardConsensusError.t) (sc_committee sc) ballots Vc ND Fb)
      as (c & t & Ec & Et & _ & _ & Ef).
    exists (with_collector sc c). rewrite (shard_cast_run sc ballots Nc), Ec. split; [done|]. split; [done|].
    unfold shard_is_finalized, shard_tally. cbn [with_collector sc_collector sc_committee]. rewrite Et.
    cbn [map_err mbind outcome_bind]. by rewrite Ef, Ac.
Qed.
End round.

(** ** Witness *)

From S2P Require Import Concrete.
Import Concrete.Instances VoteInstances.

(** A beacon chain of two shards over the validators of [sample_validators]. *)
Definition Ok_or {E A} (m : outcome E A) (a : A) : A := match m with Ok x => x | _ => a end.

Definition round_beacon : BeaconChain :=
  Ok_or (E := False) (BeaconChain_new sample_config sample_validators) sample_beacon.

Lemma round_beacon_reachable : beacon_reachable round_beacon.
Proof. apply (br_new sample_config sample_validators); [simpl; lia|]. vm_compute. reflexivity. Qed.

(** A keyed validator for each member. *)
Lemma round_keys v : v ∈ active_validators round_beacon -> exists sk, val_address v = public_key_of sk.
Proof.
  assert (active_validators round_beacon ≡ₚ
    [sample_validator 1 10; sample_validator 2 10; sample_validator 4 10; sample_validator 5 10]) as ->.
  { transitivity (active_set sample_validators); [|by_eval]. unfold active_validators, active_set.
    f_equiv. transitivity (sort_validators sample_validators); [by_eval|apply sort_by_perm]. }
  intros I. repeat (apply elem_of_cons in I as [->|I]; [by eexists|]). by apply elem_of_nil in I.
Qed.

(** The leader and its block, for the second shard. *)
Lemma shard_round_witness : exists sc leader block root b',
  consensus_for_shard round_beacon (current_epoch round_beacon) 1 = Ok sc /\
  select_proposer (sc_committee sc) (fill 32 5) 9 = Ok leader /\
  blk_transactions block = (take_for_block sample_pool 4).1 /\
  update_shard_state_root_from_block round_beacon (current_epoch round_beacon) 1 block = Ok b' /\
  state_root_for_shard b' (current_epoch round_beacon) 1 = Some root /\
  calculate_merkle_root (E := ProposeError.t) (blk_transactions block) = Ok root.
Proof.
  assert (pending_transactions sample_pool = [sample_tx 1; sample_tx 2; sample_tx 3]) as P
    by (vm_compute; reflexivity).
  assert (Forall wf (pending_transactions sample_pool)) as W by (rewrite P; solve_wf).
  assert (vec_ok (fill 32 5)) as Wp by solve_wf.
  assert (Z.of_nat (length (pending_transactions sample_pool)) < 2 ^ 63) as N by (by rewrite P).
  assert (validators_ok (validators round_beacon)) as V.
  { split; [|by vm_compute]. by_eval. }
  assert (shard_count (config round_beacon) = 2) as C by (vm_compute; reflexivity).
  assert (0 <= 1 < shard_count (config round_beacon)) as Sh by (rewrite C; lia).
  destruct (shard_round round_beacon 1 (fill 32 5) 9 100 sample_pool 4 round_beacon_reachable V Sh
    sample_pool_reachable W N Wp ltac:(split; lia) ltac:(split; lia) ltac:(lia)) as (sc & Es & Sub & L & _).
  assert (sc_committee sc <> []) as NE.
  { assert ((fun x => bool_decide (sc_committee x = [])) <$>
      consensus_for_shard round_beacon (current_epoch round_beacon) 1 = Ok false) as X by (vm_compute; reflexivity).
    rewrite Es in X. injection X as X. by apply bool_decide_eq_false in X. }
  destruct (L NE) as (leader & El & Il & K). destruct (round_keys leader) as [sk Ek].
  { by apply (elem_of_submseteq _ _ _ Il). }
  destruct (K sk Ek) as (block & root & _ & Et & Er & _ & b' & Eb & _ & Ls & _).
  exists sc, leader, block, root, b'. exact (conj Es (conj El (conj Et (conj Eb (conj Ls Er))))).
Defined.
