(* ===== verification/CrossShard.v ===== *)
(** * Transactions between shards ([src/sharding/mod.rs])

    The two-phase protocol: prepare in the source shard, validate in the
    destination shard, commit.  An execution is a state machine whose receipts
    prove the phases it went through. *)

From S2P Require Import Prelude Orders Bytes Externals Types Digest Sharding.

Module CrossShardTransactionError.
Inductive t :=
| BeaconChain (e : BeaconChainError.t)
| NotCrossShard
| SourceShardNotPrepared
| DestinationShardNotValidated
| DestinationAlreadyValidated
| AlreadyCommitted
| Serialization (message : string)
| InvalidReceiptCount (expected provided : Z)
| MissingReceiptPhase (phase : CrossShardPhase)
| ReceiptTxHashMismatch
| ReceiptRouteMismatch (expected_source_shard expected_destination_shard
                        actual_source_shard actual_destination_shard : Z)
| InvalidReceiptProof (phase : CrossShardPhase).
End CrossShardTransactionError.

Record CrossShardExecution := {
  transaction : Transaction;
  exec_tx_hash : bytes;
  source_prepared : bool;
  destination_validated : bool;
  committed : bool;
  receipts : list CrossShardReceipt;
}.

Definition TX_HASH_SEED : Z := 0xA5A5A5A5A5A5A5A5.
Definition RECEIPT_SEED : Z := 0xB4B4B4B4B4B4B4B4.

Definition phase_byte (p : CrossShardPhase) : byte :=
  byte_of (match p with Prepare => 1 | Validate => 2 | Commit => 3 end).

Definition build_receipt_proof (tx_hash : bytes) (phase : CrossShardPhase)
    (source_shard destination_shard : Z) : bytes :=
  deterministic_digest
    (tx_hash ++ be_bytes 2 source_shard ++ be_bytes 2 destination_shard ++ [phase_byte phase])
    RECEIPT_SEED.

Definition build_cross_shard_receipt (tx : Transaction) (tx_hash : bytes)
    (phase : CrossShardPhase) : CrossShardReceipt := {|
  rcpt_tx_hash := tx_hash;
  rcpt_source_shard := tx_source_shard tx;
  rcpt_destination_shard := tx_destination_shard tx;
  rcpt_phase := phase;
  rcpt_proof := build_receipt_proof tx_hash phase (tx_source_shard tx)
                  (tx_destination_shard tx) |}.

Definition validate_cross_shard_route (tx : Transaction) (count : Z) :
  outcome CrossShardTransactionError.t unit :=
  map_err CrossShardTransactionError.BeaconChain (validate_shard_id (tx_source_shard tx) count);;
  map_err CrossShardTransactionError.BeaconChain
    (validate_shard_id (tx_destination_shard tx) count);;
  if negb (is_cross_shard tx) then Err CrossShardTransactionError.NotCrossShard else Ok tt.

Definition build_cross_shard_transaction_hash `{ChainCodecs} (tx : Transaction) :
  outcome CrossShardTransactionError.t bytes :=
  encoded ← map_err CrossShardTransactionError.Serialization (bincode_serialize tx);
  Ok (deterministic_digest encoded TX_HASH_SEED).

(** ** The phases, on a beacon chain [b] *)

Definition prepare_cross_shard_transaction `{ChainCodecs} (b : BeaconChain) (tx : Transaction) :
  outcome CrossShardTransactionError.t CrossShardExecution :=
  validate_cross_shard_route tx (shard_count (config b));;
  tx_hash ← build_cross_shard_transaction_hash tx;
  Ok {| transaction := tx; exec_tx_hash := tx_hash; source_prepared := true;
        destination_validated := false; committed := false;
        receipts := [build_cross_shard_receipt tx tx_hash Prepare] |}.

Definition validate_cross_shard_transaction (b : BeaconChain) (x : CrossShardExecution) :
  outcome CrossShardTransactionError.t CrossShardExecution :=
  validate_cross_shard_route (transaction x) (shard_count (config b));;
  if negb (source_prepared x) then Err CrossShardTransactionError.SourceShardNotPrepared
  else if destination_validated x
  then Err CrossShardTransactionError.DestinationAlreadyValidated
  else if committed x then Err CrossShardTransactionError.AlreadyCommitted
  else
    Ok {| transaction := transaction x; exec_tx_hash := exec_tx_hash x;
          source_prepared := source_prepared x; destination_validated := true;
          committed := committed x;
          receipts := receipts x ++
            [build_cross_shard_receipt (transaction x) (exec_tx_hash x) Validate] |}.

Definition commit_cross_shard_transaction (b : BeaconChain) (x : CrossShardExecution) :
  outcome CrossShardTransactionError.t CrossShardExecution :=
  validate_cross_shard_route (transaction x) (shard_count (config b));;
  if committed x then Err CrossShardTransactionError.AlreadyCommitted
  else if negb (source_prepared x) then Err CrossShardTransactionError.SourceShardNotPrepared
  else if negb (destination_validated x)
  then Err CrossShardTransactionError.DestinationShardNotValidated
  else
    Ok {| transaction := transaction x; exec_tx_hash := exec_tx_hash x;
          source_prepared := source_prepared x;
          destination_validated := destination_validated x; committed := true;
          receipts := receipts x ++
            [build_cross_shard_receipt (transaction x) (exec_tx_hash x) Commit] |}.

Definition include_receipts_in_block (block : Block) (x : CrossShardExecution) : Block := {|
  blk_header := blk_header block; blk_transactions := blk_transactions block;
  blk_receipts := blk_receipts block ++ receipts x |}.

(** ** Checking receipts *)

Definition validate_cross_shard_receipt (b : BeaconChain) (tx : Transaction) (tx_hash : bytes)
    (r : CrossShardReceipt) : outcome CrossShardTransactionError.t unit :=
  validate_cross_shard_route tx (shard_count (config b));;
  if negb (bool_decide (rcpt_tx_hash r = tx_hash))
  then Err CrossShardTransactionError.ReceiptTxHashMismatch
  else if negb (rcpt_source_shard r =? tx_source_shard tx)
          || negb (rcpt_destination_shard r =? tx_destination_shard tx)
  then Err (CrossShardTransactionError.ReceiptRouteMismatch (tx_source_shard tx)
              (tx_destination_shard tx) (rcpt_source_shard r) (rcpt_destination_shard r))
  else if negb (bool_decide (rcpt_proof r =
            build_receipt_proof tx_hash (rcpt_phase r) (rcpt_source_shard r)
              (rcpt_destination_shard r)))
  then Err (CrossShardTransactionError.InvalidReceiptProof (rcpt_phase r))
  else Ok tt.

Definition expected_receipt_phases (x : CrossShardExecution) : list CrossShardPhase :=
  (if source_prepared x || destination_validated x || committed x then [Prepare] else []) ++
  (if destination_validated x || committed x then [Validate] else []) ++
  (if committed x then [Commit] else []).

(** The loop over the receipts zipped with the expected phases. *)
Fixpoint check_receipts (b : BeaconChain) (tx : Transaction) (tx_hash : bytes)
    (pairs : list (CrossShardReceipt * CrossShardPhase)) :
  outcome CrossShardTransactionError.t unit :=
  match pairs with
  | [] => Ok tt
  | (r, expected_phase) :: pairs' =>
      if negb (bool_decide (rcpt_phase r = expected_phase))
      then Err (CrossShardTransactionError.MissingReceiptPhase expected_phase)
      else
        validate_cross_shard_receipt b tx tx_hash r;;
        check_receipts b tx tx_hash pairs'
  end.

Definition validate_cross_shard_execution_proofs (b : BeaconChain) (x : CrossShardExecution) :
  outcome CrossShardTransactionError.t unit :=
  validate_cross_shard_route (transaction x) (shard_count (config b));;
  if committed x && negb (destination_validated x)
  then Err CrossShardTransactionError.DestinationShardNotValidated
  else if (destination_validated x || committed x) && negb (source_prepared x)
  then Err CrossShardTransactionError.SourceShardNotPrepared
  else
    let expected_phases := expected_receipt_phases x in
    if negb (length (receipts x) =? length expected_phases)%nat
    then Err (CrossShardTransactionError.InvalidReceiptCount
                (Z.of_nat (length expected_phases)) (Z.of_nat (length (receipts x))))
    else check_receipts b (transaction x) (exec_tx_hash x) (zip (receipts x) expected_phases).

Definition is_cross_shard_execution_globally_finalized (b : BeaconChain)
    (x : CrossShardExecution) : outcome CrossShardTransactionError.t bool :=
  validate_cross_shard_execution_proofs b x;;
  Ok (source_prepared x && destination_validated x && committed x
      && (length (receipts x) =? 3)%nat).

(** ** Lemmas *)

Definition route_ok (b : BeaconChain) (tx : Transaction) : Prop :=
  tx_source_shard tx < shard_count (config b) /\
  tx_destination_shard tx < shard_count (config b) /\
  tx_source_shard tx <> tx_destination_shard tx.

Lemma validate_cross_shard_route_Ok b tx :
  validate_cross_shard_route tx (shard_count (config b)) = Ok tt <-> route_ok b tx.
Proof.
  unfold validate_cross_shard_route, validate_shard_id, is_cross_shard, route_ok.
  destruct (Z.leb_spec (shard_count (config b)) (tx_source_shard tx)); simpl; [split; [done|lia]|].
  destruct (Z.leb_spec (shard_count (config b)) (tx_destination_shard tx)); simpl;
    [split; [done|lia]|].
  destruct (Z.eqb_spec (tx_source_shard tx) (tx_destination_shard tx)); simpl; split; try done; lia.
Qed.

(** The only receipt of a phase that is accepted is the one the code builds. *)
Lemma validate_cross_shard_receipt_Ok b tx tx_hash r :
  validate_cross_shard_receipt b tx tx_hash r = Ok tt <->
  route_ok b tx /\ r = build_cross_shard_receipt tx tx_hash (rcpt_phase r).
Proof.
  unfold validate_cross_shard_receipt. rewrite <- validate_cross_shard_route_Ok.
  destruct (validate_cross_shard_route tx (shard_count (config b))) as [[]|e|];
    cbn [mbind outcome_bind]; [|naive_solver..].
  destruct r as [h s d p q]. unfold build_cross_shard_receipt. simpl.
  rewrite !bool_decide_decide.
  destruct (decide (h = tx_hash)) as [->|]; simpl; [|naive_solver].
  destruct (Z.eqb_spec s (tx_source_shard tx)) as [->|]; simpl; [|naive_solver].
  destruct (Z.eqb_spec d (tx_destination_shard tx)) as [->|]; simpl; [|naive_solver].
  destruct (decide (q = build_receipt_proof tx_hash p (tx_source_shard tx)
    (tx_destination_shard tx))) as [->|]; simpl; [naive_solver|].
  split; [done|]. intros [_ E]. by injection E.
Qed.

Lemma check_receipts_Ok b tx tx_hash rs phases :
  length rs = length phases -> route_ok b tx ->
  check_receipts b tx tx_hash (zip rs phases) = Ok tt <->
  rs = build_cross_shard_receipt tx tx_hash <$> phases.
Proof.
  intros L R. revert phases L. induction rs as [|r rs IH]; intros [|p phases] L; try done.
  simpl in L. injection L as L. cbn [zip zip_with check_receipts]. rewrite fmap_cons.
  rewrite bool_decide_decide. destruct (decide (rcpt_phase r = p)) as [Ep|Np]; simpl.
  - split.
    + intros E. apply bind_Ok in E as ([] & V & E). apply validate_cross_shard_receipt_Ok in V as [_ V].
      rewrite Ep in V. f_equal; [done|]. by apply IH.
    + intros E. injection E as Er E.
      assert (validate_cross_shard_receipt b tx tx_hash r = Ok tt) as ->
        by (apply validate_cross_shard_receipt_Ok; by rewrite Ep).
      cbn [mbind outcome_bind]. by apply IH.
  - split; [done|]. intros E. injection E as Er _. by rewrite Er in Np.
Qed.

(** The flags are raised in the order of the phases. *)
Definition flags_ordered (x : CrossShardExecution) : Prop :=
  (committed x = true -> destination_validated x = true) /\
  (destination_validated x = true -> source_prepared x = true).

Lemma execution_proofs_Ok b x :
  validate_cross_shard_execution_proofs b x = Ok tt <->
  route_ok b (transaction x) /\ flags_ordered x /\
  receipts x = build_cross_shard_receipt (transaction x) (exec_tx_hash x) <$>
                 expected_receipt_phases x.
Proof.
  unfold validate_cross_shard_execution_proofs, flags_ordered.
  rewrite <- validate_cross_shard_route_Ok.
  destruct (validate_cross_shard_route _ _) as [[]|e|] eqn:R; cbn [mbind outcome_bind];
    [|naive_solver..].
  apply validate_cross_shard_route_Ok in R.
  destruct (committed x) eqn:C, (destination_validated x) eqn:D, (source_prepared x) eqn:S;
    cbn [negb andb orb]; try (split; [done|intuition congruence]).
  all: destruct (Nat.eqb_spec (length (receipts x)) (length (expected_receipt_phases x))) as [L|L];
    cbn [negb]; [rewrite check_receipts_Ok by done; tauto|].
  all: split; [done|]; intros (_ & _ & E); destruct L; rewrite E; apply length_fmap.
Qed.

(** ** The protocol as a state machine *)

Inductive execution_reachable `{ChainCodecs} (b : BeaconChain) (tx : Transaction) :
  CrossShardExecution -> Prop :=
| er_prepare x : prepare_cross_shard_transaction b tx = Ok x -> execution_reachable b tx x
| er_validate x x' :
    execution_reachable b tx x -> validate_cross_shard_transaction b x = Ok x' ->
    execution_reachable b tx x'
| er_commit x x' :
    execution_reachable b tx x -> commit_cross_shard_transaction b x = Ok x' ->
    execution_reachable b tx x'.

(** The executions of the protocol, by how far they went. *)
Definition execution_at (tx : Transaction) (tx_hash : bytes) (validated done_ : bool) :
  CrossShardExecution :=
  let x := {| transaction := tx; exec_tx_hash := tx_hash; source_prepared := true;
              destination_validated := validated; committed := done_; receipts := [] |} in
  {| transaction := tx; exec_tx_hash := tx_hash; source_prepared := true;
     destination_validated := validated; committed := done_;
     receipts := build_cross_shard_receipt tx tx_hash <$> expected_receipt_phases x |}.

Section protocol.
Context `{ChainCodecs} (b : BeaconChain) (tx : Transaction).

Lemma prepare_Ok x :
  prepare_cross_shard_transaction b tx = Ok x <->
  route_ok b tx /\ exists h, build_cross_shard_transaction_hash tx = Ok h /\
    x = execution_at tx h false false.
Proof.
  unfold prepare_cross_shard_transaction. rewrite <- validate_cross_shard_route_Ok.
  destruct (validate_cross_shard_route _ _) as [[]|e|]; cbn [mbind outcome_bind];
    [|naive_solver..].
  destruct (build_cross_shard_transaction_hash tx) as [h|e|]; cbn [mbind outcome_bind];
    [|naive_solver..].
  split; [intros [= <-]; split; [done|]; by exists h|].
  by intros (_ & h' & [= <-] & ->).
Qed.

Lemma validate_step h v c x' :
  route_ok b tx ->
  validate_cross_shard_transaction b (execution_at tx h v c) = Ok x' <->
  v = false /\ c = false /\ x' = execution_at tx h true false.
Proof.
  intros R. unfold validate_cross_shard_transaction. cbn [execution_at transaction].
  apply validate_cross_shard_route_Ok in R. rewrite R. cbn [mbind outcome_bind].
  destruct v, c; cbn; naive_solver.
Qed.

Lemma commit_step h v c x' :
  route_ok b tx ->
  commit_cross_shard_transaction b (execution_at tx h v c) = Ok x' <->
  v = true /\ c = false /\ x' = execution_at tx h true true.
Proof.
  intros R. unfold commit_cross_shard_transaction. cbn [execution_at transaction].
  apply validate_cross_shard_route_Ok in R. rewrite R. cbn [mbind outcome_bind].
  destruct v, c; cbn; naive_solver.
Qed.

Lemma execution_reachable_at x : execution_reachable b tx x ->
  route_ok b tx /\ exists h v c, build_cross_shard_transaction_hash tx = Ok h /\
    x = execution_at tx h v c /\ (c = true -> v = true).
Proof.
  induction 1 as [x E|x x' _ (R & h & v & c & Eh & -> & O) E|x x' _ (R & h & v & c & Eh & -> & O) E].
  - apply prepare_Ok in E as (R & h & Eh & ->). split; [done|]. by exists h, false, false.
  - apply validate_step in E as (-> & -> & ->); [|done]. split; [done|]. by exists h, true, false.
  - apply commit_step in E as (-> & -> & ->); [|done]. split; [done|]. by exists h, true, true.
Qed.
End protocol.

(** ** Properties *)

(** [C15] The two-phase protocol: every execution reachable
    from a prepared transaction passes [validate_cross_shard_execution_proofs],
    and is globally finalised exactly when it is committed; a commit is only
    ever reached through a validation, and no phase can be repeated: after the
    commit neither step is accepted, before the validation no commit is. *)
Theorem cross_shard_protocol `{ChainCodecs} b tx x :
  execution_reachable b tx x ->
  validate_cross_shard_execution_proofs b x = Ok tt /\
  is_cross_shard_execution_globally_finalized b x = Ok (committed x) /\
  (committed x = true -> destination_validated x = true) /\
  (destination_validated x = true ->
     validate_cross_shard_transaction b x =
     Err CrossShardTransactionError.DestinationAlreadyValidated) /\
  (destination_validated x = false ->
     commit_cross_shard_transaction b x =
     Err CrossShardTransactionError.DestinationShardNotValidated) /\
  (committed x = true ->
     commit_cross_shard_transaction b x = Err CrossShardTransactionError.AlreadyCommitted).
Proof.
  intros (R & h & v & c & Eh & -> & O)%execution_reachable_at.
  assert (validate_cross_shard_execution_proofs b (execution_at tx h v c) = Ok tt) as V.
  { apply execution_proofs_Ok. cbn [execution_at transaction exec_tx_hash receipts].
    split; [done|]. split; [by split|]. done. }
  split; [exact V|]. unfold is_cross_shard_execution_globally_finalized. rewrite V.
  apply validate_cross_shard_route_Ok in R.
  unfold validate_cross_shard_transaction, commit_cross_shard_transaction.
  cbn [execution_at transaction]. rewrite R.
  destruct v, c; cbn; naive_solver.
Qed.

(** What a verifier accepts: the execution proofs
    pass exactly when the route is legal, the flags are raised in order, and
    the receipts are, in order, those the code builds for the raised phases;
    no receipt can be missing, repeated, reordered or altered. *)
Theorem receipts_accepted_iff b x :
  validate_cross_shard_execution_proofs b x = Ok tt <->
  (tx_source_shard (transaction x) < shard_count (config b) /\
   tx_destination_shard (transaction x) < shard_count (config b) /\
   tx_source_shard (transaction x) <> tx_destination_shard (transaction x)) /\
  ((committed x = true -> destination_validated x = true) /\
   (destination_validated x = true -> source_prepared x = true)) /\
  receipts x = build_cross_shard_receipt (transaction x) (exec_tx_hash x) <$>
                 expected_receipt_phases x.
Proof. apply execution_proofs_Ok. Qed.

(** A receipt of one phase is not a receipt of
    another: changing the phase of an accepted receipt makes it refused, since
    the proofs of different phases differ. *)
Theorem receipt_phase_bound b tx tx_hash r phase :
  validate_cross_shard_receipt b tx tx_hash r = Ok tt -> phase <> rcpt_phase r ->
  validate_cross_shard_receipt b tx tx_hash {|
    rcpt_tx_hash := rcpt_tx_hash r; rcpt_source_shard := rcpt_source_shard r;
    rcpt_destination_shard := rcpt_destination_shard r; rcpt_phase := phase;
    rcpt_proof := rcpt_proof r |} = Err (CrossShardTransactionError.InvalidReceiptProof phase).
Proof.
  intros [R E]%validate_cross_shard_receipt_Ok N.
  pose proof (proj2 (validate_cross_shard_route_Ok b tx) R) as Rv.
  set (p := rcpt_phase r) in *. rewrite E. unfold validate_cross_shard_receipt. rewrite Rv.
  cbn [mbind outcome_bind build_cross_shard_receipt rcpt_tx_hash rcpt_source_shard
       rcpt_destination_shard rcpt_phase rcpt_proof].
  rewrite bool_decide_true by done. rewrite !Z.eqb_refl. cbn [negb orb].
  rewrite bool_decide_false; [done|]. unfold build_receipt_proof. rewrite !app_assoc.
  intros D%(digest_one_byte _ _ _ []); [|done]. apply N. by destruct phase, p.
Qed.

(** What the receipts do not prove: the
    checks never compare [tx_hash] with the transaction, so in an accepted
    execution the transaction can be replaced by any other one of the same
    route, and the result is accepted, and finalised, all the same. *)
Theorem receipts_do_not_bind_transaction b x tx' :
  tx_source_shard tx' = tx_source_shard (transaction x) ->
  tx_destination_shard tx' = tx_destination_shard (transaction x) ->
  let x' := {| transaction := tx'; exec_tx_hash := exec_tx_hash x;
               source_prepared := source_prepared x;
               destination_validated := destination_validated x;
               committed := committed x; receipts := receipts x |} in
  is_cross_shard_execution_globally_finalized b x' =
  is_cross_shard_execution_globally_finalized b x.
Proof.
  intros Es Ed x'. unfold is_cross_shard_execution_globally_finalized. f_equal.
  unfold validate_cross_shard_execution_proofs.
  assert (validate_cross_shard_route tx' (shard_count (config b)) =
          validate_cross_shard_route (transaction x) (shard_count (config b))) as Er.
  { unfold validate_cross_shard_route, is_cross_shard. by rewrite Es, Ed. }
  cbn [x' transaction receipts exec_tx_hash source_prepared destination_validated committed].
  change (expected_receipt_phases x') with (expected_receipt_phases x).
  assert (forall r, validate_cross_shard_receipt b tx' (exec_tx_hash x) r =
          validate_cross_shard_receipt b (transaction x) (exec_tx_hash x) r) as Ev.
  { intros r. unfold validate_cross_shard_receipt. by rewrite Er, Es, Ed. }
  assert (forall pairs, check_receipts b tx' (exec_tx_hash x) pairs =
          check_receipts b (transaction x) (exec_tx_hash x) pairs) as Ec.
  { intros pairs. induction pairs as [|[r p] pairs IH]; [done|].
    cbn [check_receipts]. by rewrite IH, Ev. }
  by rewrite Er, Ec.
Qed.

(** ** Witnesses *)

From S2P Require Import Concrete.
Import Concrete.Instances.

Definition cross_tx (amount : Z) : Transaction := {|
  tx_type := Transfer; tx_from := fill 4 1; tx_to := fill 4 2; tx_amount := amount;
  tx_fee := 1; tx_nonce := 1; tx_source_shard := 0; tx_destination_shard := 1;
  tx_signature := []; tx_data := None |}.

Definition prepared_sample : CrossShardExecution :=
  match prepare_cross_shard_transaction sample_beacon (cross_tx 5) with
  | Ok x => x
  | _ => execution_at (cross_tx 5) [] false false
  end.

Lemma prepared_sample_reachable :
  execution_reachable sample_beacon (cross_tx 5) prepared_sample.
Proof. apply er_prepare. vm_compute. reflexivity. Qed.

Lemma cross_shard_protocol_witness :
  validate_cross_shard_execution_proofs sample_beacon prepared_sample = Ok tt /\
  is_cross_shard_execution_globally_finalized sample_beacon prepared_sample =
    Ok (committed prepared_sample).
Proof.
  pose proof (cross_shard_protocol sample_beacon (cross_tx 5) prepared_sample
    prepared_sample_reachable) as (V & F & _).
  split; [exact V|exact F].
Defined.

Lemma receipt_phase_bound_witness :
  let r := build_cross_shard_receipt (cross_tx 5) (fill 32 7) Prepare in
  validate_cross_shard_receipt sample_beacon (cross_tx 5) (fill 32 7) {|
    rcpt_tx_hash := rcpt_tx_hash r; rcpt_source_shard := rcpt_source_shard r;
    rcpt_destination_shard := rcpt_destination_shard r; rcpt_phase := Commit;
    rcpt_proof := rcpt_proof r |} = Err (CrossShardTransactionError.InvalidReceiptProof Commit).
Proof.
  intros r. apply (receipt_phase_bound sample_beacon (cross_tx 5) (fill 32 7) r Commit).
  - vm_compute. reflexivity.
  - discriminate.
Defined.

Lemma receipts_do_not_bind_transaction_witness :
  is_cross_shard_execution_globally_finalized sample_beacon
    {| transaction := cross_tx 1000; exec_tx_hash := exec_tx_hash prepared_sample;
       source_prepared := source_prepared prepared_sample;
       destination_validated := destination_validated prepared_sample;
       committed := committed prepared_sample; receipts := receipts prepared_sample |} =
  is_cross_shard_execution_globally_finalized sample_beacon prepared_sample.
Proof.
  apply (receipts_do_not_bind_transaction sample_beacon prepared_sample (cross_tx 1000));
    vm_compute; reflexivity.
Defined.
