(* ===== verification/Notes.v ===== *)
(** * Anonymous notes ([src/privacy/mod.rs], first part)

    The UTXO model, notes and their commitments, viewing hints, and the
    Merkle tree of notes with its membership proofs, related to the reference
    tree of file [Merkle]. *)

From S2P Require Import Prelude Orders Bytes Externals Types Merkle Hash.

(** ** The UTXO model *)

Record UtxoId := { utxo_tx_hash : bytes; output_index : Z }.
Record UtxoInput := { previous_output : UtxoId }.
Record UtxoOutput := { utxo_amount : Z }.
Record UtxoTransaction := {
  utxo_inputs : list UtxoInput;
  utxo_outputs : list UtxoOutput;
  utxo_fee : Z;
}.

Module UtxoModelError.
Inductive t :=
| MissingInputs
| MissingOutputs
| ZeroOutputAmount.
End UtxoModelError.

Definition validate_basic (tx : UtxoTransaction) : outcome UtxoModelError.t unit :=
  if bool_decide (utxo_inputs tx = []) then Err UtxoModelError.MissingInputs
  else if bool_decide (utxo_outputs tx = []) then Err UtxoModelError.MissingOutputs
  else if existsb (fun o => utxo_amount o =? 0) (utxo_outputs tx)
  then Err UtxoModelError.ZeroOutputAmount
  else Ok tt.

Definition input_count (tx : UtxoTransaction) : nat := length (utxo_inputs tx).
Definition output_count (tx : UtxoTransaction) : nat := length (utxo_outputs tx).

(** ** Notes *)

(** [[0u8; 32]] *)
Definition ZERO_32 : bytes := repeat (byte_of 0) 32.

Definition is_array_32 (b : bytes) : Prop := length b = 32%nat.

Record Note := { commitment : bytes }.

#[global] Instance Note_eq_dec : EqDecision Note.
Proof. solve_decision. Defined.

Module NoteError.
Inductive t :=
| ZeroValue
| InvalidRecipientPublicKey
| InvalidBlinding
| InvalidViewingKey.
End NoteError.

(** The bytes hashed for a commitment; the amounts are [u64], the others
    arrays of 32 bytes. *)
Definition commitment_payload (value : Z) (recipient_public_key blinding : bytes) : bytes :=
  le_bytes 8 value ++ recipient_public_key ++ blinding.

Record ViewableNote := {
  note : Note;
  view_hint : bytes;
  note_shard_id : Z;
}.

Record NoteMerkleProof := {
  leaf_index : nat;
  leaf : bytes;
  siblings : list bytes;
}.

Record NoteMerkleTree := { leaves : list bytes }.

Module NoteMerkleTreeError.
Inductive t :=
| LeafIndexOutOfBounds (leaf_index leaf_count : nat).
End NoteMerkleTreeError.

Section notes.
Context `{Sha256}.

Definition compute_commitment (value : Z) (recipient_public_key blinding : bytes) : bytes :=
  sha256 (commitment_payload value recipient_public_key blinding).

Definition Note_new (value : Z) (recipient_public_key blinding : bytes) :
  outcome NoteError.t Note :=
  if value =? 0 then Err NoteError.ZeroValue
  else if bool_decide (recipient_public_key = ZERO_32)
  then Err NoteError.InvalidRecipientPublicKey
  else if bool_decide (blinding = ZERO_32) then Err NoteError.InvalidBlinding
  else Ok {| commitment := compute_commitment value recipient_public_key blinding |}.

Definition compute_viewing_hint (viewing_key : bytes) : option bytes :=
  if bool_decide (viewing_key = ZERO_32) then None
  else Some (sha256 (bytes_of "prims-viewing-key" ++ viewing_key)).

Definition from_note (n : Note) (viewing_key : bytes) (shard_id : Z) :
  outcome NoteError.t ViewableNote :=
  viewing_hint ← ok_or NoteError.InvalidViewingKey (compute_viewing_hint viewing_key);
  Ok {| note := n; view_hint := viewing_hint; note_shard_id := shard_id |}.

Definition ViewableNote_new (value : Z) (recipient_public_key viewing_key blinding : bytes)
    (shard_id : Z) : outcome NoteError.t ViewableNote :=
  n ← Note_new value recipient_public_key blinding;
  from_note n viewing_key shard_id.

Definition is_visible_to (n : ViewableNote) (viewing_key : bytes) : bool :=
  from_option (fun hint => bool_decide (hint = view_hint n)) false
    (compute_viewing_hint viewing_key).

Definition viewable_commitment (n : ViewableNote) : bytes := commitment (note n).

(** ** The Merkle tree of notes *)

Definition NoteMerkleTree_new : NoteMerkleTree := {| leaves := [] |}.

Definition from_notes (notes : list Note) : NoteMerkleTree :=
  {| leaves := commitment <$> notes |}.

Definition from_commitments (l : list bytes) : NoteMerkleTree := {| leaves := l |}.

Definition append (t : NoteMerkleTree) (n : Note) : NoteMerkleTree :=
  {| leaves := leaves t ++ [commitment n] |}.

Definition leaf_count (t : NoteMerkleTree) : nat := length (leaves t).

Definition hash_empty_tree : bytes := sha256 (bytes_of "prims-note-merkle-empty").

Definition hash_leaf (c : bytes) : bytes := sha256 (bytes_of "prims-note-merkle-leaf" ++ c).

Definition hash_internal (left right : bytes) : bytes :=
  sha256 (bytes_of "prims-note-merkle-node" ++ left ++ right).

(** One chunk of [level.chunks(2)]; [pair[0]] exists as no chunk is empty. *)
Definition hash_chunk {E} (pair : list bytes) : outcome E bytes :=
  match pair with
  | [a] => Ok (hash_internal a a)
  | a :: b :: _ => Ok (hash_internal a b)
  | [] => Panic
  end.

Definition build_next_level {E} (level : list bytes) : outcome E (list bytes) :=
  mapM hash_chunk (chunks2 level).

Fixpoint root_loop {E} (fuel : nat) (level : list bytes) : outcome E (list bytes) :=
  if (length level <=? 1)%nat then Ok level
  else
    match fuel with
    | O => Panic
    | S fuel' => build_next_level level ≫= root_loop fuel'
    end.

Definition compute_root_from_leaves {E} (l : list bytes) : outcome E bytes :=
  if bool_decide (l = []) then Ok hash_empty_tree
  else
    level ← root_loop (length l) (hash_leaf <$> l);
    expect (head level).

Definition note_root {E} (t : NoteMerkleTree) : outcome E bytes :=
  compute_root_from_leaves (leaves t).

(** The [while] loop of [generate_proof]; [level[..]] panics out of range. *)
Fixpoint proof_loop {E} (fuel : nat) (index : nat) (level siblings : list bytes) :
  outcome E (list bytes) :=
  if (length level <=? 1)%nat then Ok siblings
  else
    match fuel with
    | O => Panic
    | S fuel' =>
        let sibling_index := if (index mod 2 =? 0)%nat then (index + 1)%nat else (index - 1)%nat in
        sibling ← expect (if (sibling_index <? length level)%nat then level !! sibling_index
                          else level !! index);
        next ← build_next_level level;
        proof_loop fuel' (index / 2) next (siblings ++ [sibling])
    end.

Definition generate_proof (t : NoteMerkleTree) (index : nat) :
  outcome NoteMerkleTreeError.t NoteMerkleProof :=
  if (length (leaves t) <=? index)%nat
  then Err (NoteMerkleTreeError.LeafIndexOutOfBounds index (length (leaves t)))
  else
    path ← proof_loop (length (leaves t)) index (hash_leaf <$> leaves t) [];
    l ← expect (leaves t !! index);
    Ok {| leaf_index := index; leaf := l; siblings := path |}.

(** The loop over the siblings, shared by [verify_proof] and
    [compute_note_merkle_root_from_proof]. *)
Fixpoint climb (hash : bytes) (index : nat) (path : list bytes) : bytes :=
  match path with
  | [] => hash
  | sibling :: path' =>
      climb (if (index mod 2 =? 0)%nat then hash_internal hash sibling
             else hash_internal sibling hash) (index / 2) path'
  end.

Definition compute_note_merkle_root_from_proof (p : NoteMerkleProof) : bytes :=
  climb (hash_leaf (leaf p)) (leaf_index p) (siblings p).

Definition verify_proof (root : bytes) (p : NoteMerkleProof) : bool :=
  bool_decide (climb (hash_leaf (leaf p)) (leaf_index p) (siblings p) = root).
End notes.

(** ** The loops compute the reference tree *)

Section tree_lemmas.
Context `{Sha256}.

Lemma build_next_level_eq {E} l : build_next_level (E := E) l = Ok (next_level hash_internal l).
Proof.
  unfold build_next_level. induction l as [|a|a b l IH] using list_ind2; [done|done|].
  cbn [chunks2 mapM hash_chunk mbind outcome_bind next_level]. by rewrite IH.
Qed.

Lemma root_loop_reduce {E} fuel l :
  (length l <= fuel)%nat -> root_loop (E := E) fuel l = Ok (reduce hash_internal fuel l).
Proof.
  revert l. induction fuel as [|fuel IH]; intros [|a [|b l]] L; try done; try (simpl in L; lia).
  change (build_next_level (a :: b :: l) ≫= root_loop fuel =
          Ok (reduce hash_internal (S fuel) (a :: b :: l)) :> outcome E _).
  rewrite build_next_level_eq, reduce_step. cbn [mbind outcome_bind]. apply IH.
  pose proof (next_level_shrinks_cons hash_internal a b l). simpl in L. lia.
Qed.

(** The root, as a value: the fuel suffices and [level[0]] exists. *)
Definition root_of (l : list bytes) : bytes :=
  default hash_empty_tree (tree_root hash_internal (hash_leaf <$> l)).

Lemma tree_root_root_of l :
  l <> [] -> tree_root hash_internal (hash_leaf <$> l) = Some (root_of l).
Proof.
  intros NE. unfold root_of.
  destruct (tree_root_Some hash_internal (hash_leaf <$> l)) as [r ->]; [|done]. by destruct l.
Qed.

Lemma compute_root_Ok {E} l : compute_root_from_leaves (E := E) l = Ok (root_of l).
Proof.
  unfold compute_root_from_leaves. rewrite bool_decide_decide.
  destruct (decide (l = [])) as [->|NE]; [done|].
  rewrite root_loop_reduce by (by rewrite length_fmap). cbn [mbind outcome_bind].
  pose proof (tree_root_root_of l NE) as R. unfold tree_root in R. rewrite length_fmap in R.
  by rewrite R.
Qed.

Lemma climb_fold_path h i p : climb h i p = fold_path hash_internal h i p.
Proof. revert h i. induction p as [|s p IH]; intros h i; [done|]. apply IH. Qed.

Lemma proof_loop_path {E} fuel i l acc a :
  (length l <= fuel)%nat -> l !! i = Some a -> exists p,
    proof_loop (E := E) fuel i l acc = Ok (acc ++ p) /\ length p = depth hash_internal l /\
    tree_root hash_internal l = Some (fold_path hash_internal a i p).
Proof.
  revert l i a acc. induction fuel as [|fuel IH]; intros [|b [|c l]] i a acc L Li; try done;
    try (simpl in L; lia).
  - exists []. rewrite app_nil_r. destruct i; [|done]. injection Li as ->. done.
  - destruct (sibling_at_step hash_internal _ i a Li) as (s & Es & En).
    pose proof (next_level_shrinks_cons hash_internal b c l) as N. simpl in L.
    destruct (IH (next_level hash_internal (b :: c :: l)) (i / 2)%nat (step_path hash_internal a i s)
      (acc ++ [s])) as (p & Ep & Lp & Rp); [lia|done|].
    exists (s :: p). rewrite tree_root_step, depth_step by (simpl; lia).
    split; [|split; [simpl; by rewrite Lp|done]].
    rewrite <- app_assoc in Ep. unfold sibling_at in Es.
    cbn [proof_loop]. change (length (b :: c :: l) <=? 1)%nat with false. cbv iota.
    cbv zeta in Es |- *. rewrite Es. cbn [expect mbind outcome_bind].
    rewrite build_next_level_eq. cbn [mbind outcome_bind]. exact Ep.
Qed.

Lemma generate_proof_Ok t index :
  (index < leaf_count t)%nat -> exists p, generate_proof t index = Ok p /\
    leaves t !! index = Some (leaf p) /\ leaf_index p = index /\
    verify_proof (root_of (leaves t)) p = true.
Proof.
  unfold generate_proof, leaf_count. intros L.
  destruct (Nat.leb_spec (length (leaves t)) index); [lia|].
  destruct (lookup_lt_is_Some_2 _ _ L) as [a La].
  destruct (proof_loop_path (E := NoteMerkleTreeError.t) (length (leaves t)) index
    (hash_leaf <$> leaves t) [] (hash_leaf a)) as (p & Ep & _ & R).
  { by rewrite length_fmap. }
  { by rewrite list_lookup_fmap, La. }
  rewrite Ep. cbn [mbind outcome_bind]. rewrite La. cbn [expect mbind outcome_bind app].
  assert (leaves t <> []) as NE by (intros Z; rewrite Z in L; simpl in L; lia).
  rewrite tree_root_root_of in R by done. apply (inj Some) in R.
  eexists. split; [reflexivity|]. unfold verify_proof. cbn [leaf leaf_index siblings].
  rewrite climb_fold_path, <- R. split; [done|]. split; [done|]. by apply bool_decide_true.
Qed.

(** ** Collisions *)

(** The three kinds of payload hashed for a tree are told apart by their
    prefixes. *)
Definition leaf_payload (c : bytes) : bytes := bytes_of "prims-note-merkle-leaf" ++ c.
Definition node_payload (q : bytes * bytes) : bytes :=
  bytes_of "prims-note-merkle-node" ++ q.1 ++ q.2.
Definition empty_payload : bytes := bytes_of "prims-note-merkle-empty".

Lemma leaf_payload_inj c d : leaf_payload c = leaf_payload d -> c = d.
Proof. apply app_inv_head. Qed.

Lemma leaf_node_payload c q : leaf_payload c <> node_payload q.
Proof. unfold leaf_payload, node_payload. cbn. discriminate. Qed.

Lemma leaf_empty_payload c : leaf_payload c <> empty_payload.
Proof. unfold leaf_payload, empty_payload. cbn. discriminate. Qed.

Lemma node_empty_payload q : node_payload q <> empty_payload.
Proof. unfold node_payload, empty_payload. cbn. discriminate. Qed.

(** All the payloads hashed for the root of [l] and for the proof [p]. *)
Definition proof_payloads (l : list bytes) (p : NoteMerkleProof) : list bytes :=
  empty_payload :: leaf_payload (leaf p) :: (leaf_payload <$> l) ++
  (node_payload <$> tree_pairs hash_internal (hash_leaf <$> l) ++
     path_pairs hash_internal (hash_leaf (leaf p)) (leaf_index p) (siblings p)).

Lemma node_injective_payloads (S : list (bytes * bytes)) :
  Forall (pair_width 32) S -> collision_free sha256 (node_payload <$> S) ->
  node_injective_on hash_internal S.
Proof.
  intros W C. apply (node_injective_concat sha256 32 (fun a b => node_payload (a, b))); [|done|].
  - intros a b c d A D E. unfold node_payload in E. apply app_inv_head in E. cbn [fst snd] in E.
    apply app_inj_1 in E; [done|congruence].
  - intros [a b] [c d] P Q. apply C; by apply list_elem_of_fmap_2.
Qed.

Context `{!Sha256Ok}.

Lemma leaf_hashes_width l : Forall (fun h => length h = 32%nat) (hash_leaf <$> l).
Proof. apply Forall_fmap, Forall_true. intros. apply sha256_length. Qed.

Lemma hash_internal_width a b : length (hash_internal a b) = 32%nat.
Proof. apply sha256_length. Qed.

(** A proof that reaches the root proves membership. *)
Lemma proof_member l p :
  Forall is_array_32 (siblings p) -> collision_free sha256 (proof_payloads l p) ->
  root_of l = climb (hash_leaf (leaf p)) (leaf_index p) (siblings p) -> leaf p ∈ l.
Proof.
  intros W C R. rewrite climb_fold_path in R.
  set (h := hash_leaf (leaf p)) in *. set (path := path_pairs hash_internal h (leaf_index p) (siblings p)).
  assert (forall q, q ∈ path -> node_payload q ∈ proof_payloads l p) as InPath.
  { intros q Q. unfold proof_payloads. do 2 right. apply elem_of_app. right.
    apply list_elem_of_fmap_2, elem_of_app. by right. }
  assert (forall q, q ∈ tree_pairs hash_internal (hash_leaf <$> l) ->
            node_payload q ∈ proof_payloads l p) as InTree.
  { intros q Q. unfold proof_payloads. do 2 right. apply elem_of_app. right.
    apply list_elem_of_fmap_2, elem_of_app. by left. }
  assert (leaf_payload (leaf p) ∈ proof_payloads l p) as InLeaf by (right; left).
  assert (forall c, c ∈ l -> leaf_payload c ∈ proof_payloads l p) as InLeaves.
  { intros c I. do 2 right. apply elem_of_app. left. by apply list_elem_of_fmap_2. }
  destruct (decide (l = [])) as [->|NE].
  { exfalso. pose proof (fold_path_trace hash_internal h (leaf_index p) (siblings p)) as T.
    rewrite <- R in T. apply trace_cases in T as [E|(q & Q & E & _)].
    - apply C in E; [exact (leaf_empty_payload (leaf p) (eq_sym E))|by left|done].
    - apply C in E; [exact (node_empty_payload q (eq_sym E))|by left|by apply InPath]. }
  pose proof (tree_root_root_of l NE) as T. rewrite R in T.
  destruct (fold_path_member hash_internal (hash_leaf <$> l) h (leaf_index p) (siblings p)) as
    [(v & V & I)|(q & Q & E)]; [|exact T| |].
  - apply node_injective_payloads.
    + apply Forall_app_2.
      * apply tree_pairs_width; [apply hash_internal_width|apply leaf_hashes_width].
      * apply path_pairs_width; [apply hash_internal_width|apply sha256_length|exact W].
    + eapply collision_free_subset; [|exact C]. unfold proof_payloads. set_solver.
  - apply list_elem_of_fmap in I as (c & -> & Ic).
    destruct (trace_cases hash_internal h (leaf_index p) (siblings p) _ V) as [E|(q & Q & E & _)].
    + apply C in E; [|by apply InLeaves|done]. by rewrite <- (leaf_payload_inj _ _ E).
    + apply C in E; [|by apply InLeaves|by apply InPath]. by destruct (leaf_node_payload c q).
  - apply C in E; [|done|by apply InTree]. by destruct (leaf_node_payload (leaf p) q).
Qed.
End tree_lemmas.

(** ** Notes and hints *)

Section note_lemmas.
Context `{Sha256}.

Lemma Note_new_Ok v pk b n :
  Note_new v pk b = Ok n <->
  v <> 0 /\ pk <> ZERO_32 /\ b <> ZERO_32 /\ n = {| commitment := compute_commitment v pk b |}.
Proof.
  unfold Note_new. rewrite !bool_decide_decide.
  destruct (Z.eqb_spec v 0); [naive_solver|].
  destruct (decide (pk = ZERO_32)); [naive_solver|].
  destruct (decide (b = ZERO_32)); [naive_solver|]. naive_solver.
Qed.

Lemma ViewableNote_new_Ok v pk vk b s n :
  ViewableNote_new v pk vk b s = Ok n <->
  v <> 0 /\ pk <> ZERO_32 /\ b <> ZERO_32 /\ vk <> ZERO_32 /\
  n = {| note := {| commitment := compute_commitment v pk b |};
         view_hint := sha256 (bytes_of "prims-viewing-key" ++ vk); note_shard_id := s |}.
Proof.
  unfold ViewableNote_new, from_note, compute_viewing_hint. rewrite bind_Ok. split.
  - intros (m & (V & P & B & ->)%Note_new_Ok & E). rewrite bool_decide_decide in E.
    destruct (decide (vk = ZERO_32)); [discriminate E|]. cbn [ok_or mbind outcome_bind] in E.
    apply (inj Ok) in E as <-. done.
  - intros (V & P & B & K & ->). eexists. split; [by apply Note_new_Ok|].
    rewrite bool_decide_false by done. done.
Qed.

Lemma commitment_payload_inj v v' pk pk' b b' :
  u64 v -> u64 v' -> is_array_32 pk -> is_array_32 pk' ->
  commitment_payload v pk b = commitment_payload v' pk' b' -> v = v' /\ pk = pk' /\ b = b'.
Proof.
  unfold commitment_payload, is_array_32. intros V V' P P' E.
  apply app_inj_1 in E as [Ev E]; [|by rewrite !le_bytes_length].
  apply app_inj_1 in E as [Ep Eb]; [|congruence].
  apply le_bytes_inj in Ev; [done|apply V|apply V'].
Qed.
End note_lemmas.

(** ** Properties *)

(** The basic validation of a UTXO transaction accepts
    exactly those with an input, an output, and no output of zero. *)
Theorem utxo_validate_spec tx :
  validate_basic tx = Ok tt <->
  utxo_inputs tx <> [] /\ utxo_outputs tx <> [] /\
  Forall (fun o => utxo_amount o <> 0) (utxo_outputs tx).
Proof.
  unfold validate_basic. rewrite !bool_decide_decide.
  destruct (decide (utxo_inputs tx = [])); [naive_solver|].
  destruct (decide (utxo_outputs tx = [])); [naive_solver|].
  destruct (existsb (fun o => utxo_amount o =? 0) (utxo_outputs tx)) eqn:E.
  - split; [done|]. intros (_ & _ & F). apply existsb_exists in E as (o & I & Z%Z.eqb_eq).
    exfalso.
    rewrite Forall_forall in F. by apply (F o); [apply list_elem_of_In|].
  - split; [|done]. intros _. split; [done|]. split; [done|]. apply Forall_forall.
    intros o I Z. assert (existsb (fun o => utxo_amount o =? 0) (utxo_outputs tx) = true);
      [|congruence].
    apply existsb_exists. exists o. split; [by apply list_elem_of_In|by apply Z.eqb_eq].
Qed.

(** A note commits to its value, owner and
    blinding: two notes with the same commitment are equal in all three,
    unless their two payloads collide under SHA-256. *)
Theorem note_commitment_binding `{Sha256} v pk b v' pk' b' n :
  u64 v -> u64 v' -> is_array_32 pk -> is_array_32 pk' ->
  collision_free sha256 [commitment_payload v pk b; commitment_payload v' pk' b'] ->
  Note_new v pk b = Ok n -> Note_new v' pk' b' = Ok n -> v = v' /\ pk = pk' /\ b = b'.
Proof.
  intros V V' P P' C (_ & _ & _ & ->)%Note_new_Ok (_ & _ & _ & E)%Note_new_Ok.
  assert (compute_commitment v pk b = compute_commitment v' pk' b') as E' by congruence.
  apply C in E'; [|left|right; left]. by apply commitment_payload_inj in E'.
Qed.

(** A viewing key detects the notes created for it and, up
    to a collision of the hints, no others; the all-zero key detects none. *)
Theorem note_visibility `{Sha256} v pk vk b s n key :
  ViewableNote_new v pk vk b s = Ok n ->
  is_visible_to n vk = true /\ is_visible_to n ZERO_32 = false /\
  (collision_free sha256 [bytes_of "prims-viewing-key" ++ vk; bytes_of "prims-viewing-key" ++ key] ->
   is_visible_to n key = true -> key = vk).
Proof.
  intros (_ & _ & _ & K & ->)%ViewableNote_new_Ok.
  unfold is_visible_to, compute_viewing_hint. cbn [view_hint].
  rewrite (bool_decide_false (vk = ZERO_32)), (bool_decide_true (ZERO_32 = ZERO_32)) by done.
  cbn [from_option]. split; [by apply bool_decide_true|]. split; [done|]. intros C.
  rewrite bool_decide_decide. destruct (decide (key = ZERO_32)); cbn [from_option]; [done|].
  intros E%bool_decide_eq_true. apply C in E; [|right; left|left]. by apply app_inv_head in E.
Qed.

(** Completeness of the note tree: its root always
    exists, every leaf has a membership proof that verifies against the root,
    and an index out of range is refused with its error; no loop runs out of
    fuel, no level is indexed out of range. *)
Theorem note_proof_complete `{Sha256} {E} t index :
  exists root, note_root (E := E) t = Ok root /\
  match generate_proof t index with
  | Ok p => (index < leaf_count t)%nat /\ leaves t !! index = Some (leaf p) /\
            leaf_index p = index /\ verify_proof root p = true /\
            compute_note_merkle_root_from_proof p = root
  | Err (NoteMerkleTreeError.LeafIndexOutOfBounds i n) =>
      i = index /\ n = leaf_count t /\ (n <= i)%nat
  | Panic => False
  end.
Proof.
  exists (root_of (leaves t)). split; [apply compute_root_Ok|].
  destruct (Nat.le_gt_cases (leaf_count t) index) as [L|L].
  - unfold generate_proof. by rewrite (proj2 (Nat.leb_le (length (leaves t)) index) L).
  - destruct (generate_proof_Ok t index L) as (p & -> & La & I & V).
    do 3 (split; [done|]). split; [done|]. by apply bool_decide_eq_true in V.
Qed.

(** Soundness of the note tree: a proof that verifies
    against the root of a tree, whatever its index and the length of its path,
    proves that its leaf is one of the tree's commitments, unless two of the
    payloads hashed for the root and the path collide under SHA-256.  The
    prefixes of leaves, nodes and the empty tree are what makes this hold. *)
Theorem note_proof_sound `{Sha256Ok} {E} t root p :
  Forall is_array_32 (siblings p) -> collision_free sha256 (proof_payloads (leaves t) p) ->
  note_root (E := E) t = Ok root -> verify_proof root p = true -> leaf p ∈ leaves t.
Proof.
  intros W C R V. unfold note_root in R. rewrite compute_root_Ok in R. apply (inj Ok) in R as <-.
  unfold verify_proof in V. apply bool_decide_eq_true in V. by apply proof_member.
Qed.

(** ** Witnesses *)

From S2P Require Import Concrete.
Import Concrete.Instances.

Lemma note_commitment_binding_witness :
  compute_commitment 5 (fill 32 1) (fill 32 2) = compute_commitment 5 (fill 32 1) (fill 32 2) /\
  5 = 5 /\ fill 32 1 = fill 32 1 /\ fill 32 2 = fill 32 2.
Proof.
  split; [reflexivity|].
  assert (u64 5) as U by (split; lia).
  assert (is_array_32 (fill 32 1)) as A by reflexivity.
  refine (note_commitment_binding 5 (fill 32 1) (fill 32 2) 5 (fill 32 1) (fill 32 2)
    {| commitment := compute_commitment 5 (fill 32 1) (fill 32 2) |} U U A A _ _ _).
  - by_eval.
  - apply Note_new_Ok. repeat split; [lia|discriminate|discriminate].
  - apply Note_new_Ok. repeat split; [lia|discriminate|discriminate].
Defined.

Definition sample_view : ViewableNote := {|
  note := {| commitment := compute_commitment 5 (fill 32 1) (fill 32 2) |};
  view_hint := sha256 (bytes_of "prims-viewing-key" ++ fill 32 3); note_shard_id := 0 |}.

Lemma note_visibility_witness :
  is_visible_to sample_view (fill 32 3) = true /\ is_visible_to sample_view ZERO_32 = false.
Proof.
  assert (ViewableNote_new 5 (fill 32 1) (fill 32 3) (fill 32 2) 0 = Ok sample_view) as E.
  { apply ViewableNote_new_Ok. repeat split; [lia|discriminate|discriminate|discriminate]. }
  pose proof (note_visibility 5 (fill 32 1) (fill 32 3) (fill 32 2) 0 sample_view (fill 32 4) E)
    as (V & Z & _).
  split; [exact V|exact Z].
Defined.

Definition sample_tree : NoteMerkleTree := from_commitments [fill 32 1; fill 32 2; fill 32 3].

Definition sample_proof : NoteMerkleProof := {|
  leaf_index := 1; leaf := fill 32 2;
  siblings := [hash_leaf (fill 32 1);
               hash_internal (hash_leaf (fill 32 3)) (hash_leaf (fill 32 3))] |}.

Lemma note_proof_sound_witness : fill 32 2 ∈ [fill 32 1; fill 32 2; fill 32 3].
Proof.
  apply (note_proof_sound (E := False) sample_tree (root_of (leaves sample_tree)) sample_proof).
  - repeat constructor.
  - by_eval.
  - apply compute_root_Ok.
  - vm_compute. reflexivity.
Defined.
