(* ===== verification/ZkTransfer.v ===== *)
(** * Anonymous transfers ([src/privacy/mod.rs], second part)

    The public inputs and witness of an anonymous transfer, the native check
    of their relation, and the reference circuit of the setup.  The circuit
    itself, and the transactions that carry its proofs, are in file
    [Circuit]. *)

From S2P Require Import Prelude Orders Bytes Externals Types Merkle Hash Notes.

(** ** Data *)

Record ZkNoteInputWitness := {
  in_value : Z;
  in_spending_private_key : bytes;
  in_blinding : bytes;
  in_merkle_proof : NoteMerkleProof;
}.

Record ZkNoteOutputWitness := {
  out_value : Z;
  out_recipient_public_key : bytes;
  out_blinding : bytes;
}.

Record ZkTransferPublicInputs := {
  pub_merkle_root : bytes;
  pub_fee : Z;
  output_commitments : list bytes;
}.

Record ZkTransferWitness := {
  wit_inputs : list ZkNoteInputWitness;
  wit_outputs : list ZkNoteOutputWitness;
}.

Module ZkTransferError.
Inductive t :=
| MissingInputs
| MissingOutputs
| OutputCommitmentCountMismatch (expected actual : nat)
| InvalidSpendingPrivateKey (index : Z)
| InvalidInputNote (index : Z)
| InvalidInputCommitment (index : Z)
| InvalidMerkleProof (index : Z)
| InvalidOutputNote (index : Z)
| InvalidOutputCommitment (index : Z)
| AmountOverflow
| AmountImbalance (inputs_total outputs_total fee : Z).
End ZkTransferError.

Record ZkTransferCircuit := {
  circuit_public_inputs : ZkTransferPublicInputs;
  circuit_witness : ZkTransferWitness;
}.

(** ** The native check *)

Section native.
Context `{Sha256}.

Definition derive_note_recipient_public_key (spending_private_key : bytes) : bytes :=
  sha256 (bytes_of "prims-note-owner" ++ spending_private_key).

(** One turn of the loop over the inputs. *)
Definition check_input (pub : ZkTransferPublicInputs) (index total_inputs : Z)
    (input : ZkNoteInputWitness) : outcome ZkTransferError.t Z :=
  if bool_decide (in_spending_private_key input = ZERO_32)
  then Err (ZkTransferError.InvalidSpendingPrivateKey index)
  else
    let recipient_public_key :=
      derive_note_recipient_public_key (in_spending_private_key input) in
    expected_note ← map_err (fun _ => ZkTransferError.InvalidInputNote index)
      (Note_new (in_value input) recipient_public_key (in_blinding input));
    if negb (bool_decide (leaf (in_merkle_proof input) = commitment expected_note))
    then Err (ZkTransferError.InvalidInputCommitment index)
    else
      let derived_root := compute_note_merkle_root_from_proof (in_merkle_proof input) in
      if negb (bool_decide (derived_root = pub_merkle_root pub))
      then Err (ZkTransferError.InvalidMerkleProof index)
      else ok_or ZkTransferError.AmountOverflow (checked 64 (total_inputs + in_value input)).

Fixpoint check_inputs (pub : ZkTransferPublicInputs) (index total_inputs : Z)
    (inputs : list ZkNoteInputWitness) : outcome ZkTransferError.t Z :=
  match inputs with
  | [] => Ok total_inputs
  | input :: inputs' =>
      total ← check_input pub index total_inputs input;
      check_inputs pub (index + 1) total inputs'
  end.

(** One turn of the loop over the outputs; [output_commitments[index]] panics
    out of range. *)
Definition check_output (pub : ZkTransferPublicInputs) (index total_outputs : Z)
    (output : ZkNoteOutputWitness) : outcome ZkTransferError.t Z :=
  expected_note ← map_err (fun _ => ZkTransferError.InvalidOutputNote index)
    (Note_new (out_value output) (out_recipient_public_key output) (out_blinding output));
  public_commitment ← expect (output_commitments pub !! Z.to_nat index);
  if negb (bool_decide (public_commitment = commitment expected_note))
  then Err (ZkTransferError.InvalidOutputCommitment index)
  else ok_or ZkTransferError.AmountOverflow (checked 64 (total_outputs + out_value output)).

Fixpoint check_outputs (pub : ZkTransferPublicInputs) (index total_outputs : Z)
    (outputs : list ZkNoteOutputWitness) : outcome ZkTransferError.t Z :=
  match outputs with
  | [] => Ok total_outputs
  | output :: outputs' =>
      total ← check_output pub index total_outputs output;
      check_outputs pub (index + 1) total outputs'
  end.

Definition verify_zk_transfer_public_inputs (pub : ZkTransferPublicInputs)
    (witness : ZkTransferWitness) : outcome ZkTransferError.t unit :=
  if bool_decide (wit_inputs witness = []) then Err ZkTransferError.MissingInputs
  else if bool_decide (wit_outputs witness = []) then Err ZkTransferError.MissingOutputs
  else if negb (length (wit_outputs witness) =? length (output_commitments pub))%nat
  then Err (ZkTransferError.OutputCommitmentCountMismatch
              (length (wit_outputs witness)) (length (output_commitments pub)))
  else
    total_inputs ← check_inputs pub 0 0 (wit_inputs witness);
    total_outputs ← check_outputs pub 0 0 (wit_outputs witness);
    expected_inputs_total ←
      ok_or ZkTransferError.AmountOverflow (checked 64 (total_outputs + pub_fee pub));
    if negb (total_inputs =? expected_inputs_total)
    then Err (ZkTransferError.AmountImbalance total_inputs total_outputs (pub_fee pub))
    else Ok tt.

End native.

(** ** The reference circuit of the setup *)

Record ZkTransferSetupCircuitMetadata := {
  meta_input_count : nat;
  meta_output_count : nat;
  merkle_path_len : nat;
  tree_leaf_count : nat;
  meta_fee : Z;
}.
Module ZkTransferSetupError.
Inductive t :=
| InvalidReferenceInputNote
| InvalidReferenceFillerNote
| InvalidReferenceMerkleProof.
End ZkTransferSetupError.

(** [[b; 32]] *)
Definition array_32 (b : Z) : bytes := repeat (byte_of b) 32.

Definition build_reference_zk_transfer_setup_circuit `{Sha256} :
  outcome ZkTransferSetupError.t (ZkTransferCircuit * ZkTransferSetupCircuitMetadata) :=
  let owner_private_key := array_32 21 in
  let owner_public_key := derive_note_recipient_public_key owner_private_key in
  input_note ← map_err (fun _ => ZkTransferSetupError.InvalidReferenceInputNote)
                 (Note_new 70 owner_public_key (array_32 31));
  filler_note ← map_err (fun _ => ZkTransferSetupError.InvalidReferenceFillerNote)
                  (Note_new 5 (array_32 22) (array_32 32));
  let tree := from_notes [input_note; filler_note] in
  merkle_proof ← map_err (fun _ => ZkTransferSetupError.InvalidReferenceMerkleProof)
                   (generate_proof tree 0);
  let outputs :=
    [{| out_value := 40; out_recipient_public_key := array_32 41; out_blinding := array_32 51 |};
     {| out_value := 25; out_recipient_public_key := array_32 42; out_blinding := array_32 52 |}] in
  let commitments := (fun o => compute_commitment (out_value o) (out_recipient_public_key o)
                                 (out_blinding o)) <$> outputs in
  root ← note_root tree;
  let metadata := {|
    meta_input_count := 1; meta_output_count := length outputs;
    merkle_path_len := length (siblings merkle_proof); tree_leaf_count := 2; meta_fee := 5 |} in
  Ok ({| circuit_public_inputs := {|
           pub_merkle_root := root; pub_fee := meta_fee metadata;
           output_commitments := commitments |};
         circuit_witness := {|
           wit_inputs := [{| in_value := 70; in_spending_private_key := owner_private_key;
                             in_blinding := array_32 31; in_merkle_proof := merkle_proof |}];
           wit_outputs := outputs |} |}, metadata).

(** ** The relation of a transfer *)

(** An input is well formed for a root: its key opens the leaf of a path that
    leads to the root. *)
Record input_ok `{Sha256} (root : bytes) (i : ZkNoteInputWitness) : Prop := {
  input_key : in_spending_private_key i <> ZERO_32;
  input_note : Note_new (in_value i)
    (derive_note_recipient_public_key (in_spending_private_key i)) (in_blinding i) =
    Ok {| commitment := leaf (in_merkle_proof i) |};
  input_root : compute_note_merkle_root_from_proof (in_merkle_proof i) = root;
}.

Definition output_ok `{Sha256} (o : ZkNoteOutputWitness) (c : bytes) : Prop :=
  Note_new (out_value o) (out_recipient_public_key o) (out_blinding o) = Ok {| commitment := c |}.

Definition inputs_total (w : ZkTransferWitness) : Z := sumZ in_value (wit_inputs w).
Definition outputs_total (w : ZkTransferWitness) : Z := sumZ out_value (wit_outputs w).

(** What a transfer must satisfy; the amounts are exact. *)
Record transfer_ok `{Sha256} (pub : ZkTransferPublicInputs) (w : ZkTransferWitness) : Prop := {
  tr_inputs : wit_inputs w <> [] /\ Forall (input_ok (pub_merkle_root pub)) (wit_inputs w);
  tr_outputs : wit_outputs w <> [] /\ Forall2 output_ok (wit_outputs w) (output_commitments pub);
  tr_balance : inputs_total w = outputs_total w + pub_fee pub;
  tr_range : inputs_total w < 2 ^ 64;
}.

Section relation.
Context `{Sha256} (pub : ZkTransferPublicInputs).

Lemma Note_new_commitment v pk b n c :
  Note_new v pk b = Ok n -> c = commitment n -> Note_new v pk b = Ok {| commitment := c |}.
Proof. intros E ->. by destruct n. Qed.

Lemma check_input_Ok index t i r :
  check_input pub index t i = Ok r <->
  input_ok (pub_merkle_root pub) i /\ r = t + in_value i /\ 0 <= r < 2 ^ 64.
Proof.
  unfold check_input. rewrite bool_decide_decide.
  destruct (decide (in_spending_private_key i = ZERO_32)) as [Z|K].
  { split; [done|]. by intros ([N _ _] & _). }
  destruct (Note_new (in_value i) _ (in_blinding i)) as [n|e|] eqn:N; cbn [map_err mbind outcome_bind].
  2,3: split; [done|]; intros ([_ N' _] & _); rewrite N in N'; discriminate N'.
  rewrite !bool_decide_decide.
  destruct (decide (leaf (in_merkle_proof i) = commitment n)) as [L|L]; cbn [negb].
  2: { split; [done|]. intros ([_ N' _] & _). rewrite N in N'. apply (inj Ok) in N'. by subst n. }
  destruct (decide (compute_note_merkle_root_from_proof (in_merkle_proof i) = pub_merkle_root pub))
    as [R|R]; cbn [negb].
  2: { split; [done|]. by intros ([_ _ R'] & _). }
  rewrite ok_or_Ok, checked_Some. split.
  - intros [-> B]. split; [|done]. split; [done| |done]. by eapply Note_new_commitment.
  - by intros (_ & -> & B).
Qed.

Lemma check_inputs_Ok index t l r :
  0 <= t < 2 ^ 64 -> Forall (fun i => 0 <= in_value i) l ->
  check_inputs pub index t l = Ok r <->
  Forall (input_ok (pub_merkle_root pub)) l /\ r = t + sumZ in_value l /\ r < 2 ^ 64.
Proof.
  intros T F. revert index t T. induction F as [|i l Vi F IH]; intros index t T.
  { cbn [check_inputs]. unfold sumZ. simpl. split; [intros [= <-]; split; [done|lia]|].
    intros (_ & -> & _). f_equal. lia. }
  pose proof (sumZ_nonneg in_value l F) as P. cbn [check_inputs].
  rewrite bind_Ok, Forall_cons, sumZ_cons. split.
  - intros (x & (I & -> & B)%check_input_Ok & E). apply IH in E as (Is & -> & R); [|lia].
    split; [done|lia].
  - intros ((I & Is) & -> & R). exists (t + in_value i). split.
    + apply check_input_Ok. split; [done|]. lia.
    + apply IH; [lia|]. split; [done|lia].
Qed.

Lemma check_output_Ok index t o r c :
  output_commitments pub !! Z.to_nat index = Some c ->
  check_output pub index t o = Ok r <->
  output_ok o c /\ r = t + out_value o /\ 0 <= r < 2 ^ 64.
Proof.
  intros L. unfold check_output, output_ok. rewrite L.
  destruct (Note_new (out_value o) _ (out_blinding o)) as [n|e|] eqn:N;
    cbn [map_err expect mbind outcome_bind]; [|naive_solver..].
  rewrite bool_decide_decide. destruct (decide (c = commitment n)) as [->|D]; cbn [negb].
  - rewrite ok_or_Ok, checked_Some. destruct n. naive_solver.
  - split; [done|]. intros (E & _). apply (inj Ok) in E. by subst n.
Qed.

Lemma check_outputs_Ok index t l r pre cs :
  0 <= t < 2 ^ 64 -> Forall (fun o => 0 <= out_value o) l ->
  output_commitments pub = pre ++ cs -> index = Z.of_nat (length pre) -> length l = length cs ->
  check_outputs pub index t l = Ok r <->
  Forall2 output_ok l cs /\ r = t + sumZ out_value l /\ r < 2 ^ 64.
Proof.
  intros T F. revert index t pre cs T.
  induction F as [|o l Vo F IH]; intros index t pre cs T E -> L.
  { destruct cs; [|done]. cbn [check_outputs]. unfold sumZ. simpl.
    split; [intros [= <-]; split; [constructor|lia]|]. intros (_ & -> & _). f_equal. lia. }
  destruct cs as [|c cs]; [done|]. injection L as L.
  pose proof (sumZ_nonneg out_value l F) as P. cbn [check_outputs].
  assert (output_commitments pub !! Z.to_nat (Z.of_nat (length pre)) = Some c) as Lc.
  { rewrite Nat2Z.id, E. by apply list_lookup_middle. }
  assert (output_commitments pub = (pre ++ [c]) ++ cs) as E' by (by rewrite <- app_assoc).
  assert (Z.of_nat (length pre) + 1 = Z.of_nat (length (pre ++ [c]))) as I
    by (rewrite length_app; simpl; lia).
  rewrite bind_Ok, Forall2_cons, sumZ_cons. split.
  - intros (x & (O & -> & B)%(check_output_Ok _ _ _ _ c Lc) & Ec).
    apply (IH _ (t + out_value o) _ _ ltac:(lia) E' I L) in Ec as (Os & -> & R). split; [done|lia].
  - intros ((O & Os) & -> & R). exists (t + out_value o). split.
    + apply (check_output_Ok _ _ _ _ c Lc). split; [done|]. lia.
    + apply (IH _ (t + out_value o) _ _ ltac:(lia) E' I L). split; [done|lia].
Qed.

(** The amounts are unsigned. *)
Definition amounts_ok (w : ZkTransferWitness) : Prop :=
  Forall (fun i => 0 <= in_value i) (wit_inputs w) /\
  Forall (fun o => 0 <= out_value o) (wit_outputs w) /\ 0 <= pub_fee pub.

Lemma verify_transfer_Ok w :
  amounts_ok w -> verify_zk_transfer_public_inputs pub w = Ok tt <-> transfer_ok pub w.
Proof.
  intros (Fi & Fo & Ff). unfold verify_zk_transfer_public_inputs. rewrite !bool_decide_decide.
  pose proof (sumZ_nonneg _ _ Fo) as Po.
  destruct (decide (wit_inputs w = [])) as [Zi|Zi]; [split; [done|by intros [[? _] _ _ _]]|].
  destruct (decide (wit_outputs w = [])) as [Zo|Zo]; [split; [done|by intros [_ [? _] _ _]]|].
  destruct (Nat.eqb_spec (length (wit_outputs w)) (length (output_commitments pub))) as [L|L];
    cbn [negb]; [|split; [done|intros [_ [_ F2] _ _]; by apply Forall2_length in F2]].
  pose proof (check_inputs_Ok 0 0 (wit_inputs w)) as Ci.
  pose proof (fun r => check_outputs_Ok 0 0 (wit_outputs w) r [] (output_commitments pub)
    ltac:(lia) Fo eq_refl eq_refl L) as Co.
  split.
  - intros E. apply bind_Ok in E as (ti & (Is & -> & Ri)%Ci & E); [|lia|done].
    apply bind_Ok in E as (tot & (Os & -> & Ro)%Co & E). apply bind_Ok in E as (x & C & E).
    apply ok_or_Ok, checked_Some in C as [-> C].
    destruct (Z.eqb_spec (0 + sumZ in_value (wit_inputs w))
      (0 + sumZ out_value (wit_outputs w) + pub_fee pub)) as [B|B]; [|discriminate E].
    split; [done|done|unfold inputs_total, outputs_total; lia|unfold inputs_total; lia].
  - intros [[_ Is] [_ Os] B R]. unfold inputs_total, outputs_total in *.
    apply bind_Ok. exists (sumZ in_value (wit_inputs w)). split; [apply Ci; [lia|done|done]|].
    apply bind_Ok. exists (sumZ out_value (wit_outputs w)). split; [apply Co; split; [done|lia]|].
    apply bind_Ok. exists (sumZ out_value (wit_outputs w) + pub_fee pub). split.
    + apply ok_or_Ok, checked_Some. split; [done|lia].
    + by rewrite B, Z.eqb_refl.
Qed.
End relation.

(** ** Properties *)

(** [C16] The native check accepts exactly the sound transfers:
    at least one input and one output, every input opened by a non-zero key
    whose note is the leaf of a path to the public root, every output opening
    its public commitment, no note of zero value, and the amounts, as exact
    integers below 2^64, balanced by the fee. *)
Theorem zk_transfer_spec `{Sha256} pub w :
  Forall (fun i => 0 <= in_value i) (wit_inputs w) ->
  Forall (fun o => 0 <= out_value o) (wit_outputs w) -> 0 <= pub_fee pub ->
  verify_zk_transfer_public_inputs pub w = Ok tt <->
  (wit_inputs w <> [] /\ Forall (input_ok (pub_merkle_root pub)) (wit_inputs w)) /\
  (wit_outputs w <> [] /\ Forall2 output_ok (wit_outputs w) (output_commitments pub)) /\
  sumZ in_value (wit_inputs w) = sumZ out_value (wit_outputs w) + pub_fee pub /\
  sumZ in_value (wit_inputs w) < 2 ^ 64.
Proof.
  intros Fi Fo Ff. rewrite verify_transfer_Ok by done.
  split; [by intros []|]. by intros (? & ? & ? & ?).
Qed.

(** [C21] An accepted transfer against the root of a
    note tree spends notes of that tree: the commitment of every input is one
    of the tree's leaves, up to a collision of the payloads hashed. *)
Theorem transfer_spends_tree_notes `{Sha256Ok} {E} tree root pub w :
  Forall (fun i => 0 <= in_value i) (wit_inputs w) ->
  Forall (fun o => 0 <= out_value o) (wit_outputs w) -> 0 <= pub_fee pub ->
  note_root (E := E) tree = Ok root -> pub_merkle_root pub = root ->
  Forall (fun i => Forall is_array_32 (siblings (in_merkle_proof i)) /\
    collision_free sha256 (proof_payloads (leaves tree) (in_merkle_proof i))) (wit_inputs w) ->
  verify_zk_transfer_public_inputs pub w = Ok tt ->
  Forall (fun i => compute_commitment (in_value i)
    (derive_note_recipient_public_key (in_spending_private_key i)) (in_blinding i)
    ∈ leaves tree) (wit_inputs w).
Proof.
  intros Fi Fo Ff R <- C V. apply verify_transfer_Ok in V as [[_ Is] _ _ _]; [|done].
  unfold note_root in R. rewrite compute_root_Ok in R. apply (inj Ok) in R.
  apply Forall_forall. intros i I. rewrite Forall_forall in Is, C.
  destruct (Is i I) as [_ N Ri]. destruct (C i I) as [W Ci].
  apply Note_new_Ok in N as (_ & _ & _ & N).
  assert (leaf (in_merkle_proof i) = compute_commitment (in_value i)
    (derive_note_recipient_public_key (in_spending_private_key i)) (in_blinding i)) as <-
    by congruence.
  apply proof_member; [done|done|]. by rewrite R, <- Ri.
Qed.

(** What the check does not forbid: an input may
    be listed twice.  If a note alone is accepted as the input of a transfer,
    the same note twice is accepted as the inputs of a transfer of twice its
    value. *)
Theorem duplicate_input_accepted `{Sha256} pub w i outputs commitments :
  Forall (fun i => 0 <= in_value i) (wit_inputs w) ->
  Forall (fun o => 0 <= out_value o) (wit_outputs w) -> 0 <= pub_fee pub ->
  verify_zk_transfer_public_inputs pub w = Ok tt -> wit_inputs w = [i] ->
  Forall (fun o => 0 <= out_value o) outputs -> outputs <> [] ->
  Forall2 output_ok outputs commitments ->
  sumZ out_value outputs + pub_fee pub = 2 * in_value i -> 2 * in_value i < 2 ^ 64 ->
  verify_zk_transfer_public_inputs
    {| pub_merkle_root := pub_merkle_root pub; pub_fee := pub_fee pub;
       output_commitments := commitments |}
    {| wit_inputs := [i; i]; wit_outputs := outputs |} = Ok tt.
Proof.
  intros Fi Fo Ff V Ei Fo' NE Os B R. apply verify_transfer_Ok in V as [[_ Is] _ _ _]; [|done].
  rewrite Ei in Fi, Is. apply Forall_cons in Fi as [Vi _]. apply Forall_cons in Is as [I _].
  apply verify_transfer_Ok.
  - split; [by repeat constructor|]. split; done.
  - split; cbn [wit_inputs wit_outputs pub_merkle_root output_commitments pub_fee].
    + split; [done|]. apply Forall_cons_2; [exact I|]. apply Forall_cons_2; [exact I|].
      apply Forall_nil_2.
    + done.
    + unfold inputs_total, outputs_total. cbn [wit_inputs wit_outputs]. unfold sumZ at 1. simpl. lia.
    + unfold inputs_total. cbn [wit_inputs]. unfold sumZ. simpl. lia.
Qed.

(** The reference circuit the parameters are generated
    from is valid: it is always built, satisfies the native check, and its
    metadata are the sizes of its parts. *)
Theorem setup_circuit_valid `{Sha256} :
  derive_note_recipient_public_key (array_32 21) <> ZERO_32 -> exists c meta,
    build_reference_zk_transfer_setup_circuit = Ok (c, meta) /\
    verify_zk_transfer_public_inputs (circuit_public_inputs c) (circuit_witness c) = Ok tt /\
    meta_input_count meta = length (wit_inputs (circuit_witness c)) /\
    meta_output_count meta = length (wit_outputs (circuit_witness c)) /\
    Forall (fun i => merkle_path_len meta = length (siblings (in_merkle_proof i)))
      (wit_inputs (circuit_witness c)) /\
    meta_fee meta = pub_fee (circuit_public_inputs c).
Proof.
  intros K. unfold build_reference_zk_transfer_setup_circuit.
  set (owner := derive_note_recipient_public_key (array_32 21)) in *.
  assert (forall v pk b, v <> 0 -> pk <> ZERO_32 -> b <> ZERO_32 ->
    Note_new v pk b = Ok {| commitment := compute_commitment v pk b |}) as N
    by (intros; by apply Note_new_Ok).
  rewrite (N 70 owner) by (done || discriminate).
  rewrite (N 5 (array_32 22)) by (done || discriminate).
  cbn [map_err mbind outcome_bind].
  set (c1 := compute_commitment 70 owner (array_32 31)).
  set (c2 := compute_commitment 5 (array_32 22) (array_32 32)).
  change (from_notes [{| commitment := c1 |}; {| commitment := c2 |}]) with
    (from_commitments [c1; c2]).
  assert (generate_proof (from_commitments [c1; c2]) 0 =
    Ok {| leaf_index := 0; leaf := c1; siblings := [hash_leaf c2] |}) as -> by reflexivity.
  assert (note_root (E := ZkTransferSetupError.t) (from_commitments [c1; c2]) =
    Ok (hash_internal (hash_leaf c1) (hash_leaf c2))) as -> by reflexivity.
  cbn [map_err mbind outcome_bind]. eexists _, _. split; [reflexivity|].
  cbn [circuit_public_inputs circuit_witness pub_fee]. split; [|by repeat constructor].
  apply verify_transfer_Ok; [split; [by repeat constructor|]; split; [by repeat constructor|done]|].
  split; cbn [wit_inputs wit_outputs pub_merkle_root output_commitments pub_fee]; [| |done|done].
  - split; [done|]. apply Forall_cons_2; [|apply Forall_nil_2]. split.
    + discriminate.
    + apply N; [done|done|discriminate].
    + reflexivity.
  - split; [done|]. cbn [fmap list_fmap].
    apply Forall2_cons_2; [|apply Forall2_cons_2; [|apply Forall2_nil_2]];
      apply N; done || discriminate.
Qed.

(** ** Witnesses *)

From S2P Require Import Concrete.
Import Concrete.Instances.

(** The circuit and metadata of the setup, evaluated. *)
Definition sample_circuit : ZkTransferCircuit :=
  match build_reference_zk_transfer_setup_circuit with
  | Ok (c, _) => c
  | _ => {| circuit_public_inputs := {| pub_merkle_root := []; pub_fee := 0;
                                        output_commitments := [] |};
            circuit_witness := {| wit_inputs := []; wit_outputs := [] |} |}
  end.

Definition sample_public : ZkTransferPublicInputs := circuit_public_inputs sample_circuit.
Definition sample_witness : ZkTransferWitness := circuit_witness sample_circuit.

Lemma sample_amounts :
  Forall (fun i => 0 <= in_value i) (wit_inputs sample_witness) /\
  Forall (fun o => 0 <= out_value o) (wit_outputs sample_witness) /\ 0 <= pub_fee sample_public.
Proof. by_eval. Qed.

Lemma sample_verified :
  verify_zk_transfer_public_inputs sample_public sample_witness = Ok tt.
Proof. vm_compute. reflexivity. Qed.

Lemma setup_circuit_valid_witness : exists c meta,
  build_reference_zk_transfer_setup_circuit = Ok (c, meta) /\
  verify_zk_transfer_public_inputs (circuit_public_inputs c) (circuit_witness c) = Ok tt.
Proof.
  destruct setup_circuit_valid as (c & meta & E & V & _); [by_eval|].
  exists c, meta. split; [exact E|exact V].
Defined.

Lemma zk_transfer_spec_witness :
  sumZ in_value (wit_inputs sample_witness) =
  sumZ out_value (wit_outputs sample_witness) + pub_fee sample_public.
Proof.
  destruct sample_amounts as (Fi & Fo & Ff).
  exact (proj1 (proj2 (proj2 (proj1 (zk_transfer_spec sample_public sample_witness Fi Fo Ff)
    sample_verified)))).
Defined.

Definition sample_note_tree : NoteMerkleTree :=
  from_commitments
    [compute_commitment 70 (derive_note_recipient_public_key (array_32 21)) (array_32 31);
     compute_commitment 5 (array_32 22) (array_32 32)].

Lemma transfer_spends_tree_notes_witness :
  Forall (fun i => compute_commitment (in_value i)
    (derive_note_recipient_public_key (in_spending_private_key i)) (in_blinding i)
    ∈ leaves sample_note_tree) (wit_inputs sample_witness).
Proof.
  destruct sample_amounts as (Fi & Fo & Ff).
  apply (transfer_spends_tree_notes (E := False) sample_note_tree
    (root_of (leaves sample_note_tree)) sample_public sample_witness Fi Fo Ff).
  - apply compute_root_Ok.
  - vm_compute. reflexivity.
  - by_eval.
  - exact sample_verified.
Defined.

Definition double_outputs : list ZkNoteOutputWitness :=
  [{| out_value := 135; out_recipient_public_key := array_32 41; out_blinding := array_32 51 |}].

Lemma duplicate_input_accepted_witness : exists pub i,
  verify_zk_transfer_public_inputs pub {| wit_inputs := [i; i]; wit_outputs := double_outputs |} =
  Ok tt.
Proof.
  destruct sample_amounts as (Fi & Fo & Ff).
  eexists _, _. eapply (duplicate_input_accepted sample_public sample_witness _ double_outputs
    [compute_commitment 135 (array_32 41) (array_32 51)] Fi Fo Ff sample_verified).
  - vm_compute. reflexivity.
  - repeat constructor; discriminate.
  - discriminate.
  - apply Forall2_cons_2; [|apply Forall2_nil_2].
    apply Note_new_Ok. repeat split; discriminate.
  - vm_compute. reflexivity.
  - vm_compute. reflexivity.
Defined.
