(* ===== verification/Conversion.v ===== *)
(** * Conversions between public and anonymous funds
    ([src/privacy/conversion.rs])

    Turning public balance into a note and back, with the account's list of
    tracked commitments and the tree of all notes. *)

From S2P Require Import Prelude Orders Bytes Externals Types Merkle Hash Notes ZkTransfer.

Record PublicToAnonRequest := {
  p2a_amount : Z;
  p2a_recipient_public_key : bytes;
  p2a_viewing_key : bytes;
  p2a_blinding : bytes;
  p2a_shard_id : Z;
}.

Record AnonToPublicRequest := {
  a2p_amount : Z;
  a2p_spending_private_key : bytes;
  a2p_blinding : bytes;
  a2p_merkle_proof : NoteMerkleProof;
  a2p_shard_id : option Z;
}.

Record PublicToAnonConversion := {
  p2a_account : Account;
  p2a_viewable_note : ViewableNote;
  p2a_merkle_root : bytes;
}.

Record AnonToPublicConversion := {
  a2p_account : Account;
  consumed_commitment : bytes;
  a2p_merkle_root : bytes;
}.

Module ConversionError.
Inductive t :=
| ZeroAmount
| InsufficientPublicBalance (balance required : Z)
| ViewingHintMismatch
| InvalidCreatedNote (message : string)
| InvalidConsumedNote (message : string)
| InvalidOwnershipProof
| InvalidMerkleProof
| MissingTrackedCommitment
| MissingTreeCommitment
| BalanceOverflow.
End ConversionError.

(** The [Display] of [NoteError]. *)
Definition note_error_to_string (e : NoteError.t) : string :=
  match e with
  | NoteError.ZeroValue => "note value must be strictly positive"
  | NoteError.InvalidRecipientPublicKey => "note recipient public key must not be all zeros"
  | NoteError.InvalidBlinding => "note blinding factor must not be all zeros"
  | NoteError.InvalidViewingKey => "note viewing key must not be all zeros"
  end.

(** The account with another balance and anonymous state. *)
Definition with_funds (a : Account) (balance : Z) (s : AnonymousAccountState) : Account := {|
  acct_balance := balance; acct_nonce := acct_nonce a; acct_code_hash := acct_code_hash a;
  acct_anonymous_state := s |}.

Definition convert_public_to_anon `{Sha256, Profile} (account : Account)
    (request : PublicToAnonRequest) (existing_commitments : list bytes) :
  outcome ConversionError.t PublicToAnonConversion :=
  if p2a_amount request =? 0 then Err ConversionError.ZeroAmount
  else if acct_balance account <? p2a_amount request
  then Err (ConversionError.InsufficientPublicBalance (acct_balance account)
              (p2a_amount request))
  else
    viewable_note ← map_err (fun e => ConversionError.InvalidCreatedNote (note_error_to_string e))
      (ViewableNote_new (p2a_amount request) (p2a_recipient_public_key request)
         (p2a_viewing_key request) (p2a_blinding request) (p2a_shard_id request));
    let expected_hint := view_hint viewable_note in
    let state := acct_anonymous_state account in
    if match viewing_hint state with
       | Some current_hint => negb (bool_decide (current_hint = expected_hint))
       | None => false
       end
    then Err ConversionError.ViewingHintMismatch
    else
      balance ← arith 64 (acct_balance account - p2a_amount request);
      root ← note_root (from_commitments
                          (existing_commitments ++ [viewable_commitment viewable_note]));
      Ok {| p2a_account := with_funds account balance {|
              viewing_hint := Some expected_hint;
              note_commitments :=
                note_commitments state ++ [viewable_commitment viewable_note] |};
            p2a_viewable_note := viewable_note;
            p2a_merkle_root := root |}.

Definition convert_anon_to_public `{Sha256} (account : Account) (request : AnonToPublicRequest)
    (current_commitments : list bytes) : outcome ConversionError.t AnonToPublicConversion :=
  if a2p_amount request =? 0 then Err ConversionError.ZeroAmount
  else
    let recipient_public_key :=
      derive_note_recipient_public_key (a2p_spending_private_key request) in
    n ← map_err (fun e => ConversionError.InvalidConsumedNote (note_error_to_string e))
          (Note_new (a2p_amount request) recipient_public_key (a2p_blinding request));
    let c := commitment n in
    if negb (bool_decide (leaf (a2p_merkle_proof request) = c))
    then Err ConversionError.InvalidOwnershipProof
    else
      current_root ← note_root (from_commitments current_commitments);
      if negb (verify_proof current_root (a2p_merkle_proof request))
      then Err ConversionError.InvalidMerkleProof
      else
        let state := acct_anonymous_state account in
        tracked_index ← ok_or ConversionError.MissingTrackedCommitment
          (position (fun stored => bool_decide (stored = c)) (note_commitments state));
        tree_index ← ok_or ConversionError.MissingTreeCommitment
          (position (fun stored => bool_decide (stored = c)) current_commitments);
        balance ← ok_or ConversionError.BalanceOverflow
          (checked 64 (acct_balance account + a2p_amount request));
        let tracked := delete tracked_index (note_commitments state) in
        let hint := if bool_decide (tracked = []) then None else viewing_hint state in
        root ← note_root (from_commitments (delete tree_index current_commitments));
        Ok {| a2p_account := with_funds account balance {|
                viewing_hint := hint; note_commitments := tracked |};
              consumed_commitment := c;
              a2p_merkle_root := root |}.

(** ** Lemmas *)

Section lemmas.
Context `{Sha256}.

Lemma note_root_Ok {E} l : note_root (E := E) (from_commitments l) = Ok (root_of l).
Proof. apply compute_root_Ok. Qed.

Lemma position_eq (c : bytes) l i :
  position (fun stored => bool_decide (stored = c)) l = Some i -> l !! i = Some c.
Proof.
  intros P. apply position_Some in P as (x & L & E). apply bool_decide_eq_true in E. by subst.
Qed.

Lemma position_exists (c : bytes) l :
  c ∈ l -> exists i, position (fun stored => bool_decide (stored = c)) l = Some i.
Proof.
  intros I. destruct (position _ l) as [i|] eqn:P; [by exists i|].
  apply position_None in P. rewrite Forall_forall in P. specialize (P c I).
  by apply bool_decide_eq_false in P.
Qed.

Lemma position_fresh (c : bytes) l :
  c ∉ l -> position (fun stored => bool_decide (stored = c)) (l ++ [c]) = Some (length l).
Proof.
  induction l as [|x l IH]; intros N; simpl; [by rewrite bool_decide_true|].
  apply not_elem_of_cons in N as [Nx N]. rewrite bool_decide_false by done.
  by rewrite (IH N).
Qed.

(** The commitment the request opens. *)
Definition a2p_commitment (r : AnonToPublicRequest) : bytes :=
  compute_commitment (a2p_amount r)
    (derive_note_recipient_public_key (a2p_spending_private_key r)) (a2p_blinding r).

Lemma convert_anon_to_public_Ok account r current conv :
  convert_anon_to_public account r current = Ok conv <->
  a2p_amount r <> 0 /\
  derive_note_recipient_public_key (a2p_spending_private_key r) <> ZERO_32 /\
  a2p_blinding r <> ZERO_32 /\
  leaf (a2p_merkle_proof r) = a2p_commitment r /\
  verify_proof (root_of current) (a2p_merkle_proof r) = true /\
  0 <= acct_balance account + a2p_amount r < 2 ^ 64 /\
  exists i j,
    position (fun s => bool_decide (s = a2p_commitment r))
      (note_commitments (acct_anonymous_state account)) = Some i /\
    position (fun s => bool_decide (s = a2p_commitment r)) current = Some j /\
    let tracked := delete i (note_commitments (acct_anonymous_state account)) in
    conv = {| a2p_account := with_funds account (acct_balance account + a2p_amount r) {|
                viewing_hint := if bool_decide (tracked = []) then None
                                else viewing_hint (acct_anonymous_state account);
                note_commitments := tracked |};
              consumed_commitment := a2p_commitment r;
              a2p_merkle_root := root_of (delete j current) |}.
Proof.
  unfold convert_anon_to_public. split.
  - destruct (Z.eqb_spec (a2p_amount r) 0) as [|A]; [done|]. intros E.
    apply bind_Ok in E as (n & N & E). apply map_err_Ok, Note_new_Ok in N as (_ & K & B & ->).
    cbn [commitment] in E. fold (a2p_commitment r) in E.
    destruct (bool_decide (leaf (a2p_merkle_proof r) = a2p_commitment r)) eqn:L; [|discriminate E].
    apply bool_decide_eq_true in L. cbn [negb] in E. rewrite note_root_Ok in E.
    cbn [mbind outcome_bind] in E.
    destruct (verify_proof (root_of current) (a2p_merkle_proof r)) eqn:V; [|discriminate E].
    cbn [negb] in E. apply bind_Ok in E as (i & Pi & E). apply ok_or_Ok in Pi.
    apply bind_Ok in E as (j & Pj & E). apply ok_or_Ok in Pj.
    apply bind_Ok in E as (x & C & E). apply ok_or_Ok, checked_Some in C as [-> C].
    rewrite note_root_Ok in E. apply (inj Ok) in E as <-.
    do 6 (split; [done|]). by exists i, j.
  - intros (A & K & B & L & V & C & i & j & Pi & Pj & ->).
    destruct (Z.eqb_spec (a2p_amount r) 0); [done|].
    rewrite (proj2 (Note_new_Ok _ _ _ _)) by done. cbn [map_err mbind outcome_bind commitment].
    fold (a2p_commitment r). rewrite bool_decide_true by done. cbn [negb].
    rewrite note_root_Ok. cbn [mbind outcome_bind]. rewrite V, Pi, Pj.
    cbn [negb ok_or mbind outcome_bind].
    rewrite (proj2 (checked_Some 64 _ _)) by done. cbn [ok_or mbind outcome_bind].
    by rewrite note_root_Ok.
Qed.

Lemma convert_public_to_anon_Ok `{Profile} account r existing conv :
  0 <= p2a_amount r -> acct_balance account < 2 ^ 64 ->
  convert_public_to_anon account r existing = Ok conv <->
  exists n, ViewableNote_new (p2a_amount r) (p2a_recipient_public_key r) (p2a_viewing_key r)
    (p2a_blinding r) (p2a_shard_id r) = Ok n /\
  p2a_amount r <= acct_balance account /\
  (forall h, viewing_hint (acct_anonymous_state account) = Some h -> h = view_hint n) /\
  conv = {| p2a_account := with_funds account (acct_balance account - p2a_amount r) {|
              viewing_hint := Some (view_hint n);
              note_commitments := note_commitments (acct_anonymous_state account) ++
                                    [viewable_commitment n] |};
            p2a_viewable_note := n;
            p2a_merkle_root := root_of (existing ++ [viewable_commitment n]) |}.
Proof.
  intros A0 B64. unfold convert_public_to_anon. split.
  - destruct (Z.eqb_spec (p2a_amount r) 0) as [|A]; [done|].
    destruct (Z.ltb_spec (acct_balance account) (p2a_amount r)) as [|L]; [done|]. intros E.
    apply bind_Ok in E as (n & N & E). apply map_err_Ok in N. exists n. split; [done|].
    split; [done|]. cbv zeta in E.
    destruct (match viewing_hint _ with Some _ => _ | None => _ end) eqn:Hint; [discriminate E|].
    rewrite arith_fits in E by lia. cbn [mbind outcome_bind] in E. rewrite note_root_Ok in E.
    apply (inj Ok) in E as <-. split; [|done]. intros h Eh. rewrite Eh in Hint.
    by apply negb_false_iff, bool_decide_eq_true in Hint.
  - intros (n & N & L & Hint & ->). pose proof N as N'. apply ViewableNote_new_Ok in N' as (A & _).
    destruct (Z.eqb_spec (p2a_amount r) 0); [done|].
    destruct (Z.ltb_spec (acct_balance account) (p2a_amount r)); [lia|].
    rewrite N. cbn [map_err mbind outcome_bind].
    destruct (viewing_hint (acct_anonymous_state account)) as [h|] eqn:Eh.
    + rewrite bool_decide_true by (by apply Hint). cbn [negb].
      rewrite arith_fits by lia. cbn [mbind outcome_bind]. by rewrite note_root_Ok.
    + rewrite arith_fits by lia. cbn [mbind outcome_bind]. by rewrite note_root_Ok.
Qed.
End lemmas.

(** ** Properties *)

(** Converting to a note conserves funds and records
    the note: the balance drops by exactly the amount, the note commits to the
    amount and owner and is visible to the viewing key, its commitment is
    appended to the account's list and to the tree, whose root is returned;
    nonce and code are untouched, and the account keeps a single viewing
    hint. *)
Theorem public_to_anon_spec `{Sha256, Profile} account r existing conv :
  wf account -> u64 (p2a_amount r) ->
  convert_public_to_anon account r existing = Ok conv ->
  let c := compute_commitment (p2a_amount r) (p2a_recipient_public_key r) (p2a_blinding r) in
  let account' := p2a_account conv in
  0 < p2a_amount r /\ acct_balance account' + p2a_amount r = acct_balance account /\
  0 <= acct_balance account' /\
  acct_nonce account' = acct_nonce account /\ acct_code_hash account' = acct_code_hash account /\
  viewable_commitment (p2a_viewable_note conv) = c /\
  is_visible_to (p2a_viewable_note conv) (p2a_viewing_key r) = true /\
  note_commitments (acct_anonymous_state account') =
    note_commitments (acct_anonymous_state account) ++ [c] /\
  viewing_hint (acct_anonymous_state account') = compute_viewing_hint (p2a_viewing_key r) /\
  (forall h, viewing_hint (acct_anonymous_state account) = Some h ->
     viewing_hint (acct_anonymous_state account') = Some h) /\
  note_root (E := ConversionError.t) (from_commitments (existing ++ [c])) =
    Ok (p2a_merkle_root conv).
Proof.
  intros (B & _) [A0 _] E c account'. unfold u64 in B.
  apply convert_public_to_anon_Ok in E as (n & N & L & Hint & ->); [|done|apply B].
  apply ViewableNote_new_Ok in N as (A & _ & _ & K & ->).
  cbn [p2a_account p2a_viewable_note p2a_merkle_root with_funds acct_balance acct_nonce
       acct_code_hash acct_anonymous_state viewing_hint note_commitments] in *.
  subst account'. unfold viewable_commitment. cbn [note commitment view_hint] in *.
  unfold is_visible_to, compute_viewing_hint. rewrite bool_decide_false by done.
  cbn [from_option view_hint acct_balance acct_nonce acct_code_hash acct_anonymous_state
       viewing_hint note_commitments with_funds].
  do 6 (split; [done || lia|]). split; [by apply bool_decide_true|]. split; [done|].
  split; [done|]. split; [|apply note_root_Ok]. intros h Eh. f_equal. symmetry. by apply Hint.
Qed.

(** A round trip restores the account and the tree:
    the note created from public funds has a membership proof in the new tree,
    and converting it back with its owner's key gives the account and the
    root of before, when its commitment is fresh and the account has a hint
    exactly when it tracks notes. *)
Theorem conversion_round_trip `{Sha256, Profile} account r existing conv sk shard :
  wf account -> u64 (p2a_amount r) ->
  convert_public_to_anon account r existing = Ok conv ->
  p2a_recipient_public_key r = derive_note_recipient_public_key sk ->
  let c := viewable_commitment (p2a_viewable_note conv) in
  c ∉ existing -> c ∉ note_commitments (acct_anonymous_state account) ->
  (viewing_hint (acct_anonymous_state account) = None <->
   note_commitments (acct_anonymous_state account) = []) ->
  exists proof conv', generate_proof (from_commitments (existing ++ [c])) (length existing) = Ok proof /\
    convert_anon_to_public (p2a_account conv)
      {| a2p_amount := p2a_amount r; a2p_spending_private_key := sk;
         a2p_blinding := p2a_blinding r; a2p_merkle_proof := proof; a2p_shard_id := shard |}
      (existing ++ [c]) = Ok conv' /\
    a2p_account conv' = account /\ consumed_commitment conv' = c /\
    note_root (E := ConversionError.t) (from_commitments existing) = Ok (a2p_merkle_root conv').
Proof.
  intros (B & _) [A0 _] E Pk c Fe Ft Inv. unfold u64 in B.
  apply convert_public_to_anon_Ok in E as (n & N & L & Hint & ->); [|done|apply B].
  apply ViewableNote_new_Ok in N as (A & Kp & Kb & _ & En).
  change (viewable_commitment n) with c.
  assert (c = compute_commitment (p2a_amount r) (derive_note_recipient_public_key sk)
            (p2a_blinding r)) as Ec by (unfold c; cbn; by rewrite En, <- Pk).
  cbn [p2a_account p2a_viewable_note]. clearbody c.
  destruct (generate_proof_Ok (from_commitments (existing ++ [c])) (length existing))
    as (proof & Ep & Lp & _ & Vp).
  { unfold leaf_count. cbn [from_commitments leaves]. rewrite length_app. simpl. lia. }
  cbn [from_commitments leaves] in Lp, Vp. rewrite list_lookup_middle in Lp by done.
  apply (inj Some) in Lp. eexists proof, _. split; [exact Ep|]. split.
  - apply convert_anon_to_public_Ok. unfold a2p_commitment.
    cbn [a2p_amount a2p_spending_private_key a2p_blinding a2p_merkle_proof with_funds
         acct_balance acct_anonymous_state note_commitments viewing_hint].
    rewrite <- Ec, <- Pk. do 3 (split; [done|]). split; [done|]. split; [done|].
    split; [lia|]. exists (length (note_commitments (acct_anonymous_state account))), (length existing).
    split; [by apply position_fresh|]. split; [by apply position_fresh|].
    cbv zeta. rewrite !delete_middle, !app_nil_r. reflexivity.
  - cbn [a2p_account consumed_commitment a2p_merkle_root]. split; [|split; [done|apply note_root_Ok]].
    unfold with_funds. cbn [acct_nonce acct_code_hash].
    destruct account as [bal nonce code [hint notes]].
    cbn [acct_balance acct_anonymous_state note_commitments viewing_hint] in *.
    f_equal; [lia|]. f_equal. rewrite bool_decide_decide.
    destruct (decide (notes = [])) as [Z|Z]; [by rewrite (proj2 Inv Z)|].
    destruct hint as [h|]; [by rewrite <- (Hint h eq_refl)|]. by destruct Z; apply Inv.
Qed.

(** Converting back conserves funds and consumes the
    note: an accepted request opens, with a non-zero key, a commitment that
    is tracked by the account and in the tree, the balance grows by exactly
    its value, one occurrence of it leaves both lists, and, when the account
    tracked it once, no later request for it is accepted on that account. *)
Theorem anon_to_public_spec `{Sha256} account r current conv :
  convert_anon_to_public account r current = Ok conv ->
  let c := compute_commitment (a2p_amount r)
             (derive_note_recipient_public_key (a2p_spending_private_key r)) (a2p_blinding r) in
  let account' := a2p_account conv in
  acct_balance account' = acct_balance account + a2p_amount r /\ acct_balance account' < 2 ^ 64 /\
  a2p_amount r <> 0 /\ acct_nonce account' = acct_nonce account /\
  note_commitments (acct_anonymous_state account) ≡ₚ
    c :: note_commitments (acct_anonymous_state account') /\
  (exists rest, current ≡ₚ c :: rest /\
     note_root (E := ConversionError.t) (from_commitments rest) = Ok (a2p_merkle_root conv)) /\
  (NoDup (note_commitments (acct_anonymous_state account)) ->
   forall r' current' conv', a2p_amount r' = a2p_amount r ->
     a2p_spending_private_key r' = a2p_spending_private_key r ->
     a2p_blinding r' = a2p_blinding r ->
     convert_anon_to_public account' r' current' <> Ok conv').
Proof.
  intros E c account'.
  apply convert_anon_to_public_Ok in E as (A & K & B & L & V & R & i & j & Pi & Pj & ->).
  apply position_eq in Pi, Pj. unfold a2p_commitment in Pi, Pj. fold c in Pi, Pj.
  subst account'. cbn [a2p_account a2p_merkle_root with_funds acct_balance acct_nonce
    acct_anonymous_state note_commitments].
  assert (forall l k, l !! k = Some c -> l ≡ₚ c :: delete k l) as Del.
  { intros l k Lk. by apply delete_Permutation. }
  split; [done|]. split; [lia|]. split; [done|]. split; [done|]. split; [by apply Del|]. split.
  { exists (delete j current). split; [by apply Del|apply note_root_Ok]. }
  intros ND r' current' conv' Ea Es Eb E.
  apply convert_anon_to_public_Ok in E as (_ & _ & _ & _ & _ & _ & i' & j' & Pi' & _).
  cbn [with_funds acct_anonymous_state note_commitments] in Pi'. apply position_eq in Pi'.
  unfold a2p_commitment in Pi'. rewrite Ea, Es, Eb in Pi'. fold c in Pi'.
  rewrite (Del _ _ Pi) in ND. apply NoDup_cons in ND as [NI _]. apply NI.
  by eapply list_elem_of_lookup_2.
Qed.

(** ** Witnesses *)

From S2P Require Import Concrete.
Import Concrete.Instances.

Definition funded_account : Account := {|
  acct_balance := 100; acct_nonce := 3; acct_code_hash := None;
  acct_anonymous_state := AnonymousAccountState_default |}.

Definition sample_request : PublicToAnonRequest := {|
  p2a_amount := 40; p2a_recipient_public_key := derive_note_recipient_public_key (fill 32 7);
  p2a_viewing_key := fill 32 8; p2a_blinding := fill 32 9; p2a_shard_id := 0 |}.

Definition sample_commitment : bytes :=
  compute_commitment 40 (derive_note_recipient_public_key (fill 32 7)) (fill 32 9).

Definition sample_conversion : PublicToAnonConversion :=
  let n := {| note := {| commitment := sample_commitment |};
              view_hint := sha256 (bytes_of "prims-viewing-key" ++ fill 32 8);
              note_shard_id := 0 |} in
  {| p2a_account := with_funds funded_account 60 {|
       viewing_hint := Some (view_hint n); note_commitments := [sample_commitment] |};
     p2a_viewable_note := n;
     p2a_merkle_root := root_of [fill 32 1; sample_commitment] |}.

Lemma sample_conversion_Ok :
  convert_public_to_anon funded_account sample_request [fill 32 1] = Ok sample_conversion.
Proof. vm_compute. reflexivity. Qed.

Lemma sample_ranges : wf funded_account /\ u64 (p2a_amount sample_request).
Proof. split; [solve_wf|split; cbn; lia]. Qed.

Lemma public_to_anon_spec_witness :
  acct_balance (p2a_account sample_conversion) + 40 = acct_balance funded_account.
Proof.
  destruct sample_ranges as [W U].
  pose proof (public_to_anon_spec funded_account sample_request [fill 32 1] sample_conversion W U
    sample_conversion_Ok) as (_ & B & _).
  exact B.
Defined.

Lemma conversion_round_trip_witness : exists proof conv',
  generate_proof (from_commitments ([fill 32 1] ++ [sample_commitment])) 1 = Ok proof /\
  convert_anon_to_public (p2a_account sample_conversion)
    {| a2p_amount := 40; a2p_spending_private_key := fill 32 7; a2p_blinding := fill 32 9;
       a2p_merkle_proof := proof; a2p_shard_id := None |}
    ([fill 32 1] ++ [sample_commitment]) = Ok conv' /\
  a2p_account conv' = funded_account.
Proof.
  destruct sample_ranges as [W U].
  assert (sample_commitment ∉ [fill 32 1]) as F by by_eval.
  assert (sample_commitment ∉ note_commitments (acct_anonymous_state funded_account)) as F'
    by by_eval.
  destruct (conversion_round_trip funded_account sample_request [fill 32 1] sample_conversion
    (fill 32 7) None W U sample_conversion_Ok eq_refl F F' ltac:(done))
    as (proof & conv' & P & C & A & _).
  exists proof, conv'. split; [exact P|]. split; [exact C|exact A].
Defined.

Definition single_proof : NoteMerkleProof :=
  {| leaf_index := 0; leaf := sample_commitment; siblings := [] |}.

Definition back_request : AnonToPublicRequest := {|
  a2p_amount := 40; a2p_spending_private_key := fill 32 7; a2p_blinding := fill 32 9;
  a2p_merkle_proof := single_proof; a2p_shard_id := None |}.

Definition back_conversion : AnonToPublicConversion := {|
  a2p_account := funded_account; consumed_commitment := sample_commitment;
  a2p_merkle_root := root_of [] |}.

Lemma back_conversion_Ok :
  convert_anon_to_public (p2a_account sample_conversion) back_request [sample_commitment] =
  Ok back_conversion.
Proof. vm_compute. reflexivity. Qed.

Lemma anon_to_public_spec_witness :
  acct_balance funded_account = acct_balance (p2a_account sample_conversion) + 40.
Proof.
  pose proof (anon_to_public_spec (p2a_account sample_conversion) back_request
    [sample_commitment] back_conversion back_conversion_Ok) as (B & _).
  exact B.
Defined.
