(* ===== verification/Keys.v ===== *)
(** * Keys of the store and checked payloads
    ([src/storage/keys.rs], [src/storage/checksum.rs])

    The key of every kind of record, with the lemmas that keep them apart, and
    the checksummed encoding of critical data. *)

From S2P Require Import Prelude Bytes Externals Types Hash.

Definition BLOCK_PREFIX : bytes := bytes_of "b:".
Definition HEIGHT_INDEX_PREFIX : bytes := bytes_of "h:".
Definition TRANSACTION_PREFIX : bytes := bytes_of "t:".
Definition ACCOUNT_PREFIX : bytes := bytes_of "a:".
Definition STAKE_PREFIX : bytes := bytes_of "s:".
Definition CONTRACT_CODE_PREFIX : bytes := bytes_of "c:".
Definition CONTRACT_STORAGE_PREFIX : bytes := bytes_of "m:".
Definition ANON_NOTE_PREFIX : bytes := bytes_of "n:".
Definition VIEWING_NOTE_INDEX_PREFIX : bytes := bytes_of "v:".
Definition NOTE_MERKLE_ROOT_PREFIX : bytes := bytes_of "r:".

Definition prefixed_key (prefix suffix : bytes) : bytes := prefix ++ suffix.

Definition block_key (height : Z) : bytes := BLOCK_PREFIX ++ dec_bytes height.
Definition height_index_key (hash : bytes) : bytes := prefixed_key HEIGHT_INDEX_PREFIX hash.
Definition transaction_key (hash : bytes) : bytes := prefixed_key TRANSACTION_PREFIX hash.
Definition account_key (address : bytes) : bytes := prefixed_key ACCOUNT_PREFIX address.
Definition stake_key (address : bytes) : bytes := prefixed_key STAKE_PREFIX address.
Definition contract_key (address : bytes) : bytes := prefixed_key CONTRACT_CODE_PREFIX address.
Definition contract_code_key (address : bytes) : bytes := contract_key address.

Definition contract_storage_prefix (address : bytes) : bytes :=
  CONTRACT_STORAGE_PREFIX ++ address ++ bytes_of ":".

Definition contract_storage_key (address key : bytes) : bytes :=
  contract_storage_prefix address ++ key.

Definition anonymous_note_key (c : bytes) : bytes := prefixed_key ANON_NOTE_PREFIX c.

Definition viewing_hint_prefix (viewing_hint : bytes) : bytes :=
  VIEWING_NOTE_INDEX_PREFIX ++ viewing_hint ++ bytes_of ":".

Definition viewing_hint_note_key (viewing_hint c : bytes) : bytes :=
  viewing_hint_prefix viewing_hint ++ c.

Definition note_merkle_root_key (shard_id : option Z) : bytes :=
  match shard_id with
  | Some s => NOTE_MERKLE_ROOT_PREFIX ++ bytes_of "shard:" ++ dec_bytes s
  | None => NOTE_MERKLE_ROOT_PREFIX ++ bytes_of "global"
  end.

(** ** The records of the store *)

(** What a key names. *)
Inductive record_id :=
| RBlock (height : Z)
| RHeightIndex (hash : bytes)
| RTransaction (hash : bytes)
| RAccount (address : bytes)
| RStake (address : bytes)
| RContract (address : bytes)
| RSlot (address key : bytes)
| RNote (c : bytes)
| RViewIndex (hint c : bytes)
| RNoteRoot (shard_id : option Z).

Definition record_key (r : record_id) : bytes :=
  match r with
  | RBlock h => block_key h
  | RHeightIndex h => height_index_key h
  | RTransaction h => transaction_key h
  | RAccount a => account_key a
  | RStake a => stake_key a
  | RContract a => contract_key a
  | RSlot a k => contract_storage_key a k
  | RNote c => anonymous_note_key c
  | RViewIndex h c => viewing_hint_note_key h c
  | RNoteRoot s => note_merkle_root_key s
  end.

(** The addresses at which contracts live.  A slot key holds the address and
    the key of the slot with one [':'] between them, so no address of the
    family, followed by [':'], may start another. *)
Class Addresses := {
  contract_address : bytes -> Prop;
  addresses_apart a a' x x' : contract_address a -> contract_address a' ->
    a ++ bytes_of ":" ++ x = a' ++ bytes_of ":" ++ x' -> a = a';
}.

Section records.
Context `{!Addresses}.

(** Heights and shards are unsigned integers, and viewing hints are SHA-256
    digests. *)
Definition record_ok (r : record_id) : Prop :=
  match r with
  | RBlock h => u64 h
  | RSlot a _ => contract_address a
  | RViewIndex h _ => length h = 32%nat
  | RNoteRoot (Some s) => 0 <= s
  | _ => True
  end.

Lemma contract_storage_key_inj a k a' k' :
  contract_address a -> contract_address a' -> contract_storage_key a k = contract_storage_key a' k' ->
  a = a' /\ k = k'.
Proof.
  unfold contract_storage_key, contract_storage_prefix. rewrite <- !app_assoc.
  intros W W' E. apply app_inv_head in E. pose proof (addresses_apart _ _ _ _ W W' E) as ->.
  by do 2 apply app_inv_head in E.
Qed.

Lemma viewing_hint_note_key_inj h c h' c' :
  length h = length h' -> viewing_hint_note_key h c = viewing_hint_note_key h' c' ->
  h = h' /\ c = c'.
Proof.
  unfold viewing_hint_note_key, viewing_hint_prefix. rewrite <- !app_assoc.
  intros L E. apply app_inv_head in E. apply app_inj_1 in E as [-> E]; [|done].
  by apply app_inv_head in E.
Qed.

(** Distinct records have distinct keys. *)
Lemma record_key_inj r r' : record_ok r -> record_ok r' -> record_key r = record_key r' -> r = r'.
Proof.
  destruct r, r'; cbn [record_ok record_key]; intros W W' E.
  all: try (exfalso; unfold block_key, height_index_key, transaction_key, account_key, stake_key,
    contract_key, contract_storage_key, contract_storage_prefix, anonymous_note_key,
    viewing_hint_note_key, viewing_hint_prefix, note_merkle_root_key in E;
    repeat match goal with H : option Z |- _ => destruct H end; discriminate E).
  all: try (apply app_inv_head in E; by f_equal).
  - apply app_inv_head, dec_bytes_inj in E; [by subst|apply W|apply W'].
  - by apply contract_storage_key_inj in E as [-> ->].
  - apply viewing_hint_note_key_inj in E as [-> ->]; [done|congruence].
  - destruct shard_id as [s|], shard_id0 as [s'|]; try (by apply app_inv_head in E).
    do 2 apply app_inv_head in E. apply dec_bytes_inj in E; [by subst|done..].
Qed.

(** A storage prefix selects the slots of its contract alone. *)
Lemma slot_prefix r a x :
  record_ok r -> contract_address a -> record_key r = contract_storage_prefix a ++ x -> r = RSlot a x.
Proof. intros W L E. by apply (record_key_inj r (RSlot a x)). Qed.

(** A hint prefix selects the index entries of its hint alone. *)
Lemma hint_prefix r h x :
  record_ok r -> length h = 32%nat -> record_key r = viewing_hint_prefix h ++ x -> r = RViewIndex h x.
Proof. intros W L E. by apply (record_key_inj r (RViewIndex h x)). Qed.

(** The key space: the keys of two records, of any
    kinds, coincide only when the records do; heights and shards print
    injectively, and the addresses and hints inside a key are delimited. *)
Theorem record_keys_distinct r r' :
  record_ok r -> record_ok r' -> record_key r = record_key r' <-> r = r'.
Proof. intros W W'. split; [by apply record_key_inj|by intros ->]. Qed.
End records.

(** The digests at which deployments put contracts are such a family, *)
Module DigestAddresses.
Lemma digests_apart (a a' x x' : bytes) :
  length a = 32%nat -> length a' = 32%nat -> a ++ bytes_of ":" ++ x = a' ++ bytes_of ":" ++ x' -> a = a'.
Proof. intros L L' E. apply app_inj_1 in E as [-> _]; [done|congruence]. Qed.

#[export] Instance digest_addresses : Addresses :=
  {| contract_address a := length a = 32%nat; addresses_apart := digests_apart |}.
End DigestAddresses.

(** and so are names without [':']. *)
Definition plain_name (a : bytes) : Prop := Forall (fun b => b <> Byte.x3a) a.

Lemma names_apart (a a' x x' : bytes) :
  plain_name a -> plain_name a' -> a ++ bytes_of ":" ++ x = a' ++ bytes_of ":" ++ x' -> a = a'.
Proof.
  intros P. revert a'. induction P as [|b a N P IH]; intros a' [|b' a'' N' P'] E; [done|..];
    injection E as E0 E; [done|by subst|].
  rewrite E0. f_equal. by apply IH.
Qed.

Definition plain_addresses : Addresses :=
  {| contract_address := plain_name; addresses_apart := names_apart |}.

(** ** Checked payloads *)

Record CheckedPayload := { checksum : bytes; payload : bytes }.

#[global] Instance CheckedPayload_wf : WellFormed CheckedPayload := fun p =>
  vec_ok (checksum p) /\ vec_ok (payload p).

Inductive ChecksumError :=
| ChecksumMismatch
| ChecksumSerialization (message : string).

Section checksum.
Context `{Sha256, !Bincode CheckedPayload}.

Definition wrap_payload (data : bytes) : outcome ChecksumError bytes :=
  map_err ChecksumSerialization
    (bincode_serialize {| checksum := sha256 data; payload := data |}).

Definition unwrap_payload (encoded : bytes) : outcome ChecksumError bytes :=
  checked ← map_err ChecksumSerialization (bincode_deserialize (A := CheckedPayload) encoded);
  let actual := sha256 (payload checked) in
  if negb (bool_decide (actual = checksum checked)) then Err ChecksumMismatch
  else Ok (payload checked).
End checksum.

(** ** Properties *)

(** A wrapped payload unwraps to itself, and whatever
    unwraps carries the digest of the payload returned: data whose payload
    was changed is refused, unless the two payloads collide under SHA-256. *)
Theorem checked_payload_spec `{Sha256Ok, !Bincode CheckedPayload, !BincodeOk CheckedPayload}
    data tampered :
  vec_ok data -> vec_ok tampered -> collision_free sha256 [data; tampered] -> exists encoded forged,
    wrap_payload data = Ok encoded /\ unwrap_payload encoded = Ok data /\
    bincode_serialize {| checksum := sha256 data; payload := tampered |} = Ok forged /\
    (tampered <> data -> unwrap_payload forged = Err ChecksumMismatch).
Proof.
  intros W W' C.
  assert (vec_ok (sha256 data)) as Ws by (unfold vec_ok; rewrite sha256_length; lia).
  destruct (bincode_total {| checksum := sha256 data; payload := data |}) as [e Ee]; [done|].
  destruct (bincode_total {| checksum := sha256 data; payload := tampered |}) as [f Ef]; [done|].
  exists e, f. unfold wrap_payload, unwrap_payload. rewrite Ee.
  rewrite (bincode_roundtrip _ _ (conj Ws W : wf {| checksum := _; payload := _ |}) Ee).
  rewrite (bincode_roundtrip _ _ (conj Ws W' : wf {| checksum := _; payload := _ |}) Ef).
  cbn [map_err mbind outcome_bind payload checksum]. split; [done|].
  rewrite bool_decide_true by done. split; [done|]. split; [done|]. intros N.
  rewrite bool_decide_false; [done|]. intros E. apply N. apply C; [right; left|left|done].
Qed.

(** ** Witnesses *)

From S2P Require Import Concrete.
Import Concrete.Instances DigestAddresses.

Definition c_checked : codec CheckedPayload :=
  c_map (fun '(a, b) => Build_CheckedPayload a b) (fun p => (checksum p, payload p))
    (c_pair c_bytes c_bytes).

Lemma c_checked_ok : CodecOk wf c_checked.
Proof. solve_codec. Qed.

#[local] Instance toy_checked : Bincode CheckedPayload := bincode_of c_checked.
#[local] Instance toy_checked_ok : BincodeOk CheckedPayload := bincode_of_ok _ c_checked_ok.

Lemma record_keys_distinct_witness :
  record_key (RBlock 12) = record_key (RBlock 12) <-> RBlock 12 = RBlock 12.
Proof. apply (record_keys_distinct (RBlock 12) (RBlock 12)); by vm_compute. Defined.

Lemma checked_payload_spec_witness : exists encoded forged,
  wrap_payload (fill 4 1) = Ok encoded /\ unwrap_payload encoded = Ok (fill 4 1) /\
  bincode_serialize {| checksum := sha256 (fill 4 1); payload := fill 4 2 |} = Ok forged /\
  (fill 4 2 <> fill 4 1 -> unwrap_payload forged = Err ChecksumMismatch).
Proof.
  apply (checked_payload_spec (fill 4 1) (fill 4 2)); [by vm_compute|by vm_compute|by_eval].
Defined.
