(* ===== verification/Store.v ===== *)
(** * The key-value store ([StorageBackend], [src/storage/mod.rs])

    Effects as a state and error monad, the interface of the database crate
    with the laws of a store without I/O failures, the operations of the
    [StorageBackend] implementation on top of it, and an instance on finite
    maps. *)

From S2P Require Import Prelude Orders Bytes.

(** ** Stateful computations that can fail

    The state survives an error: what was written stays written. *)

Record io (S E A : Type) := Io { run_io : S -> outcome E A * S }.
Arguments Io {S E A} _.
Arguments run_io {S E A} _ _.

#[global] Instance io_ret {S E} : MRet (io S E) := fun _ a => Io (fun s => (Ok a, s)).

#[global] Instance io_bind {S E} : MBind (io S E) := fun _ _ f m =>
  Io (fun s =>
    match run_io m s with
    | (Ok a, s') => run_io (f a) s'
    | (Err e, s') => (Err e, s')
    | (Panic, s') => (Panic, s')
    end).

(** A computation that does not touch the state. *)
Definition lift {S E A} (m : outcome E A) : io S E A := Io (fun s => (m, s)).

Definition io_err {S E A} (e : E) : io S E A := lift (Err e).

(** [Result::map_err] on the result. *)
Definition io_map_err {S E F A} (f : E -> F) (m : io S E A) : io S F A :=
  Io (fun s => let '(r, s') := run_io m s in (map_err f r, s')).

Lemma run_io_map_err {S E F A} (f : E -> F) (m : io S E A) s :
  run_io (io_map_err f m) s = (map_err f (run_io m s).1, (run_io m s).2).
Proof. unfold io_map_err. cbn [run_io]. by destruct (run_io m s). Qed.

Lemma run_bind {S E A B} (m : io S E A) (f : A -> io S E B) s :
  run_io (m ≫= f) s =
  match run_io m s with
  | (Ok a, s') => run_io (f a) s'
  | (Err e, s') => (Err e, s')
  | (Panic, s') => (Panic, s')
  end.
Proof. done. Qed.

Lemma run_lift {S E A} (m : outcome E A) (s : S) : run_io (lift m) s = (m, s).
Proof. done. Qed.

Lemma run_ret {S E A} (a : A) (s : S) : run_io (mret (M := io S E) a) s = (Ok a, s).
Proof. done. Qed.

(** ** The database crate *)

Class KvStore (S : Type) := {
  db_put : S -> bytes -> bytes -> outcome string unit * S;
  db_get : S -> bytes -> outcome string (option bytes);
  db_delete : S -> bytes -> outcome string unit * S;
  (** [db.iterator(IteratorMode::From(prefix, Direction::Forward))] *)
  db_iterator_from : S -> bytes -> list (outcome string (bytes * bytes));
  (** [db.write(batch)] for a batch of puts *)
  db_write : S -> list (bytes * bytes) -> outcome string unit * S;
}.

(** Entries in the order of their keys. *)
Definition entries (m : gmap bytes bytes) : list (bytes * bytes) :=
  sort_by (cmp_on fst bytes_cmp) (map_to_list m).

Definition put_all (writes : list (bytes * bytes)) (m : gmap bytes bytes) : gmap bytes bytes :=
  foldl (fun m kv => <[kv.1 := kv.2]> m) m writes.

(** The documented behaviour of a store whose I/O does not fail. *)
Class KvStoreOk (S : Type) `{KvStore S} := {
  contents : S -> gmap bytes bytes;
  db_get_ok : forall s k, db_get s k = Ok (contents s !! k);
  db_put_ok : forall s k v, exists s',
    db_put s k v = (Ok tt, s') /\ contents s' = <[k := v]> (contents s);
  db_delete_ok : forall s k, exists s',
    db_delete s k = (Ok tt, s') /\ contents s' = delete k (contents s);
  db_iterator_ok : forall s p,
    db_iterator_from s p = Ok <$> filter (fun kv => bytes_cmp kv.1 p <> Lt) (entries (contents s));
  db_write_ok : forall s writes, exists s',
    db_write s writes = (Ok tt, s') /\ contents s' = put_all writes (contents s);
}.

(** ** [impl StorageBackend for RocksDbStorage] *)

Inductive StorageError :=
| Db (message : string)
| StorageSerialization (message : string)
| EmptySender
| EmptyBytecode
| ContractAddressExists
| ContractDoesNotExist.

(** The body of the loop of [iter], which stops at the first other key. *)
Fixpoint iter_loop (prefix : bytes) (items : list (outcome string (bytes * bytes))) :
  outcome StorageError (list (bytes * bytes)) :=
  match items with
  | [] => Ok []
  | item :: items' =>
      kv ← map_err Db item;
      if negb (starts_with kv.1 prefix) then Ok []
      else
        rest ← iter_loop prefix items';
        Ok (kv :: rest)
  end.

Section backend.
Context {S : Type} `{KvStore S}.

Definition put (key value : bytes) : io S StorageError unit :=
  Io (fun s => let '(r, s') := db_put s key value in (map_err Db r, s')).

Definition get (key : bytes) : io S StorageError (option bytes) :=
  Io (fun s => (map_err Db (db_get s key), s)).

Definition delete_key (key : bytes) : io S StorageError unit :=
  Io (fun s => let '(r, s') := db_delete s key in (map_err Db r, s')).

Definition iter (prefix : bytes) : io S StorageError (list (bytes * bytes)) :=
  Io (fun s => (iter_loop prefix (db_iterator_from s prefix), s)).

Definition write_batch (writes : list (bytes * bytes)) : io S StorageError unit :=
  Io (fun s => let '(r, s') := db_write s writes in (map_err Db r, s')).
End backend.

(** ** Iteration over a prefix *)

Section prefix_order.

Lemma list_cmp_prefix p r : list_cmp (cmp_on byte_val Z.compare) (p ++ r) p <> Lt.
Proof.
  induction p as [|b p IH]; simpl; [by destruct r|].
  unfold cmp_on at 1. by rewrite Z.compare_refl.
Qed.

(** A key between the prefix and a key with the prefix has the prefix. *)
Lemma prefix_between p k r :
  list_cmp (cmp_on byte_val Z.compare) k p <> Lt ->
  list_cmp (cmp_on byte_val Z.compare) k (p ++ r) <> Gt -> exists r', k = p ++ r'.
Proof.
  revert k. induction p as [|b p IH]; intros k; [by exists k|].
  destruct k as [|a k]; simpl; [done|]. unfold cmp_on at 1 3.
  destruct (Z.compare_spec (byte_val a) (byte_val b)) as [E|L|L]; simpl; [|done|done].
  intros L G. apply (inj byte_val) in E as ->. destruct (IH k L G) as [r' ->]. by exists r'.
Qed.
End prefix_order.

Section iter.
Context (prefix : bytes).

Lemma iter_loop_sorted l :
  StronglySorted (fun x y : bytes * bytes => cmp_on fst bytes_cmp x y <> Gt) l ->
  Forall (fun kv => bytes_cmp kv.1 prefix <> Lt) l ->
  iter_loop prefix (Ok <$> l) = Ok (filter (fun kv => starts_with kv.1 prefix = true) l).
Proof.
  induction 1 as [|kv l S IH F]; intros G; [done|].
  apply Forall_cons in G as [Gk G]. rewrite fmap_cons. cbn [iter_loop map_err mbind outcome_bind].
  rewrite filter_cons. destruct (starts_with kv.1 prefix) eqn:P; cbn [negb].
  - rewrite (IH G). cbn [mbind outcome_bind]. by rewrite decide_True.
  - rewrite decide_False by done. f_equal. symmetry.
    clear IH. induction l as [|x l IHl]; [done|].
    apply Forall_cons in F as [Fx F]. apply Forall_cons in G as [Gx G].
    rewrite filter_cons, decide_False; [apply IHl; [by inversion S|done|done]|].
    intros Px. apply starts_with_true in Px as [r R].
    destruct (prefix_between prefix kv.1 r Gk) as [r' R'].
    + unfold cmp_on, bytes_cmp in Fx. by rewrite R in Fx.
    + rewrite R' in P. by rewrite starts_with_app in P.
Qed.
End iter.

Section lawful.
Context {S : Type} `{KvStoreOk S}.

Lemma run_get (s : S) k : run_io (get k) s = (Ok (contents s !! k), s).
Proof. unfold get. cbn [run_io]. by rewrite db_get_ok. Qed.

Lemma run_put (s : S) k v : exists s',
  run_io (put k v) s = (Ok tt, s') /\ contents s' = <[k := v]> (contents s).
Proof.
  destruct (db_put_ok s k v) as (s' & E & C). exists s'. unfold put. cbn [run_io].
  by rewrite E.
Qed.

Lemma run_delete (s : S) k : exists s',
  run_io (delete_key k) s = (Ok tt, s') /\ contents s' = delete k (contents s).
Proof.
  destruct (db_delete_ok s k) as (s' & E & C). exists s'. unfold delete_key. cbn [run_io].
  by rewrite E.
Qed.

Lemma run_write (s : S) writes : exists s',
  run_io (write_batch writes) s = (Ok tt, s') /\ contents s' = put_all writes (contents s).
Proof.
  destruct (db_write_ok s writes) as (s' & E & C). exists s'. unfold write_batch. cbn [run_io].
  by rewrite E.
Qed.

(** [iter] returns all the entries under a prefix, in order. *)
Lemma run_iter (s : S) prefix :
  run_io (iter prefix) s =
  (Ok (filter (fun kv => starts_with kv.1 prefix = true) (entries (contents s))), s).
Proof.
  unfold iter. cbn [run_io]. f_equal. rewrite db_iterator_ok, iter_loop_sorted.
  - f_equal. rewrite list_filter_filter. apply list_filter_iff. intros kv. split; [tauto|].
    intros P. split; [done|]. apply starts_with_true in P as [r ->]. apply list_cmp_prefix.
  - apply StronglySorted_filter, sort_by_sorted. apply _.
  - apply Forall_forall. by intros kv [P _]%list_elem_of_filter.
Qed.
End lawful.

(** ** Finite maps are such a store *)

#[global] Instance gmap_store : KvStore (gmap bytes bytes) := {|
  db_put := fun m k v => (Ok tt, <[k := v]> m);
  db_get := fun m k => Ok (m !! k);
  db_delete := fun m k => (Ok tt, delete k m);
  db_iterator_from := fun m p =>
    Ok <$> filter (fun kv => bytes_cmp kv.1 p <> Lt) (entries m);
  db_write := fun m writes => (Ok tt, put_all writes m);
|}.

#[global] Program Instance gmap_store_ok : KvStoreOk (gmap bytes bytes) := {|
  contents := fun m => m;
|}.
Solve All Obligations with (intros; try by eexists); done.

(** Iterating over a prefix, by seeking the prefix and
    stopping at the first key without it, returns exactly the entries under
    the prefix, each once, in the order of their keys. *)
Theorem store_iter_spec {S} `{KvStoreOk S} (s : S) prefix : exists l,
  run_io (iter prefix) s = (Ok l, s) /\
  StronglySorted (fun x y : bytes * bytes => cmp_on fst bytes_cmp x y <> Gt) l /\ NoDup l.*1 /\
  forall k v, (k, v) ∈ l <-> contents s !! k = Some v /\ starts_with k prefix = true.
Proof.
  eexists. split; [apply run_iter|]. split; [|split].
  - apply StronglySorted_filter, sort_by_sorted. apply _.
  - apply NoDup_fmap_filter. unfold entries. rewrite sort_by_perm. apply NoDup_fst_map_to_list.
  - intros k v. rewrite list_elem_of_filter. unfold entries.
    rewrite sort_by_perm, elem_of_map_to_list. cbn [fst]. tauto.
Qed.
