(* ===== verification/Circuit.v ===== *)
(** * The circuit of anonymous transfers ([src/privacy/mod.rs], third part)

    The synthesis of the circuit, and the transactions that carry a proof.
    The library of gadgets, arkworks, is a class: the constraint system, the
    variables, their allocation and the operations on them; so is Groth16.
    What the documentation of arkworks says of the gadgets, that they compute
    the functions they are named after and that an honest assignment
    satisfies their own constraints, is the class [GadgetsOk]. *)

From S2P Require Import Prelude Orders Bytes Externals Types Merkle Hash Notes Store ZkTransfer.

(** ** The crates *)

Module SynthesisError.
Inductive t :=
| Unsatisfiable
| Gadget (message : string).
End SynthesisError.

(** [ConstraintSystemRef<Fr>], the variables of the gadgets with the values
    assigned to them, and the operations the circuit uses.  The elements are
    the instance variables an input is encoded as. *)
Class Gadgets := {
  constraint_system : Type;
  u8_var : Type;
  u64_var : Type;
  digest_var : Type;
  field_element : Type;
  new_ref : constraint_system;
  assigned_instance : constraint_system -> list (option field_element);
  is_satisfied : constraint_system -> bool;
  u8_value : u8_var -> byte;
  u64_value : u64_var -> Z;
  digest_value : digest_var -> bytes;
  u64_elements : Z -> list field_element;
  digest_elements : bytes -> list field_element;
  constant_vec : bytes -> list u8_var;
  new_witness_vec : bytes -> io constraint_system SynthesisError.t (list u8_var);
  u64_new_witness : Z -> io constraint_system SynthesisError.t u64_var;
  u64_new_input : Z -> io constraint_system SynthesisError.t u64_var;
  digest_new_witness : bytes -> io constraint_system SynthesisError.t digest_var;
  digest_new_input : bytes -> io constraint_system SynthesisError.t digest_var;
  u64_to_bytes_le : u64_var -> io constraint_system SynthesisError.t (list u8_var);
  digest_to_bytes_le : digest_var -> io constraint_system SynthesisError.t (list u8_var);
  evaluate : list u8_var -> io constraint_system SynthesisError.t digest_var;
  wrapping_add_many : list u64_var -> io constraint_system SynthesisError.t u64_var;
  u64_enforce_equal : u64_var -> u64_var -> io constraint_system SynthesisError.t unit;
  digest_enforce_equal : digest_var -> digest_var -> io constraint_system SynthesisError.t unit;
}.

#[local] Abbreviation synth := (io constraint_system SynthesisError.t) (only parsing).

(** ** The synthesis *)

Section synthesis.
Context `{Sha256, Gadgets}.

Definition constant_bytes (b : bytes) : list u8_var := constant_vec b.

Definition sha256_bytes (b : list u8_var) : synth digest_var := evaluate b.

Definition derive_recipient_public_key_var (spending_private_key : list u8_var) : synth digest_var :=
  let data := constant_bytes (bytes_of "prims-note-owner") ++ spending_private_key in
  sha256_bytes data.

Definition note_commitment_var (value : u64_var) (recipient_public_key blinding : list u8_var) :
  synth digest_var :=
  data ← u64_to_bytes_le value;
  sha256_bytes (data ++ recipient_public_key ++ blinding).

Definition merkle_leaf_hash_var (commitment : digest_var) : synth digest_var :=
  commitment_bytes ← digest_to_bytes_le commitment;
  sha256_bytes (constant_bytes (bytes_of "prims-note-merkle-leaf") ++ commitment_bytes).

Definition merkle_internal_hash_var (left right : digest_var) : synth digest_var :=
  left_bytes ← digest_to_bytes_le left;
  right_bytes ← digest_to_bytes_le right;
  sha256_bytes (constant_bytes (bytes_of "prims-note-merkle-node") ++ left_bytes ++ right_bytes).

(** The loop over the siblings. *)
Fixpoint path_var (current_hash : digest_var) (current_index : nat) (siblings : list bytes) :
  synth digest_var :=
  match siblings with
  | [] => mret current_hash
  | sibling :: siblings' =>
      sibling_var ← digest_new_witness sibling;
      next ← (if (current_index mod 2 =? 0)%nat
              then merkle_internal_hash_var current_hash sibling_var
              else merkle_internal_hash_var sibling_var current_hash);
      path_var next (current_index / 2) siblings'
  end.

(** One turn of the loop over the inputs: the variable of its value. *)
Definition input_var (merkle_root_var : digest_var) (input : ZkNoteInputWitness) : synth u64_var :=
  value_var ← u64_new_witness (in_value input);
  spending_private_key_var ← new_witness_vec (in_spending_private_key input);
  blinding_var ← new_witness_vec (in_blinding input);
  proof_leaf_var ← digest_new_witness (leaf (in_merkle_proof input));
  derived_recipient_public_key_var ← derive_recipient_public_key_var spending_private_key_var;
  recipient_bytes ← digest_to_bytes_le derived_recipient_public_key_var;
  expected_commitment_var ← note_commitment_var value_var recipient_bytes blinding_var;
  digest_enforce_equal expected_commitment_var proof_leaf_var;;
  leaf_hash ← merkle_leaf_hash_var proof_leaf_var;
  current_hash ← path_var leaf_hash (leaf_index (in_merkle_proof input))
                   (siblings (in_merkle_proof input));
  digest_enforce_equal current_hash merkle_root_var;;
  mret value_var.

Fixpoint input_vars (merkle_root_var : digest_var) (inputs : list ZkNoteInputWitness) :
  synth (list u64_var) :=
  match inputs with
  | [] => mret []
  | input :: inputs' =>
      value_var ← input_var merkle_root_var input;
      total_input_values ← input_vars merkle_root_var inputs';
      mret (value_var :: total_input_values)
  end.

(** One turn of the loop over the outputs; [output_commitments[index]] panics
    out of range. *)
Definition output_var (pub : ZkTransferPublicInputs) (index : nat) (output : ZkNoteOutputWitness) :
  synth u64_var :=
  value_var ← u64_new_witness (out_value output);
  recipient_public_key_var ← new_witness_vec (out_recipient_public_key output);
  blinding_var ← new_witness_vec (out_blinding output);
  expected_commitment_var ← note_commitment_var value_var recipient_public_key_var blinding_var;
  commitment ← lift (expect (output_commitments pub !! index));
  public_commitment_var ← digest_new_input commitment;
  digest_enforce_equal expected_commitment_var public_commitment_var;;
  mret value_var.

Fixpoint output_vars (pub : ZkTransferPublicInputs) (index : nat) (outputs : list ZkNoteOutputWitness) :
  synth (list u64_var) :=
  match outputs with
  | [] => mret []
  | output :: outputs' =>
      value_var ← output_var pub index output;
      total_output_values ← output_vars pub (S index) outputs';
      mret (value_var :: total_output_values)
  end.

(** [generate_constraints], from the first allocation on. *)
Definition synthesize (pub : ZkTransferPublicInputs) (witness : ZkTransferWitness) : synth unit :=
  merkle_root_var ← digest_new_input (pub_merkle_root pub);
  fee_var ← u64_new_input (pub_fee pub);
  total_input_values ← input_vars merkle_root_var (wit_inputs witness);
  total_output_values ← output_vars pub 0 (wit_outputs witness);
  total_inputs_var ← wrapping_add_many total_input_values;
  total_outputs_var ← wrapping_add_many total_output_values;
  expected_inputs_var ← wrapping_add_many [total_outputs_var; fee_var];
  u64_enforce_equal total_inputs_var expected_inputs_var.

Definition generate_constraints (c : ZkTransferCircuit) : synth unit :=
  let pub := circuit_public_inputs c in
  let witness := circuit_witness c in
  if bool_decide (wit_inputs witness = []) || bool_decide (wit_outputs witness = [])
     || negb (length (wit_outputs witness) =? length (output_commitments pub))%nat
  then io_err SynthesisError.Unsatisfiable
  else
    lift (map_err (fun _ => SynthesisError.Unsatisfiable) (verify_zk_transfer_public_inputs pub witness));;
    synthesize pub witness.
End synthesis.

(** ** Proofs and the transactions that carry them *)

(** Groth16 over the circuit: keys, proofs, proving, verifying against field
    elements, and the encoding of a proof. *)
Class Groth16 `{Gadgets} := {
  zk_proof : Type;
  zk_proving_key : Type;
  zk_verifying_key : Type;
  zk_prepared_key : Type;
  prepare_verifying_key : zk_verifying_key -> zk_prepared_key;
  create_random_proof : ZkTransferCircuit -> zk_proving_key -> bytes -> outcome string zk_proof;
  verify_proof_elements :
    zk_prepared_key -> zk_proof -> list field_element -> outcome string bool;
  serialize_compressed : zk_proof -> outcome string bytes;
  deserialize_compressed : bytes -> outcome string zk_proof;
}.

Module ZkTransferProofSystemError.
Inductive t :=
| PublicInputsEncodingFailed
| InvalidWitness (e : ZkTransferError.t)
| ProvingFailed (message : string)
| VerificationFailed (message : string).
End ZkTransferProofSystemError.

Module AnonTransactionError.
Inductive t :=
| ProofSerializationFailed (message : string)
| ProofDeserializationFailed (message : string)
| VerificationFailed (e : ZkTransferProofSystemError.t).
End AnonTransactionError.

Record AnonTransaction := {
  anon_merkle_root : bytes;
  anon_fee : Z;
  anon_output_commitments : list bytes;
  anon_proof : bytes;
}.

Section proofs.
Context `{Sha256, Groth16}.

Definition encoded {A} (m : synth A) : io constraint_system ZkTransferProofSystemError.t A :=
  io_map_err (fun _ => ZkTransferProofSystemError.PublicInputsEncodingFailed) m.

(** The loop over the output commitments. *)
Fixpoint encode_commitments (commitments : list bytes) :
  io constraint_system ZkTransferProofSystemError.t unit :=
  match commitments with
  | [] => mret tt
  | commitment :: commitments' =>
      encoded (digest_new_input commitment);;
      encode_commitments commitments'
  end.

Definition zk_transfer_public_inputs_to_field_elements (pub : ZkTransferPublicInputs) :
  outcome ZkTransferProofSystemError.t (list field_element) :=
  let allocate :=
    encoded (digest_new_input (pub_merkle_root pub));;
    encoded (u64_new_input (pub_fee pub));;
    encode_commitments (output_commitments pub) in
  let '(r, cs) := run_io allocate new_ref in
  r;;
  ok_or ZkTransferProofSystemError.PublicInputsEncodingFailed (mapM id (assigned_instance cs)).

Definition generate_zk_transfer_proof (pk : zk_proving_key) (pub : ZkTransferPublicInputs)
    (witness : ZkTransferWitness) (rng : bytes) :
  outcome ZkTransferProofSystemError.t zk_proof :=
  map_err ZkTransferProofSystemError.InvalidWitness
    (verify_zk_transfer_public_inputs pub witness);;
  map_err ZkTransferProofSystemError.ProvingFailed
    (create_random_proof {| circuit_public_inputs := pub; circuit_witness := witness |} pk rng).

Definition verify_zk_transfer_proof_with_prepared_key (pvk : zk_prepared_key)
    (pub : ZkTransferPublicInputs) (proof : zk_proof) :
  outcome ZkTransferProofSystemError.t bool :=
  field_elements ← zk_transfer_public_inputs_to_field_elements pub;
  map_err ZkTransferProofSystemError.VerificationFailed
    (verify_proof_elements pvk proof field_elements).

Definition verify_zk_transfer_proof (vk : zk_verifying_key) (pub : ZkTransferPublicInputs)
    (proof : zk_proof) : outcome ZkTransferProofSystemError.t bool :=
  verify_zk_transfer_proof_with_prepared_key (prepare_verifying_key vk) pub proof.

Definition AnonTransaction_new (pub : ZkTransferPublicInputs) (proof : zk_proof) :
  outcome AnonTransactionError.t AnonTransaction :=
  proof_bytes ← map_err AnonTransactionError.ProofSerializationFailed
                  (serialize_compressed proof);
  Ok {| anon_merkle_root := pub_merkle_root pub; anon_fee := pub_fee pub;
        anon_output_commitments := output_commitments pub; anon_proof := proof_bytes |}.

Definition public_inputs (tx : AnonTransaction) : ZkTransferPublicInputs := {|
  pub_merkle_root := anon_merkle_root tx; pub_fee := anon_fee tx;
  output_commitments := anon_output_commitments tx |}.

Definition decode_proof (tx : AnonTransaction) : outcome AnonTransactionError.t zk_proof :=
  map_err AnonTransactionError.ProofDeserializationFailed
    (deserialize_compressed (anon_proof tx)).

Definition anon_verify (tx : AnonTransaction) (vk : zk_verifying_key) :
  outcome AnonTransactionError.t bool :=
  proof ← decode_proof tx;
  map_err AnonTransactionError.VerificationFailed
    (verify_zk_transfer_proof vk (public_inputs tx) proof).

Definition anon_verify_with_prepared_key (tx : AnonTransaction) (pvk : zk_prepared_key) :
  outcome AnonTransactionError.t bool :=
  proof ← decode_proof tx;
  map_err AnonTransactionError.VerificationFailed
    (verify_zk_transfer_proof_with_prepared_key pvk (public_inputs tx) proof).

End proofs.

(** ** The laws of the gadgets *)

Section laws.
Context `{Gadgets}.

(** From any system the computation returns; what it returns satisfies [Q], it
    allocates the elements [xs] as instance variables, and the constraints it
    adds are satisfied exactly when [P] holds. *)
Definition adds {A} (m : synth A) (P : Prop) (Q : A -> Prop) (xs : list field_element) : Prop :=
  forall cs, exists a cs', run_io m cs = (Ok a, cs') /\ Q a /\
    assigned_instance cs' = assigned_instance cs ++ (Some <$> xs) /\
    (is_satisfied cs' = true <-> is_satisfied cs = true /\ P).

(** The documented behaviour: an allocated variable has the value it is given;
    an operation has the value of the function it is named after, and its own
    constraints hold of it; an equality is satisfied when the values are equal.
    A sum is taken modulo [2^64]. *)
Class GadgetsOk `{Sha256} : Prop := {
  new_ref_empty : assigned_instance new_ref = [] /\ is_satisfied new_ref = true;
  constant_vec_value b : u8_value <$> constant_vec b = b;
  new_witness_vec_adds b : adds (new_witness_vec b) True (fun v => u8_value <$> v = b) [];
  u64_new_witness_adds z : u64 z -> adds (u64_new_witness z) True (fun v => u64_value v = z) [];
  u64_new_input_adds z : u64 z -> adds (u64_new_input z) True (fun v => u64_value v = z) (u64_elements z);
  digest_new_witness_adds b : is_array_32 b ->
    adds (digest_new_witness b) True (fun v => digest_value v = b) [];
  digest_new_input_adds b : is_array_32 b ->
    adds (digest_new_input b) True (fun v => digest_value v = b) (digest_elements b);
  u64_to_bytes_le_adds v :
    adds (u64_to_bytes_le v) True (fun bs => u8_value <$> bs = le_bytes 8 (u64_value v)) [];
  digest_to_bytes_le_adds v :
    adds (digest_to_bytes_le v) True (fun bs => u8_value <$> bs = digest_value v) [];
  evaluate_adds bs : adds (evaluate bs) True (fun v => digest_value v = sha256 (u8_value <$> bs)) [];
  wrapping_add_many_adds vs : vs <> [] -> Z.of_nat (length vs) < 2 ^ 64 ->
    adds (wrapping_add_many vs) True (fun v => u64_value v = wrap 64 (sumZ u64_value vs)) [];
  u64_enforce_equal_adds v v' : adds (u64_enforce_equal v v') (u64_value v = u64_value v') (fun _ => True) [];
  digest_enforce_equal_adds v v' :
    adds (digest_enforce_equal v v') (digest_value v = digest_value v') (fun _ => True) [];
}.

Lemma adds_ret {A} (a : A) (Q : A -> Prop) : Q a -> adds (mret a) True Q [].
Proof. intros q cs. exists a, cs. rewrite app_nil_r. split; [done|]. tauto. Qed.

Lemma adds_bind {A B} (m : synth A) (f : A -> synth B) P P' Q R xs ys :
  adds m P Q xs -> (forall a, Q a -> adds (f a) P' R ys) -> adds (m ≫= f) (P /\ P') R (xs ++ ys).
Proof.
  intros M F cs. destruct (M cs) as (a & cs1 & E1 & q & I1 & S1).
  destruct (F a q cs1) as (b & cs2 & E2 & r & I2 & S2).
  exists b, cs2. rewrite run_bind, E1, E2. split; [done|]. split; [done|].
  rewrite I2, I1, fmap_app, app_assoc. split; [done|]. tauto.
Qed.

Lemma adds_weaken {A} (m : synth A) P P' (Q Q' : A -> Prop) xs :
  adds m P Q xs -> (P <-> P') -> (forall a, Q a -> Q' a) -> adds m P' Q' xs.
Proof.
  intros M E F cs. destruct (M cs) as (a & cs' & E' & q & I & S).
  exists a, cs'. split; [done|]. split; [auto|]. split; [done|]. tauto.
Qed.

(** The result of a computation. *)
Lemma adds_map {A B} (m : synth A) (f : A -> B) P (Q : A -> Prop) (R : B -> Prop) xs :
  adds m P Q xs -> (forall a, Q a -> R (f a)) -> adds (a ← m; mret (f a)) P R xs.
Proof.
  intros M F cs. destruct (M cs) as (a & cs' & E & q & I & S). exists (f a), cs'.
  rewrite run_bind, E. split; [done|]. split; [auto|]. done.
Qed.

(** An operation without instance variables, whose constraints hold. *)
Lemma adds_then {A B} (m : synth A) (f : A -> synth B) P Q R ys :
  adds m True Q [] -> (forall a, Q a -> adds (f a) P R ys) -> adds (m ≫= f) P R ys.
Proof.
  intros M F. eapply adds_weaken; [exact (adds_bind m f True P Q R [] ys M F)|tauto|done].
Qed.
End laws.

(** ** What the constraints say *)

(** Values of the types of the source: 64-bit amounts, arrays of 32 bytes. *)
Definition input_typed (i : ZkNoteInputWitness) : Prop :=
  u64 (in_value i) /\ is_array_32 (leaf (in_merkle_proof i)) /\
  Forall is_array_32 (siblings (in_merkle_proof i)).

Record transfer_typed (pub : ZkTransferPublicInputs) (w : ZkTransferWitness) : Prop := {
  typed_inputs : Forall input_typed (wit_inputs w) /\ Z.of_nat (length (wit_inputs w)) < 2 ^ 64;
  typed_outputs : Forall (fun o => u64 (out_value o)) (wit_outputs w) /\
    Z.of_nat (length (wit_outputs w)) < 2 ^ 64;
  typed_public : is_array_32 (pub_merkle_root pub) /\ u64 (pub_fee pub) /\
    Forall is_array_32 (output_commitments pub);
}.

(** The key of an input opens the leaf of a path that leads to the root. *)
Definition input_opened `{Sha256} (root : bytes) (i : ZkNoteInputWitness) : Prop :=
  compute_commitment (in_value i) (derive_note_recipient_public_key (in_spending_private_key i))
    (in_blinding i) = leaf (in_merkle_proof i) /\
  compute_note_merkle_root_from_proof (in_merkle_proof i) = root.

Definition output_opened `{Sha256} (o : ZkNoteOutputWitness) (c : bytes) : Prop :=
  compute_commitment (out_value o) (out_recipient_public_key o) (out_blinding o) = c.

(** The relation of the circuit: the amounts balance modulo [2^64]. *)
Record circuit_ok `{Sha256} (pub : ZkTransferPublicInputs) (w : ZkTransferWitness) : Prop := {
  ck_inputs : Forall (input_opened (pub_merkle_root pub)) (wit_inputs w);
  ck_outputs : Forall2 output_opened (wit_outputs w) (output_commitments pub);
  ck_balance : wrap 64 (inputs_total w) = wrap 64 (outputs_total w + pub_fee pub);
}.

(** The instance variables of a circuit, in their order. *)
Definition public_elements `{Gadgets} (pub : ZkTransferPublicInputs) : list field_element :=
  digest_elements (pub_merkle_root pub) ++ u64_elements (pub_fee pub) ++
  concat (digest_elements <$> output_commitments pub).

Section circuit_lemmas.
Context `{Sha256Ok, !Gadgets, !GadgetsOk}.

Lemma sha256_bytes_adds bs b : u8_value <$> bs = b ->
  adds (sha256_bytes bs) True (fun v => digest_value v = sha256 b) [].
Proof. intros <-. apply evaluate_adds. Qed.

Lemma derive_var_adds key key_var : u8_value <$> key_var = key ->
  adds (derive_recipient_public_key_var key_var) True
    (fun v => digest_value v = derive_note_recipient_public_key key) [].
Proof.
  intros <-. apply sha256_bytes_adds. unfold constant_bytes. by rewrite fmap_app, constant_vec_value.
Qed.

Lemma note_commitment_var_adds v pk b value pk_var b_var :
  u64_value value = v -> u8_value <$> pk_var = pk -> u8_value <$> b_var = b ->
  adds (note_commitment_var value pk_var b_var) True (fun d => digest_value d = compute_commitment v pk b) [].
Proof.
  intros <- <- <-. eapply adds_then; [apply u64_to_bytes_le_adds|]. intros data E.
  apply sha256_bytes_adds. by rewrite !fmap_app, E.
Qed.

Lemma merkle_leaf_hash_var_adds c c_var : digest_value c_var = c ->
  adds (merkle_leaf_hash_var c_var) True (fun d => digest_value d = hash_leaf c) [].
Proof.
  intros <-. eapply adds_then; [apply digest_to_bytes_le_adds|]. intros bs E.
  apply sha256_bytes_adds. unfold constant_bytes. by rewrite fmap_app, constant_vec_value, E.
Qed.

Lemma merkle_internal_hash_var_adds l r l_var r_var : digest_value l_var = l -> digest_value r_var = r ->
  adds (merkle_internal_hash_var l_var r_var) True (fun d => digest_value d = hash_internal l r) [].
Proof.
  intros <- <-. eapply adds_then; [apply digest_to_bytes_le_adds|]. intros ls El.
  eapply adds_then; [apply digest_to_bytes_le_adds|]. intros rs Er.
  apply sha256_bytes_adds. unfold constant_bytes. by rewrite !fmap_app, constant_vec_value, El, Er.
Qed.

Lemma path_var_adds h index path h_var : Forall is_array_32 path -> digest_value h_var = h ->
  adds (path_var h_var index path) True (fun d => digest_value d = climb h index path) [].
Proof.
  intros F. revert h index h_var. induction F as [|s path W F IH]; intros h index h_var E.
  { by apply adds_ret. }
  cbn [path_var climb]. eapply adds_then; [by apply digest_new_witness_adds|]. intros s_var Es.
  apply (adds_then _ _ _ (fun d => digest_value d =
    if (index mod 2 =? 0)%nat then hash_internal h s else hash_internal s h)); [|intros next En; by apply IH].
  destruct (index mod 2 =? 0)%nat; by apply merkle_internal_hash_var_adds.
Qed.

Lemma input_var_adds root root_var i : input_typed i -> digest_value root_var = root ->
  adds (input_var root_var i) (input_opened root i) (fun v => u64_value v = in_value i) [].
Proof.
  intros (V & Lf & Sb) Er. unfold input_var.
  eapply adds_then; [by apply u64_new_witness_adds|]. intros value_var Ev.
  eapply adds_then; [apply new_witness_vec_adds|]. intros key_var Ek.
  eapply adds_then; [apply new_witness_vec_adds|]. intros blinding_var Eb.
  eapply adds_then; [by apply digest_new_witness_adds|]. intros leaf_var El.
  eapply adds_then; [apply (derive_var_adds _ _ Ek)|]. intros pk_var Ep.
  eapply adds_then; [apply digest_to_bytes_le_adds|]. intros pk_bytes Epb. rewrite Ep in Epb.
  eapply adds_then; [apply (note_commitment_var_adds _ _ _ _ _ _ Ev Epb Eb)|]. intros c_var Ec.
  eapply adds_weaken; [|reflexivity|intros v Q; exact Q]. unfold input_opened. rewrite <- Ec, <- El at 1.
  eapply (adds_bind _ _ _ _ _ _ [] []); [apply digest_enforce_equal_adds|]. intros [] _.
  eapply adds_then; [apply (merkle_leaf_hash_var_adds _ _ El)|]. intros leaf_hash Eh.
  eapply adds_then; [apply (path_var_adds _ _ _ _ Sb Eh)|]. intros current Ecur.
  eapply adds_weaken; [eapply adds_map; [apply digest_enforce_equal_adds|intros _ _; exact Ev]| |done].
  by rewrite Ecur, Er.
Qed.

Lemma input_vars_adds root root_var l : Forall input_typed l -> digest_value root_var = root ->
  adds (input_vars root_var l) (Forall (input_opened root) l) (fun vs => u64_value <$> vs = in_value <$> l) [].
Proof.
  intros F Er. induction F as [|i l T F IH].
  { eapply adds_weaken; [by apply (adds_ret [] (fun vs => vs = []))| |by intros a ->]. by rewrite Forall_nil. }
  cbn [input_vars]. eapply adds_weaken;
    [eapply (adds_bind _ _ _ _ _ _ [] []); [by apply input_var_adds|]| |intros a Q; exact Q].
  - intros v Ev. eapply adds_map; [exact IH|]. intros vs Evs. cbn. by rewrite Ev, Evs.
  - by rewrite Forall_cons.
Qed.
Lemma output_var_adds pub index o c : u64 (out_value o) -> is_array_32 c ->
  output_commitments pub !! index = Some c ->
  adds (output_var pub index o) (output_opened o c) (fun v => u64_value v = out_value o) (digest_elements c).
Proof.
  intros V W L. unfold output_var.
  eapply adds_then; [by apply u64_new_witness_adds|]. intros value_var Ev.
  eapply adds_then; [apply new_witness_vec_adds|]. intros pk_var Ek.
  eapply adds_then; [apply new_witness_vec_adds|]. intros blinding_var Eb.
  eapply adds_then; [apply (note_commitment_var_adds _ _ _ _ _ _ Ev Ek Eb)|]. intros c_var Ec.
  rewrite L. eapply adds_then; [by apply (adds_ret c (fun x => x = c))|]. intros x ->.
  unfold output_opened. rewrite <- Ec, <- (app_nil_r (digest_elements c)).
  apply (adds_weaken _ (True /\ digest_value c_var = c) _ (fun v => u64_value v = out_value o));
    [|tauto|done].
  eapply adds_bind; [by apply digest_new_input_adds|].
  intros public_var Ep. rewrite <- Ep. eapply adds_map; [apply digest_enforce_equal_adds|]. intros _ _. exact Ev.
Qed.

Lemma output_vars_adds pub pre l cs : Forall (fun o => u64 (out_value o)) l -> Forall is_array_32 cs ->
  output_commitments pub = pre ++ cs -> length l = length cs ->
  adds (output_vars pub (length pre) l) (Forall2 output_opened l cs)
    (fun vs => u64_value <$> vs = out_value <$> l) (concat (digest_elements <$> cs)).
Proof.
  intros F. revert pre cs. induction F as [|o l V F IH]; intros pre cs W E L.
  { destruct cs; [|done]. eapply adds_weaken; [by apply (adds_ret [] (fun vs => vs = []))| |by intros a ->].
    by split; [constructor|]. }
  destruct cs as [|c cs]; [done|]. injection L as L. apply Forall_cons in W as [Wc W].
  cbn [output_vars fmap list_fmap concat]. eapply adds_weaken; [eapply adds_bind| |intros a Q; exact Q].
  - apply (output_var_adds pub _ o c V Wc). rewrite E. by apply list_lookup_middle.
  - intros v Ev. specialize (IH (pre ++ [c]) cs W ltac:(by rewrite E, <- app_assoc) L).
    rewrite length_app, Nat.add_1_r in IH. eapply adds_map; [exact IH|]. intros vs Evs. cbn. by rewrite Ev, Evs.
  - by rewrite Forall2_cons.
Qed.

(** The sum of variables. *)
Lemma wrapping_add_many_values vs l : u64_value <$> vs = l -> l <> [] -> Z.of_nat (length l) < 2 ^ 64 ->
  adds (wrapping_add_many vs) True (fun v => u64_value v = wrap 64 (sumZ id l)) [].
Proof.
  intros <- N L. rewrite length_fmap in L. eapply adds_weaken; [apply wrapping_add_many_adds|done|]; [|done|].
  - intros ->. by apply N.
  - intros v ->. by rewrite sumZ_fmap.
Qed.

Lemma synthesize_adds pub w : transfer_typed pub w -> wit_inputs w <> [] -> wit_outputs w <> [] ->
  length (wit_outputs w) = length (output_commitments pub) ->
  adds (synthesize pub w) (circuit_ok pub w) (fun _ => True) (public_elements pub).
Proof.
  intros [[Fi Li] [Fo Lo] (Wr & Wf & Wc)] Ni No L. unfold synthesize, public_elements.
  set (ins := Forall (input_opened (pub_merkle_root pub)) (wit_inputs w)).
  set (outs := Forall2 output_opened (wit_outputs w) (output_commitments pub)).
  set (sums := wrap 64 (inputs_total w) = wrap 64 (outputs_total w + pub_fee pub)).
  apply (adds_weaken _ (True /\ (True /\ (ins /\ (outs /\ sums)))) _ (fun _ => True)); [| |done].
  2: { split; [intros (_ & _ & I & O & B); by split|intros [I O B]; tauto]. }
  eapply adds_bind; [by apply digest_new_input_adds|]. intros root_var Er.
  eapply adds_bind; [by apply u64_new_input_adds|]. intros fee_var Ef.
  eapply (adds_bind _ _ _ _ _ _ [] (concat (digest_elements <$> output_commitments pub)));
    [by apply input_vars_adds|]. intros in_vars Ei.
  rewrite <- (app_nil_r (concat _)). eapply adds_bind; [by apply (output_vars_adds pub [])|]. intros out_vars Eo.
  eapply adds_then; [apply (wrapping_add_many_values _ _ Ei)|].
  { by destruct (wit_inputs w). }
  { by rewrite length_fmap. }
  intros ti Eti. eapply adds_then; [apply (wrapping_add_many_values _ _ Eo)|].
  { by destruct (wit_outputs w). }
  { by rewrite length_fmap. }
  intros to Eto. eapply adds_then; [by apply (wrapping_add_many_values [to; fee_var] [u64_value to; u64_value fee_var])|].
  intros ex Eex. eapply adds_weaken; [apply u64_enforce_equal_adds| |done].
  assert (forall a b, sumZ id [a; b] = a + b) as S2 by (intros a b; unfold sumZ; cbn; lia).
  rewrite Eti, Eex, Eto, Ef, S2, !sumZ_fmap, wrap_add_l. done.
Qed.
End circuit_lemmas.

(** ** Against the native check *)

(** The rules of a note that the circuit does not have. *)
Definition note_allowed (v : Z) (pk b : bytes) : Prop := v <> 0 /\ pk <> ZERO_32 /\ b <> ZERO_32.

Section native.
Context `{Sha256}.

Definition input_allowed (i : ZkNoteInputWitness) : Prop :=
  in_spending_private_key i <> ZERO_32 /\
  note_allowed (in_value i) (derive_note_recipient_public_key (in_spending_private_key i)) (in_blinding i).

Definition output_allowed (o : ZkNoteOutputWitness) : Prop :=
  note_allowed (out_value o) (out_recipient_public_key o) (out_blinding o).

Lemma Note_new_iff v pk b c :
  Note_new v pk b = Ok {| commitment := c |} <-> compute_commitment v pk b = c /\ note_allowed v pk b.
Proof.
  rewrite Note_new_Ok. unfold note_allowed. split.
  - by intros (? & ? & ? & [= ->]).
  - by intros (<- & ? & ? & ?).
Qed.

Lemma input_ok_iff root i : input_ok root i <-> input_opened root i /\ input_allowed i.
Proof.
  unfold input_opened, input_allowed. split.
  - by intros [K [E N]%Note_new_iff R].
  - intros ((E & R) & K & N). split; [done|by apply Note_new_iff|done].
Qed.

Lemma inputs_ok_iff root l :
  Forall (input_ok root) l <-> Forall (input_opened root) l /\ Forall input_allowed l.
Proof.
  rewrite <- Forall_and. split; intros F; (eapply Forall_impl; [exact F|]); intros i; apply input_ok_iff.
Qed.

Lemma outputs_ok_iff l cs : Forall2 output_ok l cs <-> Forall2 output_opened l cs /\ Forall output_allowed l.
Proof.
  split.
  - intros F. induction F as [|o c l cs O F [IH1 IH2]]; [by split|].
    apply Note_new_iff in O as [E N]. by split; constructor.
  - intros [F A]. induction F as [|o c l cs O F IH]; [constructor|]. apply Forall_cons in A as [Ao A].
    constructor; [by apply Note_new_iff|auto].
Qed.

Lemma wrap_eq_small a b : 0 <= a < 2 ^ 64 -> 0 <= b < 2 ^ 64 -> wrap 64 a = wrap 64 b <-> a = b.
Proof. intros A B. by rewrite !wrap_small by done. Qed.

Lemma typed_amounts pub w : transfer_typed pub w -> amounts_ok pub w.
Proof.
  intros [[Fi _] [Fo _] (_ & [Wf _] & _)]. split; [|split; [|done]].
  - eapply Forall_impl; [exact Fi|]. by intros i [[V _] _].
  - eapply Forall_impl; [exact Fo|]. by intros o [V _].
Qed.

Lemma transfer_ok_iff pub w : amounts_ok pub w -> wit_inputs w <> [] -> wit_outputs w <> [] ->
  transfer_ok pub w <->
  circuit_ok pub w /\ Forall input_allowed (wit_inputs w) /\ Forall output_allowed (wit_outputs w) /\
  inputs_total w < 2 ^ 64 /\ outputs_total w + pub_fee pub < 2 ^ 64.
Proof.
  intros (Fi & Fo & Ff) Ni No. pose proof (sumZ_nonneg _ _ Fi) as Pi. pose proof (sumZ_nonneg _ _ Fo) as Po.
  fold (inputs_total w) in Pi. fold (outputs_total w) in Po. split.
  - intros [[_ Is] [_ Os] B R]. apply outputs_ok_iff in Os as [Oo Oa].
    apply inputs_ok_iff in Is as [Io Ia].
    split; [split; [done|done|by rewrite B]|]. split; [done|]. split; [done|]. lia.
  - intros ([Io Oo B] & Ia & Oa & Ri & Ro). split.
    + split; [done|]. by apply inputs_ok_iff.
    + split; [done|]. by apply outputs_ok_iff.
    + rewrite !wrap_small in B by (unfold inputs_total, outputs_total in *; lia). exact B.
    + done.
Qed.

(** The check returns. *)
Lemma check_input_returns pub index t i : check_input pub index t i <> Panic.
Proof.
  unfold check_input. case_bool_decide; [done|].
  apply bind_not_Panic; [apply map_err_not_Panic; unfold Note_new; by repeat case_match|].
  intros n _. case_bool_decide; [|done]. case_bool_decide; [|done]. apply ok_or_not_Panic.
Qed.

Lemma check_inputs_returns pub index t l : check_inputs pub index t l <> Panic.
Proof.
  revert index t. induction l as [|i l IH]; intros index t; [done|].
  apply bind_not_Panic; [apply check_input_returns|]. intros t' _. apply IH.
Qed.

Lemma check_outputs_returns pub index t l pre cs :
  output_commitments pub = pre ++ cs -> index = Z.of_nat (length pre) -> length l = length cs ->
  check_outputs pub index t l <> Panic.
Proof.
  revert index t pre cs. induction l as [|o l IH]; intros index t pre cs E -> L; [done|].
  destruct cs as [|c cs]; [done|]. injection L as L. cbn [check_outputs].
  apply bind_not_Panic.
  - unfold check_output. rewrite Nat2Z.id, E, list_lookup_middle by done.
    apply bind_not_Panic; [apply map_err_not_Panic; unfold Note_new; by repeat case_match|].
    intros n _. cbn [expect mbind outcome_bind]. case_bool_decide; [|done]. apply ok_or_not_Panic.
  - intros t' _. apply (IH _ _ (pre ++ [c]) cs); [by rewrite <- app_assoc| |done].
    rewrite length_app. cbn [length]. lia.
Qed.

Lemma verify_returns pub w : verify_zk_transfer_public_inputs pub w <> Panic.
Proof.
  unfold verify_zk_transfer_public_inputs. case_bool_decide; [done|]. case_bool_decide; [done|].
  destruct (Nat.eqb_spec (length (wit_outputs w)) (length (output_commitments pub))) as [L|L]; [|done].
  cbn [negb]. apply bind_not_Panic; [apply check_inputs_returns|]. intros ti _.
  apply bind_not_Panic; [by apply (check_outputs_returns pub _ _ _ [] (output_commitments pub))|]. intros to _.
  apply bind_not_Panic; [apply ok_or_not_Panic|]. intros e _. by case_match.
Qed.
End native.

(** ** Properties *)

Section properties.
Context `{Sha256Ok, !Gadgets, !GadgetsOk}.

Lemma run_adds {A} (m : synth A) P (Q : A -> Prop) xs : adds m P Q xs -> exists a cs,
  run_io m new_ref = (Ok a, cs) /\ assigned_instance cs = Some <$> xs /\ (is_satisfied cs = true <-> P).
Proof.
  intros M. destruct (M new_ref) as (a & cs & E & _ & I & S), new_ref_empty as [I0 S0].
  exists a, cs. split; [done|]. split; [by rewrite I, I0|]. tauto.
Qed.

(** What an accepted transfer gives the circuit. *)
Lemma accepted_synthesis pub w : transfer_typed pub w -> verify_zk_transfer_public_inputs pub w = Ok tt ->
  exists cs, run_io (generate_constraints {| circuit_public_inputs := pub; circuit_witness := w |}) new_ref =
    (Ok tt, cs) /\ is_satisfied cs = true /\ assigned_instance cs = Some <$> public_elements pub.
Proof.
  intros T V. pose proof (typed_amounts pub w T) as A. pose proof V as O. apply verify_transfer_Ok in O; [|done].
  pose proof O as [[Ni _] [No Os] _ _]. pose proof (Forall2_length _ _ _ Os) as L.
  apply transfer_ok_iff in O as [C _]; [|done..].
  destruct (run_adds _ _ _ _ (synthesize_adds pub w T Ni No L)) as ([] & cs & E & I & S).
  exists cs. unfold generate_constraints. cbn [circuit_public_inputs circuit_witness].
  rewrite !bool_decide_false by done. rewrite L, Nat.eqb_refl. cbn [orb negb].
  rewrite run_bind, run_lift, V. cbn [map_err]. rewrite E. split; [done|]. split; [by apply S|done].
Qed.

(** [C38] [generate_constraints] against the native check, for
    any gadgets that compute what they are named after and any transfer of
    values of their types, with less than 2^64 inputs and outputs: when the
    check accepts it the synthesis succeeds, all its constraints are satisfied, and
    the instance variables it allocates are the root, the fee and the
    commitments, in this order; when the check refuses it, for any reason, the
    synthesis is unsatisfiable before it allocates anything. *)
Theorem circuit_complete pub w : transfer_typed pub w ->
  let '(r, cs) :=
    run_io (generate_constraints {| circuit_public_inputs := pub; circuit_witness := w |}) new_ref in
  match verify_zk_transfer_public_inputs pub w with
  | Ok _ => r = Ok tt /\ is_satisfied cs = true /\ assigned_instance cs = Some <$> public_elements pub
  | _ => r = Err SynthesisError.Unsatisfiable /\ cs = new_ref
  end.
Proof.
  intros T. destruct (verify_zk_transfer_public_inputs pub w) as [[]|e|] eqn:V.
  - by destruct (accepted_synthesis pub w T V) as (cs & -> & S & I).
  - unfold generate_constraints. cbn [circuit_public_inputs circuit_witness].
    destruct (_ || _); [done|]. rewrite run_bind, run_lift, V. done.
  - by apply verify_returns in V.
Qed.

(** [C40] What the constraints themselves say, without the
    native check that a prover can leave out: for any gadgets that compute
    what they are named after, the synthesis of a transfer of values of their
    types, with at least one input and as many outputs, at least one, as
    commitments, and less than 2^64 of each, succeeds and its constraints are satisfied exactly when every input opens
    a note on a path to the root, every output opens its commitment, and the
    amounts balance modulo 2^64.  The native check accepts exactly those of
    these transfers that also have no zero key, value or blinding and whose
    sums stay below 2^64. *)
Theorem circuit_relation pub w : transfer_typed pub w -> wit_inputs w <> [] -> wit_outputs w <> [] ->
  length (wit_outputs w) = length (output_commitments pub) ->
  (exists cs, run_io (synthesize pub w) new_ref = (Ok tt, cs) /\
     (is_satisfied cs = true <-> circuit_ok pub w)) /\
  (verify_zk_transfer_public_inputs pub w = Ok tt <->
     circuit_ok pub w /\ Forall input_allowed (wit_inputs w) /\ Forall output_allowed (wit_outputs w) /\
     inputs_total w < 2 ^ 64 /\ outputs_total w + pub_fee pub < 2 ^ 64).
Proof.
  intros T Ni No L. split.
  - destruct (run_adds _ _ _ _ (synthesize_adds pub w T Ni No L)) as ([] & cs & E & _ & S). by exists cs.
  - pose proof (typed_amounts pub w T) as A. rewrite verify_transfer_Ok by done. by apply transfer_ok_iff.
Qed.

(** ** Proving and verifying end to end *)

(** A proof decodes from its encoding. *)
Class Groth16Ok `{!Groth16} : Prop := {
  proof_roundtrip : forall p, exists b,
    serialize_compressed p = Ok b /\ deserialize_compressed b = Ok p;
}.

(** Completeness of Groth16 for the keys of a circuit's shape: a synthesis
    whose constraints are all satisfied gives a proof that verifies against
    the instance variables it allocated. *)
Definition groth16_complete `{!Groth16} (c : ZkTransferCircuit) (pk : zk_proving_key)
    (vk : zk_verifying_key) : Prop :=
  forall rng cs xs,
    run_io (generate_constraints c) new_ref = (Ok tt, cs) -> is_satisfied cs = true ->
    assigned_instance cs = Some <$> xs -> exists proof,
      create_random_proof c pk rng = Ok proof /\
      verify_proof_elements (prepare_verifying_key vk) proof xs = Ok true.

Lemma mapM_Some {A} (l : list A) : mapM id (Some <$> l) = Some l.
Proof. induction l as [|x l IH]; [done|]. cbn [fmap list_fmap mapM mbind option_bind id]. by rewrite IH. Qed.

Lemma encode_commitments_runs cs (s : constraint_system) : Forall is_array_32 cs -> exists s',
  run_io (encode_commitments cs) s = (Ok tt, s') /\
  assigned_instance s' = assigned_instance s ++ (Some <$> concat (digest_elements <$> cs)).
Proof.
  intros F. revert s. induction F as [|c cs W F IH]; intros s; [exists s; by rewrite app_nil_r|].
  destruct (digest_new_input_adds c W s) as (v & s1 & E1 & _ & I1 & _).
  destruct (IH s1) as (s2 & E2 & I2). exists s2. cbn [encode_commitments]. unfold encoded.
  rewrite run_bind, run_io_map_err, E1. cbn [fst snd map_err]. rewrite E2. split; [done|].
  rewrite I2, I1, <- app_assoc. cbn [fmap list_fmap concat]. by rewrite fmap_app.
Qed.

(** The verifier encodes the public inputs as the circuit allocates them. *)
Lemma field_elements pub : is_array_32 (pub_merkle_root pub) -> u64 (pub_fee pub) ->
  Forall is_array_32 (output_commitments pub) ->
  zk_transfer_public_inputs_to_field_elements pub = Ok (public_elements pub).
Proof.
  intros Wr Wf Wc. unfold zk_transfer_public_inputs_to_field_elements, public_elements, encoded.
  destruct (digest_new_input_adds _ Wr new_ref) as (v1 & s1 & E1 & _ & I1 & _).
  destruct (u64_new_input_adds _ Wf s1) as (v2 & s2 & E2 & _ & I2 & _).
  destruct (encode_commitments_runs _ s2 Wc) as (s3 & E3 & I3).
  rewrite run_bind, run_io_map_err, E1. cbn [fst snd map_err].
  rewrite run_bind, run_io_map_err, E2. cbn [fst snd map_err]. rewrite E3. cbn [mbind outcome_bind].
  rewrite I3, I2, I1, (proj1 new_ref_empty), app_nil_l, <- app_assoc, <- !fmap_app, mapM_Some. done.
Qed.

(** [C39] An honest transfer goes through, for any
    gadgets that compute what they are named after and any proof system that
    is complete for the circuit and decodes the proofs it encodes: from inputs
    of their types that the native check accepts, a proof is generated, the
    anonymous transaction that carries it is built, shows the same public
    inputs, and verifies under the verifying key; in particular the verifier
    encodes the public inputs in the order the circuit allocates them. *)
Theorem honest_transfer_verifies `{!Groth16, !Groth16Ok} pub w pk vk rng :
  transfer_typed pub w -> verify_zk_transfer_public_inputs pub w = Ok tt ->
  groth16_complete {| circuit_public_inputs := pub; circuit_witness := w |} pk vk ->
  exists proof tx,
    generate_zk_transfer_proof pk pub w rng = Ok proof /\ AnonTransaction_new pub proof = Ok tx /\
    public_inputs tx = pub /\ decode_proof tx = Ok proof /\ anon_verify tx vk = Ok true.
Proof.
  intros T V G. destruct (accepted_synthesis pub w T V) as (cs & E & S & I).
  destruct (G rng cs _ E S I) as (proof & Ep & Ev), (proof_roundtrip proof) as (b & Eb & Ed).
  set (tx := {| anon_merkle_root := pub_merkle_root pub; anon_fee := pub_fee pub;
                anon_output_commitments := output_commitments pub; anon_proof := b |}).
  assert (public_inputs tx = pub) as Epub by by destruct pub.
  assert (decode_proof tx = Ok proof) as Edec by (unfold decode_proof; cbn [anon_proof tx]; by rewrite Ed).
  exists proof, tx. split.
  { unfold generate_zk_transfer_proof. rewrite V. cbn [map_err mbind outcome_bind]. by rewrite Ep. }
  split; [unfold AnonTransaction_new; by rewrite Eb|]. split; [done|]. split; [done|].
  unfold anon_verify. rewrite Edec. cbn [mbind outcome_bind]. rewrite Epub.
  unfold verify_zk_transfer_proof, verify_zk_transfer_proof_with_prepared_key.
  destruct T as [_ _ (Wr & Wf & Wc)]. rewrite field_elements by done. cbn [mbind outcome_bind]. by rewrite Ev.
Qed.
End properties.

(** ** Witnesses *)

From S2P Require Import Concrete.
Import Concrete.Instances.

(** Gadgets that are their values: a system is its instance variables and
    whether every equality so far held. *)
Definition toy_system : Type := list (option byte) * bool.

Definition toy_input {A} (a : A) (xs : bytes) : io toy_system SynthesisError.t A :=
  Io (fun '(instance, ok) => (Ok a, (instance ++ (Some <$> xs), ok))).

Definition toy_equal (equal : bool) : io toy_system SynthesisError.t unit :=
  Io (fun '(instance, ok) => (Ok tt, (instance, ok && equal))).

#[local] Instance toy_gadgets : Gadgets := {|
  constraint_system := toy_system; u8_var := byte; u64_var := Z; digest_var := bytes; field_element := byte;
  new_ref := ([], true); assigned_instance := fst; is_satisfied := snd;
  u8_value := id; u64_value := id; digest_value := id; u64_elements := le_bytes 8; digest_elements := id;
  constant_vec := id; new_witness_vec := mret; u64_new_witness := mret;
  u64_new_input := fun z => toy_input z (le_bytes 8 z);
  digest_new_witness := mret; digest_new_input := fun b => toy_input b b;
  u64_to_bytes_le := fun z => mret (le_bytes 8 z); digest_to_bytes_le := mret;
  evaluate := fun b => mret (sha256 b);
  wrapping_add_many := fun vs => mret (wrap 64 (sumZ id vs));
  u64_enforce_equal := fun a b => toy_equal (bool_decide (a = b));
  digest_enforce_equal := fun a b => toy_equal (bool_decide (a = b)) |}.

Lemma toy_input_adds {A} (a : A) (Q : A -> Prop) (xs : bytes) : Q a -> adds (toy_input a xs) True Q xs.
Proof. intros q [instance ok]. exists a, (instance ++ (Some <$> xs), ok). split; [done|]. cbn. tauto. Qed.

Lemma toy_equal_adds (P : Prop) `{Decision P} : adds (toy_equal (bool_decide P)) P (fun _ => True) [].
Proof.
  intros [instance ok]. exists tt, (instance, ok && bool_decide P). split; [done|]. split; [done|].
  split; [by rewrite app_nil_r|]. cbn. by rewrite andb_true_iff, bool_decide_eq_true.
Qed.

#[local] Instance toy_gadgets_ok : GadgetsOk.
Proof.
  split; intros; first [by split | by apply list_fmap_id | by apply toy_input_adds
    | apply toy_equal_adds | by apply (@adds_ret toy_gadgets); cbn; rewrite ?list_fmap_id | done].
Qed.

(** A proof that is the list of instance variables of a satisfied circuit. *)
#[local] Instance toy_groth16 : Groth16 := {|
  zk_proof := bytes; zk_proving_key := unit; zk_verifying_key := unit; zk_prepared_key := unit;
  prepare_verifying_key := id;
  create_random_proof := fun c _ _ =>
    match run_io (generate_constraints c) new_ref with
    | (Ok _, (instance, true)) => ok_or "unassigned"%string (mapM id instance)
    | _ => Err "unsatisfied"%string
    end;
  verify_proof_elements := fun _ proof xs => Ok (bool_decide (proof = xs));
  serialize_compressed := Ok; deserialize_compressed := Ok |}.

#[local] Instance toy_groth16_ok : Groth16Ok.
Proof. split. intros p. by exists p. Qed.

Lemma toy_complete c : groth16_complete c tt tt.
Proof.
  intros rng [instance ok] xs E S I. cbn in S, I. exists xs. cbn [create_random_proof verify_proof_elements toy_groth16].
  rewrite E, S, I. split; [exact (f_equal (ok_or _) (mapM_Some xs))|]. by rewrite bool_decide_true.
Qed.

Lemma sample_typed : transfer_typed sample_public sample_witness.
Proof. split; by_eval. Qed.

Lemma circuit_complete_witness : exists cs : toy_system,
  run_io (generate_constraints {| circuit_public_inputs := sample_public; circuit_witness := sample_witness |})
    new_ref = (Ok tt, cs) /\ is_satisfied cs = true.
Proof.
  pose proof (circuit_complete sample_public sample_witness sample_typed) as G.
  destruct (run_io _ new_ref) as [r cs]. rewrite sample_verified in G. destruct G as (E & S & _).
  exists cs. split; [by rewrite E|exact S].
Defined.

Lemma honest_transfer_verifies_witness : exists (proof : bytes) (tx : AnonTransaction),
  proof <> [] /\ public_inputs tx = sample_public /\ decode_proof tx = Ok proof /\ anon_verify tx tt = Ok true.
Proof.
  destruct (honest_transfer_verifies (H3 := toy_groth16) sample_public sample_witness tt tt [] sample_typed sample_verified
    (toy_complete _)) as (proof & tx & E & _ & P & D & V).
  exists proof, tx. split; [|exact (conj P (conj D V))].
  assert ((fun r : outcome ZkTransferProofSystemError.t bytes => match r with Ok [] => false | _ => true end)
    (generate_zk_transfer_proof (tt : @zk_proving_key _ toy_groth16) sample_public sample_witness []) = true) as N
    by (vm_compute; reflexivity).
  rewrite E in N. intros ->. discriminate N.
Defined.

(** This proof system refuses the proof for other public inputs. *)
Example other_fee_refused : exists tx,
  (proof ← map_err (fun _ => "no proof"%string) (generate_zk_transfer_proof (tt : @zk_proving_key _ toy_groth16) sample_public sample_witness []);
   map_err (fun _ => "no transaction"%string)
     (AnonTransaction_new {| pub_merkle_root := pub_merkle_root sample_public; pub_fee := 6;
                             output_commitments := output_commitments sample_public |} proof)) = Ok tx /\
  anon_verify tx tt = Ok false.
Proof. eexists. split; vm_compute; reflexivity. Qed.

(** A note of value 1, the only leaf of its tree, and two outputs that are
    worth more than [2^64]. *)
Definition wrapping_witness : ZkTransferWitness :=
  let note_leaf := compute_commitment 1 (derive_note_recipient_public_key (array_32 21)) (array_32 31) in
  {| wit_inputs := [{| in_value := 1; in_spending_private_key := array_32 21; in_blinding := array_32 31;
                       in_merkle_proof := {| leaf_index := 0; leaf := note_leaf; siblings := [] |} |}];
     wit_outputs := [
       {| out_value := 2 ^ 64 - 1; out_recipient_public_key := array_32 41; out_blinding := array_32 51 |};
       {| out_value := 2; out_recipient_public_key := array_32 42; out_blinding := array_32 52 |}] |}.

Definition wrapping_public : ZkTransferPublicInputs := {|
  pub_merkle_root := root_of ((fun i => leaf (in_merkle_proof i)) <$> wit_inputs wrapping_witness);
  pub_fee := 0;
  output_commitments := (fun o => compute_commitment (out_value o) (out_recipient_public_key o)
                                    (out_blinding o)) <$> wit_outputs wrapping_witness |}.

(** Its constraints are satisfied, and the native check refuses it. *)
Lemma circuit_relation_witness :
  inputs_total wrapping_witness = 1 /\ outputs_total wrapping_witness = 2 ^ 64 + 1 /\
  (exists cs : toy_system, run_io (synthesize wrapping_public wrapping_witness) new_ref = (Ok tt, cs) /\
     is_satisfied cs = true) /\
  verify_zk_transfer_public_inputs wrapping_public wrapping_witness <> Ok tt.
Proof.
  split; [reflexivity|]. split; [reflexivity|].
  assert (transfer_typed wrapping_public wrapping_witness) as T by (split; by_eval).
  destruct (circuit_relation wrapping_public wrapping_witness T ltac:(discriminate) ltac:(discriminate) eq_refl)
    as [(cs & E & S) V].
  split.
  - exists cs. split; [exact E|]. apply S.
    split; [unfold input_opened; by_eval|repeat constructor; reflexivity|by_eval].
  - intros (_ & _ & _ & _ & R)%V. revert R. by vm_compute.
Defined.
