(* ===== verification/Storage.v ===== *)
(** * Storage of the node ([src/storage/mod.rs])

    Saving and loading of blocks, transactions, accounts, contracts, contract
    storage, notes, roots and validators, over the store of file [Store] and
    the keys of file [Keys]. *)

From S2P Require Import Prelude Orders Bytes Externals Types Hash Notes Keys Store.

(** A [NoteMerkleHash] as it is serialised. *)
Record Hash32 := { hash32 : bytes }.

#[global] Instance Hash32_wf : WellFormed Hash32 := fun h => is_array_32 (hash32 h).

#[global] Instance ViewableNote_wf : WellFormed ViewableNote := fun n =>
  is_array_32 (commitment (note n)) /\ is_array_32 (view_hint n) /\ u16 (note_shard_id n).

(** The entries of a [BTreeMap], in order. *)
Definition btree_entries (m : gmap bytes bytes) : list (bytes * bytes) := entries m.

Section storage.
Context {S : Type} `{Sha256, ChainCodecs, !Bincode ViewableNote, !Bincode Hash32, KvStore S}.

(** [&bincode::serialize(value)?] *)
Definition encode {A} `{Bincode A} (x : A) : io S StorageError bytes :=
  lift (map_err StorageSerialization (bincode_serialize x)).

(** [match self.get(key)? { Some(bytes) => Ok(Some(deserialize(&bytes)?)), .. }] *)
Definition load {A} `{Bincode A} (key : bytes) : io S StorageError (option A) :=
  o ← get key;
  match o with
  | Some b => x ← lift (map_err StorageSerialization (bincode_deserialize b)); mret (Some x)
  | None => mret None
  end.

Definition save_block (block : Block) : io S StorageError bytes :=
  block_hash ← lift (hash_block_header (blk_header block));
  encoded ← encode block;
  put (block_key (hdr_height (blk_header block))) encoded;;
  height ← encode (hdr_height (blk_header block));
  put (height_index_key block_hash) height;;
  mret block_hash.

Definition get_block (height : Z) : io S StorageError (option Block) := load (block_key height).

Definition save_transaction (tx : Transaction) : io S StorageError bytes :=
  tx_hash ← lift (hash_transaction tx);
  encoded ← encode tx;
  put (transaction_key tx_hash) encoded;;
  mret tx_hash.

Definition get_transaction (hash : bytes) : io S StorageError (option Transaction) :=
  load (transaction_key hash).

Definition update_account (address : bytes) (account : Account) : io S StorageError unit :=
  encoded ← encode account;
  put (account_key address) encoded.

Definition get_account (address : bytes) : io S StorageError (option Account) :=
  load (account_key address).

Definition update_contract (address : bytes) (contract : Contract) : io S StorageError unit :=
  encoded ← encode contract;
  put (contract_key address) encoded.

Definition get_contract (address : bytes) : io S StorageError (option Contract) :=
  load (contract_key address).

Definition deploy_contract (sender code_wasm : bytes) : io S StorageError bytes :=
  if bool_decide (sender = []) then io_err EmptySender
  else if bool_decide (code_wasm = []) then io_err EmptyBytecode
  else
    let contract_address := derive_contract_address sender code_wasm in
    account ← get_account contract_address;
    exists_ ← (if bool_decide (is_Some account) then mret true
               else
                 contract ← get_contract contract_address;
                 mret (bool_decide (is_Some contract)));
    if exists_ : bool then io_err ContractAddressExists
    else
      let contract := {| ctr_code_wasm := code_wasm; ctr_storage_root := sha256 [] |} in
      let account := {| acct_balance := 0; acct_nonce := 0;
                        acct_code_hash := Some (contract_code_hash code_wasm);
                        acct_anonymous_state := AnonymousAccountState_default |} in
      update_contract contract_address contract;;
      update_account contract_address account;;
      mret contract_address.

(** The payload of a storage root: each slot's key and value hashed. *)
Definition slots_payload (slots : list (bytes * bytes)) : bytes :=
  concat ((fun kv => sha256 kv.1 ++ sha256 kv.2) <$> slots).

(** [storage_key[prefix.len()..]] *)
Definition slot_of (prefix : bytes) (kv : bytes * bytes) : bytes * bytes :=
  (drop (length prefix) kv.1, kv.2).

Definition compute_contract_storage_root (address : bytes) : io S StorageError bytes :=
  let prefix := contract_storage_prefix address in
  found ← iter prefix;
  let sorted := sort_by (cmp_on fst bytes_cmp) found in
  if bool_decide (sorted = []) then mret (sha256 [])
  else mret (sha256 (slots_payload (slot_of prefix <$> sorted))).

(** [get_contract(address)?.ok_or_else(..)?] *)
Definition require_contract (address : bytes) : io S StorageError Contract :=
  contract ← get_contract address;
  lift (ok_or ContractDoesNotExist contract).

Definition with_storage_root (c : Contract) (root : bytes) : Contract :=
  {| ctr_code_wasm := ctr_code_wasm c; ctr_storage_root := root |}.

Definition set_contract_storage (address key value : bytes) : io S StorageError unit :=
  contract ← require_contract address;
  put (contract_storage_key address key) value;;
  root ← compute_contract_storage_root address;
  update_contract address (with_storage_root contract root).

Definition get_contract_storage (address key : bytes) : io S StorageError (option bytes) :=
  require_contract address;;
  get (contract_storage_key address key).

(** [writes] is a [BTreeMap]; so is the table of slots it is merged into. *)
Definition commit_contract_storage_batch (address : bytes) (writes : gmap bytes bytes) :
  io S StorageError unit :=
  if bool_decide (writes = ∅) then mret tt
  else
    contract ← require_contract address;
    let prefix := contract_storage_prefix address in
    found ← iter prefix;
    let slot_entries := put_all (slot_of prefix <$> found) ∅ in
    let slot_entries := put_all (btree_entries writes) slot_entries in
    let payload := slots_payload (btree_entries slot_entries) in
    let root := if bool_decide (payload = []) then sha256 [] else sha256 payload in
    encoded ← encode (with_storage_root contract root);
    write_batch
      (((fun kv => (contract_storage_key address kv.1, kv.2)) <$> btree_entries writes) ++
       [(contract_key address, encoded)]).

Definition save_viewable_note (n : ViewableNote) : io S StorageError unit :=
  let c := viewable_commitment n in
  encoded ← encode n;
  put (anonymous_note_key c) encoded;;
  put (viewing_hint_note_key (view_hint n) c) (bytes_of "1").

Definition get_viewable_note (c : bytes) : io S StorageError (option ViewableNote) :=
  load (anonymous_note_key c).

(** The loop over the entries under the hint. *)
Fixpoint load_notes (prefix : bytes) (found : list (bytes * bytes)) :
  io S StorageError (list ViewableNote) :=
  match found with
  | [] => mret []
  | kv :: found' =>
      o ← get_viewable_note (drop (length prefix) kv.1);
      rest ← load_notes prefix found';
      mret (match o with Some n => n :: rest | None => rest end)
  end.

Definition find_notes_for_viewing_key (viewing_key : bytes) :
  io S StorageError (list ViewableNote) :=
  match compute_viewing_hint viewing_key with
  | None => mret []
  | Some viewing_hint =>
      let prefix := viewing_hint_prefix viewing_hint in
      found ← iter prefix;
      load_notes prefix found
  end.

Definition save_note_merkle_root (shard_id : option Z) (root : bytes) : io S StorageError unit :=
  encoded ← encode {| hash32 := root |};
  put (note_merkle_root_key shard_id) encoded.

Definition get_note_merkle_root (shard_id : option Z) : io S StorageError (option Hash32) :=
  load (note_merkle_root_key shard_id).

Definition save_validator (v : Validator) : io S StorageError unit :=
  encoded ← encode v;
  put (stake_key (val_address v)) encoded.

Definition get_validator (address : bytes) : io S StorageError (option Validator) :=
  load (stake_key address).
End storage.

Arguments load {S} {_} {A} {_} key.

(** ** The entries under a prefix *)

(** The entries under the prefix, with the prefix removed. *)
Definition found_under (prefix : bytes) (m : gmap bytes bytes) : list (bytes * bytes) :=
  slot_of prefix <$> filter (fun kv => starts_with kv.1 prefix = true) (entries m).

Definition map_under (prefix : bytes) (m : gmap bytes bytes) : gmap bytes bytes :=
  list_to_map (found_under prefix m).

(** The slots of a contract in a map of contents. *)
Definition slots_of (m : gmap bytes bytes) (address : bytes) : gmap bytes bytes :=
  map_under (contract_storage_prefix address) m.

Section under.
Context (prefix : bytes).

Lemma entries_elem m k v : (k, v) ∈ entries m <-> m !! k = Some v.
Proof. unfold entries. by rewrite sort_by_perm, elem_of_map_to_list. Qed.

Lemma entries_sorted m : StronglySorted (fun x y => cmp_on fst bytes_cmp x y <> Gt) (entries m).
Proof. apply sort_by_sorted. apply _. Qed.

Lemma entries_NoDup m : NoDup (entries m).*1.
Proof. unfold entries. rewrite sort_by_perm. apply NoDup_fst_map_to_list. Qed.

(** A list is the entries of a map when it is sorted and has its members. *)
Lemma entries_unique m l :
  StronglySorted (fun x y => cmp_on fst bytes_cmp x y <> Gt) l -> NoDup l.*1 ->
  (forall k v, (k, v) ∈ l <-> m !! k = Some v) -> l = entries m.
Proof.
  intros S ND E. apply (sorted_perm_unique (cmp_on fst bytes_cmp)); [|done|apply entries_sorted|].
  - intros x y X Y Exy. apply (cmp_Eq bytes_cmp) in Exy. by apply (NoDup_fmap_inj fst l).
  - apply NoDup_Permutation; [by eapply NoDup_fmap_1|by eapply NoDup_fmap_1, entries_NoDup|].
    intros [k v]. by rewrite E, entries_elem.
Qed.

Lemma found_under_elem m k v :
  (k, v) ∈ found_under prefix m <-> m !! (prefix ++ k) = Some v.
Proof.
  unfold found_under. rewrite list_elem_of_fmap. split.
  - intros ([k' v'] & E & [P I]%list_elem_of_filter). apply starts_with_true in P as [r R].
    cbn [fst] in R. subst k'. unfold slot_of in E. cbn [fst snd] in E.
    rewrite drop_app_length in E. injection E as -> ->. by apply entries_elem in I.
  - intros L. exists (prefix ++ k, v). split.
    + unfold slot_of. cbn [fst snd]. by rewrite drop_app_length.
    + apply list_elem_of_filter. split; [apply starts_with_app|]. by apply entries_elem.
Qed.

Lemma list_cmp_app p k l :
  list_cmp (cmp_on byte_val Z.compare) (p ++ k) (p ++ l) = list_cmp (cmp_on byte_val Z.compare) k l.
Proof.
  induction p as [|b p IH]; [done|]. simpl. unfold cmp_on at 1. by rewrite Z.compare_refl, IH.
Qed.

(** Removing a common prefix keeps the order and the distinctness. *)
Lemma strip_common l :
  Forall (fun kv : bytes * bytes => starts_with kv.1 prefix = true) l ->
  StronglySorted (fun x y => cmp_on fst bytes_cmp x y <> Gt) l -> NoDup l.*1 ->
  StronglySorted (fun x y => cmp_on fst bytes_cmp x y <> Gt) (slot_of prefix <$> l) /\
  NoDup (slot_of prefix <$> l).*1.
Proof.
  intros F. induction 1 as [|x l S IH Fx]; intros ND; [by repeat constructor|].
  apply Forall_cons in F as [Px F]. rewrite !fmap_cons in *. apply NoDup_cons in ND as [NI ND].
  destruct (IH F ND) as [S' ND']. apply starts_with_true in Px as [r R]. split.
  - constructor; [done|]. apply Forall_fmap, Forall_forall. intros y Y.
    rewrite Forall_forall in F, Fx. pose proof (F y Y) as Py. apply starts_with_true in Py as [q Q].
    specialize (Fx y Y). unfold cmp_on, bytes_cmp, compose, slot_of in *. cbn [fst].
    rewrite R, Q, !drop_app_length. by rewrite R, Q, list_cmp_app in Fx.
  - apply NoDup_cons. split; [|done]. intros (y & E & Y)%list_elem_of_fmap.
    apply list_elem_of_fmap in Y as (z & -> & Z). apply NI.
    rewrite Forall_forall in F. pose proof (F z Z) as Pz. apply starts_with_true in Pz as [q Q].
    unfold slot_of in E. cbn [fst] in E. rewrite R, Q, !drop_app_length in E. subst q.
    rewrite R, <- Q. by apply list_elem_of_fmap_2.
Qed.

Lemma found_under_sorted m :
  StronglySorted (fun x y => cmp_on fst bytes_cmp x y <> Gt) (found_under prefix m) /\
  NoDup (found_under prefix m).*1.
Proof.
  apply strip_common.
  - apply Forall_forall. by intros kv [P _]%list_elem_of_filter.
  - apply StronglySorted_filter, entries_sorted.
  - apply NoDup_fmap_filter, entries_NoDup.
Qed.

Lemma lookup_under m k : map_under prefix m !! k = m !! (prefix ++ k).
Proof.
  apply option_eq. intros v. rewrite <- found_under_elem. symmetry.
  apply elem_of_list_to_map. apply found_under_sorted.
Qed.

Lemma found_under_entries m : found_under prefix m = entries (map_under prefix m).
Proof.
  apply entries_unique; [apply found_under_sorted..|]. intros k v.
  by rewrite found_under_elem, lookup_under.
Qed.

Lemma under_insert m k v :
  map_under prefix (<[prefix ++ k := v]> m) = <[k := v]> (map_under prefix m).
Proof.
  apply map_eq. intros l. rewrite lookup_under. destruct (decide (k = l)) as [->|N].
  - by rewrite !lookup_insert_eq.
  - rewrite !lookup_insert_ne by (done || (intros E; by apply app_inv_head in E)).
    by rewrite lookup_under.
Qed.

Lemma under_put_all ws m :
  map_under prefix (put_all ((fun kv => (prefix ++ kv.1, kv.2)) <$> ws) m) =
  put_all ws (map_under prefix m).
Proof.
  revert m. induction ws as [|w ws IH]; intros m; [done|].
  rewrite fmap_cons. cbn [put_all foldl fst snd].
  fold (put_all ((fun kv => (prefix ++ kv.1, kv.2)) <$> ws) (<[prefix ++ w.1 := w.2]> m)).
  by rewrite IH, under_insert.
Qed.
End under.

Lemma put_all_lookup_fresh ws m k :
  k ∉ ws.*1 -> put_all ws m !! k = m !! k.
Proof.
  revert m. induction ws as [|w ws IH]; intros m N; [done|].
  rewrite fmap_cons in N. apply not_elem_of_cons in N as [Nk N].
  cbn [put_all foldl]. fold (put_all ws (<[w.1:=w.2]> m)). rewrite IH by done.
  by apply lookup_insert_ne.
Qed.

(** Putting entries with distinct keys is a union. *)
Lemma put_all_entries w m : put_all (entries w) m = w ∪ m.
Proof.
  enough (forall ws m, NoDup ws.*1 -> put_all ws m = list_to_map ws ∪ m) as G.
  { rewrite G by apply entries_NoDup. f_equal. apply map_eq. intros k. apply option_eq. intros v.
    rewrite <- (entries_elem w). symmetry. apply elem_of_list_to_map, entries_NoDup. }
  clear w m. intros ws. induction ws as [|[k v] ws IH]; intros m ND.
  { cbn. by rewrite map_empty_union. }
  cbn [fmap list_fmap fst] in ND. apply NoDup_cons in ND as [NI ND].
  cbn [put_all foldl fst snd]. fold (put_all ws (<[k:=v]> m)). rewrite IH by done. simpl.
  rewrite <- insert_union_l, insert_union_r; [done|]. by apply not_elem_of_list_to_map_1.
Qed.

(** ** What the operations do to the contents *)

(** The value of [storage_root] for a table of slots. *)
Definition storage_root `{Sha256} (slots : gmap bytes bytes) : bytes :=
  sha256 (slots_payload (entries slots)).

Section contents.
Context {S : Type} `{KvStoreOk S}.

Lemma run_encode {A} `{BincodeOk A} (x : A) (s : S) :
  wf x -> exists b, bincode_serialize x = Ok b /\ run_io (encode x) s = (Ok b, s).
Proof.
  intros W. destruct (bincode_total x W) as [b E]. exists b. unfold encode. by rewrite run_lift, E.
Qed.

Lemma run_load {A} `{BincodeOk A} (s : S) key (x : A) b :
  wf x -> contents s !! key = Some b -> bincode_serialize x = Ok b ->
  run_io (load key) s = (Ok (Some x), s).
Proof.
  intros W L E. unfold load. rewrite run_bind, run_get, L, run_bind, run_lift.
  by rewrite (bincode_roundtrip x b W E).
Qed.

Lemma run_load_absent {A} `{Bincode A} (s : S) key :
  contents s !! key = None -> run_io (load (A := A) key) s = (Ok None, s).
Proof. intros L. unfold load. by rewrite run_bind, run_get, L. Qed.

(** Encoding a value and putting it under a key. *)
Lemma run_save {A} `{BincodeOk A} (x : A) (s : S) key :
  wf x -> exists s' b,
    run_io (b ← encode x; put key b) s = (Ok tt, s') /\
    bincode_serialize x = Ok b /\ contents s' = <[key := b]> (contents s).
Proof.
  intros W. destruct (run_encode x s W) as (b & Eb & Er).
  destruct (run_put s key b) as (s' & Ep & C). exists s', b. by rewrite run_bind, Er.
Qed.

Context `{Sha256, !Bincode Contract}.

Lemma run_root (s : S) a :
  run_io (compute_contract_storage_root a) s = (Ok (storage_root (slots_of (contents s) a)), s).
Proof.
  unfold compute_contract_storage_root. rewrite run_bind, run_iter.
  rewrite sort_by_sorted_id by apply StronglySorted_filter, entries_sorted.
  unfold storage_root, slots_of. rewrite <- found_under_entries. unfold found_under.
  set (l := filter _ (entries (contents s))). rewrite bool_decide_decide.
  destruct (decide (l = [])) as [->|N]; done.
Qed.

Lemma with_root_wf c root : wf c -> is_array_32 root -> wf (with_storage_root c root).
Proof.
  intros [W _] R. split; [exact W|]. unfold vec_ok. cbn. rewrite R. lia.
Qed.

Lemma storage_root_array `{!Sha256Ok} slots : is_array_32 (storage_root slots).
Proof. apply sha256_length. Qed.
End contents.

(** The root a batch computes is the root of the merged slots. *)
Lemma batch_root `{Sha256} (writes slots : gmap bytes bytes) :
  (let payload := slots_payload (btree_entries (put_all (btree_entries writes)
     (put_all (entries slots) ∅))) in
   if bool_decide (payload = []) then sha256 [] else sha256 payload) =
  storage_root (writes ∪ slots).
Proof.
  cbv zeta. unfold btree_entries, storage_root. rewrite !put_all_entries, map_union_empty.
  case_bool_decide as Z; [by rewrite Z|done].
Qed.
