(* ===== verification/Ledger.v ===== *)
(** * What the storage promises

    The abstract state of the node's database, a ledger of finite maps, the
    effect of every operation of [RocksDbStorage] on it, and the theorem that
    the operations on keys and bytes of file [Storage] implement it.  Clients
    of the storage reason about the ledger. *)

From S2P Require Import Prelude Orders Bytes Externals Types Hash Notes Keys Store Storage.

(** ** The ledger *)

Record Ledger := {
  led_blocks : gmap Z Block;
  led_heights : gmap bytes Z;
  led_transactions : gmap bytes Transaction;
  led_accounts : gmap bytes Account;
  led_validators : gmap bytes Validator;
  led_contracts : gmap bytes Contract;
  led_slots : gmap bytes (gmap bytes bytes);
  led_notes : gmap bytes ViewableNote;
  led_hints : gmap bytes (gmap bytes bytes);
  led_roots : gmap (option Z) Hash32;
}.

Definition empty_ledger : Ledger := {|
  led_blocks := ∅; led_heights := ∅; led_transactions := ∅; led_accounts := ∅;
  led_validators := ∅; led_contracts := ∅; led_slots := ∅; led_notes := ∅;
  led_hints := ∅; led_roots := ∅ |}.

Definition on_blocks (f : gmap Z Block -> gmap Z Block) (L : Ledger) : Ledger := {|
  led_blocks := f (led_blocks L); led_heights := led_heights L;
  led_transactions := led_transactions L; led_accounts := led_accounts L;
  led_validators := led_validators L; led_contracts := led_contracts L;
  led_slots := led_slots L; led_notes := led_notes L; led_hints := led_hints L;
  led_roots := led_roots L |}.

Definition on_heights (f : gmap bytes Z -> gmap bytes Z) (L : Ledger) : Ledger := {|
  led_blocks := led_blocks L; led_heights := f (led_heights L);
  led_transactions := led_transactions L; led_accounts := led_accounts L;
  led_validators := led_validators L; led_contracts := led_contracts L;
  led_slots := led_slots L; led_notes := led_notes L; led_hints := led_hints L;
  led_roots := led_roots L |}.

Definition on_transactions (f : gmap bytes Transaction -> gmap bytes Transaction) (L : Ledger) : Ledger := {|
  led_blocks := led_blocks L; led_heights := led_heights L;
  led_transactions := f (led_transactions L); led_accounts := led_accounts L;
  led_validators := led_validators L; led_contracts := led_contracts L;
  led_slots := led_slots L; led_notes := led_notes L; led_hints := led_hints L;
  led_roots := led_roots L |}.

Definition on_accounts (f : gmap bytes Account -> gmap bytes Account) (L : Ledger) : Ledger := {|
  led_blocks := led_blocks L; led_heights := led_heights L;
  led_transactions := led_transactions L; led_accounts := f (led_accounts L);
  led_validators := led_validators L; led_contracts := led_contracts L;
  led_slots := led_slots L; led_notes := led_notes L; led_hints := led_hints L;
  led_roots := led_roots L |}.

Definition on_validators (f : gmap bytes Validator -> gmap bytes Validator) (L : Ledger) : Ledger := {|
  led_blocks := led_blocks L; led_heights := led_heights L;
  led_transactions := led_transactions L; led_accounts := led_accounts L;
  led_validators := f (led_validators L); led_contracts := led_contracts L;
  led_slots := led_slots L; led_notes := led_notes L; led_hints := led_hints L;
  led_roots := led_roots L |}.

Definition on_contracts (f : gmap bytes Contract -> gmap bytes Contract) (L : Ledger) : Ledger := {|
  led_blocks := led_blocks L; led_heights := led_heights L;
  led_transactions := led_transactions L; led_accounts := led_accounts L;
  led_validators := led_validators L; led_contracts := f (led_contracts L);
  led_slots := led_slots L; led_notes := led_notes L; led_hints := led_hints L;
  led_roots := led_roots L |}.

Definition on_slots (f : gmap bytes (gmap bytes bytes) -> gmap bytes (gmap bytes bytes)) (L : Ledger) : Ledger := {|
  led_blocks := led_blocks L; led_heights := led_heights L;
  led_transactions := led_transactions L; led_accounts := led_accounts L;
  led_validators := led_validators L; led_contracts := led_contracts L;
  led_slots := f (led_slots L); led_notes := led_notes L; led_hints := led_hints L;
  led_roots := led_roots L |}.

Definition on_notes (f : gmap bytes ViewableNote -> gmap bytes ViewableNote) (L : Ledger) : Ledger := {|
  led_blocks := led_blocks L; led_heights := led_heights L;
  led_transactions := led_transactions L; led_accounts := led_accounts L;
  led_validators := led_validators L; led_contracts := led_contracts L;
  led_slots := led_slots L; led_notes := f (led_notes L); led_hints := led_hints L;
  led_roots := led_roots L |}.

Definition on_hints (f : gmap bytes (gmap bytes bytes) -> gmap bytes (gmap bytes bytes)) (L : Ledger) : Ledger := {|
  led_blocks := led_blocks L; led_heights := led_heights L;
  led_transactions := led_transactions L; led_accounts := led_accounts L;
  led_validators := led_validators L; led_contracts := led_contracts L;
  led_slots := led_slots L; led_notes := led_notes L; led_hints := f (led_hints L);
  led_roots := led_roots L |}.

Definition on_roots (f : gmap (option Z) Hash32 -> gmap (option Z) Hash32) (L : Ledger) : Ledger := {|
  led_blocks := led_blocks L; led_heights := led_heights L;
  led_transactions := led_transactions L; led_accounts := led_accounts L;
  led_validators := led_validators L; led_contracts := led_contracts L;
  led_slots := led_slots L; led_notes := led_notes L; led_hints := led_hints L;
  led_roots := f (led_roots L) |}.

(** The inner table of an outer key. *)
Definition nest (t : gmap bytes (gmap bytes bytes)) (a : bytes) : gmap bytes bytes :=
  default ∅ (t !! a).

Lemma nest_insert t a k u : nest (<[a := u]> t) k = if decide (a = k) then u else nest t k.
Proof.
  unfold nest. destruct (decide (a = k)) as [->|N]; [by rewrite lookup_insert_eq|].
  by rewrite lookup_insert_ne.
Qed.

(** ** Requests and their meaning *)

(** The operations of the storage, with the type of their result. *)
Inductive request : Type -> Type :=
| SaveBlock (block : Block) : request bytes
| GetBlock (height : Z) : request (option Block)
| SaveTransaction (tx : Transaction) : request bytes
| GetTransaction (hash : bytes) : request (option Transaction)
| UpdateAccount (address : bytes) (account : Account) : request unit
| GetAccount (address : bytes) : request (option Account)
| DeployContract (sender code_wasm : bytes) : request bytes
| UpdateContract (address : bytes) (contract : Contract) : request unit
| GetContract (address : bytes) : request (option Contract)
| SetContractStorage (address key value : bytes) : request unit
| GetContractStorage (address key : bytes) : request (option bytes)
| CommitContractStorageBatch (address : bytes) (writes : gmap bytes bytes) : request unit
| SaveViewableNote (n : ViewableNote) : request unit
| GetViewableNote (c : bytes) : request (option ViewableNote)
| FindNotesForViewingKey (viewing_key : bytes) : request (list ViewableNote)
| SaveNoteMerkleRoot (shard_id : option Z) (root : bytes) : request unit
| GetNoteMerkleRoot (shard_id : option Z) : request (option Hash32)
| SaveValidator (v : Validator) : request unit
| GetValidator (address : bytes) : request (option Validator).

Definition modify (f : Ledger -> Ledger) : io Ledger StorageError unit :=
  Io (fun L => (Ok tt, f L)).

Definition ask {A} (f : Ledger -> A) : io Ledger StorageError A := Io (fun L => (Ok (f L), L)).

Section spec.
Context `{Sha256, ChainCodecs}.

Definition spec_require (address : bytes) : io Ledger StorageError Contract :=
  o ← ask (fun L => led_contracts L !! address);
  lift (ok_or ContractDoesNotExist o).

(** Replacing the slots of an existing contract also replaces its root. *)
Definition spec_set_slots (address : bytes) (c : Contract) (slots : gmap bytes bytes) :
  io Ledger StorageError unit :=
  modify (on_slots (<[address := slots]>));;
  modify (on_contracts (<[address := with_storage_root c (storage_root slots)]>)).

(** A deployment at [address] when nothing is there. *)
Definition spec_deploy (address code_wasm : bytes) : io Ledger StorageError bytes :=
  account ← ask (fun L => led_accounts L !! address);
  contract ← ask (fun L => led_contracts L !! address);
  if bool_decide (is_Some account \/ is_Some contract) then io_err ContractAddressExists
  else
    modify (on_contracts (<[address :=
      {| ctr_code_wasm := code_wasm; ctr_storage_root := sha256 [] |}]>));;
    modify (on_accounts (<[address :=
      {| acct_balance := 0; acct_nonce := 0; acct_code_hash := Some (contract_code_hash code_wasm);
         acct_anonymous_state := AnonymousAccountState_default |}]>));;
    mret address.

(** The notes stored under the commitments indexed by a hint. *)
Definition notes_under (L : Ledger) (hint : bytes) : list ViewableNote :=
  omap (fun kv => led_notes L !! kv.1) (entries (nest (led_hints L) hint)).

Definition spec {A} (q : request A) : io Ledger StorageError A :=
  match q with
  | SaveBlock b =>
      block_hash ← lift (hash_block_header (blk_header b));
      modify (on_blocks (<[hdr_height (blk_header b) := b]>));;
      modify (on_heights (<[block_hash := hdr_height (blk_header b)]>));;
      mret block_hash
  | GetBlock h => ask (fun L => led_blocks L !! h)
  | SaveTransaction tx =>
      tx_hash ← lift (hash_transaction tx);
      modify (on_transactions (<[tx_hash := tx]>));;
      mret tx_hash
  | GetTransaction h => ask (fun L => led_transactions L !! h)
  | UpdateAccount a x => modify (on_accounts (<[a := x]>))
  | GetAccount a => ask (fun L => led_accounts L !! a)
  | DeployContract sender code_wasm =>
      if bool_decide (sender = []) then io_err EmptySender
      else if bool_decide (code_wasm = []) then io_err EmptyBytecode
      else spec_deploy (derive_contract_address sender code_wasm) code_wasm
  | UpdateContract a x => modify (on_contracts (<[a := x]>))
  | GetContract a => ask (fun L => led_contracts L !! a)
  | SetContractStorage a k v =>
      c ← spec_require a;
      slots ← ask (fun L => nest (led_slots L) a);
      spec_set_slots a c (<[k := v]> slots)
  | GetContractStorage a k => spec_require a;; ask (fun L => nest (led_slots L) a !! k)
  | CommitContractStorageBatch a writes =>
      if bool_decide (writes = ∅) then mret tt
      else
        c ← spec_require a;
        slots ← ask (fun L => nest (led_slots L) a);
        spec_set_slots a c (writes ∪ slots)
  | SaveViewableNote n =>
      modify (on_notes (<[viewable_commitment n := n]>));;
      modify (fun L => on_hints (<[view_hint n :=
        <[viewable_commitment n := bytes_of "1"]> (nest (led_hints L) (view_hint n))]>) L)
  | GetViewableNote c => ask (fun L => led_notes L !! c)
  | FindNotesForViewingKey viewing_key =>
      match compute_viewing_hint viewing_key with
      | None => mret []
      | Some hint => ask (fun L => notes_under L hint)
      end
  | SaveNoteMerkleRoot shard_id root => modify (on_roots (<[shard_id := {| hash32 := root |}]>))
  | GetNoteMerkleRoot shard_id => ask (fun L => led_roots L !! shard_id)
  | SaveValidator v => modify (on_validators (<[val_address v := v]>))
  | GetValidator a => ask (fun L => led_validators L !! a)
  end.

Context {S : Type} `{!Bincode ViewableNote, !Bincode Hash32, KvStore S}.

(** The method of [RocksDbStorage] of each request. *)
Definition perform {A} (q : request A) : io S StorageError A :=
  match q with
  | SaveBlock b => save_block b
  | GetBlock h => get_block h
  | SaveTransaction tx => save_transaction tx
  | GetTransaction h => get_transaction h
  | UpdateAccount a x => update_account a x
  | GetAccount a => get_account a
  | DeployContract sender code_wasm => deploy_contract sender code_wasm
  | UpdateContract a x => update_contract a x
  | GetContract a => get_contract a
  | SetContractStorage a k v => set_contract_storage a k v
  | GetContractStorage a k => get_contract_storage a k
  | CommitContractStorageBatch a writes => commit_contract_storage_batch a writes
  | SaveViewableNote n => save_viewable_note n
  | GetViewableNote c => get_viewable_note c
  | FindNotesForViewingKey vk => find_notes_for_viewing_key vk
  | SaveNoteMerkleRoot shard_id root => save_note_merkle_root shard_id root
  | GetNoteMerkleRoot shard_id => get_note_merkle_root shard_id
  | SaveValidator v => save_validator v
  | GetValidator a => get_validator a
  end.
End spec.

(** Values in the range of their types; new contracts at the addresses of the
    family.  Any address may be asked about. *)
Definition request_ok `{Sha256, !Addresses} {A} (q : request A) : Prop :=
  match q with
  | SaveBlock b => wf b
  | GetBlock h => u64 h
  | SaveTransaction tx => wf tx
  | UpdateAccount _ x => wf x
  | DeployContract sender code_wasm =>
      contract_address (derive_contract_address sender code_wasm) /\ vec_ok code_wasm
  | UpdateContract a x => contract_address a /\ wf x
  | SaveViewableNote n => wf n
  | SaveNoteMerkleRoot shard_id root => record_ok (RNoteRoot shard_id) /\ is_array_32 root
  | GetNoteMerkleRoot shard_id => record_ok (RNoteRoot shard_id)
  | SaveValidator v => wf v
  | _ => True
  end.

(** ** Representation *)

(** The values of [t] are the decoded records [R k] of the contents [m]. *)
Definition table `{!Addresses} {K A} `{Countable K, Bincode A, WellFormed A} (R : K -> record_id)
    (m : gmap bytes bytes) (t : gmap K A) : Prop :=
  forall k, record_ok (R k) ->
    match t !! k with
    | Some x => wf x /\ exists b, m !! record_key (R k) = Some b /\ bincode_serialize x = Ok b
    | None => m !! record_key (R k) = None
    end.

(** The same for records of raw bytes, under two keys. *)
Definition nested `{!Addresses} (R : bytes -> bytes -> record_id) (m : gmap bytes bytes)
    (t : gmap bytes (gmap bytes bytes)) : Prop :=
  forall a k, record_ok (R a k) -> m !! record_key (R a k) = nest t a !! k.

(** Every key is that of a record. *)
Definition known `{!Addresses} (m : gmap bytes bytes) : Prop :=
  forall k, is_Some (m !! k) -> exists r, record_ok r /\ k = record_key r.

(** Contracts live at the addresses of the family. *)
Definition addressed `{!Addresses} (t : gmap bytes Contract) : Prop :=
  forall a, is_Some (t !! a) -> contract_address a.

Record represents `{!Addresses, ChainCodecs, !Bincode ViewableNote, !Bincode Hash32}
    (m : gmap bytes bytes) (L : Ledger) : Prop := {
  rep_blocks : table RBlock m (led_blocks L);
  rep_heights : table RHeightIndex m (led_heights L);
  rep_transactions : table RTransaction m (led_transactions L);
  rep_accounts : table RAccount m (led_accounts L);
  rep_validators : table RStake m (led_validators L);
  rep_contracts : table RContract m (led_contracts L);
  rep_slots : nested RSlot m (led_slots L);
  rep_notes : table RNote m (led_notes L);
  rep_hints : nested RViewIndex m (led_hints L);
  rep_roots : table RNoteRoot m (led_roots L);
  rep_known : known m;
  rep_addressed : addressed (led_contracts L);
}.

Section tables.
Context `{!Addresses} {K A : Type} `{Countable K, BincodeOk A} (R : K -> record_id) `{!Inj (=) (=) R}.
Implicit Types (m : gmap bytes bytes) (t : gmap K A).

Lemma table_insert m t k x b :
  record_ok (R k) -> wf x -> bincode_serialize x = Ok b -> table R m t ->
  table R (<[record_key (R k) := b]> m) (<[k := x]> t).
Proof.
  intros W Wx E T k' W'. destruct (decide (k = k')) as [->|N].
  - rewrite lookup_insert_eq. split; [done|]. exists b. by rewrite lookup_insert_eq.
  - assert (record_key (R k) <> record_key (R k')) as Nk.
    { intros Ek. apply record_key_inj in Ek; [|done..]. by apply (inj R) in Ek. }
    rewrite !lookup_insert_ne by done. by apply T.
Qed.

Lemma table_other m t r b :
  record_ok r -> (forall k, R k <> r) -> table R m t -> table R (<[record_key r := b]> m) t.
Proof.
  intros W N T k W'. rewrite lookup_insert_ne; [by apply T|].
  intros Ek. apply record_key_inj in Ek; [|done..]. by apply (N k).
Qed.

(** Loading a record reads the table. *)
Lemma run_load_table {S} `{KvStoreOk S} (s : S) t k :
  record_ok (R k) -> table R (contents s) t ->
  run_io (load (record_key (R k))) s = (Ok (t !! k), s).
Proof.
  intros W T. specialize (T k W). destruct (t !! k) as [x|].
  - destruct T as (Wx & b & L & E). by eapply run_load.
  - by apply run_load_absent.
Qed.

Lemma table_wf m t k x : record_ok (R k) -> table R m t -> t !! k = Some x -> wf x.
Proof. intros W T L. specialize (T k W). rewrite L in T. apply T. Qed.
End tables.

Section nested.
Context `{!Addresses} (R : bytes -> bytes -> record_id) `{!Inj2 (=) (=) (=) R}.
Implicit Types (m : gmap bytes bytes) (t : gmap bytes (gmap bytes bytes)).

Lemma nested_insert m t a k v :
  record_ok (R a k) -> nested R m t ->
  nested R (<[record_key (R a k) := v]> m) (<[a := <[k := v]> (nest t a)]> t).
Proof.
  intros W T a' k' W'. rewrite nest_insert. destruct (decide (a = a')) as [->|N].
  - destruct (decide (k = k')) as [->|N]; [by rewrite !lookup_insert_eq|].
    assert (record_key (R a' k) <> record_key (R a' k')) as Nk.
    { intros Ek. apply record_key_inj in Ek; [|done..]. by apply (inj2 R) in Ek as [_ ?]. }
    rewrite !lookup_insert_ne by done. by apply T.
  - rewrite lookup_insert_ne; [by apply T|].
    intros Ek. apply record_key_inj in Ek; [|done..]. by apply (inj2 R) in Ek as [? _].
Qed.

Lemma nested_other m t r b :
  record_ok r -> (forall a k, R a k <> r) -> nested R m t -> nested R (<[record_key r := b]> m) t.
Proof.
  intros W N T a k W'. rewrite lookup_insert_ne; [by apply T|].
  intros Ek. apply record_key_inj in Ek; [|done..]. by apply (N a k).
Qed.

(** A nested table only matters through its inner tables. *)
Lemma nested_ext m t t' : (forall a, nest t a = nest t' a) -> nested R m t -> nested R m t'.
Proof. intros E T a k W. rewrite <- E. by apply T. Qed.
End nested.

Lemma known_insert `{!Addresses} m r b : record_ok r -> known m -> known (<[record_key r := b]> m).
Proof.
  intros W N k [v L]. destruct (decide (k = record_key r)) as [->|D]; [by exists r|].
  rewrite lookup_insert_ne in L by done. by apply N.
Qed.

Lemma addressed_insert `{!Addresses} t a c : contract_address a -> addressed t -> addressed (<[a := c]> t).
Proof.
  intros W N k [v L]. destruct (decide (k = a)) as [->|D]; [done|].
  rewrite lookup_insert_ne in L by done. by apply N.
Qed.

#[export] Instance RBlock_inj : Inj (=) (=) RBlock. Proof. by intros ?? [=]. Qed.
#[export] Instance RHeightIndex_inj : Inj (=) (=) RHeightIndex. Proof. by intros ?? [=]. Qed.
#[export] Instance RTransaction_inj : Inj (=) (=) RTransaction. Proof. by intros ?? [=]. Qed.
#[export] Instance RAccount_inj : Inj (=) (=) RAccount. Proof. by intros ?? [=]. Qed.
#[export] Instance RStake_inj : Inj (=) (=) RStake. Proof. by intros ?? [=]. Qed.
#[export] Instance RContract_inj : Inj (=) (=) RContract. Proof. by intros ?? [=]. Qed.
#[export] Instance RNote_inj : Inj (=) (=) RNote. Proof. by intros ?? [=]. Qed.
#[export] Instance RNoteRoot_inj : Inj (=) (=) RNoteRoot. Proof. by intros ?? [=]. Qed.
#[export] Instance RSlot_inj : Inj2 (=) (=) (=) RSlot. Proof. by intros ???? [=]. Qed.
#[export] Instance RViewIndex_inj : Inj2 (=) (=) (=) RViewIndex. Proof. by intros ???? [=]. Qed.

(** One record changed in both the contents and the ledger. *)
Ltac solve_represents :=
  match goal with P : represents _ _ |- _ => destruct P end; split;
  cbn [led_blocks led_heights led_transactions led_accounts led_validators led_contracts led_slots
    led_notes led_hints led_roots on_blocks on_heights on_transactions on_accounts on_validators
    on_contracts on_slots on_notes on_hints on_roots];
  first [ by apply table_insert; try apply _ | by apply nested_insert; try apply _
        | by apply table_other | by apply nested_other | by apply known_insert
        | by apply addressed_insert | assumption ].

Section refinement.
Context `{!Addresses} {S : Type} `{KvStoreOk S, Sha256Ok, ChainCodecsOk}.
Context `{!Bincode ViewableNote, !BincodeOk ViewableNote, !Bincode Hash32, !BincodeOk Hash32}.
Implicit Types (s : S) (L : Ledger).

(** [m] answers [r] in state [s] as the specification [p] does in [L]. *)
Definition implements {A} (m : io S StorageError A) (p : io Ledger StorageError A) s L : Prop :=
  exists s', run_io m s = ((run_io p L).1, s') /\ represents (contents s') (run_io p L).2.

Lemma implements_bind {A B} (m : io S StorageError A) p (f : A -> io S StorageError B) g s L :
  implements m p s L ->
  (forall a s' , (run_io p L).1 = Ok a -> represents (contents s') (run_io p L).2 ->
     implements (f a) (g a) s' (run_io p L).2) ->
  implements (m ≫= f) (p ≫= g) s L.
Proof.
  intros (s' & E & P) F. unfold implements in *. rewrite !run_bind, E.
  destruct (run_io p L) as [[a|e|] L'] eqn:Ep; cbn [fst snd] in *; [|by exists s'..].
  by apply F.
Qed.

Lemma implements_lift {A} (r : outcome StorageError A) s L :
  represents (contents s) L -> implements (lift r) (lift r) s L.
Proof. intros P. by exists s. Qed.

Lemma implements_load {K A} `{Countable K, BincodeOk A} (R : K -> record_id) `{!Inj (=) (=) R} s L
    (t : gmap K A) k key :
  key = record_key (R k) -> record_ok (R k) -> represents (contents s) L ->
  table R (contents s) t -> implements (load key) (Io (fun L => (Ok (t !! k), L))) s L.
Proof. intros -> W P T. exists s. split; [by eapply run_load_table|done]. Qed.

Lemma implements_modify (m : io S StorageError unit) f s L :
  (exists s', run_io m s = (Ok tt, s') /\ represents (contents s') (f L)) ->
  implements m (modify f) s L.
Proof. done. Qed.

Lemma implements_ret {A} (a : A) s L :
  represents (contents s) L -> implements (mret a) (mret a) s L.
Proof. intros P. by exists s. Qed.

Lemma implements_ask {A} (m : io S StorageError A) (f : Ledger -> A) s L :
  run_io m s = (Ok (f L), s) -> represents (contents s) L -> implements m (ask f) s L.
Proof. intros E P. by exists s. Qed.

(** Saving a value, then going on. *)
Lemma implements_save {A B} `{BincodeOk A} r (x : A) (f : Ledger -> Ledger)
    (m : io S StorageError B) p s L :
  wf x ->
  (forall b s', bincode_serialize x = Ok b -> contents s' = <[record_key r := b]> (contents s) ->
     implements m p s' (f L)) ->
  implements (b ← encode x; put (record_key r) b;; m) (modify f;; p) s L.
Proof.
  intros W F. destruct (run_encode x s W) as (b & Eb & Ee).
  destruct (run_put s (record_key r) b) as (s' & Ep & C).
  destruct (F b s' Eb C) as (s'' & E & P). exists s''.
  by rewrite !run_bind, Ee, run_bind, Ep.
Qed.

Lemma implements_save_last {A} `{BincodeOk A} r (x : A) (f : Ledger -> Ledger) s L :
  wf x ->
  (forall b, bincode_serialize x = Ok b -> represents (<[record_key r := b]> (contents s)) (f L)) ->
  implements (b ← encode x; put (record_key r) b) (modify f) s L.
Proof.
  intros W F. destruct (run_save x s (record_key r) W) as (s' & b & E & Eb & C). exists s'.
  split; [exact E|]. rewrite C. by apply F.
Qed.

Lemma implements_put {B} r v (f : Ledger -> Ledger) (m : io S StorageError B) p s L :
  (forall s', contents s' = <[record_key r := v]> (contents s) -> implements m p s' (f L)) ->
  implements (put (record_key r) v;; m) (modify f;; p) s L.
Proof.
  intros F. destruct (run_put s (record_key r) v) as (s' & Ep & C).
  destruct (F s' C) as (s'' & E & P). exists s''. by rewrite !run_bind, Ep.
Qed.

(** Reading without touching the state, then going on. *)
Lemma implements_read {A B} (m : io S StorageError A) p (f : A -> io S StorageError B) g s L (r : outcome StorageError A) :
  run_io m s = (r, s) -> run_io p L = (r, L) -> represents (contents s) L ->
  (forall a, r = Ok a -> implements (f a) (g a) s L) ->
  implements (m ≫= f) (p ≫= g) s L.
Proof.
  intros Em Ep P F. unfold implements. rewrite !run_bind, Em, Ep.
  destruct r as [a|e|]; [by apply F|by exists s..].
Qed.

(** ** The requests *)

Lemma save_block_implements b s L :
  wf b -> represents (contents s) L -> implements (save_block b) (spec (SaveBlock b)) s L.
Proof.
  intros W P. eapply implements_read; [done..|]. intros h _.
  assert (u64 (hdr_height (blk_header b))) as U by apply W.
  apply (implements_save (RBlock _)); [done|]. intros e s1 E C1.
  apply (implements_save (RHeightIndex _)); [done|]. intros e' s2 E' C2.
  apply implements_ret. rewrite C2, C1.
  assert (represents (<[record_key (RBlock (hdr_height (blk_header b))) := e]> (contents s))
    (on_blocks (<[hdr_height (blk_header b) := b]>) L)) as P1.
  { assert (record_ok (RBlock (hdr_height (blk_header b)))) by apply U. solve_represents. }
  clear P C1 C2. solve_represents.
Qed.

Lemma save_transaction_implements tx s L :
  wf tx -> represents (contents s) L ->
  implements (save_transaction tx) (spec (SaveTransaction tx)) s L.
Proof.
  intros W P. eapply implements_read; [done..|]. intros h _.
  apply (implements_save (RTransaction _)); [done|]. intros e s1 E C.
  apply implements_ret. rewrite C. solve_represents.
Qed.

Lemma update_account_implements a x s L :
  wf x -> represents (contents s) L ->
  implements (update_account a x) (spec (UpdateAccount a x)) s L.
Proof. intros W P. apply (implements_save_last (RAccount a)); [done|]. intros b E. solve_represents. Qed.

Lemma update_contract_implements a x s L :
  contract_address a -> wf x -> represents (contents s) L ->
  implements (update_contract a x) (spec (UpdateContract a x)) s L.
Proof. intros A W P. apply (implements_save_last (RContract a)); [done|]. intros b E. solve_represents. Qed.

Lemma save_validator_implements v s L :
  wf v -> represents (contents s) L ->
  implements (save_validator v) (spec (SaveValidator v)) s L.
Proof. intros W P. apply (implements_save_last (RStake _)); [done|]. intros b E. solve_represents. Qed.

Lemma save_root_implements shard_id root s L :
  record_ok (RNoteRoot shard_id) -> is_array_32 root -> represents (contents s) L ->
  implements (save_note_merkle_root shard_id root) (spec (SaveNoteMerkleRoot shard_id root)) s L.
Proof.
  intros W A P. apply (implements_save_last (RNoteRoot _)); [done|]. intros b E. solve_represents.
Qed.

Lemma save_note_implements n s L :
  wf n -> represents (contents s) L ->
  implements (save_viewable_note n) (spec (SaveViewableNote n)) s L.
Proof.
  intros W P. set (c := viewable_commitment n).
  assert (record_ok (RViewIndex (view_hint n) c)) as V by apply W.
  apply (implements_save (RNote c)); [done|]. intros b s1 E C.
  destruct (run_put s1 (record_key (RViewIndex (view_hint n) c)) (bytes_of "1")) as (s2 & E2 & C2).
  exists s2. split; [exact E2|]. rewrite C2, C.
  assert (represents (<[record_key (RNote c) := b]> (contents s)) (on_notes (<[c := n]>) L)) as P1
    by solve_represents.
  clear P C C2. cbn [run_io modify snd]. fold c. solve_represents.
Qed.

(** The operations that only read one record. *)
Lemma load_implements {K A} `{Countable K, BincodeOk A} (R : K -> record_id) `{!Inj (=) (=) R}
    (t : Ledger -> gmap K A) k s L :
  record_ok (R k) -> represents (contents s) L -> table R (contents s) (t L) ->
  implements (load (record_key (R k))) (ask (fun L => t L !! k)) s L.
Proof. intros W P T. apply implements_ask; [by eapply run_load_table|done]. Qed.

Lemma require_run a s L :
  represents (contents s) L ->
  run_io (require_contract a) s =
  (ok_or ContractDoesNotExist (led_contracts L !! a), s).
Proof.
  intros P. unfold require_contract, get_contract. rewrite run_bind.
  change (contract_key a) with (record_key (RContract a)).
  by rewrite (run_load_table RContract s (led_contracts L) a I (rep_contracts _ _ P)).
Qed.

Lemma require_spec a L :
  run_io (spec_require a) L = (ok_or ContractDoesNotExist (led_contracts L !! a), L).
Proof. done. Qed.

(** A contract that is stored is at an address of the family. *)
Lemma stored_address a c m L : represents m L -> led_contracts L !! a = Some c -> contract_address a.
Proof. intros P E. apply (rep_addressed _ _ P). by exists c. Qed.

Lemma get_slot_implements a k s L :
  represents (contents s) L ->
  implements (get_contract_storage a k) (spec (GetContractStorage a k)) s L.
Proof.
  intros P. eapply implements_read; [by apply require_run|done|done|].
  intros c Ec%ok_or_Ok. pose proof (stored_address a c _ _ P Ec) as W. apply implements_ask; [|done]. rewrite run_get.
  by rewrite (rep_slots _ _ P a k W : contents s !! contract_storage_key a k = _).
Qed.

(** The slots read back from the store are those of the ledger. *)
Lemma slots_represented a m L :
  contract_address a -> represents m L -> slots_of m a = nest (led_slots L) a.
Proof.
  intros W P. apply map_eq. intros k. unfold slots_of. rewrite lookup_under.
  apply (rep_slots _ _ P a k W).
Qed.

Lemma hints_represented h m L :
  length h = 32%nat -> represents m L ->
  map_under (viewing_hint_prefix h) m = nest (led_hints L) h.
Proof.
  intros W P. apply map_eq. intros k. rewrite lookup_under. apply (rep_hints _ _ P h k W).
Qed.

(** Putting slots of one contract. *)
Lemma represents_put_slots a ws m L :
  contract_address a -> represents m L ->
  represents (put_all ((fun kv => (contract_storage_key a kv.1, kv.2)) <$> ws) m)
    (on_slots (<[a := put_all ws (nest (led_slots L) a)]>) L).
Proof.
  intros W. revert m L. induction ws as [|w ws IH]; intros m L P.
  - destruct P. split; try done. cbn [led_slots on_slots put_all foldl fmap list_fmap].
    eapply nested_ext; [|done]. intros a'. rewrite nest_insert. by case_decide; subst.
  - set (L1 := on_slots (<[a := <[w.1 := w.2]> (nest (led_slots L) a)]>) L).
    assert (represents (<[contract_storage_key a w.1 := w.2]> m) L1) as P1.
    { assert (record_ok (RSlot a w.1)) by done.
      change (contract_storage_key a w.1) with (record_key (RSlot a w.1)).
      unfold L1. solve_represents. }
    specialize (IH _ _ P1). rewrite fmap_cons. cbn [put_all foldl fst snd].
    fold (put_all ((fun kv => (contract_storage_key a kv.1, kv.2)) <$> ws)
      (<[contract_storage_key a w.1 := w.2]> m)).
    fold (put_all ws (<[w.1 := w.2]> (nest (led_slots L) a))).
    unfold L1, on_slots in IH. cbn in IH. rewrite insert_insert_eq, nest_insert, decide_True in IH by done.
    exact IH.
Qed.

(** A new table of slots in the contents, then the contract with its root. *)
Lemma represents_set_slots a c ws m L b :
  contract_address a -> wf c -> represents m L ->
  let slots := put_all ws (nest (led_slots L) a) in
  bincode_serialize (with_storage_root c (storage_root slots)) = Ok b ->
  represents
    (<[contract_key a := b]>
       (put_all ((fun kv => (contract_storage_key a kv.1, kv.2)) <$> ws) m))
    (on_contracts (<[a := with_storage_root c (storage_root slots)]>) (on_slots (<[a := slots]>) L)).
Proof.
  intros W Wc P slots E. pose proof (represents_put_slots a ws m L W P) as P1. clear P.
  assert (wf (with_storage_root c (storage_root slots))) by (apply with_root_wf; [exact Wc|apply storage_root_array]).
  change (contract_key a) with (record_key (RContract a)). fold slots in P1. solve_represents.
Qed.

Lemma contract_wf a c m L : represents m L -> led_contracts L !! a = Some c -> wf c.
Proof. intros P. by apply (table_wf RContract m), (rep_contracts _ _ P). Qed.

Lemma set_slot_implements a k v s L :
  represents (contents s) L ->
  implements (set_contract_storage a k v) (spec (SetContractStorage a k v)) s L.
Proof.
  intros P. eapply implements_read; [by apply require_run|done|done|]. intros c Ec%ok_or_Ok.
  pose proof (contract_wf a c _ _ P Ec) as Wc. pose proof (stored_address a c _ _ P Ec) as W.
  set (slots := <[k := v]> (nest (led_slots L) a)).
  destruct (run_put s (contract_storage_key a k) v) as (s1 & E1 & C1).
  assert (slots_of (contents s1) a = slots) as Es.
  { rewrite C1. unfold slots_of, contract_storage_key. rewrite under_insert.
    fold (slots_of (contents s) a). by rewrite (slots_represented a _ L W P). }
  destruct (run_save (with_storage_root c (storage_root slots)) s1 (contract_key a))
    as (s2 & b & E2 & Eb & C2); [by apply with_root_wf; [|apply storage_root_array]|].
  exists s2. split; [by rewrite run_bind, E1, run_bind, run_root, Es|]. rewrite C2, C1.
  exact (represents_set_slots a c [(k, v)] (contents s) L b W Wc P Eb).
Qed.

Lemma batch_implements a writes s L :
  represents (contents s) L ->
  implements (commit_contract_storage_batch a writes) (spec (CommitContractStorageBatch a writes)) s L.
Proof.
  intros P. unfold commit_contract_storage_batch. cbn [spec].
  destruct (bool_decide (writes = ∅)); [by apply implements_ret|].
  eapply implements_read; [by apply require_run|done|done|].
  intros c Ec%ok_or_Ok.
  pose proof (contract_wf a c _ _ P Ec) as Wc. pose proof (stored_address a c _ _ P Ec) as W.
  assert (put_all (entries writes) (nest (led_slots L) a) = writes ∪ nest (led_slots L) a) as Eu
    by apply put_all_entries.
  unfold implements. rewrite run_bind, run_iter. fold (found_under (contract_storage_prefix a) (contents s)).
  rewrite found_under_entries. fold (slots_of (contents s) a). rewrite (slots_represented a _ L W P).
  pose proof (batch_root writes (nest (led_slots L) a)) as Er. cbv zeta in Er |- *. rewrite Er.
  set (root := storage_root (writes ∪ nest (led_slots L) a)).
  destruct (run_encode (with_storage_root c root) s) as (b & Eb & Ee);
    [by apply with_root_wf; [|apply storage_root_array]|].
  rewrite run_bind, Ee. edestruct (run_write s) as (s' & Ew & C). exists s'.
  split; [exact Ew|]. rewrite C. unfold put_all at 1. rewrite foldl_snoc. cbn [fst snd].
  unfold root in Eb. rewrite <- Eu in Eb.
  pose proof (represents_set_slots a c (entries writes) (contents s) L b W Wc P Eb) as R.
  rewrite Eu in R. exact R.
Qed.

Lemma deployed_wf code_wasm :
  vec_ok code_wasm ->
  wf {| ctr_code_wasm := code_wasm; ctr_storage_root := sha256 [] |} /\
  wf {| acct_balance := 0; acct_nonce := 0; acct_code_hash := Some (contract_code_hash code_wasm);
        acct_anonymous_state := AnonymousAccountState_default |}.
Proof.
  assert (vec_ok (sha256 [])) by (unfold vec_ok; rewrite sha256_length; lia).
  assert (vec_ok (contract_code_hash code_wasm)) by (unfold vec_ok; rewrite sha256_length; lia).
  intros W. repeat split; try done; cbn; lia.
Qed.

Lemma deploy_implements sender code_wasm s L :
  contract_address (derive_contract_address sender code_wasm) -> vec_ok code_wasm -> represents (contents s) L ->
  implements (deploy_contract sender code_wasm) (spec (DeployContract sender code_wasm)) s L.
Proof.
  intros Wd W P. unfold deploy_contract. cbn [spec].
  destruct (bool_decide (sender = [])); [by apply implements_lift|].
  destruct (bool_decide (code_wasm = [])); [by apply implements_lift|].
  set (a := derive_contract_address sender code_wasm). unfold spec_deploy.
  eapply implements_read; [by apply (run_load_table RAccount s _ a I (rep_accounts _ _ P))|done|done|].
  intros account <-%(inj Ok). unfold implements. rewrite run_bind.
  assert (run_io (if bool_decide (is_Some (led_accounts L !! a)) then mret true
    else contract ← get_contract a; mret (bool_decide (is_Some contract))) s =
    (Ok (bool_decide (is_Some (led_accounts L !! a) \/ is_Some (led_contracts L !! a))), s)) as ->.
  { destruct (led_accounts L !! a) as [x|]; [done|].
    rewrite (bool_decide_false (is_Some None)) by (by intros []). unfold get_contract. rewrite run_bind.
    change (contract_key a) with (record_key (RContract a)).
    rewrite (run_load_table RContract s _ a I (rep_contracts _ _ P)).
    rewrite run_ret. do 2 f_equal. apply bool_decide_ext. split; [by right|by intros [[]|]]. }
  rewrite run_bind. cbn [run_io ask].
  destruct (bool_decide _); [by apply implements_lift|].
  destruct (deployed_wf code_wasm W) as [Wc Wa].
  apply (implements_bind (update_contract a _));
    [by apply update_contract_implements|].
  intros _ s1 _ P1. apply (implements_bind (update_account a _)); [by apply update_account_implements|].
  intros _ s2 _ P2. by apply implements_ret.
Qed.

Lemma load_notes_run h l s L :
  represents (contents s) L ->
  run_io (load_notes (viewing_hint_prefix h) ((fun kv => (viewing_hint_prefix h ++ kv.1, kv.2)) <$> l)) s =
  (Ok (omap (fun kv : bytes * bytes => led_notes L !! kv.1) l), s).
Proof.
  intros P. induction l as [|kv l IH]; [done|]. rewrite fmap_cons. cbn [load_notes fst].
  rewrite drop_app_length. unfold get_viewable_note.
  change (anonymous_note_key kv.1) with (record_key (RNote kv.1)).
  rewrite run_bind, (run_load_table RNote s _ kv.1 I (rep_notes _ _ P)), run_bind, IH.
  rewrite run_ret. cbn [omap list_omap]. by destruct (led_notes L !! kv.1).
Qed.

(** What a scan returns. *)
Lemma find_run viewing_key s L :
  represents (contents s) L ->
  run_io (find_notes_for_viewing_key viewing_key) s =
  (Ok (match compute_viewing_hint viewing_key with Some h => notes_under L h | None => [] end), s).
Proof.
  intros P. unfold find_notes_for_viewing_key.
  destruct (compute_viewing_hint viewing_key) as [h|] eqn:Eh; [|done].
  assert (length h = 32%nat) as W.
  { unfold compute_viewing_hint in Eh. case_bool_decide; [done|]. injection Eh as <-. apply sha256_length. }
  rewrite run_bind, run_iter.
  set (found := filter _ (entries (contents s))).
  assert (found = (fun kv => (viewing_hint_prefix h ++ kv.1, kv.2)) <$>
    found_under (viewing_hint_prefix h) (contents s)) as ->.
  { unfold found_under. fold found. rewrite <- list_fmap_compose. symmetry.
    rewrite <- (list_fmap_id found) at 2. apply list_fmap_ext. intros i [k v] I.
    apply list_elem_of_lookup_2, list_elem_of_filter in I as [[r R]%starts_with_true _].
    unfold slot_of, compose. cbn [fst snd] in *. by rewrite R, drop_app_length. }
  rewrite (load_notes_run h _ s L P), found_under_entries, (hints_represented h _ L W P). done.
Qed.

Lemma find_implements viewing_key s L :
  represents (contents s) L ->
  implements (find_notes_for_viewing_key viewing_key) (spec (FindNotesForViewingKey viewing_key)) s L.
Proof.
  intros P. exists s. rewrite (find_run viewing_key s L P). cbn [spec].
  by destruct (compute_viewing_hint viewing_key).
Qed.

(** Every request. *)
Lemma perform_implements {A} (q : request A) s L :
  request_ok q -> represents (contents s) L -> implements (perform q) (spec q) s L.
Proof.
  intros W P. destruct q; cbn [request_ok perform] in *.
  - by apply save_block_implements.
  - by apply (load_implements RBlock led_blocks), (rep_blocks _ _ P).
  - by apply save_transaction_implements.
  - by apply (load_implements RTransaction led_transactions), (rep_transactions _ _ P).
  - by apply update_account_implements.
  - by apply (load_implements RAccount led_accounts), (rep_accounts _ _ P).
  - destruct W. by apply deploy_implements.
  - destruct W. by apply update_contract_implements.
  - by apply (load_implements RContract led_contracts), (rep_contracts _ _ P).
  - by apply set_slot_implements.
  - by apply get_slot_implements.
  - by apply batch_implements.
  - by apply save_note_implements.
  - by apply (load_implements RNote led_notes), (rep_notes _ _ P).
  - by apply find_implements.
  - destruct W. by apply save_root_implements.
  - by apply (load_implements RNoteRoot led_roots), (rep_roots _ _ P).
  - by apply save_validator_implements.
  - by apply (load_implements RStake led_validators), (rep_validators _ _ P).
Qed.
End refinement.
