(* ===== verification/StorageSpec.v ===== *)
(** * Properties of the storage

    Sessions of requests on the database and on the ledger of file [Ledger]:
    refinement, the authenticity of contract storage roots, batches against
    single writes, and the discovery of notes by viewing key. *)

From S2P Require Import Prelude Orders Bytes Externals Types Hash Notes Keys Store Storage Ledger.

(** ** Sessions *)

(** A request with the type of its result. *)
Record call := Call { call_result : Type; call_request : request call_result }.

Arguments Call {_} _.

(** A result with its type. *)
Definition response : Type := {A : Type & outcome StorageError A}.

(** The responses to the calls, in order, and the last state. *)
Fixpoint session {St} (go : forall A, request A -> io St StorageError A) (calls : list call)
    (s : St) : list response * St :=
  match calls with
  | [] => ([], s)
  | c :: calls' =>
      let '(r, s1) := run_io (go _ (call_request c)) s in
      let '(rs, s2) := session go calls' s1 in
      (existT _ r :: rs, s2)
  end.

Lemma session_cons {St} (go : forall A, request A -> io St StorageError A) c calls (s : St) :
  (session go (c :: calls) s).2 = (session go calls (run_io (go _ (call_request c)) s).2).2.
Proof.
  cbn [session]. destruct (run_io _ s) as [r s1]. cbn [snd]. by destruct (session go calls s1).
Qed.

Definition call_ok `{Sha256, !Addresses} (c : call) : Prop := request_ok (call_request c).

Section sessions.
Context `{!Addresses} {S : Type} `{KvStoreOk S, Sha256Ok, ChainCodecsOk}.
Context `{!Bincode ViewableNote, !BincodeOk ViewableNote, !Bincode Hash32, !BincodeOk Hash32}.
Implicit Types (s : S) (L : Ledger).

Lemma represents_empty s : contents s = ∅ -> represents (contents s) empty_ledger.
Proof. intros E. rewrite E. split; try (intros ?; try intros ?; done); by intros ? [? L].
Qed.

Lemma session_refines calls s L :
  Forall call_ok calls -> represents (contents s) L -> exists s',
    session (@perform _ _ S _ _ _) calls s = ((session (@spec _ _) calls L).1, s') /\
    represents (contents s') (session (@spec _ _) calls L).2.
Proof.
  intros W. revert s L. induction W as [|c calls Wc W IH]; intros s L P; [by exists s|].
  cbn [session]. destruct (perform_implements (call_request c) s L Wc P) as (s1 & E1 & P1).
  rewrite E1. destruct (run_io (spec (call_request c)) L) as [r L1]. cbn [fst snd] in *.
  destruct (IH s1 L1 P1) as (s2 & E2 & P2). exists s2. rewrite E2.
  by destruct (session (@spec _ _) calls L1) as [rs L2].
Qed.
End sessions.

(** ** Authentic roots *)

Section roots.
Context `{Sha256, ChainCodecs}.

(** The storage root of each contract is the root of its slots; nothing else
    has slots. *)
Record roots_ok (L : Ledger) : Prop := {
  roots_contract : forall a c, led_contracts L !! a = Some c ->
    ctr_storage_root c = storage_root (nest (led_slots L) a);
  roots_absent : forall a, led_contracts L !! a = None -> nest (led_slots L) a = ∅;
}.

Definition updates_contract (c : call) : bool :=
  match call_request c with UpdateContract _ _ => true | _ => false end.

Lemma roots_ok_empty : roots_ok empty_ledger.
Proof. by split. Qed.

(** Only the contracts and the slots matter. *)
Lemma roots_ok_same L L' :
  led_contracts L' = led_contracts L -> led_slots L' = led_slots L -> roots_ok L -> roots_ok L'.
Proof. intros Ec Es [R A]. split; rewrite Ec, Es; [exact R|exact A]. Qed.

Lemma roots_ok_set_slots L a c slots :
  roots_ok L -> is_Some (led_contracts L !! a) ->
  roots_ok (run_io (spec_set_slots a c slots) L).2.
Proof.
  intros [R A] [c0 E]. split; cbn; intros a'.
  - intros c'. rewrite nest_insert. destruct (decide (a = a')) as [->|N].
    + rewrite lookup_insert_eq. by intros [= <-].
    + rewrite lookup_insert_ne by done. apply R.
  - destruct (decide (a = a')) as [->|N]; [by rewrite lookup_insert_eq|].
    rewrite lookup_insert_ne by done. rewrite nest_insert, decide_False by done. apply A.
Qed.

Lemma roots_ok_deploy L a code_wasm :
  roots_ok L -> roots_ok (run_io (spec_deploy a code_wasm) L).2.
Proof.
  intros [R A]. unfold spec_deploy. do 2 (rewrite run_bind; cbn [run_io ask]).
  case_bool_decide as D; [by split|]. split; cbn; intros a'.
  - intros c'. destruct (decide (a = a')) as [->|N].
    + rewrite lookup_insert_eq. intros [= <-]. cbn. rewrite A; [done|].
      destruct (led_contracts L !! a') eqn:E; [|done]. destruct D. by right.
    + rewrite lookup_insert_ne by done. apply R.
  - destruct (decide (a = a')) as [->|N]; [by rewrite lookup_insert_eq|].
    rewrite lookup_insert_ne by done. apply A.
Qed.

Lemma roots_ok_spec c L :
  updates_contract c = false -> roots_ok L -> roots_ok (run_io (spec (call_request c)) L).2.
Proof.
  destruct c as [A q]. unfold updates_contract. cbn [call_request]. intros U I.
  destruct q; try discriminate U; cbn [spec]; try done;
    try (by eapply roots_ok_same; [..|exact I]).
  - rewrite run_bind, run_lift. destruct (hash_block_header _); [|done..].
    by eapply roots_ok_same; [..|exact I].
  - rewrite run_bind, run_lift. destruct (hash_transaction _); [|done..].
    by eapply roots_ok_same; [..|exact I].
  - case_bool_decide; [done|]. case_bool_decide; [done|]. by apply roots_ok_deploy.
  - rewrite run_bind, require_spec. destruct (led_contracts L !! address) eqn:E; [|done].
    cbn [ok_or]. rewrite run_bind. cbn [run_io ask]. by apply roots_ok_set_slots.
  - rewrite run_bind, require_spec. by destruct (led_contracts L !! address).
  - case_bool_decide; [done|]. rewrite run_bind, require_spec.
    destruct (led_contracts L !! address) eqn:E; [|done].
    cbn [ok_or]. rewrite run_bind. cbn [run_io ask]. by apply roots_ok_set_slots.
  - destruct (compute_viewing_hint _); done.
Qed.

Lemma roots_ok_session calls L :
  Forall (fun c => updates_contract c = false) calls -> roots_ok L ->
  roots_ok (session (@spec _ _) calls L).2.
Proof.
  intros F. revert L. induction F as [|c calls U F IH]; intros L I; [done|].
  rewrite session_cons. by apply IH, roots_ok_spec.
Qed.
End roots.

(** ** Saved notes *)

Section notes.
Context `{Sha256, ChainCodecs}.

Definition save_note_calls (ns : list ViewableNote) : list call :=
  (fun n => Call (SaveViewableNote n)) <$> ns.

Definition save_note (L : Ledger) (n : ViewableNote) : Ledger :=
  (run_io (spec (SaveViewableNote n)) L).2.

Lemma save_note_session ns L :
  (session (@spec _ _) (save_note_calls ns) L).2 = foldl save_note L ns.
Proof.
  revert L. induction ns as [|n ns IH]; intros L; [done|].
  change (save_note_calls (n :: ns)) with (Call (SaveViewableNote n) :: save_note_calls ns).
  rewrite session_cons. apply IH.
Qed.

(** What is stored after saving notes with distinct commitments. *)
Record notes_saved (ns : list ViewableNote) (L : Ledger) : Prop := {
  saved_notes : forall c n, led_notes L !! c = Some n <-> n ∈ ns /\ viewable_commitment n = c;
  saved_hints : forall h c, is_Some (nest (led_hints L) h !! c) <->
    exists n, n ∈ ns /\ view_hint n = h /\ viewable_commitment n = c;
}.

Lemma notes_saved_all ns :
  NoDup (viewable_commitment <$> ns) -> notes_saved ns (foldl save_note empty_ledger ns).
Proof.
  induction ns as [|n ns IH] using rev_ind; intros ND.
  { split; [intros c n|intros h c]; cbn [foldl]; unfold nest, empty_ledger; cbn [led_notes led_hints].
    - rewrite lookup_empty. split; [done|by intros [?%not_elem_of_nil _]].
    - rewrite lookup_empty. cbn [default from_option]. rewrite lookup_empty.
      split; [by intros []|by intros (n & ?%not_elem_of_nil & _)]. }
  rewrite fmap_app in ND. apply NoDup_app in ND as (ND & D & _).
  destruct (IH ND) as [N I]. rewrite foldl_snoc. split; cbn.
  - intros c m. rewrite lookup_insert_Some, N, elem_of_app, list_elem_of_singleton. split.
    + intros [[<- ->]|[Nc [M Ec]]]; [by split; [right|]|by split; [left|]].
    + intros [[M| ->] Ec]; [|by left]. right. split; [|done]. intros En.
      apply (D (viewable_commitment m)); [by apply list_elem_of_fmap_2|]. set_solver.
  - intros h c. rewrite nest_insert. destruct (decide (view_hint n = h)) as [<-|Nh].
    + rewrite lookup_insert_is_Some, I. setoid_rewrite elem_of_app. setoid_rewrite list_elem_of_singleton.
      destruct (decide (viewable_commitment n = c)); naive_solver.
    + rewrite I. setoid_rewrite elem_of_app. setoid_rewrite list_elem_of_singleton. naive_solver.
Qed.

(** The commitments of the notes under a hint are those indexed. *)
Lemma notes_under_commitments ns L h :
  notes_saved ns L -> viewable_commitment <$> notes_under L h = (entries (nest (led_hints L) h)).*1.
Proof.
  intros [N I]. unfold notes_under.
  assert (forall kv, kv ∈ entries (nest (led_hints L) h) ->
    exists n, led_notes L !! kv.1 = Some n /\ viewable_commitment n = kv.1) as F.
  { intros [c v] E%entries_elem. destruct (proj1 (I h c)) as (n & M & _ & Ec); [by eexists|].
    exists n. split; [|done]. by apply N. }
  induction (entries (nest (led_hints L) h)) as [|kv l IH]; [done|]. cbn [omap list_omap].
  destruct (F kv ltac:(left)) as (n & -> & Ec). rewrite !fmap_cons, Ec. f_equal.
  apply IH. intros kv' M. apply F. by right.
Qed.

Lemma notes_under_perm ns h :
  NoDup (viewable_commitment <$> ns) ->
  let l := notes_under (foldl save_note empty_ledger ns) h in
  l ≡ₚ filter (fun n => view_hint n = h) ns /\
  StronglySorted (fun x y => cmp_on viewable_commitment bytes_cmp x y <> Gt) l.
Proof.
  intros ND. pose proof (notes_saved_all ns ND) as P.
  set (L := foldl save_note empty_ledger ns) in *. cbv zeta.
  pose proof (notes_under_commitments ns L h P) as E. destruct P as [N I]. split.
  - apply NoDup_Permutation.
    + apply (NoDup_fmap_1 viewable_commitment). rewrite E. apply entries_NoDup.
    + apply NoDup_filter. by eapply NoDup_fmap_1.
    + intros n. rewrite list_elem_of_filter. unfold notes_under. rewrite list_elem_of_omap. split.
      * intros ([c v] & Ec%entries_elem & [M Ecn]%N). cbn [fst] in *.
        destruct (proj1 (I h c)) as (n' & M' & Eh & Ec'); [by eexists|].
        assert (n' = n) as -> by (apply (NoDup_fmap_inj viewable_commitment ns); [done..|congruence]). done.
      * intros [Eh M]. destruct (proj2 (I h (viewable_commitment n))) as [v Ev]; [by exists n|].
        exists (viewable_commitment n, v). split; [by apply entries_elem|]. by apply N.
  - assert (StronglySorted (fun x y => bytes_cmp x y <> Gt) (viewable_commitment <$> notes_under L h)) as S.
    { rewrite E. clear E. pose proof (entries_sorted (nest (led_hints L) h)) as S.
      induction S as [|kv l S IH F]; [constructor|]. rewrite fmap_cons. constructor; [done|].
      apply Forall_fmap. exact F. }
    clear E. induction (notes_under L h) as [|n l IH]; [constructor|].
    rewrite fmap_cons in S. apply StronglySorted_inv in S as [S F]. constructor; [by apply IH|].
    apply (Forall_fmap viewable_commitment) in F. exact F.
Qed.
End notes.

(** ** Batches *)

Section batches.
Context `{Sha256, ChainCodecs}.

(** One write per entry. *)
Definition set_calls (a : bytes) (ws : list (bytes * bytes)) : list call :=
  (fun kv => Call (SetContractStorage a kv.1 kv.2)) <$> ws.

Definition slots_set (a : bytes) (c : Contract) (slots : gmap bytes bytes) (L : Ledger) : Ledger :=
  (run_io (spec_set_slots a c slots) L).2.

Lemma set_slots_twice a c c' slots slots' L :
  ctr_code_wasm c' = ctr_code_wasm c ->
  slots_set a c' slots' (slots_set a c slots L) = slots_set a c slots' L.
Proof.
  intros E. unfold slots_set. cbn. unfold on_contracts, on_slots, with_storage_root. cbn.
  by rewrite E, !insert_insert_eq.
Qed.

Lemma set_one_spec a k v c L :
  led_contracts L !! a = Some c ->
  (run_io (spec (SetContractStorage a k v)) L).2 =
  slots_set a c (<[k := v]> (nest (led_slots L) a)) L.
Proof. intros E. cbn [spec]. rewrite run_bind, require_spec, E. done. Qed.

Lemma slots_set_at a c slots L :
  led_contracts (slots_set a c slots L) !! a = Some (with_storage_root c (storage_root slots)) /\
  nest (led_slots (slots_set a c slots L)) a = slots.
Proof.
  unfold slots_set. cbn. rewrite lookup_insert_eq. split; [done|].
  by rewrite nest_insert, decide_True.
Qed.

Lemma set_calls_spec a ws c L :
  led_contracts L !! a = Some c -> ws <> [] ->
  (session (@spec _ _) (set_calls a ws) L).2 = slots_set a c (put_all ws (nest (led_slots L) a)) L.
Proof.
  revert c L. induction ws as [|w ws IH]; intros c L E N; [done|].
  change (set_calls a (w :: ws)) with (Call (SetContractStorage a w.1 w.2) :: set_calls a ws).
  rewrite session_cons. cbn [call_request call_result]. rewrite (set_one_spec a w.1 w.2 c L E).
  destruct ws as [|w' ws]; [done|]. set (slots := <[w.1 := w.2]> (nest (led_slots L) a)).
  destruct (slots_set_at a c slots L) as [Ec Es].
  rewrite (IH _ _ Ec) by done. rewrite Es. by rewrite set_slots_twice.
Qed.

Lemma batch_spec a writes c L :
  led_contracts L !! a = Some c -> writes <> ∅ ->
  run_io (spec (CommitContractStorageBatch a writes)) L =
  (Ok tt, slots_set a c (put_all (entries writes) (nest (led_slots L) a)) L).
Proof.
  intros E N. cbn [spec]. rewrite bool_decide_false by done.
  rewrite run_bind, require_spec, E. cbn [ok_or]. rewrite run_bind. cbn [run_io ask].
  by rewrite put_all_entries.
Qed.

Lemma entries_nil (m : gmap bytes bytes) : entries m = [] -> m = ∅.
Proof.
  intros E. apply map_empty. intros k. destruct (m !! k) as [v|] eqn:L; [|done].
  apply entries_elem in L. rewrite E in L. by apply not_elem_of_nil in L.
Qed.
End batches.

(** Reading a contract leaves the database alone. *)
Lemma get_contract_state {S} `{KvStore S, ChainCodecs} a (s : S) :
  (run_io (get_contract a) s).2 = s.
Proof.
  unfold get_contract, load. rewrite run_bind. unfold get. cbn [run_io].
  destruct (db_get s (contract_key a)) as [[b|]| |]; cbn [map_err snd]; try done.
  rewrite run_bind, run_lift. by destruct (bincode_deserialize b).
Qed.

(** ** Properties *)

Section properties.
Context `{!Addresses} {S : Type} `{KvStoreOk S, Sha256Ok, ChainCodecsOk}.
Context `{!Bincode ViewableNote, !BincodeOk ViewableNote, !Bincode Hash32, !BincodeOk Hash32}.

(** [C6] The storage implements the ledger: for any family of
    contract addresses none of which, followed by [':'], starts another
    followed by [':'], as 32-byte digests or names without [':'], and any
    session of requests on an empty database that creates contracts at
    addresses of the family and saves values in the range of their types, the
    operations on encoded records under string keys give the responses that
    the finite maps of the ledger give, errors included, and leave contents
    that represent the ledger record by record: no record overwrites another.
    Slots and contracts may be asked for at any address.  Without the
    condition on the addresses the slots of two contracts can be one record
    ([slots_clash]). *)
Theorem storage_refines (calls : list call) (s : S) :
  contents s = ∅ -> Forall call_ok calls -> exists s',
    session (@perform _ _ S _ _ _) calls s =
      ((session (@spec _ _) calls empty_ledger).1, s') /\
    represents (contents s') (session (@spec _ _) calls empty_ledger).2.
Proof. intros E W. by apply session_refines, represents_empty. Qed.

(** [C14] After any session without an explicit
    [update_contract], the storage root of every contract in the database is
    the root of the slots stored under its address, whether they were written
    one at a time, in batches, or not at all; a redeployment never resets
    them. *)
Theorem storage_roots_authentic (calls : list call) (s s' : S) rs a c :
  contents s = ∅ -> Forall call_ok calls ->
  Forall (fun c => updates_contract c = false) calls ->
  session (@perform _ _ S _ _ _) calls s = (rs, s') ->
  run_io (get_contract a) s' = (Ok (Some c), s') ->
  ctr_storage_root c = storage_root (slots_of (contents s') a).
Proof.
  intros E W U Es Ec.
  destruct (session_refines calls s empty_ledger W (represents_empty s E)) as (s1 & E1 & P).
  rewrite Es in E1. injection E1 as _ <-.
  pose proof (roots_ok_session calls empty_ledger U roots_ok_empty) as [R _].
  destruct (perform_implements (GetContract a) s' _ I P) as (s2 & E2 & _).
  cbn [perform] in E2. rewrite Ec in E2. injection E2 as E2 _.
  assert (led_contracts (session (@spec _ _) calls empty_ledger).2 !! a = Some c) as Lc by done.
  rewrite (slots_represented a _ _ (stored_address a c _ _ P Lc) P). by apply R.
Qed.

(** Committing a batch is writing its entries one by one:
    both succeed and leave the same ledger, with one root for the merged slots,
    although the batch computes it from the slots it read before writing. *)
Theorem batch_is_sequence (s : S) L a writes :
  represents (contents s) L -> is_Some (led_contracts L !! a) ->
  writes <> ∅ -> exists s1 s2 rs L',
    run_io (commit_contract_storage_batch a writes) s = (Ok tt, s1) /\
    session (@perform _ _ S _ _ _) (set_calls a (entries writes)) s = (rs, s2) /\
    represents (contents s1) L' /\ represents (contents s2) L' /\
    slots_of (contents s1) a = writes ∪ slots_of (contents s) a.
Proof.
  intros P [c E] N. pose proof (stored_address a c _ _ P E) as W.
  destruct (perform_implements (CommitContractStorageBatch a writes) s L I P) as (s1 & E1 & P1).
  rewrite (batch_spec a writes c L E N) in E1, P1. cbn [fst snd] in *.
  destruct (session_refines (set_calls a (entries writes)) s L) as (s2 & E2 & P2); [|done|].
  { apply Forall_fmap, Forall_forall. by intros. }
  rewrite (set_calls_spec a (entries writes) c L E) in P2
    by (intros E0; by apply entries_nil in E0).
  eexists s1, s2, _, _. split; [exact E1|]. split; [exact E2|]. split; [exact P1|]. split; [exact P2|].
  rewrite (slots_represented a _ _ W P1), (slots_represented a _ _ W P).
  rewrite (proj2 (slots_set_at a c _ L)). apply put_all_entries.
Qed.

End properties.

Section discovery.
Import DigestAddresses.
Context {S : Type} `{KvStoreOk S, Sha256Ok, ChainCodecsOk}.
Context `{!Bincode ViewableNote, !BincodeOk ViewableNote, !Bincode Hash32, !BincodeOk Hash32}.

(** Scanning with a viewing key finds exactly the notes
    made for it: after saving notes with distinct commitments, the scan
    returns each note visible to the key once, in the order of commitments,
    and no other. *)
Theorem find_notes_exact (ns : list ViewableNote) (s : S) viewing_key :
  contents s = ∅ -> Forall wf ns -> NoDup (viewable_commitment <$> ns) -> exists s' l,
    (session (@perform _ _ S _ _ _) (save_note_calls ns) s).2 = s' /\
    run_io (find_notes_for_viewing_key viewing_key) s' = (Ok l, s') /\
    l ≡ₚ filter (fun n => is_visible_to n viewing_key = true) ns /\
    StronglySorted (fun x y => cmp_on viewable_commitment bytes_cmp x y <> Gt) l.
Proof.
  intros E W ND.
  destruct (session_refines (save_note_calls ns) s empty_ledger) as (s' & E' & P);
    [by apply Forall_fmap|by apply represents_empty|].
  rewrite save_note_session in P. rewrite E'.
  pose proof (find_run viewing_key s' _ P) as F.
  eexists s', _. split; [done|]. split; [exact F|]. unfold is_visible_to.
  destruct (compute_viewing_hint viewing_key) as [h|].
  - destruct (notes_under_perm ns h ND) as [Pm S0]. split; [|done]. rewrite Pm.
    apply reflexive_eq, list_filter_iff. intros n. cbn [from_option].
    rewrite bool_decide_eq_true. naive_solver.
  - split; [|constructor]. symmetry. clear. induction ns as [|n ns IH]; [done|].
    by rewrite filter_cons, decide_False.
Qed.
End discovery.

(** ** Witnesses *)

From S2P Require Import Concrete.
Import Concrete.Instances DigestAddresses.

Definition c_hash32 : codec Hash32 :=
  c_map Build_Hash32 hash32 c_bytes.

Definition c_note : codec ViewableNote :=
  c_map (fun '(a, (b, c)) => Build_ViewableNote (Build_Note a) b c)
    (fun n => (commitment (note n), (view_hint n, note_shard_id n)))
    (c_pair c_bytes (c_pair c_bytes (c_uint 2))).

Lemma array_32_vec b : is_array_32 b -> vec_ok b.
Proof. unfold is_array_32, vec_ok. lia. Qed.

Lemma c_hash32_ok : CodecOk wf c_hash32.
Proof.
  eapply c_map_ok; [apply c_bytes_ok| |by intros []]. intros x W. by apply array_32_vec.
Qed.

Lemma c_note_ok : CodecOk wf c_note.
Proof.
  eapply c_map_ok; [| |by intros [[] ? ?]].
  - repeat first [apply c_pair_ok | apply c_bytes_ok | apply c_uint_ok].
  - intros [[a] b c] (A & B & C). split; [by apply array_32_vec|]. split; [by apply array_32_vec|done].
Qed.

Module StorageInstances.
#[export] Instance toy_note : Bincode ViewableNote := bincode_of c_note.
#[export] Instance toy_note_ok : BincodeOk ViewableNote := bincode_of_ok _ c_note_ok.
#[export] Instance toy_hash32 : Bincode Hash32 := bincode_of c_hash32.
#[export] Instance toy_hash32_ok : BincodeOk Hash32 := bincode_of_ok _ c_hash32_ok.
End StorageInstances.
Import StorageInstances.

(** A deployment, two writes and a batch on an empty database. *)
Definition sample_code : bytes := fill 3 7.
Definition sample_address : bytes := derive_contract_address (fill 4 1) sample_code.

Definition sample_calls : list call := [
  Call (DeployContract (fill 4 1) sample_code);
  Call (SetContractStorage sample_address (fill 1 1) (fill 1 2));
  Call (CommitContractStorageBatch sample_address {[ fill 1 1 := fill 1 3; fill 1 4 := fill 1 5 ]}) ].

Lemma sample_calls_ok : Forall call_ok sample_calls.
Proof. repeat constructor; vm_compute; done. Qed.

Definition db_empty : gmap bytes bytes := ∅.

(** Two contracts at given addresses, a slot of the second, and a slot of a
    contract that is not there. *)
Definition named_calls (first second : string) : list call := [
  Call (UpdateContract (bytes_of first) {| ctr_code_wasm := sample_code; ctr_storage_root := sha256 [] |});
  Call (UpdateContract (bytes_of second) {| ctr_code_wasm := sample_code; ctr_storage_root := sha256 [] |});
  Call (SetContractStorage (bytes_of second) (bytes_of "k") (bytes_of "v"));
  Call (GetContractStorage (bytes_of "nobody:") (bytes_of "k")) ].

Lemma named_calls_ok : Forall (call_ok (H0 := plain_addresses)) (named_calls "contract-1" "contract-2").
Proof. repeat constructor; vm_compute; done. Qed.

Lemma storage_refines_witness :
  (exists s',
    session (@perform _ _ (gmap bytes bytes) _ _ _) sample_calls db_empty =
      ((session (@spec _ _) sample_calls empty_ledger).1, s') /\
    represents (contents s') (session (@spec _ _) sample_calls empty_ledger).2) /\
  exists s',
    session (@perform _ _ (gmap bytes bytes) _ _ _) (named_calls "contract-1" "contract-2") db_empty =
      ((session (@spec _ _) (named_calls "contract-1" "contract-2") empty_ledger).1, s') /\
    represents (H := plain_addresses) (contents s')
      (session (@spec _ _) (named_calls "contract-1" "contract-2") empty_ledger).2.
Proof.
  exact (conj (storage_refines sample_calls db_empty eq_refl sample_calls_ok)
    (storage_refines (H := plain_addresses) _ db_empty eq_refl named_calls_ok)).
Defined.

(** At addresses that are not apart, a slot never written is the one of the
    other contract. *)
Example slots_clash :
  (run_io (get_contract_storage (bytes_of "a") (bytes_of "b:k"))
    (session (@perform _ _ (gmap bytes bytes) _ _ _) (named_calls "a" "a:b") db_empty).2).1 =
    Ok (Some (bytes_of "v")) /\
  (run_io (spec (GetContractStorage (bytes_of "a") (bytes_of "b:k")))
    (session (@spec _ _) (named_calls "a" "a:b") empty_ledger).2).1 = Ok None.
Proof. split; vm_compute; reflexivity. Qed.

Definition sample_db : gmap bytes bytes :=
  (session (@perform _ _ (gmap bytes bytes) _ _ _) sample_calls db_empty).2.

Definition sample_contract : Contract := {|
  ctr_code_wasm := sample_code;
  ctr_storage_root := storage_root {[ fill 1 1 := fill 1 3; fill 1 4 := fill 1 5 ]} |}.

Lemma sample_contract_stored :
  run_io (get_contract sample_address) sample_db = (Ok (Some sample_contract), sample_db).
Proof.
  assert ((run_io (get_contract sample_address) sample_db).1 = Ok (Some sample_contract)) as E
    by (vm_compute; reflexivity).
  rewrite (surjective_pairing (run_io _ _)), E, get_contract_state. reflexivity.
Qed.

Lemma storage_roots_authentic_witness :
  ctr_storage_root sample_contract = storage_root (slots_of (contents sample_db) sample_address).
Proof.
  refine (storage_roots_authentic sample_calls db_empty sample_db _ sample_address sample_contract
    eq_refl sample_calls_ok _ _ sample_contract_stored).
  - by repeat constructor.
  - apply surjective_pairing.
Defined.

Definition deploy_call : list call := [Call (DeployContract (fill 4 1) sample_code)].

Definition deployed_db : gmap bytes bytes :=
  (session (@perform _ _ (gmap bytes bytes) _ _ _) deploy_call db_empty).2.

Lemma deployed_represents :
  represents (contents deployed_db) (session (@spec _ _) deploy_call empty_ledger).2 /\
  is_Some (led_contracts (session (@spec _ _) deploy_call empty_ledger).2 !! sample_address).
Proof.
  split.
  - assert (Forall call_ok deploy_call) as W by (repeat constructor; vm_compute; done).
    destruct (session_refines deploy_call db_empty empty_ledger W) as (s' & E & P);
      [by apply represents_empty|].
    unfold deployed_db. by rewrite E.
  - apply (bool_decide_unpack _). vm_compute. exact I.
Qed.

Definition sample_writes : gmap bytes bytes := {[ fill 1 1 := fill 1 3; fill 1 4 := fill 1 5 ]}.

Lemma batch_is_sequence_witness : exists s1 s2 rs L',
  run_io (commit_contract_storage_batch sample_address sample_writes) deployed_db = (Ok tt, s1) /\
  session (@perform _ _ (gmap bytes bytes) _ _ _) (set_calls sample_address (entries sample_writes))
    deployed_db = (rs, s2) /\
  represents (contents s1) L' /\ represents (contents s2) L' /\
  slots_of (contents s1) sample_address =
    sample_writes ∪ slots_of (contents deployed_db) sample_address.
Proof.
  exact (batch_is_sequence deployed_db _ sample_address sample_writes
    (proj1 deployed_represents) (proj2 deployed_represents) ltac:(by_eval)).
Defined.

Definition sample_notes : list ViewableNote := [
  {| note := {| commitment := fill 32 1 |};
     view_hint := default [] (compute_viewing_hint (fill 32 5)); note_shard_id := 0 |};
  {| note := {| commitment := fill 32 2 |};
     view_hint := default [] (compute_viewing_hint (fill 32 6)); note_shard_id := 1 |} ].

Lemma find_notes_exact_witness : exists s' l,
  (session (@perform _ _ (gmap bytes bytes) _ _ _) (save_note_calls sample_notes) db_empty).2 = s' /\
  run_io (find_notes_for_viewing_key (fill 32 5)) s' = (Ok l, s') /\
  l ≡ₚ filter (fun n => is_visible_to n (fill 32 5) = true) sample_notes /\
  StronglySorted (fun x y => cmp_on viewable_commitment bytes_cmp x y <> Gt) l.
Proof.
  apply (find_notes_exact sample_notes db_empty (fill 32 5)); [reflexivity|solve_wf|by_eval].
Defined.
