(* ===== verification/Vm.v ===== *)
(** * Contract execution ([src/vm/mod.rs])

    The execution context of a contract, the host functions it can call, the
    linker that exposes them over the guest's linear memory, and the execution
    of a call.  The WebAssembly engine is the class [Wasmtime]: what a module
    does is a finite tree of host calls, finite because the store meters
    fuel. *)

From S2P Require Import Prelude Bytes Text Externals Types Hash Notes Keys Store Storage.

Definition DEFAULT_WASM_FUEL_LIMIT : Z := 100000.

Record WasmGasConfig := { gas_fuel_limit : Z }.

Definition WasmGasConfig_default : WasmGasConfig := {| gas_fuel_limit := DEFAULT_WASM_FUEL_LIMIT |}.

Record WasmExecutionContext := {
  ctx_contract_address : bytes;
  ctx_caller : bytes;
  ctx_block_height : Z;
  ctx_shard_id : Z;
}.

Record ContractEvent := {
  ev_contract_address : bytes;
  ev_name : bytes;
  ev_data : bytes;
  ev_block_height : Z;
}.

Record WasmVM := {
  vm_context : WasmExecutionContext;
  vm_pending_transfers : list Transaction;
  vm_emitted_events : list ContractEvent;
  vm_staged_storage_writes : gmap bytes bytes;
  vm_gas_config : WasmGasConfig;
}.

(** [anyhow::Error], by origin. *)
Module VmError.
Inductive t :=
| FuelLimitZero
| ContractAddressRequired (operation : string)
| ContractAccountMissing
| ContractAccountRequired (operation : string)
| RecipientRequired
| AmountOverflow
| InsufficientBalance (balance required : Z)
| NonceOverflow
| EmptyEventName
| MemoryExportRequired
| NegativeOffset
| MemoryRangeOverflow
| ReadOutOfBounds
| WriteOutOfBounds
| LengthExceedsI32
| BalanceExceedsI64
| NegativeAmount
| EmptyMethod
| ContractDoesNotExist
| UnresolvedFunction (method message : string)
| Storage (e : StorageError)
| Engine (message : string).
End VmError.

(** ** The machine *)

Definition with_context (context : WasmExecutionContext) : WasmVM := {|
  vm_context := context; vm_pending_transfers := []; vm_emitted_events := [];
  vm_staged_storage_writes := ∅; vm_gas_config := WasmGasConfig_default |}.

Definition WasmVM_new : WasmVM :=
  with_context {| ctx_contract_address := []; ctx_caller := []; ctx_block_height := 0;
                  ctx_shard_id := 0 |}.

Definition set_context (vm : WasmVM) (context : WasmExecutionContext) : WasmVM := {|
  vm_context := context; vm_pending_transfers := vm_pending_transfers vm;
  vm_emitted_events := vm_emitted_events vm;
  vm_staged_storage_writes := vm_staged_storage_writes vm; vm_gas_config := vm_gas_config vm |}.

Definition vm_fuel_limit (vm : WasmVM) : Z := gas_fuel_limit (vm_gas_config vm).

Definition set_fuel_limit (vm : WasmVM) (fuel_limit : Z) : outcome VmError.t WasmVM :=
  if fuel_limit =? 0 then Err VmError.FuelLimitZero
  else Ok {| vm_context := vm_context vm; vm_pending_transfers := vm_pending_transfers vm;
             vm_emitted_events := vm_emitted_events vm;
             vm_staged_storage_writes := vm_staged_storage_writes vm;
             vm_gas_config := {| gas_fuel_limit := fuel_limit |} |}.

Definition require_contract_address (vm : WasmVM) (operation : string) :
  outcome VmError.t bytes :=
  if bool_decide (ctx_contract_address (vm_context vm) = [])
  then Err (VmError.ContractAddressRequired operation)
  else Ok (ctx_contract_address (vm_context vm)).

(** [self.pending_transfers.push(..)], [staged_storage_writes.insert(..)],
    [emitted_events.push(..)]. *)
Definition push_transfer (vm : WasmVM) (tx : Transaction) : WasmVM := {|
  vm_context := vm_context vm; vm_pending_transfers := vm_pending_transfers vm ++ [tx];
  vm_emitted_events := vm_emitted_events vm;
  vm_staged_storage_writes := vm_staged_storage_writes vm; vm_gas_config := vm_gas_config vm |}.

Definition stage_write (vm : WasmVM) (key value : bytes) : WasmVM := {|
  vm_context := vm_context vm; vm_pending_transfers := vm_pending_transfers vm;
  vm_emitted_events := vm_emitted_events vm;
  vm_staged_storage_writes := <[key := value]> (vm_staged_storage_writes vm);
  vm_gas_config := vm_gas_config vm |}.

Definition push_event (vm : WasmVM) (ev : ContractEvent) : WasmVM := {|
  vm_context := vm_context vm; vm_pending_transfers := vm_pending_transfers vm;
  vm_emitted_events := vm_emitted_events vm ++ [ev];
  vm_staged_storage_writes := vm_staged_storage_writes vm; vm_gas_config := vm_gas_config vm |}.

Definition emit_event (vm : WasmVM) (name data : bytes) : outcome VmError.t WasmVM :=
  require_contract_address vm "emit_event";;
  if bool_decide (name = []) then Err VmError.EmptyEventName
  else Ok (push_event vm {|
    ev_contract_address := ctx_contract_address (vm_context vm); ev_name := name;
    ev_data := data; ev_block_height := ctx_block_height (vm_context vm) |}).

(** A call of the storage, with its error seen through [anyhow]. *)
Definition storage_op {S A} (m : io S StorageError A) : io S VmError.t A :=
  Io (fun s => let '(r, s') := run_io m s in (map_err VmError.Storage r, s')).

Section host.
Context {S : Type} `{KvStore S, Sha256, ChainCodecs}.

Definition require_contract_account (vm : WasmVM) (operation : string) : io S VmError.t Account :=
  contract_address ← lift (require_contract_address vm operation);
  o ← storage_op (get_account contract_address);
  account ← lift (ok_or VmError.ContractAccountMissing o);
  match acct_code_hash account with
  | None => io_err (VmError.ContractAccountRequired operation)
  | Some _ => mret account
  end.

Definition vm_get_balance (address : bytes) : io S VmError.t Z :=
  o ← storage_op (get_account address);
  mret (match o with Some account => acct_balance account | None => 0 end).

(** The transaction, and the machine with the transaction queued. *)
Definition transfer (vm : WasmVM) (to : bytes) (amount : Z) (data : option bytes) :
  io S VmError.t (Transaction * WasmVM) :=
  lift (require_contract_address vm "transfer");;
  if bool_decide (to = []) then io_err VmError.RecipientRequired
  else
    sender ← require_contract_account vm "transfer";
    required ← lift (ok_or VmError.AmountOverflow (checked 64 (amount + FIXED_TRANSACTION_FEE)));
    if acct_balance sender <? required
    then io_err (VmError.InsufficientBalance (acct_balance sender) required)
    else
      next_nonce ← lift (ok_or VmError.NonceOverflow (checked 64 (acct_nonce sender + 1)));
      let transaction := {|
        tx_type := Transfer; tx_from := ctx_contract_address (vm_context vm); tx_to := to;
        tx_amount := amount; tx_fee := FIXED_TRANSACTION_FEE; tx_nonce := next_nonce;
        tx_source_shard := ctx_shard_id (vm_context vm);
        tx_destination_shard := ctx_shard_id (vm_context vm);
        tx_signature := []; tx_data := data |} in
      mret (transaction, push_transfer vm transaction).

Definition set_storage (vm : WasmVM) (key value : bytes) : io S VmError.t WasmVM :=
  lift (require_contract_address vm "storage access");;
  require_contract_account vm "storage access";;
  mret (stage_write vm key value).

Definition get_storage (vm : WasmVM) (key : bytes) : io S VmError.t (option bytes) :=
  contract_address ← lift (require_contract_address vm "storage access");
  require_contract_account vm "storage access";;
  match vm_staged_storage_writes vm !! key with
  | Some value => mret (Some value)
  | None => storage_op (get_contract_storage contract_address key)
  end.

(** ** The guest's memory *)

(** [memory] is the export "memory" of the guest, when it is a memory. *)
Definition read_memory (memory : option bytes) (ptr len : Z) : outcome VmError.t bytes :=
  if (ptr <? 0) || (len <? 0) then Err VmError.NegativeOffset
  else
    end_ ← ok_or VmError.MemoryRangeOverflow (checked 64 (ptr + len));
    data ← ok_or VmError.MemoryExportRequired memory;
    if Z.of_nat (length data) <? end_ then Err VmError.ReadOutOfBounds
    else Ok (take (Z.to_nat len) (drop (Z.to_nat ptr) data)).

Definition write_memory (memory : option bytes) (ptr : Z) (source : bytes) :
  outcome VmError.t (option bytes) :=
  if ptr <? 0 then Err VmError.NegativeOffset
  else
    end_ ← ok_or VmError.MemoryRangeOverflow (checked 64 (ptr + Z.of_nat (length source)));
    data ← ok_or VmError.MemoryExportRequired memory;
    if Z.of_nat (length data) <? end_ then Err VmError.WriteOutOfBounds
    else Ok (Some (take (Z.to_nat ptr) data ++ source ++ drop (Z.to_nat end_) data)).

(** [i32::try_from(len)] and [i64::try_from(balance)] *)
Definition i32_of_len (n : nat) : outcome VmError.t Z :=
  if Z.of_nat n <? 2 ^ 31 then Ok (Z.of_nat n) else Err VmError.LengthExceedsI32.

Definition i64_of_u64 (z : Z) : outcome VmError.t Z :=
  if z <? 2 ^ 63 then Ok z else Err VmError.BalanceExceedsI64.

(** [as i64] *)
Definition as_i64 (z : Z) : Z := if z <? 2 ^ 63 then z else z - 2 ^ 64.

(** ** The linker *)

Record WasmHostState := { host_vm : WasmVM; host_params : bytes }.

Definition with_vm (h : WasmHostState) (vm : WasmVM) : WasmHostState :=
  {| host_vm := vm; host_params := host_params h |}.

(** The functions of module "prims", with their arguments. *)
Inductive host_call :=
| HGetBlockHeight
| HGetCallerLen
| HCopyCaller (out_ptr : Z)
| HGetParamsLen
| HCopyParams (out_ptr : Z)
| HGetBalance (address_ptr address_len : Z)
| HSetStorage (key_ptr key_len value_ptr value_len : Z)
| HGetStorageLen (key_ptr key_len : Z)
| HCopyStorage (key_ptr key_len out_ptr : Z)
| HEmitEvent (name_ptr name_len data_ptr data_len : Z)
| HTransfer (to_ptr to_len amount : Z).

Inductive wasm_value := VUnit | VI32 (z : Z) | VI64 (z : Z).

(** What a host function leaves: its result, the host state, the memory. *)
Definition host_result : Type := wasm_value * WasmHostState * option bytes.

(** Copying bytes out and returning their length. *)
Definition copy_out (h : WasmHostState) (memory : option bytes) (out_ptr : Z) (source : bytes) :
  outcome VmError.t host_result :=
  memory' ← write_memory memory out_ptr source;
  len ← i32_of_len (length source);
  Ok (VI32 len, h, memory').

(** Functions "emit_event" and "transfer". *)
Definition host_emit_event (h : WasmHostState) (memory : option bytes)
    (name_ptr name_len data_ptr data_len : Z) : io S VmError.t host_result :=
  name ← lift (read_memory memory name_ptr name_len);
  data ← lift (read_memory memory data_ptr data_len);
  vm' ← lift (emit_event (host_vm h) name data);
  mret (VUnit, with_vm h vm', memory).

Definition host_transfer (h : WasmHostState) (memory : option bytes) (to_ptr to_len amount : Z) :
  io S VmError.t host_result :=
  if amount <? 0 then io_err VmError.NegativeAmount
  else
    to ← lift (read_memory memory to_ptr to_len);
    queued ← transfer (host_vm h) to amount None;
    mret (VUnit, with_vm h queued.2, memory).

Definition host_function (h : WasmHostState) (memory : option bytes) (c : host_call) :
  io S VmError.t host_result :=
  let vm := host_vm h in
  match c with
  | HGetBlockHeight => mret (VI64 (as_i64 (ctx_block_height (vm_context vm))), h, memory)
  | HGetCallerLen =>
      len ← lift (i32_of_len (length (ctx_caller (vm_context vm))));
      mret (VI32 len, h, memory)
  | HCopyCaller out_ptr => lift (copy_out h memory out_ptr (ctx_caller (vm_context vm)))
  | HGetParamsLen =>
      len ← lift (i32_of_len (length (host_params h)));
      mret (VI32 len, h, memory)
  | HCopyParams out_ptr => lift (copy_out h memory out_ptr (host_params h))
  | HGetBalance address_ptr address_len =>
      address ← lift (read_memory memory address_ptr address_len);
      balance ← vm_get_balance address;
      b ← lift (i64_of_u64 balance);
      mret (VI64 b, h, memory)
  | HSetStorage key_ptr key_len value_ptr value_len =>
      key ← lift (read_memory memory key_ptr key_len);
      value ← lift (read_memory memory value_ptr value_len);
      vm' ← set_storage vm key value;
      mret (VUnit, with_vm h vm', memory)
  | HGetStorageLen key_ptr key_len =>
      key ← lift (read_memory memory key_ptr key_len);
      o ← get_storage vm key;
      match o with
      | Some value => len ← lift (i32_of_len (length value)); mret (VI32 len, h, memory)
      | None => mret (VI32 (-1), h, memory)
      end
  | HCopyStorage key_ptr key_len out_ptr =>
      key ← lift (read_memory memory key_ptr key_len);
      o ← get_storage vm key;
      match o with
      | Some value =>
          len ← lift (i32_of_len (length value));
          memory' ← lift (write_memory memory out_ptr value);
          mret (VI32 len, h, memory')
      | None => mret (VI32 (-1), h, memory)
      end
  | HEmitEvent name_ptr name_len data_ptr data_len =>
      host_emit_event h memory name_ptr name_len data_ptr data_len
  | HTransfer to_ptr to_len amount => host_transfer h memory to_ptr to_len amount
  end.
End host.

(** ** The engine *)

(** A run of guest code: it finishes, traps, or calls the host with the
    memory it has and goes on with the memory and the result it gets back. *)
Inductive wasm_run (R : Type) :=
| Finished (result : R)
| Trapped (message : string)
| HostCall (call : host_call) (memory : option bytes)
    (resume : option bytes -> wasm_value -> wasm_run R).

Arguments Finished {R} result.
Arguments Trapped {R} message.
Arguments HostCall {R} call memory resume.

(** The crate [wasmtime]; an error is the text of its [Display]. *)
Class Wasmtime := {
  wasm_store : Type;
  wasm_module : Type;
  wasm_instance : Type;
  wasm_func : Type;
  (** [Engine::new] with [consume_fuel(true)], [Store::new], [set_fuel] *)
  wasm_new_store : Z -> outcome string wasm_store;
  (** [Module::new] *)
  wasm_new_module : wasm_store -> bytes -> outcome string wasm_module;
  (** [linker.instantiate], which runs the start function *)
  wasm_instantiate : wasm_store -> wasm_module -> wasm_run (wasm_instance * wasm_store);
  (** [instance.get_typed_func::<(), ()>] *)
  wasm_get_func : wasm_instance -> wasm_store -> string -> outcome string wasm_func;
  (** [entry.call] *)
  wasm_call : wasm_func -> wasm_store -> wasm_run wasm_store;
  (** [store.get_fuel] *)
  wasm_get_fuel : wasm_store -> outcome string Z;
}.

(** A metered store can be asked for its fuel; an engine with the default
    features is created. *)
Class WasmtimeOk `{Wasmtime} : Prop := {
  wasm_get_fuel_ok : forall st, exists fuel, wasm_get_fuel st = Ok fuel;
  wasm_no_panic_store : forall fuel, wasm_new_store fuel <> Panic;
  wasm_no_panic_module : forall st code, wasm_new_module st code <> Panic;
  wasm_no_panic_func : forall i st name, wasm_get_func i st name <> Panic;
}.

Record WasmExecutionOutcome := {
  remaining_fuel : Z;
  out_pending_transfers : list Transaction;
  out_emitted_events : list ContractEvent;
}.

Section execution.
Context {S : Type} `{KvStore S, Sha256, ChainCodecs, Wasmtime}.

(** Guest code against the host functions; a host error traps. *)
Fixpoint run_guest {R} (r : wasm_run R) (h : WasmHostState) : io S VmError.t (R * WasmHostState) :=
  match r with
  | Finished x => mret (x, h)
  | Trapped message => io_err (VmError.Engine message)
  | HostCall c memory resume =>
      done ← host_function h memory c;
      run_guest (resume done.2 done.1.1) done.1.2
  end.

Definition execute_contract_call (context : WasmExecutionContext) (method : string)
    (params : bytes) (fuel_limit : Z) : io S VmError.t WasmExecutionOutcome :=
  if is_blank (bytes_of method) then io_err VmError.EmptyMethod
  else
    let contract_address := ctx_contract_address context in
    o ← storage_op (get_contract contract_address);
    contract ← lift (ok_or VmError.ContractDoesNotExist o);
    vm ← lift (set_fuel_limit (with_context context) fuel_limit);
    require_contract_account vm "contract execution";;
    store ← lift (map_err VmError.Engine (wasm_new_store (vm_fuel_limit vm)));
    module ← lift (map_err VmError.Engine (wasm_new_module store (ctr_code_wasm contract)));
    started ← run_guest (wasm_instantiate store module) {| host_vm := vm; host_params := params |};
    entry ← lift (map_err (VmError.UnresolvedFunction method)
              (wasm_get_func started.1.1 started.1.2 method));
    finished ← run_guest (wasm_call entry started.1.2) started.2;
    let vm' := host_vm finished.2 in
    storage_op (commit_contract_storage_batch contract_address (vm_staged_storage_writes vm'));;
    fuel ← lift (map_err VmError.Engine (wasm_get_fuel finished.1));
    mret {| remaining_fuel := fuel; out_pending_transfers := vm_pending_transfers vm';
            out_emitted_events := vm_emitted_events vm' |}.
End execution.
