(* ===== verification/VmSpec.v ===== *)
(** * Properties of contract execution

    What host calls and whole runs of guest code can do to the machine, the
    memory and the database, over the ledger of file [Ledger]: containment,
    atomicity of a call, the view of storage inside a call, and the queue of
    transfers. *)

From S2P Require Import Prelude Orders Bytes Text Externals Types Hash Notes Keys Store Storage Ledger StorageSpec Vm.
Import DigestAddresses.

(** ** Effects of host calls *)

(** A transfer a contract may queue in the state of the ledger. *)
Definition transfer_ok (L : Ledger) (ctx : WasmExecutionContext) (tx : Transaction) : Prop :=
  exists account code_hash to,
    led_accounts L !! ctx_contract_address ctx = Some account /\
    acct_code_hash account = Some code_hash /\ to <> [] /\
    0 <= tx_amount tx /\ tx_amount tx + FIXED_TRANSACTION_FEE <= acct_balance account /\
    tx = {| tx_type := Transfer; tx_from := ctx_contract_address ctx; tx_to := to;
            tx_amount := tx_amount tx; tx_fee := FIXED_TRANSACTION_FEE;
            tx_nonce := acct_nonce account + 1; tx_source_shard := ctx_shard_id ctx;
            tx_destination_shard := ctx_shard_id ctx; tx_signature := []; tx_data := tx_data tx |}.

Definition event_ok (ctx : WasmExecutionContext) (ev : ContractEvent) : Prop :=
  ev_contract_address ev = ctx_contract_address ctx /\ ev_name ev <> [] /\
  ev_block_height ev = ctx_block_height ctx.

(** One effect on the machine. *)
Inductive vm_step (L : Ledger) : WasmVM -> WasmVM -> Prop :=
| step_none vm : vm_step L vm vm
| step_write vm key value : vm_step L vm (stage_write vm key value)
| step_event vm ev : event_ok (vm_context vm) ev -> vm_step L vm (push_event vm ev)
| step_transfer vm tx : transfer_ok L (vm_context vm) tx -> vm_step L vm (push_transfer vm tx).

(** The memory is the same, or one range inside it was overwritten. *)
Definition memory_step (memory memory' : option bytes) : Prop :=
  memory' = memory \/
  exists data ptr source, memory = Some data /\ (ptr + length source <= length data)%nat /\
    memory' = Some (take ptr data ++ source ++ drop (ptr + length source) data).

Lemma write_memory_Ok memory ptr source memory' :
  write_memory memory ptr source = Ok memory' ->
  0 <= ptr /\ exists data, memory = Some data /\
    (Z.to_nat ptr + length source <= length data)%nat /\
    memory' = Some (take (Z.to_nat ptr) data ++ source ++ drop (Z.to_nat ptr + length source) data).
Proof.
  unfold write_memory. intros W. destruct (Z.ltb_spec ptr 0); [done|]. split; [done|].
  apply bind_Ok in W as (end_ & [-> R]%ok_or_Ok%checked_Some & W).
  apply bind_Ok in W as (data & ->%ok_or_Ok & W). exists data. split; [done|].
  destruct (Z.ltb_spec (Z.of_nat (length data)) (ptr + Z.of_nat (length source))); [done|].
  injection W as <-. split; [lia|]. do 4 f_equal. lia.
Qed.

Lemma read_memory_Ok memory ptr len b :
  read_memory memory ptr len = Ok b ->
  0 <= ptr /\ 0 <= len /\ exists data, memory = Some data /\
    (Z.to_nat ptr + Z.to_nat len <= length data)%nat /\
    b = take (Z.to_nat len) (drop (Z.to_nat ptr) data).
Proof.
  unfold read_memory. intros W. destruct (Z.ltb_spec ptr 0), (Z.ltb_spec len 0); try done.
  split; [done|]. split; [done|]. cbn [orb] in W.
  apply bind_Ok in W as (end_ & [-> R]%ok_or_Ok%checked_Some & W).
  apply bind_Ok in W as (data & ->%ok_or_Ok & W). exists data. split; [done|].
  destruct (Z.ltb_spec (Z.of_nat (length data)) (ptr + len)); [done|].
  injection W as <-. split; [lia|done].
Qed.

Lemma write_memory_step memory ptr source memory' :
  write_memory memory ptr source = Ok memory' -> memory_step memory memory'.
Proof. intros (_ & data & -> & B & ->)%write_memory_Ok. right. by eexists _, _, _. Qed.

(** ** Reading the ledger *)

(** A computation that leaves the state alone and does not panic. *)
Definition contained {S E A} (m : io S E A) (s : S) (Q : A -> Prop) : Prop :=
  exists r, run_io m s = (r, s) /\ r <> Panic /\ forall a, r = Ok a -> Q a.

Section contained.
Context {S E : Type}.

Lemma contained_ret {A} (a : A) (s : S) (Q : A -> Prop) : Q a -> contained (E := E) (mret a) s Q.
Proof. intros q. exists (Ok a). split; [done|]. split; [done|]. by intros ? [= <-]. Qed.

Lemma contained_err {A} (e : E) (s : S) (Q : A -> Prop) : contained (io_err e) s Q.
Proof. by exists (Err e). Qed.

Lemma contained_lift {A} (r : outcome E A) (s : S) (Q : A -> Prop) :
  r <> Panic -> (forall a, r = Ok a -> Q a) -> contained (lift r) s Q.
Proof. intros N q. by exists r. Qed.

Lemma contained_bind {A B} (m : io S E A) (f : A -> io S E B) s (P : A -> Prop) (Q : B -> Prop) :
  contained m s P -> (forall a, P a -> contained (f a) s Q) -> contained (m ≫= f) s Q.
Proof.
  intros (r & Er & N & p) F. destruct r as [a|e|]; [|exists (Err e)|done].
  - destruct (F a (p a eq_refl)) as (r' & Er' & N' & q). exists r'. by rewrite run_bind, Er.
  - by rewrite run_bind, Er.
Qed.

Lemma contained_mono {A} (m : io S E A) s (P Q : A -> Prop) :
  contained m s P -> (forall a, P a -> Q a) -> contained m s Q.
Proof. intros (r & Er & N & p) I. exists r. split; [done|]. split; [done|]. eauto. Qed.

(** A computation that leaves the state alone when it fails, and does not
    panic. *)
Definition atomic {A} (m : io S E A) (s : S) (Q : A -> S -> Prop) : Prop :=
  match run_io m s with
  | (Ok a, s') => Q a s'
  | (Err _, s') => s' = s
  | (Panic, _) => False
  end.

Lemma atomic_bind {A B} (m : io S E A) (f : A -> io S E B) s (P : A -> Prop) Q :
  contained m s P -> (forall a, P a -> atomic (f a) s Q) -> atomic (m ≫= f) s Q.
Proof.
  intros (r & Er & N & p) F. unfold atomic. rewrite run_bind, Er. destruct r as [a|e|]; [|done|done].
  by apply F, p.
Qed.

(** Going on with what cannot fail. *)
Lemma atomic_then {A B} (m : io S E A) (f : A -> io S E B) s P Q :
  atomic m s P ->
  (forall a s1, P a s1 -> exists b s2, run_io (f a) s1 = (Ok b, s2) /\ Q b s2) ->
  atomic (m ≫= f) s Q.
Proof.
  unfold atomic. intros M F. rewrite run_bind. destruct (run_io m s) as [[a|e|] s1]; [|done|done].
  by destruct (F a s1 M) as (b & s2 & -> & q).
Qed.

Lemma atomic_contained {A} (m : io S E A) s (P : A -> Prop) :
  contained m s P -> atomic m s (fun a s' => P a /\ s' = s).
Proof.
  intros (r & Er & N & p). unfold atomic. rewrite Er. destruct r; [|done|done]. split; [auto|done].
Qed.
End contained.

Lemma read_memory_not_Panic memory ptr len : read_memory memory ptr len <> Panic.
Proof.
  unfold read_memory. case_match; [done|]. apply bind_not_Panic; [apply ok_or_not_Panic|].
  intros end_ _. apply bind_not_Panic; [apply ok_or_not_Panic|]. intros data _. by case_match.
Qed.

Lemma write_memory_not_Panic memory ptr source : write_memory memory ptr source <> Panic.
Proof.
  unfold write_memory. case_match; [done|]. apply bind_not_Panic; [apply ok_or_not_Panic|].
  intros end_ _. apply bind_not_Panic; [apply ok_or_not_Panic|]. intros data _. by case_match.
Qed.

Lemma i32_of_len_not_Panic n : i32_of_len n <> Panic.
Proof. unfold i32_of_len. by case_match. Qed.

#[export] Hint Resolve ok_or_not_Panic read_memory_not_Panic write_memory_not_Panic
  i32_of_len_not_Panic : prims.

Section guest.
Context {S : Type} `{KvStoreOk S, Sha256Ok, ChainCodecsOk}.
Context `{!Bincode ViewableNote, !BincodeOk ViewableNote, !Bincode Hash32, !BincodeOk Hash32}.
Context (s : S) (L : Ledger) (P : represents (contents s) L).

Lemma get_account_run a :
  run_io (storage_op (get_account a)) s = (Ok (led_accounts L !! a), s).
Proof.
  unfold storage_op. cbn [run_io]. unfold get_account.
  change (account_key a) with (record_key (RAccount a)).
  by rewrite (run_load_table RAccount s _ a I (rep_accounts _ _ P)).
Qed.

Lemma get_contract_run a :
  run_io (storage_op (get_contract a)) s = (Ok (led_contracts L !! a), s).
Proof.
  unfold storage_op. cbn [run_io]. unfold get_contract.
  change (contract_key a) with (record_key (RContract a)).
  by rewrite (run_load_table RContract s _ a I (rep_contracts _ _ P)).
Qed.

Lemma get_slot_run a k : length a = 32%nat ->
  run_io (get_contract_storage a k) s =
  (match led_contracts L !! a with
   | Some _ => Ok (nest (led_slots L) a !! k)
   | None => Err ContractDoesNotExist
   end, s).
Proof.
  intros W. unfold get_contract_storage.
  rewrite run_bind, (require_run a s L P). destruct (led_contracts L !! a); [|done].
  cbn [ok_or]. rewrite run_get.
  by rewrite (rep_slots _ _ P a k W : contents s !! contract_storage_key a k = _).
Qed.

(** The account of the contract being executed. *)
Lemma require_account_run vm op :
  run_io (require_contract_account vm op) s =
  (address ← require_contract_address vm op;
   account ← ok_or VmError.ContractAccountMissing (led_accounts L !! address);
   match acct_code_hash account with
   | None => Err (VmError.ContractAccountRequired op)
   | Some _ => Ok account
   end, s).
Proof.
  unfold require_contract_account. rewrite run_bind, run_lift.
  unfold require_contract_address. case_bool_decide; cbn [mbind outcome_bind]; [done|].
  rewrite run_bind, get_account_run, run_bind, run_lift.
  destruct (led_accounts L !! _) as [account|]; [|done]. cbn [ok_or mbind outcome_bind].
  by destruct (acct_code_hash account).
Qed.

Lemma require_account_contained vm op :
  contained (require_contract_account vm op) s (fun account => exists code_hash,
    led_accounts L !! ctx_contract_address (vm_context vm) = Some account /\
    acct_code_hash account = Some code_hash).
Proof.
  eexists. split; [apply require_account_run|]. unfold require_contract_address.
  case_bool_decide; cbn [mbind outcome_bind]; [done|].
  destruct (led_accounts L !! _) as [account|]; [|done]. cbn [ok_or mbind outcome_bind].
  destruct (acct_code_hash account) as [h|] eqn:E; [|done]. split; [done|].
  intros a [= <-]. by exists h.
Qed.

Lemma account_range a x : led_accounts L !! a = Some x -> u64 (acct_balance x) /\ u64 (acct_nonce x).
Proof.
  intros E. pose proof (table_wf RAccount _ _ a x I (rep_accounts _ _ P) E) as W.
  split; apply W.
Qed.

Lemma transfer_contained vm to amount data : 0 <= amount ->
  contained (transfer vm to amount data) s (fun q =>
    transfer_ok L (vm_context vm) q.1 /\ q.2 = push_transfer vm q.1 /\ tx_amount q.1 = amount).
Proof.
  intros A. eapply contained_bind with (P := fun _ => True); [apply contained_lift; [|done]|].
  { unfold require_contract_address. by case_bool_decide. }
  intros _ _. case_bool_decide as T; [apply contained_err|].
  eapply contained_bind; [apply require_account_contained|]. intros account (h & Ea & Eh).
  eapply contained_bind; [apply contained_lift; [auto with prims|intros required Er; exact Er]|].
  intros required [-> R]%ok_or_Ok%checked_Some.
  destruct (Z.ltb_spec (acct_balance account) (amount + FIXED_TRANSACTION_FEE)); [apply contained_err|].
  eapply contained_bind; [apply contained_lift; [auto with prims|intros next En; exact En]|].
  intros next [-> N]%ok_or_Ok%checked_Some. apply contained_ret. cbn. split; [|done].
  by exists account, h, to.
Qed.

Lemma set_storage_contained vm key value :
  contained (set_storage vm key value) s (fun vm' => vm' = stage_write vm key value).
Proof.
  eapply contained_bind with (P := fun _ => True); [apply contained_lift; [|done]|].
  { unfold require_contract_address. by case_bool_decide. }
  intros _ _. eapply contained_bind; [apply require_account_contained|].
  intros account _. by apply contained_ret.
Qed.

Lemma get_storage_contained vm key :
  length (ctx_contract_address (vm_context vm)) = 32%nat ->
  contained (get_storage vm key) s (fun _ => True).
Proof.
  intros W. eapply contained_bind; [apply contained_lift; [|intros a E; exact E]|].
  { unfold require_contract_address. by case_bool_decide. }
  intros a E. unfold require_contract_address in E. case_bool_decide; [done|]. injection E as <-.
  eapply contained_bind; [apply require_account_contained|]. intros account _.
  destruct (vm_staged_storage_writes vm !! key); [by apply contained_ret|].
  unfold storage_op. eexists. cbn [run_io]. rewrite get_slot_run by done. split; [done|].
  by destruct (led_contracts L !! _).
Qed.

Lemma emit_event_step vm name data vm' :
  emit_event vm name data = Ok vm' -> vm_step L vm vm'.
Proof.
  unfold emit_event. intros (a & _ & E)%bind_Ok. case_bool_decide; [done|].
  injection E as <-. by apply step_event.
Qed.

Lemma emit_event_not_Panic vm name data : emit_event vm name data <> Panic.
Proof.
  unfold emit_event, require_contract_address.
  apply bind_not_Panic; [by case_bool_decide|]. intros a _. by case_bool_decide.
Qed.

(** What a host function leaves behind. *)
Definition host_effect (h : WasmHostState) (memory : option bytes) (r : host_result) : Prop :=
  host_params r.1.2 = host_params h /\ vm_step L (host_vm h) (host_vm r.1.2) /\
  memory_step memory r.2.

Lemma host_effect_none v h memory : host_effect h memory (v, h, memory).
Proof. split; [done|]. split; [constructor|by left]. Qed.

Lemma copy_out_contained h memory out_ptr source :
  contained (lift (copy_out h memory out_ptr source)) s (host_effect h memory).
Proof.
  apply contained_lift.
  - apply bind_not_Panic; [auto with prims|]. intros m _.
    apply bind_not_Panic; [auto with prims|]. by intros.
  - intros r (m & W & (l & _ & [= <-])%bind_Ok)%bind_Ok.
    split; [done|]. split; [constructor|by eapply write_memory_step].
Qed.

(** The pattern of most host functions: read an argument from memory. *)
Lemma read_then_contained {B} memory ptr len (f : bytes -> io S VmError.t B) Q :
  (forall b, contained (f b) s Q) ->
  contained (b ← lift (read_memory memory ptr len); f b) s Q.
Proof.
  intros F. eapply contained_bind with (P := fun _ => True);
    [apply contained_lift; [auto with prims|done]|]. by intros.
Qed.

Lemma len_contained h memory n :
  contained (len ← lift (i32_of_len n); mret (VI32 len, h, memory)) s (host_effect h memory).
Proof.
  eapply contained_bind with (P := fun _ => True);
    [apply contained_lift; [auto with prims|done]|].
  intros len _. apply contained_ret, host_effect_none.
Qed.

Lemma host_function_contained h memory c :
  length (ctx_contract_address (vm_context (host_vm h))) = 32%nat ->
  contained (host_function h memory c) s (host_effect h memory).
Proof.
  intros W. destruct c; cbn [host_function]; unfold host_emit_event, host_transfer.
  - apply contained_ret, host_effect_none.
  - apply len_contained.
  - apply copy_out_contained.
  - apply len_contained.
  - apply copy_out_contained.
  - apply read_then_contained. intros address.
    eapply contained_bind with (P := fun _ => True).
    { eapply contained_bind with (P := fun _ => True); [by eexists; split; [apply get_account_run|]|].
      intros o _. by apply contained_ret. }
    intros balance _. eapply contained_bind with (P := fun _ => True);
      [apply contained_lift; [unfold i64_of_u64; by case_match|done]|].
    intros b _. apply contained_ret, host_effect_none.
  - apply read_then_contained. intros key. apply read_then_contained. intros value.
    eapply contained_bind; [apply set_storage_contained|]. intros vm' ->.
    apply contained_ret. split; [done|]. split; [apply step_write|by left].
  - apply read_then_contained. intros key.
    eapply contained_bind; [by apply get_storage_contained|]. intros [value|] _;
      [apply len_contained|apply contained_ret, host_effect_none].
  - apply read_then_contained. intros key.
    eapply contained_bind; [by apply get_storage_contained|]. intros [value|] _;
      [|apply contained_ret, host_effect_none].
    eapply contained_bind with (P := fun _ => True); [apply contained_lift; [auto with prims|done]|].
    intros len _. eapply contained_bind; [apply contained_lift; [auto with prims|intros m E; exact E]|].
    intros m E. apply contained_ret. split; [done|]. split; [apply step_none|].
    cbn [fst snd] in *. by eapply write_memory_step.
  - apply read_then_contained. intros name. apply read_then_contained. intros data.
    eapply contained_bind;
      [apply contained_lift; [apply emit_event_not_Panic|intros vm' E; exact E]|].
    intros vm' E. apply contained_ret. split; [done|]. cbn [fst snd with_vm host_vm] in *.
    split; [by eapply emit_event_step|by left].
  - destruct (Z.ltb_spec amount 0); [apply contained_err|]. apply read_then_contained. intros to.
    eapply contained_bind; [by apply transfer_contained|]. intros [tx vm'] (T & E & _).
    cbn [fst snd] in *. subst vm'. apply contained_ret. split; [done|].
    split; [by apply step_transfer|by left].
Qed.

Lemma vm_step_context vm vm' : vm_step L vm vm' -> vm_context vm' = vm_context vm.
Proof. by destruct 1. Qed.

Lemma vm_steps_context vm vm' : rtc (vm_step L) vm vm' -> vm_context vm' = vm_context vm.
Proof. induction 1 as [|v1 v2 v3 St _ IH]; [done|]. by rewrite IH, (vm_step_context v1 v2 St). Qed.

(** A whole run, whatever the guest does. *)
Lemma run_guest_contained {R} (r : wasm_run R) h :
  length (ctx_contract_address (vm_context (host_vm h))) = 32%nat ->
  contained (run_guest r h) s (fun q => rtc (vm_step L) (host_vm h) (host_vm q.2)).
Proof.
  revert h. induction r as [x|message|c memory resume IH]; intros h W; cbn [run_guest].
  - apply contained_ret. apply rtc_refl.
  - apply contained_err.
  - eapply contained_bind; [by apply host_function_contained|]. intros done (_ & St & _).
    eapply contained_mono; [apply IH; by rewrite (vm_step_context _ _ St)|].
    intros q Sq. cbn in Sq. by eapply rtc_l.
Qed.

(** The queues of a machine that started empty. *)
Record queues_ok (ctx : WasmExecutionContext) (vm : WasmVM) : Prop := {
  queue_context : vm_context vm = ctx;
  queue_transfers : Forall (transfer_ok L ctx) (vm_pending_transfers vm);
  queue_events : Forall (event_ok ctx) (vm_emitted_events vm);
}.

Lemma queues_steps ctx vm vm' : rtc (vm_step L) vm vm' -> queues_ok ctx vm -> queues_ok ctx vm'.
Proof.
  induction 1 as [|v1 v2 v3 St _ IH]; [done|]. intros [C T E]. apply IH. subst ctx.
  destruct St; split; cbn in *; try done; apply Forall_app; split; auto.
Qed.
End guest.

(** ** Execution *)

(** A call succeeded with these staged writes. *)
Record call_committed `{Sha256, ChainCodecs} (L L' : Ledger) (ctx : WasmExecutionContext)
    (out : WasmExecutionOutcome) : Prop := {
  call_contract : is_Some (led_contracts L !! ctx_contract_address ctx);
  call_account : exists account code_hash,
    led_accounts L !! ctx_contract_address ctx = Some account /\ acct_code_hash account = Some code_hash;
  call_writes : exists writes,
    L' = (run_io (spec (CommitContractStorageBatch (ctx_contract_address ctx) writes)) L).2;
  call_transfers : Forall (transfer_ok L ctx) (out_pending_transfers out);
  call_events : Forall (event_ok ctx) (out_emitted_events out);
}.

Section execution.
Context {S : Type} `{KvStoreOk S, Sha256Ok, ChainCodecsOk, WasmtimeOk}.
Context `{!Bincode ViewableNote, !BincodeOk ViewableNote, !Bincode Hash32, !BincodeOk Hash32}.

(** A call that committed. *)
Definition committed (L : Ledger) (ctx : WasmExecutionContext) (out : WasmExecutionOutcome)
    (s' : S) : Prop :=
  exists L', represents (contents s') L' /\ call_committed L L' ctx out.

(** Committing what a run staged. *)
Lemma commit_result s L ctx vm (st : wasm_store) :
  represents (contents s) L -> length (ctx_contract_address ctx) = 32%nat ->
  is_Some (led_contracts L !! ctx_contract_address ctx) ->
  (exists account code_hash, led_accounts L !! ctx_contract_address ctx = Some account /\
     acct_code_hash account = Some code_hash) ->
  queues_ok L ctx vm ->
  atomic
    (storage_op (commit_contract_storage_batch (ctx_contract_address ctx)
       (vm_staged_storage_writes vm));;
     fuel ← lift (map_err VmError.Engine (wasm_get_fuel st));
     mret {| remaining_fuel := fuel; out_pending_transfers := vm_pending_transfers vm;
             out_emitted_events := vm_emitted_events vm |}) s (committed L ctx).
Proof.
  intros P W C A Q. set (a := ctx_contract_address ctx). set (w := vm_staged_storage_writes vm).
  destruct (perform_implements (CommitContractStorageBatch a w) s L I P) as (s1 & E1 & P1).
  assert ((run_io (spec (CommitContractStorageBatch a w)) L).1 = Ok tt) as Eo.
  { destruct C as [c Ec]. destruct (decide (w = ∅)) as [->|N].
    - cbn [spec]. by rewrite bool_decide_true.
    - by rewrite (batch_spec a w c L Ec N). }
  rewrite Eo in E1. destruct (wasm_get_fuel_ok st) as [fuel Ef].
  assert (run_io (storage_op (commit_contract_storage_batch a w)) s = (Ok tt, s1)) as Ec.
  { unfold storage_op. cbn [run_io]. cbn [perform] in E1. by rewrite E1. }
  unfold atomic. rewrite run_bind, Ec, run_bind, run_lift, Ef. cbn [map_err]. rewrite run_ret.
  eexists. split; [exact P1|].
  split; [done|done|by eexists|apply Q|apply Q].
Qed.

Lemma execute_result s L ctx method params fuel :
  represents (contents s) L -> length (ctx_contract_address ctx) = 32%nat ->
  atomic (execute_contract_call ctx method params fuel) s (committed L ctx).
Proof.
  intros P W. unfold execute_contract_call. destruct (is_blank _); [done|].
  eapply atomic_bind with (P := fun o => o = led_contracts L !! ctx_contract_address ctx);
    [eexists; split; [by apply get_contract_run|]; split; [done|by intros ? [= <-]]|]. intros o ->.
  eapply atomic_bind; [apply contained_lift; [auto with prims|intros c E; exact E]|].
  intros c Ec%ok_or_Ok.
  eapply atomic_bind; [apply contained_lift; [|intros vm E; exact E]|].
  { unfold set_fuel_limit. by case_match. }
  intros vm Ev. unfold set_fuel_limit in Ev. destruct (fuel =? 0); [done|]. injection Ev as <-.
  eapply atomic_bind; [by apply (require_account_contained s L P)|]. cbn [vm_context with_context].
  intros account (code_hash & Ea & Eh).
  eapply atomic_bind with (P := fun _ => True);
    [apply contained_lift; [apply map_err_not_Panic, wasm_no_panic_store|done]|]. intros st _.
  eapply atomic_bind with (P := fun _ => True);
    [apply contained_lift; [apply map_err_not_Panic, wasm_no_panic_module|done]|]. intros module _.
  eapply atomic_bind; [by apply (run_guest_contained s L P)|]. intros started St.
  eapply atomic_bind with (P := fun _ => True);
    [apply contained_lift; [apply map_err_not_Panic, wasm_no_panic_func|done]|]. intros entry _.
  eapply atomic_bind; [apply (run_guest_contained s L P); by rewrite (vm_steps_context L _ _ St)|].
  intros finished Sf. apply commit_result; [done|done|by eexists|by eexists _, _|].
  eapply queues_steps; [etransitivity; [exact St|exact Sf]|]. by split; constructor.
Qed.
End execution.

(** ** Properties *)

Section properties.
Context {S : Type} `{KvStoreOk S, Sha256Ok, ChainCodecsOk}.
Context `{!Bincode ViewableNote, !BincodeOk ViewableNote, !Bincode Hash32, !BincodeOk Hash32}.

(** [C18] A host call, with whatever arguments the guest
    passes, never panics the node, never touches the database, and leaves the
    machine with one more staged write, event or transfer at most, the event
    and the transfer being in the name of the executing contract and the
    transfer within its balance, and the guest's memory with at most one range
    inside it overwritten. *)
Theorem host_calls_contained (s : S) L h memory c r s' :
  represents (contents s) L -> length (ctx_contract_address (vm_context (host_vm h))) = 32%nat ->
  run_io (host_function h memory c) s = (r, s') ->
  s' = s /\
  match r with
  | Ok (v, h', memory') =>
      host_params h' = host_params h /\ vm_step L (host_vm h) (host_vm h') /\
      memory_step memory memory'
  | Err _ => True
  | Panic => False
  end.
Proof.
  intros P W E. destruct (host_function_contained s L P h memory c W) as (r' & E' & N & Q).
  rewrite E in E'. injection E' as <- ->. split; [done|].
  destruct r as [[[v h'] memory']|e|]; [|done|done]. exact (Q _ eq_refl).
Qed.

(** [C10] Executing a contract call is atomic: it never panics;
    when it fails, for whatever reason (an unknown contract, a missing export,
    a trap, exhausted fuel, a refused host call), the database is exactly what
    it was; when it succeeds, the database is the ledger after one batch
    commit of writes to the slots of that contract and nothing else, and the
    transfers and events it returns are in the contract's name. *)
Theorem execution_atomic `{!Wasmtime, !WasmtimeOk} (s : S) L ctx method params fuel r s' :
  represents (contents s) L -> length (ctx_contract_address ctx) = 32%nat ->
  run_io (execute_contract_call ctx method params fuel) s = (r, s') ->
  match r with
  | Ok out => exists L', represents (contents s') L' /\ call_committed L L' ctx out
  | Err _ => s' = s
  | Panic => False
  end.
Proof.
  intros P W E. pose proof (execute_result s L ctx method params fuel P W) as R.
  unfold atomic in R. by rewrite E in R; destruct r.
Qed.

(** Inside a call, the guest reads the slots a commit would
    leave: its own staged writes over the stored slots; and the database
    answers the same after the batch is committed. *)
Theorem storage_overlay (s : S) L vm key account code_hash :
  let a := ctx_contract_address (vm_context vm) in
  let slots := vm_staged_storage_writes vm ∪ nest (led_slots L) a in
  represents (contents s) L -> length a = 32%nat ->
  led_accounts L !! a = Some account -> acct_code_hash account = Some code_hash ->
  is_Some (led_contracts L !! a) -> exists s',
    run_io (get_storage vm key) s = (Ok (slots !! key), s) /\
    run_io (commit_contract_storage_batch a (vm_staged_storage_writes vm)) s = (Ok tt, s') /\
    run_io (get_contract_storage a key) s' = (Ok (slots !! key), s').
Proof.
  intros a slots P W Ea Eh [c Ec]. set (w := vm_staged_storage_writes vm) in *.
  assert (a <> []) as Na by (intros E; by rewrite E in W).
  destruct (perform_implements (CommitContractStorageBatch a w) s L I P) as (s1 & E1 & P1).
  assert (run_io (spec (CommitContractStorageBatch a w)) L =
    (Ok tt, if decide (w = ∅) then L else slots_set a c slots L)) as Es.
  { destruct (decide (w = ∅)) as [E|N].
    - cbn [spec]. by rewrite bool_decide_true.
    - rewrite (batch_spec a w c L Ec N), put_all_entries. done. }
  rewrite Es in E1, P1. cbn [fst snd] in *. exists s1. split; [|split; [exact E1|]].
  - unfold get_storage. rewrite run_bind, run_lift. unfold require_contract_address.
    rewrite bool_decide_false by done. rewrite run_bind, (require_account_run s L P).
    unfold require_contract_address. rewrite bool_decide_false by done.
    cbn [mbind outcome_bind]. fold a. rewrite Ea. cbn [ok_or mbind outcome_bind]. rewrite Eh.
    fold w. unfold slots. rewrite lookup_union. destruct (w !! key) as [v|] eqn:Ew.
    + by rewrite union_Some_l.
    + rewrite (left_id_L None _). unfold storage_op. cbn [run_io].
      by rewrite (get_slot_run s L P a key W), Ec.
  - rewrite (get_slot_run s1 _ P1 a key W). destruct (decide (w = ∅)) as [E|N].
    + rewrite Ec. unfold slots. by rewrite E, (left_id_L ∅ (∪)).
    + destruct (slots_set_at a c slots L) as [Ec' Es']. by rewrite Ec', Es'.
Qed.

(** The same transfer, [n] times. *)
Fixpoint transfer_n (n : nat) (vm : WasmVM) (to : bytes) (amount : Z) (data : option bytes) :
  io S VmError.t WasmVM :=
  match n with
  | O => mret vm
  | Datatypes.S n' => queued ← transfer vm to amount data; transfer_n n' queued.2 to amount data
  end.

(** Queued transfers do not reserve their funds: a
    transfer the balance covers once is accepted any number of times in one
    call, every copy carrying the same nonce, so the queue can promise any
    multiple of the balance and holds transactions of which at most one can
    pass the nonce check of [validate_transaction_nonce]. *)
Theorem transfers_not_reserved (s : S) L vm to amount data account code_hash n :
  let a := ctx_contract_address (vm_context vm) in
  represents (contents s) L -> a <> [] -> to <> [] ->
  led_accounts L !! a = Some account -> acct_code_hash account = Some code_hash ->
  0 <= amount -> amount + FIXED_TRANSACTION_FEE <= acct_balance account ->
  acct_nonce account + 1 < 2 ^ 64 -> exists vm' tx,
    run_io (transfer_n n vm to amount data) s = (Ok vm', s) /\
    vm_pending_transfers vm' = vm_pending_transfers vm ++ replicate n tx /\
    tx_amount tx = amount /\ tx_nonce tx = acct_nonce account + 1 /\ tx_from tx = a.
Proof.
  intros a P Na Nt Ea Eh A B N. destruct (account_range s L P a account Ea) as [Rb Rn].
  set (tx := {| tx_type := Transfer; tx_from := a; tx_to := to; tx_amount := amount;
    tx_fee := FIXED_TRANSACTION_FEE; tx_nonce := acct_nonce account + 1;
    tx_source_shard := ctx_shard_id (vm_context vm);
    tx_destination_shard := ctx_shard_id (vm_context vm); tx_signature := []; tx_data := data |}).
  assert (forall vm1, vm_context vm1 = vm_context vm ->
    run_io (transfer vm1 to amount data) s = (Ok (tx, push_transfer vm1 tx), s)) as T.
  { intros vm1 C. unfold transfer. rewrite run_bind, run_lift.
    unfold require_contract_address at 1. rewrite C. fold a. rewrite bool_decide_false by done.
    rewrite bool_decide_false by done. rewrite run_bind, (require_account_run s L P).
    unfold require_contract_address. rewrite C. fold a. rewrite bool_decide_false by done.
    cbn [mbind outcome_bind]. rewrite Ea. cbn [ok_or mbind outcome_bind]. rewrite Eh.
    unfold u64 in *. unfold FIXED_TRANSACTION_FEE in *.
    rewrite run_bind, run_lift, (proj2 (checked_Some 64 (amount + _) _)) by (split; [done|lia]).
    cbn [ok_or]. destruct (Z.ltb_spec (acct_balance account) (amount + 1)); [lia|].
    rewrite run_bind, run_lift, (proj2 (checked_Some 64 (acct_nonce account + 1) _))
      by (split; [done|lia]). done. }
  exists (foldl push_transfer vm (replicate n tx)), tx. split; [|split; [|done]].
  - assert (forall vm1, vm_context vm1 = vm_context vm ->
      run_io (transfer_n n vm1 to amount data) s = (Ok (foldl push_transfer vm1 (replicate n tx)), s)) as G.
    { induction n as [|n IH]; intros vm1 C; [done|]. cbn [transfer_n replicate foldl].
      rewrite run_bind, (T vm1 C). cbn [snd]. by apply IH. }
    by apply G.
  - assert (forall vm1, vm_pending_transfers (foldl push_transfer vm1 (replicate n tx)) =
      vm_pending_transfers vm1 ++ replicate n tx) as G; [|apply G].
    induction n as [|n IH]; intros vm1; cbn [replicate foldl]; [by rewrite app_nil_r|].
    rewrite IH. cbn. by rewrite <- app_assoc.
Qed.
End properties.

(** The guest's memory is accessed in bounds: a read of
    any pointer and length succeeds exactly when both are non-negative and the
    range lies inside the memory, and returns that range; a write likewise,
    after which the range reads back as what was written, every other byte
    and the size being as before. *)
Theorem guest_memory_spec data ptr len source :
  Z.of_nat (length data) < 2 ^ 33 -> ptr < 2 ^ 31 -> len < 2 ^ 31 ->
  Z.of_nat (length source) < 2 ^ 33 ->
  (forall b, read_memory (Some data) ptr len = Ok b <->
     0 <= ptr /\ 0 <= len /\ ptr + len <= Z.of_nat (length data) /\
     b = take (Z.to_nat len) (drop (Z.to_nat ptr) data)) /\
  (is_ok (write_memory (Some data) ptr source) = true <->
     0 <= ptr /\ ptr + Z.of_nat (length source) <= Z.of_nat (length data)) /\
  (forall m, write_memory (Some data) ptr source = Ok m -> exists data',
     m = Some data' /\ length data' = length data /\
     read_memory m ptr (Z.of_nat (length source)) = Ok source /\
     forall i, (i < Z.to_nat ptr \/ Z.to_nat ptr + length source <= i)%nat -> data' !! i = data !! i).
Proof.
  intros D Bp Bl Bs.
  assert (forall mem p l, Z.of_nat (length mem) < 2 ^ 33 -> p < 2 ^ 31 -> 0 <= p -> 0 <= l ->
    p + l <= Z.of_nat (length mem) ->
    read_memory (Some mem) p l = Ok (take (Z.to_nat l) (drop (Z.to_nat p) mem))) as R.
  { intros mem p l B1 B2 P0 L0 B. unfold read_memory.
    destruct (Z.ltb_spec p 0), (Z.ltb_spec l 0); try lia. cbn [orb].
    rewrite (proj2 (checked_Some 64 (p + l) _)) by (split; [done|lia]).
    cbn [ok_or mbind outcome_bind]. by destruct (Z.ltb_spec (Z.of_nat (length mem)) (p + l)); [lia|]. }
  assert (0 <= ptr -> ptr + Z.of_nat (length source) <= Z.of_nat (length data) ->
    write_memory (Some data) ptr source = Ok (Some (take (Z.to_nat ptr) data ++ source ++
      drop (Z.to_nat ptr + length source) data))) as W.
  { intros P0 B. unfold write_memory. destruct (Z.ltb_spec ptr 0); [lia|].
    rewrite (proj2 (checked_Some 64 (ptr + Z.of_nat (length source)) _)) by (split; [done|lia]).
    cbn [ok_or mbind outcome_bind]. destruct (Z.ltb_spec (Z.of_nat (length data)) (ptr + Z.of_nat (length source))); [lia|].
    do 5 f_equal. lia. }
  split; [|split].
  - intros b. split.
    + intros (P0 & L0 & d & [= <-] & B & ->)%read_memory_Ok. repeat split; lia.
    + intros (P0 & L0 & B & ->). by apply R.
  - split; [|intros [P0 B]; by rewrite W].
    destruct (write_memory (Some data) ptr source) eqn:E; [|done..]. intros _.
    apply write_memory_Ok in E as (P0 & d & [= <-] & B & _). lia.
  - intros m E. pose proof E as (P0 & d & [= <-] & B & ->)%write_memory_Ok.
    eexists. split; [done|]. set (data' := take _ data ++ _).
    assert (length data' = length data) as Ld.
    { unfold data'. rewrite !length_app, length_take, length_drop. lia. }
    split; [done|]. split.
    + rewrite R by lia. rewrite Nat2Z.id. unfold data'.
      by rewrite drop_app_length', take_app_length by (rewrite length_take; lia).
    + intros i [I|I]; unfold data'.
      * rewrite lookup_app_l by (rewrite length_take; lia). by rewrite lookup_take_lt.
      * rewrite app_assoc, lookup_app_r by (rewrite length_app, length_take; lia).
        rewrite lookup_drop, length_app, length_take. f_equal. lia.
Qed.

(** ** Witnesses *)

From S2P Require Import Concrete.
Import Concrete.Instances StorageInstances.

(** A deployed contract with an account of its own. *)
Definition contract_account : Account := {|
  acct_balance := 100; acct_nonce := 4; acct_code_hash := Some (fill 32 9);
  acct_anonymous_state := AnonymousAccountState_default |}.

Definition setup_calls : list call := [
  Call (DeployContract (fill 4 1) sample_code);
  Call (SetContractStorage sample_address (fill 1 1) (fill 1 2));
  Call (UpdateAccount sample_address contract_account) ].

Definition setup_db : gmap bytes bytes :=
  (session (@perform _ _ (gmap bytes bytes) _ _ _) setup_calls db_empty).2.

Definition setup_ledger : Ledger := (session (@spec _ _) setup_calls empty_ledger).2.

Lemma setup_represents : represents (contents setup_db) setup_ledger.
Proof.
  assert (Forall call_ok setup_calls) as W by (repeat constructor; vm_compute; done).
  destruct (session_refines setup_calls db_empty empty_ledger W) as (s' & E & P);
    [by apply represents_empty|].
  unfold setup_db. by rewrite E.
Qed.

Lemma setup_account : led_accounts setup_ledger !! sample_address = Some contract_account.
Proof. vm_compute. reflexivity. Qed.

Lemma setup_contract : is_Some (led_contracts setup_ledger !! sample_address).
Proof. apply (bool_decide_unpack _). vm_compute. exact I. Qed.

Definition sample_context : WasmExecutionContext := {|
  ctx_contract_address := sample_address; ctx_caller := fill 4 1; ctx_block_height := 42;
  ctx_shard_id := 0 |}.

Definition sample_host : WasmHostState := {|
  host_vm := with_context sample_context; host_params := fill 2 8 |}.

(** An engine whose only program emits an event, writes a slot, reads it back
    and queues a transfer. *)
Definition sample_program : wasm_run Z :=
  HostCall (HEmitEvent 0 2 0 4) (Some (fill 8 3)) (fun m _ =>
  HostCall (HSetStorage 0 1 0 4) m (fun m _ =>
  HostCall (HCopyStorage 0 1 4) m (fun m _ =>
  HostCall (HTransfer 0 4 30) m (fun m _ => Finished 77)))).

#[local] Instance sample_engine : Wasmtime := {|
  wasm_store := Z; wasm_module := bytes; wasm_instance := bytes; wasm_func := string;
  wasm_new_store := fun fuel => Ok fuel; wasm_new_module := fun _ code => Ok code;
  wasm_instantiate := fun store module => Finished (module, store);
  wasm_get_func := fun _ _ name => if String.eqb name "run" then Ok name else Err "unknown export"%string;
  wasm_call := fun _ _ => sample_program; wasm_get_fuel := fun fuel => Ok fuel |}.

#[local] Instance sample_engine_ok : WasmtimeOk.
Proof.
  split; [by eexists|done|done|]. intros i st name. cbn. by case_match.
Qed.

Lemma host_calls_contained_witness : exists r s',
  run_io (host_function sample_host (Some (fill 8 3)) (HTransfer 0 4 30)) setup_db = (r, s') /\
  s' = setup_db /\
  match r with
  | Ok (v, h', memory') =>
      host_params h' = fill 2 8 /\ vm_step setup_ledger (host_vm sample_host) (host_vm h') /\
      memory_step (Some (fill 8 3)) memory'
  | Err _ => True
  | Panic => False
  end.
Proof.
  eexists _, _. split; [apply surjective_pairing|].
  exact (host_calls_contained setup_db setup_ledger sample_host (Some (fill 8 3)) (HTransfer 0 4 30)
    _ _ setup_represents ltac:(by vm_compute) (surjective_pairing _)).
Defined.

(** The call runs to its end; the witness is not about a failure. *)
Example sample_call_succeeds :
  is_ok (run_io (execute_contract_call sample_context "run" (fill 2 8) 1000) setup_db).1 = true.
Proof. vm_compute. reflexivity. Qed.

Example sample_call_fails :
  is_ok (run_io (execute_contract_call sample_context "stop" (fill 2 8) 1000) setup_db).1 = false.
Proof. vm_compute. reflexivity. Qed.

Lemma execution_atomic_witness : exists r s',
  run_io (execute_contract_call sample_context "run" (fill 2 8) 1000) setup_db = (r, s') /\
  match r with
  | Ok out => exists L', represents (contents s') L' /\ call_committed setup_ledger L' sample_context out
  | Err _ => s' = setup_db
  | Panic => False
  end.
Proof.
  eexists _, _. split; [apply surjective_pairing|].
  exact (execution_atomic setup_db setup_ledger sample_context "run" (fill 2 8) 1000
    _ _ setup_represents ltac:(by vm_compute) (surjective_pairing _)).
Defined.

Lemma storage_overlay_witness : exists s',
  run_io (get_storage (stage_write (with_context sample_context) (fill 1 5) (fill 1 6)) (fill 1 1))
    setup_db =
    (Ok ((({[ fill 1 5 := fill 1 6 ]} : gmap bytes bytes) ∪
          nest (led_slots setup_ledger) sample_address) !! fill 1 1), setup_db) /\
  run_io (commit_contract_storage_batch sample_address {[ fill 1 5 := fill 1 6 ]}) setup_db =
    (Ok tt, s') /\
  run_io (get_contract_storage sample_address (fill 1 1)) s' =
    (Ok ((({[ fill 1 5 := fill 1 6 ]} : gmap bytes bytes) ∪
          nest (led_slots setup_ledger) sample_address) !! fill 1 1), s').
Proof.
  exact (storage_overlay setup_db setup_ledger
    (stage_write (with_context sample_context) (fill 1 5) (fill 1 6)) (fill 1 1)
    contract_account (fill 32 9) setup_represents ltac:(by vm_compute) setup_account eq_refl
    setup_contract).
Defined.

Lemma transfers_not_reserved_witness : exists vm' tx,
  run_io (transfer_n 10 (with_context sample_context) (fill 4 2) 60 None) setup_db =
    (Ok vm', setup_db) /\
  vm_pending_transfers vm' = [] ++ replicate 10 tx /\
  tx_amount tx = 60 /\ tx_nonce tx = 4 + 1 /\ tx_from tx = sample_address.
Proof.
  refine (transfers_not_reserved setup_db setup_ledger (with_context sample_context) (fill 4 2) 60
    None contract_account (fill 32 9) 10 setup_represents _ _ setup_account eq_refl _ _ _);
    by vm_compute.
Defined.

Lemma guest_memory_spec_witness :
  (forall b, read_memory (Some (fill 8 3)) 2 4 = Ok b <->
     0 <= 2 /\ 0 <= 4 /\ 2 + 4 <= 8 /\ b = take 4 (drop 2 (fill 8 3))) /\
  (is_ok (write_memory (Some (fill 8 3)) 2 (fill 3 1)) = true <-> 0 <= 2 /\ 2 + 3 <= 8) /\
  (forall m, write_memory (Some (fill 8 3)) 2 (fill 3 1) = Ok m -> exists data',
     m = Some data' /\ length data' = 8%nat /\ read_memory m 2 3 = Ok (fill 3 1) /\
     forall i, (i < 2 \/ 2 + 3 <= i)%nat -> data' !! i = fill 8 3 !! i).
Proof. exact (guest_memory_spec (fill 8 3) 2 4 (fill 3 1) eq_refl eq_refl eq_refl eq_refl). Defined.
