(* ===== verification/Json.v ===== *)
(** * JSON values and the structures read from them

    The values of [serde_json], with the accessors the source uses, and the
    reading of a structure as [#[derive(Deserialize)]] does it: from an object
    by field names, refusing duplicates and, under [deny_unknown_fields],
    other names, or from an array by position.  The texts of values, and the
    messages of errors, belong to the crate. *)

From Stdlib Require Import Strings.Byte.
From S2P Require Import Prelude Bytes.

(** ** Values *)

(** A [Number] is an integer when it is written as one. *)
#[warnings="-register-all"] Inductive Value :=
| JNull
| JBool (b : bool)
| JNumber (n : Z)
| JFloat (text : bytes)
| JString (s : bytes)
| JArray (l : list Value)
| JObject (m : list (bytes * Value)).

(** The first entry under a key. *)
Fixpoint assoc {A} (k : bytes) (m : list (bytes * A)) : option A :=
  match m with
  | [] => None
  | (k', v) :: m' => if decide (k = k') then Some v else assoc k m'
  end.

(** [Value::get] *)
Definition get (v : Value) (field : bytes) : option Value :=
  match v with
  | JObject m => assoc field m
  | _ => None
  end.

Definition as_str (v : Value) : option bytes :=
  match v with
  | JString s => Some s
  | _ => None
  end.

Definition as_u64 (v : Value) : option Z :=
  match v with
  | JNumber n => checked 64 n
  | _ => None
  end.

Definition as_i64 (v : Value) : option Z :=
  match v with
  | JNumber n => if (- 2 ^ 63 <=? n) && (n <? 2 ^ 63) then Some n else None
  | _ => None
  end.

(** ** Writing *)

Definition ser_option {A} (f : A -> Value) (o : option A) : Value :=
  match o with
  | None => JNull
  | Some x => f x
  end.

Definition ser_vec {A} (f : A -> Value) (l : list A) : Value := JArray (f <$> l).

(** ** Reading *)

(** [serde::de::Error] *)
Inductive DeError :=
| InvalidType
| InvalidValue
| MissingField (name : bytes)
| UnknownField (name : bytes)
| DuplicateField (name : bytes)
| InvalidLength (n : nat).

Definition decoder (A : Type) := Value -> outcome DeError A.

Definition de_string (v : Value) : outcome DeError bytes :=
  match v with
  | JString s => Ok s
  | _ => Err InvalidType
  end.

Definition de_bool (v : Value) : outcome DeError bool :=
  match v with
  | JBool b => Ok b
  | _ => Err InvalidType
  end.

(** An unsigned integer of [w] bits. *)
Definition de_uint (w : Z) (v : Value) : outcome DeError Z :=
  match v with
  | JNumber n => ok_or InvalidValue (checked w n)
  | _ => Err InvalidType
  end.

Definition de_option {A} (d : decoder A) (v : Value) : outcome DeError (option A) :=
  match v with
  | JNull => Ok None
  | _ => Some <$> d v
  end.

Definition de_vec {A} (d : decoder A) (v : Value) : outcome DeError (list A) :=
  match v with
  | JArray l => mapM d l
  | _ => Err InvalidType
  end.

(** The fields of a structure, with whether a value can be read as each. *)
Definition fields := list (bytes * decoder unit).

Definition reads {A} (d : decoder A) (v : Value) : outcome DeError unit := d v;; Ok tt.

(** [visit_map]: the entries in order, each read as it comes. *)
Fixpoint visit_map (deny : bool) (fs : fields) (m acc : list (bytes * Value)) :
  outcome DeError (list (bytes * Value)) :=
  match m with
  | [] => Ok acc
  | (k, v) :: m' =>
      match assoc k fs with
      | None => if deny then Err (UnknownField k) else visit_map deny fs m' acc
      | Some d =>
          match assoc k acc with
          | Some _ => Err (DuplicateField k)
          | None => d v;; visit_map deny fs m' ((k, v) :: acc)
          end
      end
  end.

(** [visit_seq]: one element per field, [i] of them read. *)
Fixpoint visit_seq (fs : fields) (l : list Value) (i : nat) : outcome DeError (list Value) :=
  match fs, l with
  | [], [] => Ok []
  | [], _ => Err (InvalidLength (i + length l))
  | _ :: _, [] => Err (InvalidLength i)
  | (_, d) :: fs', v :: l' =>
      d v;;
      vs ← visit_seq fs' l' (S i);
      Ok (v :: vs)
  end.

(** The value found for each field, in the order of the declaration. *)
Definition de_struct (deny : bool) (fs : fields) (v : Value) : outcome DeError (list (option Value)) :=
  match v with
  | JObject m =>
      found ← visit_map deny fs m [];
      Ok (map (fun f => assoc f.1 found) fs)
  | JArray l => vs ← visit_seq fs l 0; Ok (map Some vs)
  | _ => Err InvalidType
  end.

(** A field that has to be there, and one of type [Option]. *)
Definition field {A} (name : bytes) (d : decoder A) (o : option Value) : outcome DeError A :=
  match o with
  | Some v => d v
  | None => Err (MissingField name)
  end.

Definition opt_field {A} (d : decoder A) (o : option Value) : outcome DeError (option A) :=
  match o with
  | Some v => de_option d v
  | None => Ok None
  end.

(** ** Lemmas *)

Lemma assoc_elem {A} k (m : list (bytes * A)) v : assoc k m = Some v -> (k, v) ∈ m.
Proof.
  induction m as [|[k' v'] m IH]; [done|]. cbn [assoc]. case_decide as E.
  - intros [= ->]. subst. by left.
  - intros I%IH. by right.
Qed.

Lemma assoc_None {A} k (m : list (bytes * A)) : k ∉ m.*1 -> assoc k m = None.
Proof.
  induction m as [|[k' v] m IH]; [done|]. cbn [fmap list_fmap fst assoc].
  intros [N I]%not_elem_of_cons. rewrite decide_False by done. by apply IH.
Qed.

Lemma assoc_NoDup {A} k (m : list (bytes * A)) v : NoDup m.*1 -> (k, v) ∈ m -> assoc k m = Some v.
Proof.
  induction m as [|[k' v'] m IH]; [by intros _ ?%elem_of_nil|]. cbn [fmap list_fmap fst assoc].
  intros [N ND]%NoDup_cons [[= -> ->]|I]%elem_of_cons; [by rewrite decide_True|].
  rewrite decide_False; [by apply IH|]. intros ->. apply N. by apply (list_elem_of_fmap_2 fst) in I.
Qed.

(** Two lists with the same entries. *)
Lemma assoc_Permutation {A} k (m m' : list (bytes * A)) :
  NoDup m.*1 -> m ≡ₚ m' -> assoc k m = assoc k m'.
Proof.
  intros ND P. assert (NoDup m'.*1) as ND' by by rewrite <- P.
  destruct (assoc k m') as [v|] eqn:E.
  - apply assoc_NoDup; [done|]. rewrite P. by apply assoc_elem.
  - destruct (assoc k m) as [v|] eqn:E'; [|done]. apply assoc_elem in E'. rewrite P in E'.
    by rewrite (assoc_NoDup k m' v ND' E') in E.
Qed.

(** An entry that a field takes. *)
Definition takes (fs : fields) (e : bytes * Value) : Prop :=
  exists d, assoc e.1 fs = Some d /\ d e.2 = Ok tt.

Lemma visit_map_takes deny fs m acc :
  NoDup (m ++ acc).*1 -> Forall (takes fs) m -> visit_map deny fs m acc = Ok (rev m ++ acc).
Proof.
  revert acc. induction m as [|[k v] m IH]; intros acc ND F; [done|].
  apply Forall_cons in F as [(d & Ed & Ev) F]. cbn [visit_map fst snd] in *. rewrite Ed.
  cbn [app fmap list_fmap fst] in ND. apply NoDup_cons in ND as [N ND].
  rewrite assoc_None, Ev by (rewrite fmap_app in N; set_solver). cbn [mbind outcome_bind].
  rewrite IH; [|by rewrite <- Permutation_middle; apply NoDup_cons|done].
  cbn [rev]. by rewrite <- app_assoc.
Qed.

(** Reading the object a structure was written as. *)
Lemma de_struct_object deny fs m :
  NoDup m.*1 -> Forall (takes fs) m ->
  de_struct deny fs (JObject m) = Ok (map (fun f => assoc f.1 m) fs).
Proof.
  intros ND F. unfold de_struct. rewrite visit_map_takes by (by rewrite ?app_nil_r).
  cbn [mbind outcome_bind]. f_equal. apply map_ext. intros f.
  rewrite app_nil_r. symmetry. apply assoc_Permutation; [done|apply Permutation_rev].
Qed.

Lemma visit_map_Ok deny fs m acc found :
  visit_map deny fs m acc = Ok found ->
  (deny = true -> found = rev m ++ acc) /\ (forall k, k ∈ acc.*1 -> k ∈ found.*1).
Proof.
  revert acc. induction m as [|[k v] m IH]; intros acc E; cbn [visit_map] in E.
  { injection E as <-. by split. }
  destruct (assoc k fs) as [d|]; [|destruct deny; [done|by apply IH in E as [_ Q]]].
  destruct (assoc k acc); [done|]. apply bind_Ok in E as (u & _ & E).
  apply IH in E as [A Q]. split.
  - intros D. rewrite (A D). cbn [rev]. by rewrite <- app_assoc.
  - intros k' I. apply Q. cbn. by right.
Qed.

Lemma de_vec_ser {A B} (f : A -> Value) (d : decoder B) (g : A -> B) l :
  Forall (fun x => d (f x) = Ok (g x)) l -> de_vec d (ser_vec f l) = Ok (g <$> l).
Proof.
  intros F. unfold de_vec, ser_vec. induction F as [|x l E _ IH]; [done|].
  cbn [fmap list_fmap mapM]. rewrite E. cbn [mbind outcome_bind]. by rewrite IH.
Qed.

Lemma de_uint_Ok w n : 0 <= n < 2 ^ w -> de_uint w (JNumber n) = Ok n.
Proof. intros R. unfold de_uint. by rewrite (proj2 (checked_Some w n n)). Qed.

(** A structure of one required text, under [deny_unknown_fields]. *)
Definition de_text_struct (name : bytes) (v : Value) : outcome DeError bytes :=
  vs ← de_struct true [(name, reads de_string)] v;
  match vs with
  | [text] => field name de_string text
  | _ => Panic
  end.

(** It is read from exactly two forms. *)
Lemma de_text_struct_Ok name v a :
  de_text_struct name v = Ok a <-> v = JObject [(name, JString a)] \/ v = JArray [JString a].
Proof.
  split; [|intros [-> | ->]; cbn; by rewrite ?decide_True by done; cbn; rewrite ?decide_True by done].
  unfold de_text_struct, de_struct. intros (vs & E & R)%bind_Ok.
  destruct v as [| | | | |l|m]; try done.
  - right. apply bind_Ok in E as (ws & E & [= <-]). destruct l as [|x [|y l]]; cbn [visit_seq] in E; try done.
    + apply bind_Ok in E as (u & E1 & [= <-]). cbn in R. destruct x; try discriminate R. by injection R as ->.
    + by apply bind_Ok in E as (u & _ & E).
  - left. apply bind_Ok in E as (found & E & [= <-]). cbn [map fst] in R.
    pose proof (proj1 (visit_map_Ok _ _ _ _ _ E) eq_refl) as ->. rewrite app_nil_r in *.
    destruct m as [|[k x] m]; [done|]. cbn [visit_map assoc] in E. case_decide as K; [|done]. subst k.
    apply bind_Ok in E as (u & Ex & E). destruct m as [|[k' x'] m].
    + cbn [rev app assoc] in R. rewrite decide_True in R by done. cbn in R. destruct x; try discriminate R. by injection R as ->.
    + cbn [visit_map assoc] in E. by case_decide.
Qed.

(** ** Reading never panics *)

Definition returns {A} (d : decoder A) : Prop := forall v, d v <> Panic.

Lemma de_string_returns : returns de_string.
Proof. by intros []. Qed.

Lemma de_bool_returns : returns de_bool.
Proof. by intros []. Qed.

Lemma de_uint_returns w : returns (de_uint w).
Proof. intros []; try done. apply ok_or_not_Panic. Qed.

Lemma de_option_returns {A} (d : decoder A) : returns d -> returns (de_option d).
Proof. intros R v. specialize (R v). destruct v; try done; cbn; by destruct (d _). Qed.

Lemma reads_returns {A} (d : decoder A) : returns d -> returns (reads d).
Proof. intros R v. apply bind_not_Panic; [apply R|done]. Qed.

Lemma de_vec_returns {A} (d : decoder A) : returns d -> returns (de_vec d).
Proof.
  intros R [| | | | |l|]; try done. cbn. induction l as [|v l IH]; [done|]. cbn [mapM].
  apply bind_not_Panic; [apply R|]. intros x _. by apply bind_not_Panic.
Qed.

Lemma visit_map_returns deny (fs : fields) m acc :
  Forall (fun f => returns f.2) fs -> visit_map deny fs m acc <> Panic.
Proof.
  intros F. revert acc. induction m as [|[k v] m IH]; intros acc; cbn [visit_map]; [done|].
  destruct (assoc k fs) as [d|] eqn:E; [|by destruct deny]. destruct (assoc k acc); [done|].
  rewrite Forall_forall in F. apply bind_not_Panic; [|by intros _ _].
  apply (F (k, d)). by apply assoc_elem.
Qed.

Lemma visit_seq_facts (fs : fields) l i : Forall (fun f => returns f.2) fs ->
  match visit_seq fs l i with
  | Ok vs => length vs = length fs
  | Err _ => True
  | Panic => False
  end.
Proof.
  intros F. revert l i. induction F as [|[k d] fs R _ IH]; intros [|v l] i; cbn [visit_seq]; try done.
  specialize (R v). cbn [snd] in R. destruct (d v) as [u|e|]; [|done..]. cbn [mbind outcome_bind].
  specialize (IH l (S i)). destruct (visit_seq fs l (S i)) as [vs|e|]; [|done..]. cbn in *. by f_equal.
Qed.

(** A structure gets a value or nothing for each field, or an error. *)
Lemma de_struct_facts deny (fs : fields) v : Forall (fun f => returns f.2) fs ->
  match de_struct deny fs v with
  | Ok vs => length vs = length fs
  | Err _ => True
  | Panic => False
  end.
Proof.
  intros F. destruct v as [| | | | |l|m]; try done; cbn [de_struct].
  - pose proof (visit_seq_facts fs l 0 F) as V. destruct (visit_seq fs l 0); [|done..]. cbn. by rewrite length_map.
  - pose proof (visit_map_returns deny fs m [] F) as V. destruct (visit_map deny fs m []); [|done..]. cbn. by rewrite length_map.
Qed.

Lemma field_returns {A} name (d : decoder A) o : returns d -> field name d o <> Panic.
Proof. intros R. destruct o; [apply R|done]. Qed.

Lemma opt_field_returns {A} (d : decoder A) o : returns d -> opt_field d o <> Panic.
Proof. intros R. destruct o; [by apply de_option_returns|done]. Qed.

Create HintDb json.
#[export] Hint Resolve de_string_returns de_bool_returns de_uint_returns de_option_returns reads_returns
  field_returns opt_field_returns : json.

(** [struct_returns]: the decoder of a structure never panics. *)
Ltac struct_returns :=
  match goal with
  | |- mbind ?g (de_struct ?deny ?fs ?v) <> Panic =>
      pose proof (de_struct_facts deny fs v ltac:(repeat constructor; cbn [snd]; auto with json));
      destruct (de_struct deny fs v) as [vs|e|]; [cbn [mbind outcome_bind length] in *|done..];
      repeat (destruct vs as [|? vs]; try discriminate);
      repeat (apply bind_not_Panic; [auto with json|intros ? _]); done
  end.

(** The fields found in a written object, by evaluation. *)
Ltac struct_fields :=
  match goal with
  | |- context [map ?f ?fs] =>
      let l := eval vm_compute in (map f fs) in
      replace (map f fs) with l by (vm_compute; reflexivity)
  end.

(** Reading integers in their range. *)
Ltac read_uints :=
  cbn [fst snd mbind outcome_bind field opt_field de_option de_string de_bool]; unfold reads;
  cbn [mbind outcome_bind de_string de_bool];
  rewrite ?de_uint_Ok by (first [assumption | eauto]);
  cbn [mbind outcome_bind fmap outcome_fmap].
