(* ===== verification/Api.v ===== *)
(** * The JSON-RPC interface ([src/api/mod.rs])

    The methods a node serves: their parameters and errors, the views they
    return, the submission of a transaction with every check of each type, and
    the queries, over the storage of file [Storage], the pool of file
    [Mempool] and the virtual machine of file [Vm].  The crate
    [governor] is the class [RateLimiter]; the parameters come as file [Rpc]
    reads them. *)

From S2P Require Import Prelude Orders Bytes Text Externals Types Hash Crypto Validation Mempool Notes Keys Store Storage Vm.

(** ** The crates *)

(** [RateLimiter::direct] and [check], which takes a permit when there is one. *)
Class RateLimiter := {
  limiter : Type;
  limiter_direct : Z -> limiter;
  limiter_check : limiter -> bool * limiter;
}.

(** ** Errors *)

Definition INVALID_PARAMS_CODE : Z := -32602.
Definition INTERNAL_ERROR_CODE : Z := -32603.
Definition NOT_FOUND_CODE : Z := -32004.
Definition VALIDATION_ERROR_CODE : Z := -32010.
Definition RATE_LIMIT_EXCEEDED_CODE : Z := -32029.
Definition DEFAULT_RPC_RATE_LIMIT_PER_SECOND : Z := 20.

(** [invalid_params(..)], by message. *)
Module ParamsError.
Inductive t :=
| InvalidHex (field_name message : string)
| InvalidTransaction (message : string)
| BothSelectors
| NoSelector
| Unparsed (method message : string).
End ParamsError.

(** [validation_error(..)], by message. *)
Module Rejection.
Inductive t :=
| Invalid (e : TransactionValidationError)
| SenderKeyLength
| SignatureError (e : CryptoError)
| InvalidSignature
| InvalidFee (expected received : Z)
| InsufficientFeeBalance (balance required : Z)
| DeployWithoutCode
| DeployEmptyCode
| DeployAmount (received : Z)
| DeployEmptyTarget
| CallAmount (received : Z)
| CallEmptyTarget
| CallWithoutPayload
| InvalidPayload (message : string)
| EmptyMethod
| ZeroGasLimit
| ExecutionFailed (e : VmError.t).
End Rejection.

(** [ErrorObjectOwned]. *)
Inductive RpcError :=
| RateLimitExceeded
| InvalidParams (e : ParamsError.t)
| InternalError (doing : string) (e : StorageError)
| ValidationError (e : Rejection.t).

Definition error_code (e : RpcError) : Z :=
  match e with
  | RateLimitExceeded => RATE_LIMIT_EXCEEDED_CODE
  | InvalidParams _ => INVALID_PARAMS_CODE
  | InternalError _ _ => INTERNAL_ERROR_CODE
  | ValidationError _ => VALIDATION_ERROR_CODE
  end.

(** ** Parameters and views

    A [String] is its UTF-8 bytes. *)

Record GetBlockParams := {
  gb_height : option Z;
  gb_hash : option bytes;
}.

Record RpcBlockHeaderView := {
  hv_version : Z;
  hv_previous_hash : bytes;
  hv_merkle_root : bytes;
  hv_timestamp : Z;
  hv_height : Z;
  hv_validator : bytes;
  hv_signature : bytes;
}.

Record RpcTransactionView := {
  tv_tx_type : bytes;
  tv_stake_duration : option Z;
  tv_from : bytes;
  tv_to : bytes;
  tv_amount : Z;
  tv_fee : Z;
  tv_nonce : Z;
  tv_source_shard : Z;
  tv_destination_shard : Z;
  tv_signature : bytes;
  tv_data : option bytes;
}.

Record RpcCrossShardReceiptView := {
  cv_tx_hash : bytes;
  cv_source_shard : Z;
  cv_destination_shard : Z;
  cv_phase : bytes;
  cv_proof : bytes;
}.

Record RpcBlockResponse := {
  br_hash : bytes;
  br_header : RpcBlockHeaderView;
  br_transactions : list RpcTransactionView;
  br_receipts : list RpcCrossShardReceiptView;
}.

Record RpcTransactionResponse := {
  tr_hash : bytes;
  tr_transaction : RpcTransactionView;
}.

Record RpcBalanceResponse := {
  bal_address : bytes;
  bal_found : bool;
  bal_balance : Z;
  bal_nonce : Z;
  bal_note_commitment_count : Z;
}.

Record RpcInfoResponse := {
  info_name : bytes;
  info_rpc_version : bytes;
  info_storage_backend : bytes;
  info_latest_block_height : option Z;
  info_mempool_size : Z;
  info_validator_count : Z;
  info_note_commitment_count : Z;
}.

Record RpcValidatorView := {
  vv_address : bytes;
  vv_stake : Z;
  vv_locked_until : Z;
}.

Record RpcSendTransactionResponse := {
  sent_accepted : bool;
  sent_tx_hash : bytes;
  sent_mempool_size : Z;
}.

(** [RocksDbStorage::kind] *)
Definition storage_kind : bytes := bytes_of "rocksdb".

Section views.
Context `{Sha256, ChainCodecs, Hex}.

Definition encode_hex (b : bytes) : bytes := hex_encode b.

Definition decode_hex (value : bytes) (field_name : string) : outcome RpcError bytes :=
  let trimmed := trim value in
  let normalized := default trimmed (strip_prefix (bytes_of "0x") trimmed) in
  map_err (fun message => InvalidParams (ParamsError.InvalidHex field_name message))
    (hex_decode normalized).

Definition transaction_type_parts (t : TransactionType) : bytes * option Z :=
  match t with
  | Transfer => (bytes_of "Transfer", None)
  | Stake duration => (bytes_of "Stake", Some duration)
  | Unstake => (bytes_of "Unstake", None)
  | PublicToAnon => (bytes_of "PublicToAnon", None)
  | AnonToPublic => (bytes_of "AnonToPublic", None)
  | DeployContract => (bytes_of "DeployContract", None)
  | CallContract => (bytes_of "CallContract", None)
  end.

Definition transaction_to_rpc (tx : Transaction) : RpcTransactionView := {|
  tv_tx_type := (transaction_type_parts (tx_type tx)).1;
  tv_stake_duration := (transaction_type_parts (tx_type tx)).2;
  tv_from := encode_hex (tx_from tx);
  tv_to := encode_hex (tx_to tx);
  tv_amount := tx_amount tx;
  tv_fee := tx_fee tx;
  tv_nonce := tx_nonce tx;
  tv_source_shard := tx_source_shard tx;
  tv_destination_shard := tx_destination_shard tx;
  tv_signature := encode_hex (tx_signature tx);
  tv_data := encode_hex <$> tx_data tx |}.

(** [format!("{:?}", receipt.phase)] *)
Definition phase_debug (p : CrossShardPhase) : bytes :=
  match p with
  | Prepare => bytes_of "Prepare"
  | Validate => bytes_of "Validate"
  | Commit => bytes_of "Commit"
  end.

Definition receipt_to_rpc (r : CrossShardReceipt) : RpcCrossShardReceiptView := {|
  cv_tx_hash := encode_hex (rcpt_tx_hash r);
  cv_source_shard := rcpt_source_shard r;
  cv_destination_shard := rcpt_destination_shard r;
  cv_phase := phase_debug (rcpt_phase r);
  cv_proof := encode_hex (rcpt_proof r) |}.

Definition block_to_rpc (block : Block) : outcome RpcError RpcBlockResponse :=
  let header := blk_header block in
  block_hash ← hash_block_header header;
  Ok {| br_hash := encode_hex block_hash;
        br_header := {|
          hv_version := hdr_version header;
          hv_previous_hash := encode_hex (hdr_previous_hash header);
          hv_merkle_root := encode_hex (hdr_merkle_root header);
          hv_timestamp := hdr_timestamp header;
          hv_height := hdr_height header;
          hv_validator := encode_hex (hdr_validator header);
          hv_signature := encode_hex (hdr_signature header) |};
        br_transactions := transaction_to_rpc <$> blk_transactions block;
        br_receipts := receipt_to_rpc <$> blk_receipts block |}.

Definition account_to_rpc (address : bytes) (account : Account) : RpcBalanceResponse := {|
  bal_address := encode_hex address;
  bal_found := true;
  bal_balance := acct_balance account;
  bal_nonce := acct_nonce account;
  bal_note_commitment_count :=
    Z.of_nat (length (note_commitments (acct_anonymous_state account))) |}.

Definition validator_to_rpc (v : Validator) : RpcValidatorView := {|
  vv_address := encode_hex (val_address v);
  vv_stake := val_stake v;
  vv_locked_until := val_locked_until v |}.
End views.

(** ** The state of the interface *)

Record RpcState (S : Type) `{RateLimiter} := {
  rpc_storage : S;
  rpc_mempool : Mempool;
  rpc_limiter : limiter;
}.
Arguments rpc_storage {S _} _.
Arguments rpc_mempool {S _} _.
Arguments rpc_limiter {S _} _.
Arguments Build_RpcState {S _} _ _ _.

Section state.
Context {S : Type} `{RateLimiter}.

Definition with_rate_limit (storage : S) (mempool : Mempool) (requests_per_second : Z) : RpcState S :=
  {| rpc_storage := storage; rpc_mempool := mempool;
     rpc_limiter := limiter_direct requests_per_second |}.

Definition RpcState_new (storage : S) (mempool : Mempool) : RpcState S :=
  with_rate_limit storage mempool DEFAULT_RPC_RATE_LIMIT_PER_SECOND.

Definition check_rate_limit : io (RpcState S) RpcError unit :=
  Io (fun st =>
    let '(permitted, l) := limiter_check (rpc_limiter st) in
    (if permitted : bool then Ok tt else Err RateLimitExceeded,
     {| rpc_storage := rpc_storage st; rpc_mempool := rpc_mempool st; rpc_limiter := l |})).

(** A call of the storage, its error mapped. *)
Definition on_storage {E A} (f : E -> RpcError) (m : io S E A) : io (RpcState S) RpcError A :=
  Io (fun st =>
    let '(r, s) := run_io m (rpc_storage st) in
    (map_err f r,
     {| rpc_storage := s; rpc_mempool := rpc_mempool st; rpc_limiter := rpc_limiter st |})).

(** [ctx.mempool().add_transaction_async(..)] and [len_async()] *)
Definition pool_add (tx : Transaction) : io (RpcState S) RpcError unit :=
  Io (fun st =>
    match add_transaction (rpc_mempool st) tx with
    | Ok m => (Ok tt, {| rpc_storage := rpc_storage st; rpc_mempool := m;
                         rpc_limiter := rpc_limiter st |})
    | Err e => (Err e, st)
    | Panic => (Panic, st)
    end).

Definition pool_len : io (RpcState S) RpcError Z :=
  Io (fun st => (Ok (Z.of_nat (mempool_len (rpc_mempool st))), st)).
End state.

(** ** Queries *)

(** [Vec::dedup]: drops the elements equal to the one before. *)
Fixpoint dedup {A} `{EqDecision A} (l : list A) : list A :=
  match l with
  | x :: (y :: _) as l' => if decide (x = y) then dedup l' else x :: dedup l'
  | _ => l
  end.

Definition parse_block_height_key (key : bytes) : option Z :=
  if utf8_valid key then
    raw_height ← strip_prefix BLOCK_PREFIX key;
    parse_uint 64 raw_height
  else None.

(** The body of the loop of [latest_block_height]. *)
Definition latest_step (latest : option Z) (entry : bytes * bytes) : option Z :=
  match parse_block_height_key entry.1 with
  | Some height =>
      Some (match latest with Some current => Z.max current height | None => height end)
  | None => latest
  end.

Section queries.
Context {S : Type} `{Sha256, ChainCodecs, KvStore S, Hex, RateLimiter}.

Definition get_block_rpc (query : GetBlockParams) :
  io (RpcState S) RpcError (option RpcBlockResponse) :=
  match gb_height query, gb_hash query with
  | Some height, None =>
      block ← on_storage (InternalError "failed to load block at height") (get_block height);
      match block with
      | Some b => view ← lift (block_to_rpc b); mret (Some view)
      | None => mret None
      end
  | None, Some hash_hex =>
      hash_bytes ← lift (decode_hex hash_hex "hash");
      height_bytes ← on_storage (InternalError "failed to load height index")
                       (get (height_index_key hash_bytes));
      match height_bytes with
      | None => mret None
      | Some height_bytes =>
          height ← lift (map_err (fun message => InternalError
                     "failed to decode block height index" (StorageSerialization message))
                     (bincode_deserialize height_bytes : outcome string Z));
          block ← on_storage (InternalError "failed to load indexed block at height")
                    (get_block height);
          match block with
          | Some b => view ← lift (block_to_rpc b); mret (Some view)
          | None => mret None
          end
      end
  | Some _, Some _ => io_err (InvalidParams ParamsError.BothSelectors)
  | None, None => io_err (InvalidParams ParamsError.NoSelector)
  end.

Definition get_transaction_rpc (hash_hex : bytes) :
  io (RpcState S) RpcError (option RpcTransactionResponse) :=
  hash_bytes ← lift (decode_hex hash_hex "hash");
  tx ← on_storage (InternalError "failed to load transaction") (get_transaction hash_bytes);
  match tx with
  | Some transaction =>
      tx_hash ← lift (hash_transaction transaction);
      mret (Some {| tr_hash := encode_hex tx_hash;
                    tr_transaction := transaction_to_rpc transaction |})
  | None => mret None
  end.

Definition get_balance (address_hex : bytes) : io (RpcState S) RpcError RpcBalanceResponse :=
  address ← lift (decode_hex address_hex "address");
  account ← on_storage (InternalError "failed to load account") (get_account address);
  match account with
  | Some account => mret (account_to_rpc address account)
  | None => mret {| bal_address := encode_hex address; bal_found := false; bal_balance := 0;
                    bal_nonce := 0; bal_note_commitment_count := 0 |}
  end.

(** The loop of [load_validators]. *)
Fixpoint decode_validators (entries : list (bytes * bytes)) : outcome RpcError (list Validator) :=
  match entries with
  | [] => Ok []
  | kv :: entries' =>
      v ← map_err (fun message => InternalError "failed to decode validator entry"
             (StorageSerialization message)) (bincode_deserialize kv.2);
      rest ← decode_validators entries';
      Ok (v :: rest)
  end.

Definition load_validators : io (RpcState S) RpcError (list Validator) :=
  entries ← on_storage (InternalError "failed to iterate validators") (iter STAKE_PREFIX);
  lift (decode_validators entries).

Definition load_note_commitments : io (RpcState S) RpcError (list bytes) :=
  entries ← on_storage (InternalError "failed to iterate note commitments") (iter ANON_NOTE_PREFIX);
  let commitments :=
    omap (fun kv => encode_hex <$> strip_prefix ANON_NOTE_PREFIX kv.1) entries in
  mret (dedup (sort_by bytes_cmp commitments)).

Definition latest_block_height : io (RpcState S) RpcError (option Z) :=
  entries ← on_storage (InternalError "failed to iterate blocks") (iter BLOCK_PREFIX);
  mret (foldl latest_step None entries).

Definition get_info : io (RpcState S) RpcError RpcInfoResponse :=
  latest ← latest_block_height;
  validators ← load_validators;
  commitments ← load_note_commitments;
  size ← pool_len;
  mret {| info_name := bytes_of "Prims"; info_rpc_version := bytes_of "0.1";
          info_storage_backend := storage_kind; info_latest_block_height := latest;
          info_mempool_size := size;
          info_validator_count := Z.of_nat (length validators);
          info_note_commitment_count := Z.of_nat (length commitments) |}.

Definition get_validators : io (RpcState S) RpcError (list RpcValidatorView) :=
  validators ← load_validators;
  mret (validator_to_rpc <$> sort_by (cmp_on val_address bytes_cmp) validators).

Definition get_note_commitments : io (RpcState S) RpcError (list bytes) := load_note_commitments.
End queries.

(** ** Submission *)

Section submission.
Context {S : Type} `{Sha256, Ed25519, ChainCodecs, KvStore S, Wasmtime, Hex, RateLimiter}.

(** The fee checks of a transaction that moves no funds. *)
Definition check_fee (tx : Transaction) (sender_account : option Account) :
  outcome RpcError unit :=
  if negb (tx_fee tx =? FIXED_TRANSACTION_FEE)
  then Err (ValidationError (Rejection.InvalidFee FIXED_TRANSACTION_FEE (tx_fee tx)))
  else
    let balance := from_option acct_balance 0 sender_account in
    if balance <? tx_fee tx
    then Err (ValidationError (Rejection.InsufficientFeeBalance balance (tx_fee tx)))
    else Ok tt.

Definition check_deploy (tx : Transaction) (sender_account : option Account) :
  outcome RpcError unit :=
  check_fee tx sender_account;;
  code_wasm ← ok_or (ValidationError Rejection.DeployWithoutCode) (tx_data tx);
  if bool_decide (code_wasm = []) then Err (ValidationError Rejection.DeployEmptyCode)
  else if negb (tx_amount tx =? 0)
  then Err (ValidationError (Rejection.DeployAmount (tx_amount tx)))
  else if bool_decide (tx_to tx = []) then Err (ValidationError Rejection.DeployEmptyTarget)
  else Ok tt.

(** The checks of a call, up to its payload. *)
Definition check_call (tx : Transaction) (sender_account : option Account) :
  outcome RpcError ContractCallPayload :=
  check_fee tx sender_account;;
  if negb (tx_amount tx =? 0)
  then Err (ValidationError (Rejection.CallAmount (tx_amount tx)))
  else if bool_decide (tx_to tx = []) then Err (ValidationError Rejection.CallEmptyTarget)
  else
    payload_bytes ← ok_or (ValidationError Rejection.CallWithoutPayload) (tx_data tx);
    payload ← map_err (fun message => ValidationError (Rejection.InvalidPayload message))
                (bincode_deserialize payload_bytes : outcome string ContractCallPayload);
    if is_blank (bytes_of (call_method payload)) then Err (ValidationError Rejection.EmptyMethod)
    else if call_gas_limit payload =? 0 then Err (ValidationError Rejection.ZeroGasLimit)
    else Ok payload.

Definition call_context (tx : Transaction) : WasmExecutionContext := {|
  ctx_contract_address := tx_to tx; ctx_caller := tx_from tx; ctx_block_height := 0;
  ctx_shard_id := tx_destination_shard tx |}.

Definition run_call (tx : Transaction) (payload : ContractCallPayload) :
  io (RpcState S) RpcError unit :=
  on_storage (fun e => ValidationError (Rejection.ExecutionFailed e))
    (execute_contract_call (call_context tx) (call_method payload) (call_params payload)
       (call_gas_limit payload));;
  mret tt.

(** The [match] on the type of the transaction. *)
Definition check_by_type (tx : Transaction) (sender_account : option Account) :
  io (RpcState S) RpcError unit :=
  match tx_type tx with
  | Transfer | Stake _ | PublicToAnon | AnonToPublic =>
      lift (map_err (fun e => ValidationError (Rejection.Invalid e))
              (validate_transaction_balance tx sender_account))
  | DeployContract => lift (check_deploy tx sender_account)
  | CallContract =>
      payload ← lift (check_call tx sender_account);
      run_call tx payload
  | Unstake => lift (check_fee tx sender_account)
  end.

Definition send_transaction (hex_tx : bytes) :
  io (RpcState S) RpcError RpcSendTransactionResponse :=
  tx_bytes ← lift (decode_hex hex_tx "hex_tx");
  transaction ← lift (map_err (fun message =>
                  InvalidParams (ParamsError.InvalidTransaction message))
                  (bincode_deserialize tx_bytes : outcome string Transaction));
  lift (map_err (fun e => ValidationError (Rejection.Invalid e))
          (validate_transaction_size transaction));;
  if negb (length (tx_from transaction) =? 32)%nat
  then io_err (ValidationError Rejection.SenderKeyLength)
  else
    signature_is_valid ← lift (map_err (fun e => ValidationError (Rejection.SignatureError e))
                           (verify_transaction transaction (tx_from transaction)));
    if negb signature_is_valid then io_err (ValidationError Rejection.InvalidSignature)
    else
      sender_account ← on_storage (InternalError "failed to load sender account")
                         (get_account (tx_from transaction));
      lift (map_err (fun e => ValidationError (Rejection.Invalid e))
              (validate_transaction_nonce transaction sender_account));;
      check_by_type transaction sender_account;;
      tx_hash ← lift (hash_transaction transaction);
      pool_add transaction;;
      mempool_size ← pool_len;
      mret {| sent_accepted := true; sent_tx_hash := encode_hex tx_hash;
              sent_mempool_size := mempool_size |}.
End submission.

(** ** The methods *)

(** A request: a method with the result of parsing its parameters. *)
Inductive RpcRequest :=
| GetBlockReq (params : outcome string GetBlockParams)
| GetTransactionReq (params : outcome string bytes)
| SendTransactionReq (params : outcome string bytes)
| GetBalanceReq (params : outcome string bytes)
| GetInfoReq
| GetValidatorsReq
| GetNoteCommitmentsReq.

Inductive RpcResponse :=
| BlockResponse (r : option RpcBlockResponse)
| TransactionResponse (r : option RpcTransactionResponse)
| SendTransactionResponse (r : RpcSendTransactionResponse)
| BalanceResponse (r : RpcBalanceResponse)
| InfoResponse (r : RpcInfoResponse)
| ValidatorsResponse (r : list RpcValidatorView)
| NoteCommitmentsResponse (r : list bytes).

Section methods.
Context {S : Type} `{Sha256, Ed25519, ChainCodecs, KvStore S, Wasmtime, Hex, RateLimiter}.

(** [params.parse().map_err(..)?] *)
Definition parsed {A} (method : string) (params : outcome string A) : io (RpcState S) RpcError A :=
  lift (map_err (fun message => InvalidParams (ParamsError.Unparsed method message)) params).

(** The handlers [build_rpc_module] registers, after the limiter. *)
Definition handle (q : RpcRequest) : io (RpcState S) RpcError RpcResponse :=
  match q with
  | GetBlockReq params =>
      query ← parsed "get_block" params;
      r ← get_block_rpc query; mret (BlockResponse r)
  | GetTransactionReq params =>
      hash ← parsed "get_transaction" params;
      r ← get_transaction_rpc hash; mret (TransactionResponse r)
  | SendTransactionReq params =>
      hex_tx ← parsed "send_transaction" params;
      r ← send_transaction hex_tx; mret (SendTransactionResponse r)
  | GetBalanceReq params =>
      address ← parsed "get_balance" params;
      r ← get_balance address; mret (BalanceResponse r)
  | GetInfoReq => r ← get_info; mret (InfoResponse r)
  | GetValidatorsReq => r ← get_validators; mret (ValidatorsResponse r)
  | GetNoteCommitmentsReq => r ← get_note_commitments; mret (NoteCommitmentsResponse r)
  end.

Definition serve (q : RpcRequest) : io (RpcState S) RpcError RpcResponse :=
  check_rate_limit;; handle q.
End methods.
