(* ===== verification/ApiSpec.v ===== *)
(** * Properties of the JSON-RPC interface

    What a submission does to the node, what the queries answer, over the
    ledger of file [Ledger], and that no request panics the node. *)

From S2P Require Import Prelude Orders Bytes Text Externals Types Hash Crypto Validation Mempool Notes Keys Store Storage Ledger StorageSpec Vm VmSpec Api.
Import DigestAddresses.

(** ** Hexadecimal parameters *)

Section hex.
Context `{HexOk}.

Lemma hex_digit_range b : Forall (fun d => 32 < byte_val d < 128 /\ byte_val d <> 120) (hex_encode b).
Proof.
  eapply Forall_impl; [apply hex_encode_digits|]. intros d D. unfold is_hex_digit, in_range in D.
  lia.
Qed.

#[export] Instance hex_encode_inj : Inj (=) (=) hex_encode.
Proof. intros x y E. apply (inj (Ok (E := string))). by rewrite <- !hex_decode_encode, E. Qed.

Lemma strip_0x_hex b : strip_prefix (bytes_of "0x") (hex_encode b) = None.
Proof.
  destruct (strip_prefix _ _) as [r|] eqn:E; [|done]. apply strip_prefix_Some in E.
  pose proof (hex_digit_range b) as F. rewrite E in F. cbn in F.
  apply Forall_cons in F as [_ [[_ N] _]%Forall_cons]. by exfalso.
Qed.

(** What [encode_hex] prints is decoded, with or without the prefix. *)
Lemma decode_hex_encode b field prefix :
  prefix = [] \/ prefix = bytes_of "0x" -> decode_hex (prefix ++ encode_hex b) field = Ok b.
Proof.
  intros P. unfold decode_hex, encode_hex. pose proof (hex_digit_range b) as F.
  assert (Forall (fun d => 32 < byte_val d < 128) (hex_encode b)) as F'
    by (eapply Forall_impl; [exact F|]; tauto).
  destruct P as [->| ->].
  - rewrite app_nil_l, trim_ascii, strip_0x_hex by done. cbn [from_option id]. by rewrite hex_decode_encode.
  - rewrite trim_ascii by (apply Forall_app; split; [by repeat constructor|done]).
    rewrite (proj2 (strip_prefix_Some _ _ (hex_encode b))) by done. cbn [from_option id].
    by rewrite hex_decode_encode.
Qed.

Lemma decode_hex_not_Panic t field : decode_hex t field <> Panic.
Proof. apply map_err_not_Panic, hex_decode_no_panic. Qed.

Lemma decode_hex_vec t field b : vec_ok t -> decode_hex t field = Ok b -> vec_ok b.
Proof.
  unfold decode_hex. intros V E. apply map_err_Ok, hex_decode_length in E. unfold vec_ok in *.
  pose proof (trim_length t) as T. destruct (strip_prefix (bytes_of "0x") (trim t)) as [r|] eqn:Es;
    cbn [from_option id] in E; [|lia].
  apply strip_prefix_Some in Es. rewrite Es, length_app in T. lia.
Qed.
End hex.

(** ** The state *)

Section state.
Context {S : Type} `{RateLimiter}.

Lemma run_on_storage_read {E A} (f : E -> RpcError) (m : io S E A) (st : RpcState S) r :
  run_io m (rpc_storage st) = (r, rpc_storage st) -> run_io (on_storage f m) st = (map_err f r, st).
Proof. intros R. unfold on_storage. cbn [run_io]. rewrite R. by destruct st. Qed.

Lemma on_storage_contained {E A} (f : E -> RpcError) (m : io S E A) (st : RpcState S) Q :
  contained m (rpc_storage st) Q -> contained (on_storage f m) st Q.
Proof.
  intros (r & R & N & q). exists (map_err f r). split; [by apply run_on_storage_read|].
  split; [by apply map_err_not_Panic|]. intros a Ea. apply map_err_Ok in Ea. auto.
Qed.
End state.

(** ** Checks of a submission *)

(** The fee rule of a transaction that moves no funds. *)
Definition fee_covered (tx : Transaction) (account : option Account) : Prop :=
  tx_fee tx = FIXED_TRANSACTION_FEE /\ tx_fee tx <= from_option acct_balance 0 account.

Section rules.
Context `{ChainCodecs}.

(** What the type of a transaction asks of it. *)
Definition type_rules (tx : Transaction) (account : option Account) : Prop :=
  match tx_type tx with
  | Transfer | Stake _ | PublicToAnon | AnonToPublic =>
      0 < tx_amount tx /\ tx_fee tx = FIXED_TRANSACTION_FEE /\
      tx_amount tx + tx_fee tx < 2 ^ 64 /\
      tx_amount tx + tx_fee tx <= from_option acct_balance 0 account
  | Unstake => fee_covered tx account
  | Types.DeployContract =>
      fee_covered tx account /\ tx_amount tx = 0 /\ tx_to tx <> [] /\
      exists code_wasm, tx_data tx = Some code_wasm /\ code_wasm <> []
  | CallContract =>
      fee_covered tx account /\ tx_amount tx = 0 /\ tx_to tx <> [] /\
      exists b payload, tx_data tx = Some b /\
        bincode_deserialize b = Ok payload /\
        is_blank (bytes_of (call_method payload)) = false /\ call_gas_limit payload <> 0
  end.

Context `{Ed25519}.

(** What every transaction has to satisfy. *)
Record admissible (tx : Transaction) (account : option Account) : Prop := {
  adm_size : exists b, bincode_serialize tx = Ok b /\ Z.of_nat (length b) < MAX_TRANSACTION_SIZE_BYTES;
  adm_key : length (tx_from tx) = 32%nat;
  adm_signature : verify_transaction tx (tx_from tx) = Ok true;
  adm_nonce : forall a, account = Some a -> acct_nonce a < tx_nonce tx;
  adm_type : type_rules tx account;
}.

Lemma check_fee_Ok tx account : check_fee tx account = Ok tt <-> fee_covered tx account.
Proof.
  unfold check_fee, fee_covered. destruct (Z.eqb_spec (tx_fee tx) FIXED_TRANSACTION_FEE); cbn [negb].
  - destruct (Z.ltb_spec (from_option acct_balance 0 account) (tx_fee tx)); split; try done; lia.
  - split; [done|tauto].
Qed.

Lemma check_fee_not_Panic tx account : check_fee tx account <> Panic.
Proof. unfold check_fee. by repeat case_match. Qed.

Lemma check_deploy_Ok tx account :
  check_deploy tx account = Ok tt <->
  fee_covered tx account /\ tx_amount tx = 0 /\ tx_to tx <> [] /\
  exists code_wasm, tx_data tx = Some code_wasm /\ code_wasm <> [].
Proof.
  unfold check_deploy. rewrite bind_Ok. split.
  - intros ([] & F%check_fee_Ok & (c & D%ok_or_Ok & E)%bind_Ok).
    case_bool_decide; [done|]. destruct (Z.eqb_spec (tx_amount tx) 0); [|done].
    cbn [negb] in E. case_bool_decide; [done|]. split; [done|]. split; [done|]. split; [done|]. eauto.
  - intros (F & A & T & c & D & N). exists tt. split; [by apply check_fee_Ok|].
    rewrite D. cbn [ok_or mbind outcome_bind]. rewrite bool_decide_false by done.
    rewrite A. cbn [Z.eqb negb]. by rewrite bool_decide_false.
Qed.

Lemma check_deploy_not_Panic tx account : check_deploy tx account <> Panic.
Proof.
  apply bind_not_Panic; [apply check_fee_not_Panic|]. intros _ _.
  apply bind_not_Panic; [apply ok_or_not_Panic|]. intros c _. by repeat case_match.
Qed.

Lemma check_call_Ok tx account payload :
  check_call tx account = Ok payload <->
  fee_covered tx account /\ tx_amount tx = 0 /\ tx_to tx <> [] /\
  exists b, tx_data tx = Some b /\ bincode_deserialize b = Ok payload /\
    is_blank (bytes_of (call_method payload)) = false /\ call_gas_limit payload <> 0.
Proof.
  unfold check_call. rewrite bind_Ok. split.
  - intros ([] & F%check_fee_Ok & E). destruct (Z.eqb_spec (tx_amount tx) 0); [|done].
    cbn [negb] in E. case_bool_decide; [done|].
    apply bind_Ok in E as (b & D%ok_or_Ok & (p & Ep%map_err_Ok & E)%bind_Ok).
    destruct (is_blank _) eqn:Bl; [done|]. destruct (Z.eqb_spec (call_gas_limit p) 0); [done|].
    injection E as <-. eauto 10.
  - intros (F & A & T & b & D & P & Bl & G). exists tt. split; [by apply check_fee_Ok|].
    rewrite A. cbn [Z.eqb negb]. rewrite bool_decide_false by done. rewrite D.
    cbn [ok_or mbind outcome_bind]. rewrite P. cbn [map_err mbind outcome_bind]. rewrite Bl.
    by destruct (Z.eqb_spec (call_gas_limit payload) 0).
Qed.

Lemma check_call_not_Panic `{!BincodeTyped ContractCallPayload} tx account :
  check_call tx account <> Panic.
Proof.
  apply bind_not_Panic; [apply check_fee_not_Panic|]. intros _ _.
  case_match; [done|]. case_match; [done|]. apply bind_not_Panic; [apply ok_or_not_Panic|].
  intros b _. apply bind_not_Panic; [apply map_err_not_Panic, bincode_no_panic|].
  intros p _. by repeat case_match.
Qed.

Lemma nonce_Ok tx account :
  validate_transaction_nonce tx account = Ok tt <->
  forall a, account = Some a -> acct_nonce a < tx_nonce tx.
Proof.
  unfold validate_transaction_nonce. destruct account as [a|]; [|naive_solver].
  destruct (Z.leb_spec (tx_nonce tx) (acct_nonce a)); split; try done.
  - intros F. specialize (F a eq_refl). lia.
  - intros _ ? [= <-]. lia.
Qed.

Lemma balance_Ok tx account : 0 <= tx_amount tx -> 0 <= tx_fee tx ->
  validate_transaction_balance tx account = Ok tt <->
  0 < tx_amount tx /\ tx_fee tx = FIXED_TRANSACTION_FEE /\
  tx_amount tx + tx_fee tx < 2 ^ 64 /\
  tx_amount tx + tx_fee tx <= from_option acct_balance 0 account.
Proof.
  intros A F. unfold validate_transaction_balance.
  destruct (Z.eqb_spec (tx_amount tx) 0); [split; [done|lia]|].
  destruct (Z.eqb_spec (tx_fee tx) FIXED_TRANSACTION_FEE); cbn [negb]; [|split; [done|tauto]].
  destruct (checked 64 (tx_amount tx + tx_fee tx)) as [r|] eqn:C; cbn [ok_or mbind outcome_bind].
  - apply checked_Some in C as [-> R].
    destruct (Z.ltb_spec (from_option acct_balance 0 account) (tx_amount tx + tx_fee tx));
      split; try done; lia.
  - apply checked_None in C. split; [done|lia].
Qed.

Lemma balance_not_Panic tx account : validate_transaction_balance tx account <> Panic.
Proof.
  unfold validate_transaction_balance. case_match; [done|]. case_match; [done|].
  apply bind_not_Panic; [apply ok_or_not_Panic|]. intros r _. by case_match.
Qed.

Context `{!ChainCodecsOk}.

Lemma size_not_Panic tx : wf tx -> validate_transaction_size tx <> Panic.
Proof.
  intros W. unfold validate_transaction_size. destruct (bincode_total tx W) as [b ->].
  cbn [map_err mbind outcome_bind]. by case_match.
Qed.

Lemma verify_not_Panic tx key : wf tx -> verify_transaction tx key <> Panic.
Proof.
  intros W. apply bind_not_Panic; [apply ok_or_not_Panic|]. intros vk _. case_match; [done|].
  destruct (unsigned_transaction_bytes_Ok tx W) as (b & _ & ->). done.
Qed.
End rules.

(** ** Submission *)

Section submission.
Context {S : Type} `{KvStoreOk S, Sha256Ok, Ed25519, ChainCodecsOk, WasmtimeOk, HexOk, RateLimiter}.
Context `{!Bincode ViewableNote, !BincodeOk ViewableNote, !Bincode Hash32, !BincodeOk Hash32}.
Context `{!BincodeTyped Transaction, !BincodeTyped ContractCallPayload}.
Implicit Types (st : RpcState S) (L : Ledger).

Definition pending st : list Transaction := concat (partitions (rpc_mempool st)).

(** The rest of the state is unchanged. *)
Definition only_storage st st' : Prop :=
  rpc_mempool st' = rpc_mempool st /\ rpc_limiter st' = rpc_limiter st.

(** The storage after the checks of a transaction: a contract call has been
    executed and committed, anything else left it alone. *)
Definition checked_storage L tx st st' : Prop :=
  only_storage st st' /\
  match tx_type tx with
  | CallContract => exists out, committed L (call_context tx) out (rpc_storage st')
  | _ => rpc_storage st' = rpc_storage st
  end.

(** A submission was accepted. *)
Record accepted L tx st (resp : RpcSendTransactionResponse) st' : Prop := {
  acc_admissible : admissible tx (led_accounts L !! tx_from tx);
  acc_accepted : sent_accepted resp = true;
  acc_hash : exists h, hash_transaction (E := RpcError) tx = Ok h /\ sent_tx_hash resp = encode_hex h;
  acc_size : sent_mempool_size resp = Z.of_nat (length (pending st')) ;
  acc_pending : pending st' ≡ₚ tx :: pending st;
  acc_routed : routed (rpc_mempool st');
  acc_limiter : rpc_limiter st' = rpc_limiter st;
  acc_storage : match tx_type tx with
    | CallContract => exists out, committed L (call_context tx) out (rpc_storage st')
    | _ => rpc_storage st' = rpc_storage st
    end;
}.

Lemma on_storage_atomic {E A} (f : E -> RpcError) (m : io S E A) st Q :
  atomic m (rpc_storage st) Q ->
  atomic (on_storage f m) st (fun a st' => Q a (rpc_storage st') /\ only_storage st st').
Proof.
  unfold atomic, on_storage. cbn [run_io]. destruct (run_io m (rpc_storage st)) as [[a|e|] s'];
    cbn; [done|intros ->; by destruct st|done].
Qed.

Lemma get_account_contained L st a f :
  represents (contents (rpc_storage st)) L ->
  contained (on_storage f (get_account a)) st (fun o => o = led_accounts L !! a).
Proof.
  intros P. apply on_storage_contained. exists (Ok (led_accounts L !! a)).
  split; [apply (run_load_table RAccount _ _ a I (rep_accounts _ _ P))|].
  split; [done|]. by intros ? [= <-].
Qed.

(** A call, whatever its target. *)
Lemma execute_atomic s L ctx method params fuel :
  represents (contents s) L -> atomic (execute_contract_call ctx method params fuel) s (committed L ctx).
Proof.
  intros P. destruct (led_contracts L !! ctx_contract_address ctx) as [c|] eqn:Ec.
  - apply execute_result; [done|]. by apply (rep_addressed _ _ P); eexists.
  - unfold execute_contract_call. destruct (is_blank _); [done|].
    unfold atomic. rewrite run_bind, (get_contract_run s L P), Ec. done.
Qed.

Lemma check_by_type_atomic L st tx :
  represents (contents (rpc_storage st)) L -> wf tx ->
  atomic (check_by_type tx (led_accounts L !! tx_from tx)) st (fun _ st' =>
    type_rules tx (led_accounts L !! tx_from tx) /\ checked_storage L tx st st').
Proof.
  intros P W. assert (0 <= tx_amount tx /\ 0 <= tx_fee tx) as [A F] by (split; apply W).
  set (account := led_accounts L !! tx_from tx).
  assert (forall (r : outcome RpcError unit) (P : Prop), r <> Panic -> (r = Ok tt <-> P) ->
    match tx_type tx with CallContract => False | _ => True end ->
    (P -> type_rules tx account) ->
    atomic (lift r) st (fun _ st' => type_rules tx account /\ checked_storage L tx st st')) as G.
  { intros r Q N E T I. unfold atomic. rewrite run_lift. destruct r as [[]|e|]; [|done|done].
    split; [apply I; tauto|]. unfold checked_storage, only_storage. by destruct (tx_type tx). }
  pose proof (balance_Ok tx account A F) as B. pose proof (balance_not_Panic tx account) as NB.
  assert (map_err (fun e => ValidationError (Rejection.Invalid e))
    (validate_transaction_balance tx account) = Ok tt <-> validate_transaction_balance tx account = Ok tt)
    as M by apply map_err_Ok.
  rewrite B in M.
  unfold check_by_type. destruct (tx_type tx) eqn:T.
  1,2,4,5: by eapply G; [by apply map_err_not_Panic|exact M| |unfold type_rules; rewrite T].
  - by eapply G; [apply check_fee_not_Panic|apply check_fee_Ok| |unfold type_rules; rewrite T].
  - by eapply G; [apply check_deploy_not_Panic|apply check_deploy_Ok| |unfold type_rules; rewrite T].
  - eapply atomic_bind; [apply contained_lift; [apply check_call_not_Panic|intros p E; exact E]|].
    intros payload R%check_call_Ok. unfold run_call.
    eapply atomic_then; [by apply on_storage_atomic, execute_atomic|].
    intros out st1 [C O]. exists tt, st1. split; [done|]. split; [|split; [done|rewrite T; by exists out]].
    unfold type_rules. rewrite T. destruct R as (R1 & R2 & R3 & b & R4). eauto 10.
Qed.

Lemma pool_add_run st tx : routed (rpc_mempool st) -> exists st',
  run_io (pool_add tx) st = (Ok tt, st') /\ rpc_storage st' = rpc_storage st /\
  rpc_limiter st' = rpc_limiter st /\ routed (rpc_mempool st') /\ pending st' ≡ₚ tx :: pending st.
Proof.
  intros R. destruct (add_transaction_routed (E := RpcError) (rpc_mempool st) tx R) as (m & E & R' & _).
  unfold pool_add. cbn [run_io]. rewrite E. eexists. split; [done|]. split; [done|].
  split; [done|]. split; [done|]. by apply (add_transaction_pending (E := RpcError)).
Qed.

Lemma pool_len_run st : run_io pool_len st = (Ok (Z.of_nat (length (pending st))), st).
Proof. unfold pool_len, pending. cbn [run_io]. by rewrite mempool_len_pending, pending_concat. Qed.

Lemma hash_transaction_size {E} tx b : bincode_serialize tx = Ok b ->
  hash_transaction (E := E) tx = Ok (sha256 b).
Proof. unfold hash_transaction. by intros ->. Qed.

(** After its parameter has been decoded. *)
Lemma send_decoded L st tx hex b :
  represents (contents (rpc_storage st)) L -> routed (rpc_mempool st) ->
  decode_hex hex "hex_tx" = Ok b -> bincode_deserialize b = Ok tx -> wf tx ->
  atomic (send_transaction hex) st (accepted L tx st).
Proof.
  intros P R Eh Eb W. unfold send_transaction, atomic. rewrite run_bind, run_lift, Eh.
  rewrite run_bind, run_lift, Eb. cbn [map_err].
  match goal with |- context [run_io ?k st] => change (atomic k st (accepted L tx st)) end.
  eapply atomic_bind; [apply contained_lift;
    [by apply map_err_not_Panic, size_not_Panic|intros u Sz; exact Sz]|].
  intros [] (enc & Ee & Sz)%map_err_Ok%validate_transaction_size_Ok.
  destruct (Nat.eqb_spec (length (tx_from tx)) 32) as [K|]; cbn [negb]; [|done].
  eapply atomic_bind; [apply contained_lift;
    [by apply map_err_not_Panic, verify_not_Panic|intros v Ev; exact Ev]|].
  intros [|] V%map_err_Ok; cbn [negb]; [|done].
  eapply atomic_bind; [by apply get_account_contained|]. intros account ->.
  eapply atomic_bind; [apply contained_lift; [apply map_err_not_Panic|intros u N; exact N]|].
  { unfold validate_transaction_nonce. by repeat case_match. }
  intros [] N%map_err_Ok. rewrite nonce_Ok in N.
  eapply atomic_then; [by apply check_by_type_atomic|].
  intros _ st1 (T & [Om Ol] & C).
  rewrite run_bind, run_lift, (hash_transaction_size tx enc Ee).
  assert (routed (rpc_mempool st1)) as R1 by by rewrite Om.
  destruct (pool_add_run st1 tx R1) as (st2 & E2 & S2 & L2 & R2 & P2).
  rewrite run_bind, E2, run_bind, pool_len_run, run_ret. eexists _, st2. split; [done|].
  split; try done; [by split; eauto| |by rewrite P2; unfold pending; rewrite Om|congruence|].
  - exists (sha256 enc). split; [by apply hash_transaction_size|done].
  - destruct (tx_type tx); congruence || (by rewrite S2).
Qed.

(** Any parameter. *)
Lemma send_atomic L st hex :
  represents (contents (rpc_storage st)) L -> routed (rpc_mempool st) -> vec_ok hex ->
  atomic (send_transaction hex) st (fun resp st' => exists b tx,
    decode_hex hex "hex_tx" = Ok b /\ bincode_deserialize b = Ok tx /\ wf tx /\
    accepted L tx st resp st').
Proof.
  intros P R V. destruct (decode_hex hex "hex_tx") as [b|e|] eqn:Eh.
  - destruct (bincode_deserialize (A := Transaction) b) as [tx|e|] eqn:Eb.
    + assert (wf tx) as W by (eapply bincode_decoded; [by eapply decode_hex_vec|done]).
      pose proof (send_decoded L st tx hex b P R Eh Eb W) as D. unfold atomic in *.
      destruct (run_io (send_transaction hex) st) as [[resp|e|] st']; [|done|done]. by exists b, tx.
    + unfold atomic, send_transaction. by rewrite run_bind, run_lift, Eh, run_bind, run_lift, Eb.
    + by apply bincode_no_panic in Eb.
  - unfold atomic, send_transaction. by rewrite run_bind, run_lift, Eh.
  - by apply decode_hex_not_Panic in Eh.
Qed.

Lemma check_by_type_pass st tx account :
  wf tx -> type_rules tx account -> tx_type tx <> CallContract ->
  run_io (check_by_type tx account) st = (Ok tt, st).
Proof.
  intros W. assert (0 <= tx_amount tx /\ 0 <= tx_fee tx) as [A F] by (split; apply W).
  unfold type_rules, check_by_type. destruct (tx_type tx); intros T N; try done.
  1,2,4,5: by rewrite (proj2 (balance_Ok tx account A F) T).
  - by rewrite (proj2 (check_fee_Ok tx account) T).
  - by rewrite (proj2 (check_deploy_Ok tx account) T).
Qed.

(** An admissible transaction other than a call is accepted. *)
Lemma send_admissible L st tx hex b :
  represents (contents (rpc_storage st)) L -> routed (rpc_mempool st) ->
  decode_hex hex "hex_tx" = Ok b -> bincode_deserialize b = Ok tx -> wf tx ->
  admissible tx (led_accounts L !! tx_from tx) -> tx_type tx <> CallContract -> exists resp st',
    run_io (send_transaction hex) st = (Ok resp, st').
Proof.
  intros P R Eh Eb W [Sz K V N T] NC. unfold send_transaction.
  rewrite run_bind, run_lift, Eh, run_bind, run_lift, Eb. cbn [map_err].
  pose proof Sz as Sz'. apply validate_transaction_size_Ok in Sz' as ->.
  rewrite run_bind, run_lift. cbn [map_err]. rewrite K. cbn [Nat.eqb negb].
  rewrite run_bind, run_lift, V. cbn [map_err negb].
  rewrite run_bind, (run_on_storage_read _ _ st (Ok (led_accounts L !! tx_from tx)))
    by apply (run_load_table RAccount _ _ (tx_from tx) I (rep_accounts _ _ P)).
  cbn [map_err]. rewrite run_bind, run_lift, (proj2 (nonce_Ok tx _) N). cbn [map_err].
  rewrite run_bind, (check_by_type_pass st tx _ W T NC).
  destruct Sz as (enc & Ee & _). rewrite run_bind, run_lift, (hash_transaction_size tx enc Ee).
  destruct (pool_add_run st tx R) as (st2 & E2 & _). rewrite run_bind, E2.
  rewrite run_bind, pool_len_run, run_ret. by eexists _, _.
Qed.

Lemma batch_accounts a w L :
  led_accounts (run_io (spec (CommitContractStorageBatch a w)) L).2 = led_accounts L.
Proof.
  cbn [spec]. case_bool_decide; [done|]. rewrite run_bind, require_spec.
  by destruct (led_contracts L !! a).
Qed.

(** The accounts after an accepted submission are those before. *)
Lemma accepted_accounts L tx st resp st' :
  represents (contents (rpc_storage st)) L -> accepted L tx st resp st' -> exists L',
    represents (contents (rpc_storage st')) L' /\ led_accounts L' = led_accounts L.
Proof.
  intros P A. pose proof (acc_storage _ _ _ _ _ A) as C. destruct (tx_type tx).
  1-6: exists L; by rewrite C.
  destruct C as (out & L' & P' & C). destruct (call_writes _ _ _ _ C) as [w E].
  exists L'. split; [done|]. subst L'. apply batch_accounts.
Qed.
End submission.

(** ** Reading whole tables *)

Lemma Forall_choose {A B} (R : A -> B -> Prop) l :
  Forall (fun a => exists b, R a b) l -> exists k, Forall2 R l k.
Proof.
  induction 1 as [|a l [b r] _ [k F]]; [by exists []|]. exists (b :: k). by constructor.
Qed.

Section scan.
Context {K A : Type} `{Countable K, BincodeOk A} (R : K -> record_id) `{!Inj (=) (=) R}.
Context (prefix : bytes).
Context (own : forall k, starts_with (record_key (R k)) prefix = true).
Context (alone : forall r, record_ok r -> starts_with (record_key r) prefix = true ->
  exists k, r = R k).

(** An entry of the store and the entry of the table it stands for. *)
Definition stands_for (kv : bytes * bytes) (kx : K * A) : Prop :=
  kv.1 = record_key (R kx.1) /\ bincode_serialize kx.2 = Ok kv.2 /\ wf kx.2 /\ record_ok (R kx.1).

(** The entries under the prefix are the table. *)
Lemma records_under m (t : gmap K A) : known m -> table R m t -> exists l,
  Forall2 stands_for (filter (fun kv => starts_with kv.1 prefix = true) (entries m)) l /\
  NoDup l.*1 /\ forall k x, (k, x) ∈ l <-> record_ok (R k) /\ t !! k = Some x.
Proof.
  intros N T. set (F := filter _ (entries m)).
  assert (Forall (fun kv => exists kx, stands_for kv kx /\ t !! kx.1 = Some kx.2) F) as Ex.
  { apply Forall_forall. intros [k v] [P E%entries_elem]%list_elem_of_filter. cbn [fst] in P.
    destruct (N k) as (r & W & ->); [by eexists|]. destruct (alone r W P) as [k' ->].
    pose proof (T k' W) as Tk. destruct (t !! k') as [x|] eqn:Et; [|congruence].
    destruct Tk as (Wx & b & Eb & Es). exists (k', x). rewrite E in Eb. injection Eb as <-.
    by repeat split. }
  destruct (Forall_choose _ _ Ex) as [l F2]. exists l.
  assert (F.*1 = record_key ∘ R <$> l.*1) as EF.
  { clear -F2. induction F2 as [|kv kx F l [[E _] _] _ IH]; [done|].
    rewrite !fmap_cons, IH. by rewrite E. }
  split; [by eapply Forall2_impl; [exact F2|intros ? ? [? ?]]|]. split.
  { apply (NoDup_fmap_1 (record_key ∘ R)). rewrite <- EF. apply NoDup_fmap_filter, entries_NoDup. }
  intros k x. split.
  - intros (i & I)%list_elem_of_lookup. destruct (Forall2_lookup_r _ _ _ _ _ F2 I) as (kv & _ & St & Et).
    split; [apply St|exact Et].
  - intros [W Et]. pose proof (T k W) as Tk. rewrite Et in Tk. destruct Tk as (_ & b & Eb & _).
    assert ((record_key (R k), b) ∈ F) as M
      by (apply list_elem_of_filter; split; [apply own|by apply entries_elem]).
    apply list_elem_of_lookup in M as [i I].
    destruct (Forall2_lookup_l _ _ _ _ _ F2 I) as ([k' x'] & I' & (Ek & _ & _ & W') & Et').
    cbn [fst snd] in *. apply record_key_inj in Ek; [|done..]. apply (inj R) in Ek as <-.
    rewrite Et in Et'. injection Et' as <-. by eapply list_elem_of_lookup_2.
Qed.

(** When every key is a record, the entries are those of the map. *)
Lemma records_perm (t : gmap K A) l :
  NoDup l.*1 -> (forall k, record_ok (R k)) ->
  (forall k x, (k, x) ∈ l <-> record_ok (R k) /\ t !! k = Some x) -> l ≡ₚ map_to_list t.
Proof.
  intros ND W E. apply NoDup_Permutation; [by eapply NoDup_fmap_1|apply NoDup_map_to_list|].
  intros [k x]. rewrite E, elem_of_map_to_list. split; [tauto|by split].
Qed.
End scan.

(** The prefix of a kind of record is its own. *)
Ltac solve_alone :=
  let W := fresh in let P := fresh in
  intros [] W P; try (eexists; reflexivity); exfalso;
  repeat match goal with o : option Z |- _ => destruct o end; vm_compute in P; discriminate P.

(** ** The queries *)

Lemma dedup_NoDup {A} `{EqDecision A} (l : list A) : NoDup l -> dedup l = l.
Proof.
  induction 1 as [|x l N ND IH]; [done|]. destruct l as [|y l]; [done|].
  change (dedup (x :: y :: l)) with (if decide (x = y) then dedup (y :: l) else x :: dedup (y :: l)).
  rewrite decide_False by (intros ->; apply N; left). by rewrite IH.
Qed.

Lemma parse_block_key h : u64 h -> parse_block_height_key (block_key h) = Some h.
Proof.
  intros U. unfold parse_block_height_key.
  rewrite utf8_valid_ascii
    by (apply Forall_app; split; [by repeat constructor|apply dec_bytes_ascii]).
  rewrite (proj2 (strip_prefix_Some _ _ (dec_bytes h))) by done.
  cbn [mbind option_bind]. by apply parse_dec.
Qed.

(** [latest] is the greatest of [heights]. *)
Definition greatest (latest : option Z) (heights : list Z) : Prop :=
  match latest with
  | Some h => h ∈ heights /\ Forall (fun h' => h' <= h) heights
  | None => heights = []
  end.

Lemma latest_step_greatest latest heights h key v :
  u64 h -> key = block_key h -> greatest latest heights ->
  greatest (latest_step latest (key, v)) (heights ++ [h]).
Proof.
  intros U -> G. unfold latest_step. cbn [fst]. rewrite parse_block_key by done.
  destruct latest as [c|]; cbn [greatest] in *.
  - destruct G as [I F]. split.
    + apply elem_of_app. destruct (Z.max_spec c h) as [[_ ->]|[_ ->]]; [right; set_solver|by left].
    + apply Forall_app. split; [eapply Forall_impl; [exact F|]; intros; cbn in *; lia|].
      repeat constructor. lia.
  - subst heights. split; [set_solver|]. by repeat constructor.
Qed.

Section queries.
Context {S : Type} `{KvStoreOk S, Sha256Ok, ChainCodecsOk, HexOk, RateLimiter}.
Context `{!Bincode ViewableNote, !BincodeOk ViewableNote, !Bincode Hash32, !BincodeOk Hash32}.
Implicit Types (st : RpcState S) (L : Ledger).

Lemma decode_validators_Ok F l :
  Forall2 (stands_for (A := Validator) RStake) F l -> decode_validators F = Ok l.*2.
Proof.
  induction 1 as [|kv [a v] F l (_ & E & W & _) _ IH]; [done|]. cbn [decode_validators].
  rewrite (bincode_roundtrip v _ W E), IH. done.
Qed.

Lemma run_load_validators st L : represents (contents (rpc_storage st)) L -> exists vs,
  run_io load_validators st = (Ok vs, st) /\ vs ≡ₚ (map_to_list (led_validators L)).*2.
Proof.
  intros P. destruct (records_under (A := Validator) RStake STAKE_PREFIX (fun k => starts_with_app _ _) ltac:(solve_alone)
    _ _ (rep_known _ _ P) (rep_validators _ _ P)) as (l & F2 & ND & E).
  exists l.*2. split; [|by rewrite (records_perm RStake _ l ND (fun _ => I) E)].
  unfold load_validators. rewrite run_bind, (run_on_storage_read _ _ st _ (run_iter _ _)).
  cbn [map_err]. by rewrite run_lift, (decode_validators_Ok _ l F2).
Qed.

Lemma run_load_notes st L : represents (contents (rpc_storage st)) L -> exists cs,
  run_io load_note_commitments st = (Ok cs, st) /\
  cs ≡ₚ encode_hex <$> (map_to_list (led_notes L)).*1 /\ NoDup cs /\
  StronglySorted (fun x y => bytes_cmp x y <> Gt) cs.
Proof.
  intros P. destruct (records_under (A := ViewableNote) RNote ANON_NOTE_PREFIX (fun k => starts_with_app _ _) ltac:(solve_alone)
    _ _ (rep_known _ _ P) (rep_notes _ _ P)) as (l & F2 & ND & E).
  set (cs := encode_hex <$> l.*1). assert (NoDup cs) as NDc by (by apply NoDup_fmap_2; [apply _|]).
  exists (sort_by bytes_cmp cs).
  assert (NoDup (sort_by bytes_cmp cs)) as NDs by by rewrite sort_by_perm.
  split; [|split; [|split; [done|apply sort_by_sorted; apply _]]].
  - unfold load_note_commitments. rewrite run_bind, (run_on_storage_read _ _ st _ (run_iter _ _)).
    cbn [map_err]. rewrite run_ret.
    assert (omap (fun kv : bytes * bytes => encode_hex <$> strip_prefix ANON_NOTE_PREFIX kv.1)
      (filter (fun kv : bytes * bytes => starts_with kv.1 ANON_NOTE_PREFIX = true)
         (entries (contents (rpc_storage st)))) = cs) as ->.
    { unfold cs. clear -F2. induction F2 as [|kv kx F l [Ek _] _ IH]; [done|].
      cbn [omap list_omap]. rewrite Ek. cbn [record_key].
      rewrite (proj2 (strip_prefix_Some _ _ kx.1)) by done. cbn [fmap option_fmap option_map].
      rewrite !fmap_cons. by rewrite <- IH. }
    by rewrite dedup_NoDup.
  - rewrite sort_by_perm. unfold cs. by rewrite (records_perm RNote _ l ND (fun _ => I) E).
Qed.

Lemma run_latest st L : represents (contents (rpc_storage st)) L -> exists latest hs,
  run_io latest_block_height st = (Ok latest, st) /\ greatest latest hs /\
  forall h, h ∈ hs <-> u64 h /\ is_Some (led_blocks L !! h).
Proof.
  intros P. destruct (records_under (A := Block) RBlock BLOCK_PREFIX (fun k => starts_with_app _ _) ltac:(solve_alone)
    _ _ (rep_known _ _ P) (rep_blocks _ _ P)) as (l & F2 & ND & E).
  exists (foldl latest_step None (filter (fun kv => starts_with kv.1 BLOCK_PREFIX = true)
    (entries (contents (rpc_storage st))))), l.*1. split; [|split].
  - unfold latest_block_height. by rewrite run_bind, (run_on_storage_read _ _ st _ (run_iter _ _)).
  - clear -F2. revert l F2. set (F := filter _ _). clearbody F.
    induction F as [|[k v] F IH] using rev_ind; intros l F2.
    { by apply Forall2_nil_inv_l in F2 as ->. }
    apply Forall2_app_inv_l in F2 as (l1 & l2 & F1 & F2 & ->).
    apply Forall2_cons_inv_l in F2 as ([h b] & l3 & (Ek & _ & _ & U) & F3 & ->).
    apply Forall2_nil_inv_l in F3 as ->. rewrite foldl_snoc, fmap_app.
    by apply latest_step_greatest; [apply U| |apply IH].
  - intros h. rewrite list_elem_of_fmap. split.
    + intros ([h' b] & -> & I%E). split; [apply I|]. eexists. apply I.
    + intros [U [b Eb]]. exists (h, b). split; [done|]. by apply E.
Qed.

(** The view of a stored block. *)
Definition block_view (b : Block) : option RpcBlockResponse :=
  match block_to_rpc b with Ok view => Some view | _ => None end.

Lemma block_to_rpc_Ok b : wf b -> exists view,
  block_to_rpc b = Ok view /\ hash_block_header (E := RpcError) (blk_header b) = Ok (sha256 (default []
    match bincode_serialize (blk_header b) with Ok e => Some e | _ => None end)).
Proof.
  intros (W & _). destruct (bincode_total _ W) as [e E].
  unfold block_to_rpc, hash_block_header. rewrite E. by eexists.
Qed.

Lemma run_get_block st L f h :
  represents (contents (rpc_storage st)) L -> u64 h ->
  run_io (on_storage f (get_block h)) st = (Ok (led_blocks L !! h), st).
Proof.
  intros P U. rewrite (run_on_storage_read _ _ st (Ok (led_blocks L !! h))); [done|].
  by apply (run_load_table RBlock), (rep_blocks _ _ P).
Qed.

(** Loading a block and viewing it. *)
Lemma run_block_view st L f h :
  represents (contents (rpc_storage st)) L -> u64 h ->
  run_io (block ← on_storage f (get_block h);
          match block with
          | Some b => view ← lift (block_to_rpc b); mret (Some view)
          | None => mret None
          end) st = (Ok (led_blocks L !! h ≫= block_view), st).
Proof.
  intros P U. rewrite run_bind, (run_get_block st L f h P U).
  destruct (led_blocks L !! h) as [b|] eqn:Eb; [|done].
  pose proof (table_wf RBlock _ _ h b U (rep_blocks _ _ P) Eb) as W.
  destruct (block_to_rpc_Ok b W) as (view & E & _). unfold block_view. rewrite E.
  rewrite run_bind, run_lift, run_ret. cbn [mbind option_bind]. by rewrite E.
Qed.

(** A query by height, and one by hash. *)
Lemma run_query_height st L h :
  represents (contents (rpc_storage st)) L -> u64 h ->
  run_io (get_block_rpc {| gb_height := Some h; gb_hash := None |}) st =
  (Ok (led_blocks L !! h ≫= block_view), st).
Proof. intros P U. unfold get_block_rpc. cbn [gb_height gb_hash]. by apply run_block_view. Qed.

Lemma run_query_hash st L text hash :
  represents (contents (rpc_storage st)) L -> decode_hex text "hash" = Ok hash ->
  run_io (get_block_rpc {| gb_height := None; gb_hash := Some text |}) st =
  (Ok (led_heights L !! hash ≫= fun h => led_blocks L !! h ≫= block_view), st).
Proof.
  intros P E. unfold get_block_rpc. cbn [gb_height gb_hash]. rewrite run_bind, run_lift, E.
  rewrite run_bind, (run_on_storage_read _ _ st _ (run_get _ _)). cbn [map_err].
  pose proof (rep_heights _ _ P hash I) as T. cbn [record_key] in T.
  destruct (led_heights L !! hash) as [h|].
  - destruct T as (U & b & -> & Es). rewrite run_bind, run_lift, (bincode_roundtrip h b U Es).
    cbn [map_err]. by apply run_block_view.
  - by rewrite T.
Qed.

Lemma run_get_transaction st L text hash :
  represents (contents (rpc_storage st)) L -> decode_hex text "hash" = Ok hash ->
  run_io (get_transaction_rpc text) st =
  (match led_transactions L !! hash with
   | Some tx => h ← hash_transaction tx;
                Ok (Some {| tr_hash := encode_hex h; tr_transaction := transaction_to_rpc tx |})
   | None => Ok None
   end, st).
Proof.
  intros P E. unfold get_transaction_rpc. rewrite run_bind, run_lift, E.
  rewrite run_bind, (run_on_storage_read _ _ st (Ok (led_transactions L !! hash)))
    by apply (run_load_table RTransaction _ _ hash I (rep_transactions _ _ P)).
  cbn [map_err]. destruct (led_transactions L !! hash) as [tx|] eqn:Et; [|done].
  rewrite run_bind, run_lift. by destruct (hash_transaction tx).
Qed.

Lemma run_get_balance st L text a :
  represents (contents (rpc_storage st)) L -> decode_hex text "address" = Ok a ->
  run_io (get_balance text) st =
  (Ok (match led_accounts L !! a with
       | Some account => account_to_rpc a account
       | None => {| bal_address := encode_hex a; bal_found := false; bal_balance := 0;
                    bal_nonce := 0; bal_note_commitment_count := 0 |}
       end), st).
Proof.
  intros P E. unfold get_balance. rewrite run_bind, run_lift, E.
  rewrite run_bind, (run_on_storage_read _ _ st (Ok (led_accounts L !! a)))
    by apply (run_load_table RAccount _ _ a I (rep_accounts _ _ P)).
  cbn [map_err]. by destruct (led_accounts L !! a).
Qed.

(** Every query leaves the node alone. *)
Lemma get_block_contained st L query :
  represents (contents (rpc_storage st)) L -> (forall h, gb_height query = Some h -> u64 h) ->
  contained (get_block_rpc query) st (fun _ => True).
Proof.
  intros P U. destruct query as [[h|] [text|]]; cbn [gb_height] in U.
  - by eexists.
  - eexists. split; [apply (run_query_height st L h P), (U h eq_refl)|done].
  - destruct (decode_hex text "hash") as [hash|e|] eqn:E.
    + eexists. split; [by apply (run_query_hash st L text hash P)|done].
    + exists (Err e). unfold get_block_rpc. cbn [gb_height gb_hash]. by rewrite run_bind, run_lift, E.
    + by apply decode_hex_not_Panic in E.
  - by eexists.
Qed.

Lemma get_transaction_contained st L text :
  represents (contents (rpc_storage st)) L ->
  contained (get_transaction_rpc text) st (fun _ => True).
Proof.
  intros P. destruct (decode_hex text "hash") as [hash|e|] eqn:E.
  - eexists. split; [by apply (run_get_transaction st L text hash P)|]. split; [|done].
    destruct (led_transactions L !! hash) as [tx|] eqn:Et; [|done].
    pose proof (table_wf RTransaction _ _ hash tx I (rep_transactions _ _ P) Et) as W.
    destruct (bincode_total tx W) as [b Eb]. by rewrite (hash_transaction_size tx b Eb).
  - exists (Err e). unfold get_transaction_rpc. by rewrite run_bind, run_lift, E.
  - by apply decode_hex_not_Panic in E.
Qed.

Lemma get_balance_contained st L text :
  represents (contents (rpc_storage st)) L -> contained (get_balance text) st (fun _ => True).
Proof.
  intros P. destruct (decode_hex text "address") as [a|e|] eqn:E.
  - eexists. split; [by apply (run_get_balance st L text a P)|done].
  - exists (Err e). unfold get_balance. by rewrite run_bind, run_lift, E.
  - by apply decode_hex_not_Panic in E.
Qed.

Lemma run_get_info st L : represents (contents (rpc_storage st)) L -> exists latest hs,
  run_io get_info st = (Ok {|
    info_name := bytes_of "Prims"; info_rpc_version := bytes_of "0.1";
    info_storage_backend := storage_kind; info_latest_block_height := latest;
    info_mempool_size := Z.of_nat (length (pending st));
    info_validator_count := Z.of_nat (size (led_validators L));
    info_note_commitment_count := Z.of_nat (size (led_notes L)) |}, st) /\
  greatest latest hs /\ forall h, h ∈ hs <-> u64 h /\ is_Some (led_blocks L !! h).
Proof.
  intros P. destruct (run_latest st L P) as (latest & hs & El & G & M).
  destruct (run_load_validators st L P) as (vs & Ev & Pv).
  destruct (run_load_notes st L P) as (cs & Ec & Pc & _).
  exists latest, hs. split; [|done]. unfold get_info.
  rewrite run_bind, El, run_bind, Ev, run_bind, Ec, run_bind, pool_len_run, run_ret.
  by rewrite Pv, Pc, !length_fmap, !length_map_to_list.
Qed.

Lemma run_get_validators st L : represents (contents (rpc_storage st)) L -> exists vs,
  run_io get_validators st = (Ok (validator_to_rpc <$> vs), st) /\
  vs ≡ₚ (map_to_list (led_validators L)).*2 /\
  StronglySorted (fun x y => bytes_cmp (val_address x) (val_address y) <> Gt) vs.
Proof.
  intros P. destruct (run_load_validators st L P) as (vs & Ev & Pv).
  exists (sort_by (cmp_on val_address bytes_cmp) vs). unfold get_validators.
  split; [by rewrite run_bind, Ev|]. split; [by rewrite sort_by_perm|].
  apply (sort_by_sorted (cmp_on val_address bytes_cmp)).
Qed.
End queries.

(** ** Properties *)

Section properties.
Context {S : Type} `{KvStoreOk S, Sha256Ok, Ed25519, ChainCodecsOk, HexOk, RateLimiter}.
Context `{!Bincode ViewableNote, !BincodeOk ViewableNote, !Bincode Hash32, !BincodeOk Hash32}.
Context `{!BincodeTyped Transaction, !BincodeTyped ContractCallPayload, !Wasmtime, !WasmtimeOk}.

Lemma send_iff L (st : RpcState S) tx b prefix :
  represents (contents (rpc_storage st)) L -> routed (rpc_mempool st) ->
  wf tx -> bincode_serialize tx = Ok b -> vec_ok (prefix ++ encode_hex b) ->
  prefix = [] \/ prefix = bytes_of "0x" -> tx_type tx <> CallContract ->
  is_ok (run_io (send_transaction (prefix ++ encode_hex b)) st).1 = true <->
  admissible tx (led_accounts L !! tx_from tx).
Proof.
  intros P R W Eb V Px N. pose proof (decode_hex_encode b "hex_tx" prefix Px) as D.
  pose proof (bincode_roundtrip tx b W Eb) as Dt. split.
  - intros O. pose proof (send_atomic L st _ P R V) as A. unfold atomic in A.
    destruct (run_io _ st) as [[resp|e|] st']; [|done..].
    destruct A as (b' & tx' & D' & Dt' & _ & Ac). rewrite D in D'. injection D' as <-.
    rewrite Dt in Dt'. injection Dt' as <-. apply Ac.
  - intros A. by destruct (send_admissible L st tx _ b P R D Dt W A N) as (resp & st' & ->).
Qed.

(** [C9] What a submission can do, whatever text the client
    sends: it never panics the node; a refusal changes nothing, not even in
    the storage, for any reason including a failed contract call; an
    acceptance means that the text is a transaction satisfying every rule of
    its type against the sender's account, adds exactly that transaction to
    the pool, answers its hash and the new size, and leaves the storage as it
    was except for the writes of a contract call that ran to its end. *)
Theorem submission_effect L (st : RpcState S) hex_tx r st' :
  represents (contents (rpc_storage st)) L -> routed (rpc_mempool st) -> vec_ok hex_tx ->
  run_io (send_transaction hex_tx) st = (r, st') ->
  match r with
  | Ok resp => exists b tx,
      decode_hex hex_tx "hex_tx" = Ok b /\ bincode_deserialize b = Ok tx /\ wf tx /\
      accepted L tx st resp st'
  | Err _ => st' = st
  | Panic => False
  end.
Proof.
  intros P R V E. pose proof (send_atomic L st hex_tx P R V) as A. unfold atomic in A.
  rewrite E in A. by destruct r.
Qed.

(** [C20] A well-formed transaction other than a contract call,
    sent in hexadecimal with or without the prefix 0x, is accepted exactly
    when it is admissible: smaller than the limit, from a 32-byte key that
    signed it, with a fresh nonce, and satisfying the rules of its type. *)
Theorem submission_iff L (st : RpcState S) tx b prefix :
  represents (contents (rpc_storage st)) L -> routed (rpc_mempool st) ->
  wf tx -> bincode_serialize tx = Ok b -> vec_ok (prefix ++ encode_hex b) ->
  prefix = [] \/ prefix = bytes_of "0x" -> tx_type tx <> CallContract ->
  is_ok (run_io (send_transaction (prefix ++ encode_hex b)) st).1 = true <->
  admissible tx (led_accounts L !! tx_from tx).
Proof. by apply send_iff. Qed.

(** Accepting a transaction records nothing against
    its sender: the accounts are unchanged, so no fee is paid and no nonce is
    used, and the transaction is still admissible. The same text can be
    submitted again and is accepted again, and the pool then holds the
    transaction twice. *)
Theorem submission_not_recorded L (st : RpcState S) hex_tx resp st' :
  represents (contents (rpc_storage st)) L -> routed (rpc_mempool st) -> vec_ok hex_tx ->
  run_io (send_transaction hex_tx) st = (Ok resp, st') -> exists tx L',
    represents (contents (rpc_storage st')) L' /\ led_accounts L' = led_accounts L /\
    admissible tx (led_accounts L' !! tx_from tx) /\ pending st' ≡ₚ tx :: pending st /\
    (tx_type tx <> CallContract -> exists resp2 st2,
       run_io (send_transaction hex_tx) st' = (Ok resp2, st2) /\
       pending st2 ≡ₚ tx :: tx :: pending st).
Proof.
  intros P R V E. pose proof (send_atomic L st hex_tx P R V) as A. unfold atomic in A.
  rewrite E in A. destruct A as (b & tx & D & Dt & W & A).
  destruct (accepted_accounts L tx st resp st' P A) as (L' & P' & EL).
  pose proof (acc_admissible _ _ _ _ _ A) as Ad. pose proof (acc_pending _ _ _ _ _ A) as Pe.
  assert (routed (rpc_mempool st')) as R' by apply A.
  exists tx, L'. rewrite EL. split; [done|]. split; [done|]. split; [done|]. split; [done|]. intros N.
  assert (admissible tx (led_accounts L' !! tx_from tx)) as Ad' by by rewrite EL.
  destruct (send_admissible L' st' tx hex_tx b P' R' D Dt W Ad' N) as (resp2 & st2 & E2).
  exists resp2, st2. split; [done|]. pose proof (send_atomic L' st' hex_tx P' R' V) as A2.
  unfold atomic in A2. rewrite E2 in A2. destruct A2 as (b2 & tx2 & D2 & Dt2 & _ & A2).
  rewrite D in D2. injection D2 as <-. rewrite Dt in Dt2. injection Dt2 as <-.
  rewrite (acc_pending _ _ _ _ _ A2). by rewrite Pe.
Qed.

(** The queries over whole tables report the ledger:
    the latest height is the greatest height of a stored block (none for an
    empty chain), the counts are the numbers of pooled transactions,
    validators and notes, the validators are all listed in the order of their
    addresses, and the note commitments once each, in order. *)
Theorem chain_summary_exact L (st : RpcState S) :
  represents (contents (rpc_storage st)) L -> exists latest heights vs cs,
    run_io get_info st = (Ok {|
      info_name := bytes_of "Prims"; info_rpc_version := bytes_of "0.1";
      info_storage_backend := storage_kind; info_latest_block_height := latest;
      info_mempool_size := Z.of_nat (length (pending st));
      info_validator_count := Z.of_nat (size (led_validators L));
      info_note_commitment_count := Z.of_nat (size (led_notes L)) |}, st) /\
    greatest latest heights /\
    (forall h, h ∈ heights <-> u64 h /\ is_Some (led_blocks L !! h)) /\
    run_io get_validators st = (Ok (validator_to_rpc <$> vs), st) /\
    vs ≡ₚ (map_to_list (led_validators L)).*2 /\
    StronglySorted (fun x y => bytes_cmp (val_address x) (val_address y) <> Gt) vs /\
    run_io get_note_commitments st = (Ok cs, st) /\
    cs ≡ₚ encode_hex <$> (map_to_list (led_notes L)).*1 /\ NoDup cs /\
    StronglySorted (fun x y => bytes_cmp x y <> Gt) cs.
Proof.
  intros P. destruct (run_get_info st L P) as (latest & hs & Ei & G & M).
  destruct (run_get_validators st L P) as (vs & Ev & Pv & Sv).
  destruct (run_load_notes st L P) as (cs & Ec & Pc & Nc & Sc).
  by exists latest, hs, vs, cs.
Qed.

(** The queries for one record answer from the
    ledger, in hexadecimal with or without the prefix 0x: an account with its
    balance and nonce or the empty answer, a transaction under its hash, a
    block at its height, and by hash the block at the height indexed under
    that hash. *)
Theorem lookups_answer_ledger L (st : RpcState S) prefix x h :
  represents (contents (rpc_storage st)) L -> prefix = [] \/ prefix = bytes_of "0x" -> u64 h ->
  run_io (get_balance (prefix ++ encode_hex x)) st =
    (Ok (match led_accounts L !! x with
         | Some account => account_to_rpc x account
         | None => {| bal_address := encode_hex x; bal_found := false; bal_balance := 0;
                      bal_nonce := 0; bal_note_commitment_count := 0 |}
         end), st) /\
  run_io (get_transaction_rpc (prefix ++ encode_hex x)) st =
    (match led_transactions L !! x with
     | Some tx => tx_hash ← hash_transaction tx;
                  Ok (Some {| tr_hash := encode_hex tx_hash; tr_transaction := transaction_to_rpc tx |})
     | None => Ok None
     end, st) /\
  run_io (get_block_rpc {| gb_height := Some h; gb_hash := None |}) st =
    (Ok (led_blocks L !! h ≫= block_view), st) /\
  run_io (get_block_rpc {| gb_height := None; gb_hash := Some (prefix ++ encode_hex x) |}) st =
    (Ok (led_heights L !! x ≫= fun h => led_blocks L !! h ≫= block_view), st).
Proof.
  intros P Px U.
  split; [by apply run_get_balance, decode_hex_encode|].
  split; [by apply run_get_transaction, decode_hex_encode|].
  split; [by apply run_query_height|by apply run_query_hash, decode_hex_encode].
Qed.

(** A request as the parser of parameters delivers it: it returns, with values
    of the parameter types. *)
Definition request_typed (q : RpcRequest) : Prop :=
  match q with
  | GetBlockReq p =>
      p <> Panic /\ forall query h, p = Ok query -> gb_height query = Some h -> u64 h
  | GetTransactionReq p | GetBalanceReq p => p <> Panic
  | SendTransactionReq p => p <> Panic /\ forall text, p = Ok text -> vec_ok text
  | GetInfoReq | GetValidatorsReq | GetNoteCommitmentsReq => True
  end.

Definition is_submission (q : RpcRequest) : bool :=
  match q with SendTransactionReq _ => true | _ => false end.

Lemma parsed_contained {A} (st : RpcState S) method (params : outcome string A) :
  params <> Panic -> contained (parsed method params) st (fun x => params = Ok x).
Proof. intros N. apply contained_lift; [by apply map_err_not_Panic|]. by intros x E%map_err_Ok. Qed.

(** A handler of a query. *)
Lemma query_atomic {A} (m : io (RpcState S) RpcError A) (f : A -> RpcResponse) st :
  contained m st (fun _ => True) -> atomic (r ← m; mret (f r)) st (fun _ st' => st' = st).
Proof.
  intros C. eapply atomic_bind; [exact C|]. intros r _. unfold atomic. by rewrite run_ret.
Qed.

Lemma serve_effect L (st : RpcState S) q r st' :
  represents (contents (rpc_storage st)) L -> routed (rpc_mempool st) -> request_typed q ->
  run_io (serve q) st = (r, st') ->
  r <> Panic /\
  (fst (limiter_check (rpc_limiter st)) = false -> r = Err RateLimitExceeded) /\
  (is_ok r && is_submission q = false ->
   st' = {| rpc_storage := rpc_storage st; rpc_mempool := rpc_mempool st;
            rpc_limiter := snd (limiter_check (rpc_limiter st)) |}).
Proof.
  intros P R T E. unfold serve, handle in E. rewrite run_bind in E. unfold check_rate_limit in E.
  cbn [run_io] in E. destruct (limiter_check (rpc_limiter st)) as [permitted l]. cbn [fst snd].
  set (st1 := {| rpc_storage := rpc_storage st; rpc_mempool := rpc_mempool st; rpc_limiter := l |}) in *.
  destruct permitted; [|by injection E as <- <-].
  match type of E with run_io ?m st1 = _ =>
    assert (atomic m st1 (fun _ s => is_submission q = false -> s = st1)) as A end.
  { assert (forall (m : io (RpcState S) RpcError RpcResponse), atomic m st1 (fun _ s => s = st1) ->
      atomic m st1 (fun _ s => is_submission q = false -> s = st1)) as Q.
    { intros m M. unfold atomic in *. destruct (run_io m st1) as [[]]; [by intros _|done|done]. }
    destruct q as [p|p|p|p| | |]; cbn [request_typed] in T.
    - destruct T as [N U]. apply Q. eapply atomic_bind; [by apply parsed_contained|].
      intros query ->. apply query_atomic. eapply get_block_contained; [exact P|eauto].
    - apply Q. eapply atomic_bind; [by apply parsed_contained|].
      intros text _. by eapply query_atomic, get_transaction_contained.
    - destruct T as [N U]. eapply atomic_bind; [by apply parsed_contained|]. intros text ->.
      pose proof (send_atomic L st1 text P R (U text eq_refl)) as A. unfold atomic in *.
      rewrite run_bind. destruct (run_io (send_transaction text) st1) as [[resp|e|] s]; [|done..].
      by rewrite run_ret.
    - apply Q. eapply atomic_bind; [by apply parsed_contained|].
      intros text _. by eapply query_atomic, get_balance_contained.
    - apply Q, query_atomic. destruct (run_get_info st1 L P) as (? & ? & Ei & _).
      by eexists.
    - apply Q, query_atomic. destruct (run_get_validators st1 L P) as (? & Ev & _). by eexists.
    - apply Q, query_atomic. destruct (run_load_notes st1 L P) as (? & Ec & _). by eexists. }
  unfold atomic in A. rewrite E in A. destruct r as [resp|e|]; [|by subst|done].
  split; [done|]. split; [done|]. intros [=]. auto.
Qed.

(** No request, whatever its parameters, panics the node. When
    the rate limiter refuses, the request fails with the rate-limit error
    before anything else is looked at; a request that fails, and every query,
    changes nothing but the limiter; only an accepted submission can change
    the storage or the pool. *)
Theorem serve_safe L (st : RpcState S) q r st' :
  represents (contents (rpc_storage st)) L -> routed (rpc_mempool st) -> request_typed q ->
  run_io (serve q) st = (r, st') ->
  r <> Panic /\
  (fst (limiter_check (rpc_limiter st)) = false -> r = Err RateLimitExceeded) /\
  (is_ok r && is_submission q = false ->
   st' = {| rpc_storage := rpc_storage st; rpc_mempool := rpc_mempool st;
            rpc_limiter := snd (limiter_check (rpc_limiter st)) |}).
Proof. by apply serve_effect. Qed.

(** The index of blocks by hash is never cleaned: when a
    second block is saved at the height of a first one, as after a change of
    fork, a query for the hash of the first answers the second, under the
    second's own hash. *)
Theorem hash_query_stale L (st : RpcState S) b1 b2 h1 h2 :
  represents (contents (rpc_storage st)) L -> wf b1 -> wf b2 ->
  hdr_height (blk_header b1) = hdr_height (blk_header b2) ->
  hash_block_header (E := StorageError) (blk_header b1) = Ok h1 ->
  hash_block_header (E := StorageError) (blk_header b2) = Ok h2 -> h1 <> h2 -> exists s1 s2 view,
    run_io (save_block b1) (rpc_storage st) = (Ok h1, s1) /\
    run_io (save_block b2) s1 = (Ok h2, s2) /\
    (let st2 := {| rpc_storage := s2; rpc_mempool := rpc_mempool st; rpc_limiter := rpc_limiter st |} in
     run_io (get_block_rpc {| gb_height := None; gb_hash := Some (encode_hex h1) |}) st2 =
       (Ok (Some view), st2)) /\
    block_to_rpc b2 = Ok view /\ br_hash view = encode_hex h2.
Proof.
  intros P W1 W2 Eh E1 E2 N.
  destruct (perform_implements (SaveBlock b1) _ L W1 P) as (s1 & R1 & P1).
  destruct (perform_implements (SaveBlock b2) _ _ W2 P1) as (s2 & R2 & P2).
  cbn [spec perform] in *. rewrite run_bind, run_lift, E1 in R1, P1, P2, R2.
  rewrite run_bind, run_lift, E2 in R2, P2.
  assert (exists view, block_to_rpc b2 = Ok view /\ br_hash view = encode_hex h2) as (view & Ev & Hv).
  { destruct (block_to_rpc_Ok b2 W2) as (view & Ev & _). exists view. split; [done|].
    unfold block_to_rpc, hash_block_header in Ev, E2.
    destruct (bincode_serialize (blk_header b2)); [|done..]. cbn in Ev, E2.
    injection E2 as <-. by injection Ev as <-. }
  exists s1, s2, view. split; [exact R1|]. split; [exact R2|]. split; [|done]. cbv zeta.
  pose proof (decode_hex_encode h1 "hash" [] (or_introl eq_refl)) as D. rewrite app_nil_l in D.
  erewrite run_query_hash by (exact P2 || exact D). f_equal.
  cbn [run_io modify mbind io_bind snd led_heights led_blocks on_heights on_blocks mret io_ret].
  rewrite lookup_insert_ne, lookup_insert_eq, Eh by done. cbn [mbind option_bind].
  rewrite lookup_insert_eq. cbn [mbind option_bind]. unfold block_view. by rewrite Ev.
Qed.
End properties.

(** ** Witnesses *)

From S2P Require Import Merkle Concrete.
Import Concrete.Instances StorageInstances.

#[local] Existing Instances sample_engine sample_engine_ok.

#[local] Existing Instances toy_hex toy_hex_ok.

(** A limiter that counts permits. *)
#[local] Instance toy_limiter : RateLimiter := {|
  limiter := Z; limiter_direct := fun n => n; limiter_check := fun n => (0 <? n, Z.max 0 (n - 1)) |}.

(** A node with a funded sender, a validator, a block and a note. *)
Definition sender_key : bytes := public_key_of (fill 32 7).

Definition sender_account : Account := {|
  acct_balance := 1000; acct_nonce := 2; acct_code_hash := None;
  acct_anonymous_state := AnonymousAccountState_default |}.

Definition header_at (height timestamp : Z) : BlockHeader := {|
  hdr_version := 1; hdr_previous_hash := fill 32 0; hdr_merkle_root := sha256 [];
  hdr_timestamp := timestamp; hdr_height := height; hdr_validator := fill 32 4;
  hdr_signature := fill 64 5 |}.

Definition block_at (height timestamp : Z) : Block := {|
  blk_header := header_at height timestamp; blk_transactions := []; blk_receipts := [] |}.

Definition node_calls : list call := setup_calls ++ [
  Call (UpdateAccount sender_key sender_account);
  Call (SaveValidator {| val_address := fill 32 4; val_stake := 500; val_locked_until := 9 |});
  Call (SaveBlock (block_at 3 100)); Call (SaveViewableNote (nth 0 sample_notes
    {| note := {| commitment := [] |}; view_hint := []; note_shard_id := 0 |})) ].

Definition node_db : gmap bytes bytes :=
  (session (@perform _ _ (gmap bytes bytes) _ _ _) node_calls db_empty).2.

Definition node_ledger : Ledger := (session (@spec _ _) node_calls empty_ledger).2.

Lemma node_represents : represents (contents node_db) node_ledger.
Proof.
  assert (Forall call_ok node_calls) as W by (repeat constructor; vm_compute; done).
  destruct (session_refines node_calls db_empty empty_ledger W) as (s' & E & P);
    [by apply represents_empty|].
  unfold node_db. by rewrite E.
Qed.

Definition node : RpcState (gmap bytes bytes) := RpcState_new node_db (with_partition_count 4).

Lemma node_routed : routed (rpc_mempool node).
Proof. apply with_partition_count_routed. Qed.

(** A transfer of the sender, and a call of the deployed contract. *)
Definition signed (tx : Transaction) : Transaction :=
  match sign_transaction tx (fill 32 7) with Ok s => set_signature tx s | _ => tx end.

Definition payment : Transaction := signed {|
  tx_type := Transfer; tx_from := sender_key; tx_to := fill 32 2; tx_amount := 42; tx_fee := 1;
  tx_nonce := 3; tx_source_shard := 0; tx_destination_shard := 0; tx_signature := [];
  tx_data := None |}.

Definition contract_call : Transaction := signed {|
  tx_type := CallContract; tx_from := sender_key; tx_to := sample_address; tx_amount := 0;
  tx_fee := 1; tx_nonce := 3; tx_source_shard := 0; tx_destination_shard := 0; tx_signature := [];
  tx_data := Some (enc c_call_payload {| call_method := "run"; call_params := fill 2 8;
                                         call_gas_limit := 1000 |}) |}.

Definition hex_of (tx : Transaction) : bytes := encode_hex (enc c_transaction tx).

(** Both are accepted; with a used nonce they are not. *)
Example payment_accepted : is_ok (run_io (send_transaction (hex_of payment)) node).1 = true.
Proof. vm_compute. reflexivity. Qed.

Example call_accepted : is_ok (run_io (send_transaction (hex_of contract_call)) node).1 = true.
Proof. vm_compute. reflexivity. Qed.

Example used_nonce_refused :
  is_ok (run_io (send_transaction (hex_of (sample_tx 2))) node).1 = false.
Proof. vm_compute. reflexivity. Qed.

Lemma submission_effect_witness : exists r st',
  run_io (send_transaction (hex_of contract_call)) node = (r, st') /\
  match r with
  | Ok resp => exists b tx,
      decode_hex (hex_of contract_call) "hex_tx" = Ok b /\ bincode_deserialize b = Ok tx /\ wf tx /\
      accepted node_ledger tx node resp st'
  | Err _ => st' = node
  | Panic => False
  end.
Proof.
  eexists _, _. split; [apply surjective_pairing|].
  exact (submission_effect node_ledger node (hex_of contract_call) _ _ node_represents node_routed
    ltac:(by vm_compute) (surjective_pairing _)).
Defined.

Lemma submission_iff_witness :
  is_ok (run_io (send_transaction (bytes_of "0x" ++ hex_of payment)) node).1 = true <->
  admissible payment (led_accounts node_ledger !! sender_key).
Proof.
  refine (submission_iff node_ledger node payment (enc c_transaction payment) (bytes_of "0x")
    node_represents node_routed _ eq_refl _ (or_intror eq_refl) _); [solve_wf|by vm_compute|done].
Defined.

Lemma submission_not_recorded_witness : exists tx L',
  let res := run_io (send_transaction (hex_of payment)) node in
  represents (contents (rpc_storage res.2)) L' /\ led_accounts L' = led_accounts node_ledger /\
  admissible tx (led_accounts L' !! tx_from tx) /\ pending res.2 ≡ₚ tx :: pending node /\
  (tx_type tx <> CallContract -> exists resp2 st2,
     run_io (send_transaction (hex_of payment)) res.2 = (Ok resp2, st2) /\
     pending st2 ≡ₚ tx :: tx :: pending node).
Proof.
  pose proof payment_accepted as A.
  destruct (run_io (send_transaction (hex_of payment)) node) as [[resp|e|] st'] eqn:E; [|done..].
  exact (submission_not_recorded node_ledger node (hex_of payment) resp st' node_represents
    node_routed ltac:(by vm_compute) E).
Defined.

Lemma chain_summary_exact_witness : exists latest heights vs cs,
  run_io get_info node = (Ok {|
    info_name := bytes_of "Prims"; info_rpc_version := bytes_of "0.1";
    info_storage_backend := storage_kind; info_latest_block_height := latest;
    info_mempool_size := Z.of_nat (length (pending node));
    info_validator_count := Z.of_nat (size (led_validators node_ledger));
    info_note_commitment_count := Z.of_nat (size (led_notes node_ledger)) |}, node) /\
  greatest latest heights /\
  (forall h, h ∈ heights <-> u64 h /\ is_Some (led_blocks node_ledger !! h)) /\
  run_io get_validators node = (Ok (validator_to_rpc <$> vs), node) /\
  vs ≡ₚ (map_to_list (led_validators node_ledger)).*2 /\
  StronglySorted (fun x y => bytes_cmp (val_address x) (val_address y) <> Gt) vs /\
  run_io get_note_commitments node = (Ok cs, node) /\
  cs ≡ₚ encode_hex <$> (map_to_list (led_notes node_ledger)).*1 /\ NoDup cs /\
  StronglySorted (fun x y => bytes_cmp x y <> Gt) cs.
Proof. exact (chain_summary_exact node_ledger node node_represents). Defined.

Lemma lookups_answer_ledger_witness :
  run_io (get_balance (bytes_of "0x" ++ encode_hex sender_key)) node =
    (Ok (match led_accounts node_ledger !! sender_key with
         | Some account => account_to_rpc sender_key account
         | None => {| bal_address := encode_hex sender_key; bal_found := false; bal_balance := 0;
                      bal_nonce := 0; bal_note_commitment_count := 0 |}
         end), node) /\
  run_io (get_transaction_rpc (bytes_of "0x" ++ encode_hex sender_key)) node =
    (match led_transactions node_ledger !! sender_key with
     | Some tx => tx_hash ← hash_transaction tx;
                  Ok (Some {| tr_hash := encode_hex tx_hash; tr_transaction := transaction_to_rpc tx |})
     | None => Ok None
     end, node) /\
  run_io (get_block_rpc {| gb_height := Some 3; gb_hash := None |}) node =
    (Ok (led_blocks node_ledger !! 3 ≫= block_view), node) /\
  run_io (get_block_rpc {| gb_height := None; gb_hash := Some (bytes_of "0x" ++ encode_hex sender_key) |})
    node = (Ok (led_heights node_ledger !! sender_key ≫= fun h => led_blocks node_ledger !! h ≫= block_view),
            node).
Proof.
  exact (lookups_answer_ledger node_ledger node (bytes_of "0x") sender_key 3 node_represents
    (or_intror eq_refl) ltac:(by vm_compute)).
Defined.

Lemma serve_safe_witness : exists r st',
  run_io (serve (SendTransactionReq (Ok (hex_of payment)))) node = (r, st') /\ r <> Panic /\
  (fst (limiter_check (rpc_limiter node)) = false -> r = Err RateLimitExceeded) /\
  (is_ok r && is_submission (SendTransactionReq (Ok (hex_of payment))) = false ->
   st' = {| rpc_storage := rpc_storage node; rpc_mempool := rpc_mempool node;
            rpc_limiter := snd (limiter_check (rpc_limiter node)) |}).
Proof.
  eexists _, _. split; [apply surjective_pairing|].
  refine (serve_safe node_ledger node (SendTransactionReq (Ok (hex_of payment))) _ _ node_represents
    node_routed _ (surjective_pairing _)).
  split; [done|]. intros text [= <-]. by vm_compute.
Defined.

Lemma hash_query_stale_witness : exists h1 h2 s1 s2 view,
  run_io (save_block (block_at 3 100)) node_db = (Ok h1, s1) /\
  run_io (save_block (block_at 3 101)) s1 = (Ok h2, s2) /\
  (let st2 := {| rpc_storage := s2; rpc_mempool := rpc_mempool node; rpc_limiter := rpc_limiter node |} in
   run_io (get_block_rpc {| gb_height := None; gb_hash := Some (encode_hex h1) |}) st2 =
     (Ok (Some view), st2)) /\
  block_to_rpc (block_at 3 101) = Ok view /\ br_hash view = encode_hex h2.
Proof.
  eexists _, _.
  refine (hash_query_stale node_ledger node (block_at 3 100) (block_at 3 101) _ _ node_represents
    _ _ eq_refl eq_refl eq_refl _); [solve_wf|solve_wf|by_eval].
Defined.
