(* ===== verification/Rpc.v ===== *)
(** * The JSON of the interface ([src/api/mod.rs], [src/bin/prims-cli.rs], [src/bin/prims-explorer.rs])

    The server's side: the methods by name, the structures their parameters
    are read into and the objects their answers are written as.  The clients'
    side: the request, what is taken from the payload, and the structures of
    the wallet, which declares its own; the interface [RpcClient] that the
    wallet and the website are written against.  [jsonrpsee] and [reqwest], which carry
    a request to the handlers and the payload back, are the class [Http]. *)

From Stdlib Require Import Strings.Byte.
From S2P Require Import Prelude Orders Bytes Text Externals Types Hash Crypto Store Storage Vm Json Api.

(** ** Parameters *)

Definition de_GetBlockParams (v : Value) : outcome DeError GetBlockParams :=
  vs ← de_struct true [(bytes_of "height", reads (de_option (de_uint 64)));
                       (bytes_of "hash", reads (de_option de_string))] v;
  match vs with
  | [height; hash] =>
      h ← opt_field (de_uint 64) height;
      text ← opt_field de_string hash;
      Ok {| gb_height := h; gb_hash := text |}
  | _ => Panic
  end.

Definition de_HashParam (v : Value) : outcome DeError bytes := de_text_struct (bytes_of "hash") v.
Definition de_AddressParam (v : Value) : outcome DeError bytes := de_text_struct (bytes_of "address") v.
Definition de_SendTransactionParams (v : Value) : outcome DeError bytes :=
  de_text_struct (bytes_of "hex_tx") v.

(** ** Answers *)

Definition ser_header (h : RpcBlockHeaderView) : Value := JObject [
  (bytes_of "version", JNumber (hv_version h));
  (bytes_of "previous_hash", JString (hv_previous_hash h));
  (bytes_of "merkle_root", JString (hv_merkle_root h));
  (bytes_of "timestamp", JNumber (hv_timestamp h));
  (bytes_of "height", JNumber (hv_height h));
  (bytes_of "validator", JString (hv_validator h));
  (bytes_of "signature", JString (hv_signature h)) ].

Definition ser_transaction (t : RpcTransactionView) : Value := JObject [
  (bytes_of "tx_type", JString (tv_tx_type t));
  (bytes_of "stake_duration", ser_option JNumber (tv_stake_duration t));
  (bytes_of "from", JString (tv_from t));
  (bytes_of "to", JString (tv_to t));
  (bytes_of "amount", JNumber (tv_amount t));
  (bytes_of "fee", JNumber (tv_fee t));
  (bytes_of "nonce", JNumber (tv_nonce t));
  (bytes_of "source_shard", JNumber (tv_source_shard t));
  (bytes_of "destination_shard", JNumber (tv_destination_shard t));
  (bytes_of "signature", JString (tv_signature t));
  (bytes_of "data", ser_option JString (tv_data t)) ].

Definition ser_receipt (r : RpcCrossShardReceiptView) : Value := JObject [
  (bytes_of "tx_hash", JString (cv_tx_hash r));
  (bytes_of "source_shard", JNumber (cv_source_shard r));
  (bytes_of "destination_shard", JNumber (cv_destination_shard r));
  (bytes_of "phase", JString (cv_phase r));
  (bytes_of "proof", JString (cv_proof r)) ].

Definition ser_block (b : RpcBlockResponse) : Value := JObject [
  (bytes_of "hash", JString (br_hash b));
  (bytes_of "header", ser_header (br_header b));
  (bytes_of "transactions", ser_vec ser_transaction (br_transactions b));
  (bytes_of "receipts", ser_vec ser_receipt (br_receipts b)) ].

Definition ser_found_transaction (r : RpcTransactionResponse) : Value := JObject [
  (bytes_of "hash", JString (tr_hash r));
  (bytes_of "transaction", ser_transaction (tr_transaction r)) ].

Definition ser_balance (b : RpcBalanceResponse) : Value := JObject [
  (bytes_of "address", JString (bal_address b));
  (bytes_of "found", JBool (bal_found b));
  (bytes_of "balance", JNumber (bal_balance b));
  (bytes_of "nonce", JNumber (bal_nonce b));
  (bytes_of "note_commitment_count", JNumber (bal_note_commitment_count b)) ].

Definition ser_info (i : RpcInfoResponse) : Value := JObject [
  (bytes_of "name", JString (info_name i));
  (bytes_of "rpc_version", JString (info_rpc_version i));
  (bytes_of "storage_backend", JString (info_storage_backend i));
  (bytes_of "latest_block_height", ser_option JNumber (info_latest_block_height i));
  (bytes_of "mempool_size", JNumber (info_mempool_size i));
  (bytes_of "validator_count", JNumber (info_validator_count i));
  (bytes_of "note_commitment_count", JNumber (info_note_commitment_count i)) ].

Definition ser_validator (v : RpcValidatorView) : Value := JObject [
  (bytes_of "address", JString (vv_address v));
  (bytes_of "stake", JNumber (vv_stake v));
  (bytes_of "locked_until", JNumber (vv_locked_until v)) ].

Definition ser_sent (r : RpcSendTransactionResponse) : Value := JObject [
  (bytes_of "accepted", JBool (sent_accepted r));
  (bytes_of "tx_hash", JString (sent_tx_hash r));
  (bytes_of "mempool_size", JNumber (sent_mempool_size r)) ].

Definition ser_response (r : RpcResponse) : Value :=
  match r with
  | BlockResponse b => ser_option ser_block b
  | TransactionResponse t => ser_option ser_found_transaction t
  | SendTransactionResponse s => ser_sent s
  | BalanceResponse b => ser_balance b
  | InfoResponse i => ser_info i
  | ValidatorsResponse vs => ser_vec ser_validator vs
  | NoteCommitmentsResponse cs => ser_vec JString cs
  end.

(** ** Methods *)

(** The messages of [serde] and of the error objects. *)
Class RpcTexts := {
  de_message : DeError -> string;
  error_message : RpcError -> bytes;
}.

Section server.
Context `{RpcTexts}.

(** [params.parse()] *)
Definition parse {A} (d : Value -> outcome DeError A) (params : Value) : outcome string A :=
  map_err de_message (d params).

(** The methods [build_rpc_module] registers. *)
Definition request_of (method : bytes) (params : Value) : option RpcRequest :=
  if decide (method = bytes_of "get_block") then Some (GetBlockReq (parse de_GetBlockParams params))
  else if decide (method = bytes_of "get_transaction") then
    Some (GetTransactionReq (parse de_HashParam params))
  else if decide (method = bytes_of "send_transaction") then
    Some (SendTransactionReq (parse de_SendTransactionParams params))
  else if decide (method = bytes_of "get_balance") then
    Some (GetBalanceReq (parse de_AddressParam params))
  else if decide (method = bytes_of "get_info") then Some GetInfoReq
  else if decide (method = bytes_of "get_validators") then Some GetValidatorsReq
  else if decide (method = bytes_of "get_note_commitments") then Some GetNoteCommitmentsReq
  else None.
End server.

(** ** Clients *)

(** The errors of the two [rpc_call], with the code when it is an integer. *)
Inductive ClientError :=
| HttpFailed (message : string)
| RpcFailure (code : option Z) (message : bytes)
| UnexpectedPayload
| Undecodable (e : DeError).

Definition rpc_envelope (method : bytes) (params : Value) : Value := JObject [
  (bytes_of "jsonrpc", JString (bytes_of "2.0")); (bytes_of "id", JNumber 1);
  (bytes_of "method", JString method); (bytes_of "params", params) ].

(** What is taken from the payload; [null] is a result. *)
Definition read_payload (payload : Value) : outcome ClientError Value :=
  match get payload (bytes_of "result") with
  | Some result => Ok result
  | None =>
      match get payload (bytes_of "error") with
      | Some error =>
          let code := c ← get error (bytes_of "code"); as_i64 c in
          let message := m ← get error (bytes_of "message"); as_str m in
          Err (RpcFailure code (default (bytes_of "unknown RPC error") message))
      | None => Err UnexpectedPayload
      end
  end.

(** The structures of the wallet; its [RpcBalanceResponse] has a field more. *)
Record CliBalanceResponse := {
  cb_address : bytes;
  cb_found : bool;
  cb_balance : Z;
  cb_nonce : Z;
  cb_note_commitment_count : Z;
  cb_viewing_hint : option bytes;
}.

(** The answer of the node as the wallet has it. *)
Definition cli_balance (b : RpcBalanceResponse) : CliBalanceResponse := {|
  cb_address := bal_address b; cb_found := bal_found b; cb_balance := bal_balance b;
  cb_nonce := bal_nonce b; cb_note_commitment_count := bal_note_commitment_count b;
  cb_viewing_hint := None |}.

Definition de_CliBalanceResponse (v : Value) : outcome DeError CliBalanceResponse :=
  vs ← de_struct false [(bytes_of "address", reads de_string); (bytes_of "found", reads de_bool);
                        (bytes_of "balance", reads (de_uint 64)); (bytes_of "nonce", reads (de_uint 64));
                        (bytes_of "note_commitment_count", reads (de_uint 64));
                        (bytes_of "viewing_hint", reads (de_option de_string))] v;
  match vs with
  | [address; found; balance; nonce; count; hint] =>
      a ← field (bytes_of "address") de_string address;
      f ← field (bytes_of "found") de_bool found;
      b ← field (bytes_of "balance") (de_uint 64) balance;
      n ← field (bytes_of "nonce") (de_uint 64) nonce;
      c ← field (bytes_of "note_commitment_count") (de_uint 64) count;
      h ← opt_field de_string hint;
      Ok {| cb_address := a; cb_found := f; cb_balance := b; cb_nonce := n;
            cb_note_commitment_count := c; cb_viewing_hint := h |}
  | _ => Panic
  end.

Definition de_CliValidatorView (v : Value) : outcome DeError RpcValidatorView :=
  vs ← de_struct false [(bytes_of "address", reads de_string); (bytes_of "stake", reads (de_uint 64));
                        (bytes_of "locked_until", reads (de_uint 64))] v;
  match vs with
  | [address; stake; locked_until] =>
      a ← field (bytes_of "address") de_string address;
      s ← field (bytes_of "stake") (de_uint 64) stake;
      l ← field (bytes_of "locked_until") (de_uint 64) locked_until;
      Ok {| vv_address := a; vv_stake := s; vv_locked_until := l |}
  | _ => Panic
  end.

Definition de_CliSendTransactionResponse (v : Value) : outcome DeError RpcSendTransactionResponse :=
  vs ← de_struct false [(bytes_of "accepted", reads de_bool); (bytes_of "tx_hash", reads de_string);
                        (bytes_of "mempool_size", reads (de_uint 64))] v;
  match vs with
  | [accepted; tx_hash; mempool_size] =>
      a ← field (bytes_of "accepted") de_bool accepted;
      h ← field (bytes_of "tx_hash") de_string tx_hash;
      m ← field (bytes_of "mempool_size") (de_uint 64) mempool_size;
      Ok {| sent_accepted := a; sent_tx_hash := h; sent_mempool_size := m |}
  | _ => Panic
  end.

Section client.
Context {S : Type} `{Sha256, Ed25519, ChainCodecs, KvStore S, Wasmtime, Hex, RateLimiter}.

(** [http.post(rpc_url).json(&request).send()] and [response.json()]: what
    comes back, and what it does to the node. *)
Class Http := { http_post : Value -> io (RpcState S) string Value }.

(** The handler of a request, with its answer as a value. *)
Definition dispatch `{RpcTexts} (method : bytes) (params : Value) :
  option (io (RpcState S) RpcError Value) :=
  (fun q => r ← serve q; mret (ser_response r)) <$> request_of method params.

(** The payload that answers an outcome, as JSON-RPC 2.0 says. *)
Definition answers `{RpcTexts} (o : outcome RpcError Value) (payload : Value) : Prop :=
  match o with
  | Ok v => get payload (bytes_of "result") = Some v
  | Err e => get payload (bytes_of "result") = None /\ exists error,
      get payload (bytes_of "error") = Some error /\
      get error (bytes_of "code") = Some (JNumber (error_code e)) /\
      get error (bytes_of "message") = Some (JString (error_message e))
  | Panic => False
  end.

(** A request to a registered method reaches its handler, or fails before, or
    its answer is lost.  This is a transport whose limits on the size of a
    message are not reached, or that fails when they are. *)
Class HttpOk `{RpcTexts, Http} : Prop := {
  http_delivers method params m st : dispatch method params = Some m ->
    (run_io m st).1 <> Panic ->
    let '(r, st') := run_io (http_post (rpc_envelope method params)) st in
    match r with
    | Ok payload => st' = (run_io m st).2 /\ answers (run_io m st).1 payload
    | Err _ => st' = st \/ st' = (run_io m st).2
    | Panic => False
    end;
}.

(** ** The interface of the clients *)

(** [rpc_call] of the explorer: what both clients are written against. *)
Class RpcClient (W : Type) := { rpc_call : bytes -> Value -> io W ClientError Value }.

(** Its implementation over HTTP, as in the source. *)
Definition explorer_rpc_call `{Http} (method : bytes) (params : Value) : io (RpcState S) ClientError Value :=
  payload ← io_map_err HttpFailed (http_post (rpc_envelope method params));
  lift (read_payload payload).

Definition http_client `{Http} : RpcClient (RpcState S) := {| rpc_call := explorer_rpc_call |}.

(** The handlers themselves: what the other one is compared with. *)
Definition served_error `{RpcTexts} (e : RpcError) : ClientError :=
  RpcFailure (Some (error_code e)) (error_message e).

Definition direct_client `{RpcTexts} : RpcClient (RpcState S) := {|
  rpc_call method params :=
    match dispatch method params with
    | Some m => io_map_err served_error m
    | None => io_err (RpcFailure (Some (-32601)) (bytes_of "Method not found"))
    end |}.
End client.

Arguments Http S {_}.

Section wallet.
Context {W : Type} `{RpcClient W}.

(** [rpc_call] of the wallet: the same, then [serde_json::from_value]. *)
Definition cli_rpc_call {A} (d : Value -> outcome DeError A) (method : bytes) (params : Value) :
  io W ClientError A :=
  result ← rpc_call method params;
  lift (map_err Undecodable (d result)).

Definition cli_get_balance (address : bytes) : io W ClientError CliBalanceResponse :=
  cli_rpc_call de_CliBalanceResponse (bytes_of "get_balance")
    (JObject [(bytes_of "address", JString address)]).

Definition cli_send_transaction (hex_tx : bytes) : io W ClientError RpcSendTransactionResponse :=
  cli_rpc_call de_CliSendTransactionResponse (bytes_of "send_transaction")
    (JObject [(bytes_of "hex_tx", JString hex_tx)]).

Definition cli_get_validators : io W ClientError (list RpcValidatorView) :=
  cli_rpc_call (de_vec de_CliValidatorView) (bytes_of "get_validators") (JObject []).
End wallet.
