(* ===== verification/RpcSpec.v ===== *)
(** * Properties of the JSON interface

    Which parameters the methods accept, and the refinement of the handlers by
    the clients: over any transport that delivers, what the wallet reads is
    what the handler answered, although the two programs declare the
    structures separately. *)

From Stdlib Require Import Strings.Byte.
From S2P Require Import Prelude Orders Bytes Text Externals Types Hash Crypto Mempool Notes Keys Store Storage Ledger StorageSpec Vm VmSpec Json Api ApiSpec Rpc Concrete.
Import DigestAddresses.

(** ** Parameters *)

Section params.
Context `{RpcTexts}.

Lemma parse_Ok {A} (d : Value -> outcome DeError A) v a : parse d v = Ok a <-> d v = Ok a.
Proof. unfold parse. split; [apply map_err_Ok|by intros ->]. Qed.

Lemma parse_text name text : parse (de_text_struct name) (JObject [(name, JString text)]) = Ok text.
Proof. apply parse_Ok, de_text_struct_Ok. by left. Qed.

(** The selectors of a block as an object or an array. *)
Lemma de_GetBlockParams_object (height : option Z) (hash : option bytes) m :
  (forall h, height = Some h -> u64 h) ->
  m = match height with Some h => [(bytes_of "height", JNumber h)] | None => [] end ++
      match hash with Some t => [(bytes_of "hash", JString t)] | None => [] end ->
  de_GetBlockParams (JObject m) = Ok {| gb_height := height; gb_hash := hash |}.
Proof.
  intros U ->. assert (forall h, height = Some h -> de_uint 64 (JNumber h) = Ok h) as D.
  { intros h E. by apply de_uint_Ok, U. }
  unfold de_GetBlockParams. rewrite de_struct_object.
  - destruct height as [h|], hash as [t|]; struct_fields;
      cbn [mbind outcome_bind opt_field de_option de_string]; rewrite ?(D h eq_refl); done.
  - destruct height, hash; by_eval.
  - apply Forall_app. split.
    + destruct height as [h|]; [|done]. apply Forall_singleton. eexists. split; [reflexivity|].
      unfold reads, snd, de_option. by rewrite (D h eq_refl).
    + destruct hash as [t|]; [|done]. apply Forall_singleton. by eexists.
Qed.

(** A method with one text for parameter. *)
Definition one_text (method : bytes) (name : bytes) (request : outcome string bytes -> RpcRequest) : Prop :=
  (method, name) = (bytes_of "get_transaction", bytes_of "hash") /\ request = GetTransactionReq \/
  (method, name) = (bytes_of "send_transaction", bytes_of "hex_tx") /\ request = SendTransactionReq \/
  (method, name) = (bytes_of "get_balance", bytes_of "address") /\ request = GetBalanceReq.

Lemma request_of_one_text method name request v : one_text method name request ->
  request_of method v = Some (request (parse (de_text_struct name) v)).
Proof. intros [[[= -> ->] ->]|[[[= -> ->] ->]|[[= -> ->] ->]]]; reflexivity. Qed.

(** [C34] What the methods with one parameter accept, of any JSON
    value: an object with exactly the field of the method, holding a text, or
    an array of exactly one text; another field, a missing or repeated one, a
    value of another type or a longer array is refused before the handler
    looks at anything.  The interface is wider than [docs/api_rpc.md:17], which
    asks for an object: the array is accepted too.  The two selectors of a block are read back from the
    object of those that are given, for every height of its type. *)
Theorem params_accepted_iff method name request v a :
  one_text method name request ->
  (request_of method v = Some (request (Ok a)) <->
   v = JObject [(name, JString a)] \/ v = JArray [JString a]) /\
  forall height hash, (forall h, height = Some h -> u64 h) ->
    request_of (bytes_of "get_block")
      (JObject (match height with Some h => [(bytes_of "height", JNumber h)] | None => [] end ++
                match hash with Some t => [(bytes_of "hash", JString t)] | None => [] end)) =
    Some (GetBlockReq (Ok {| gb_height := height; gb_hash := hash |})).
Proof.
  intros O. split.
  - rewrite (request_of_one_text _ _ _ v O), <- de_text_struct_Ok, <- parse_Ok.
    destruct O as [[_ ->]|[[_ ->]|[_ ->]]]; split; [by intros [= ->]|by intros ->| |by intros ->| |by intros ->];
      by intros [= ->].
  - intros height hash U. change (request_of (bytes_of "get_block") ?w) with
      (Some (GetBlockReq (parse de_GetBlockParams w))).
    do 2 f_equal. apply parse_Ok. by eapply de_GetBlockParams_object.
Qed.
End params.

(** ** Answers *)

(** Each entry of a written object is taken by a field. *)
Ltac takes_fields :=
  repeat (apply Forall_cons; split; [eexists; split; [reflexivity|by read_uints]|]); apply Forall_nil_2.

Lemma balance_read b :
  u64 (bal_balance b) -> u64 (bal_nonce b) -> u64 (bal_note_commitment_count b) ->
  de_CliBalanceResponse (ser_balance b) = Ok (cli_balance b).
Proof.
  intros U1 U2 U3. unfold de_CliBalanceResponse, ser_balance.
  rewrite de_struct_object; [|by_eval|takes_fields].
  struct_fields. by read_uints.
Qed.

Lemma validator_read v : u64 (vv_stake v) -> u64 (vv_locked_until v) ->
  de_CliValidatorView (ser_validator v) = Ok v.
Proof.
  intros U1 U2. unfold de_CliValidatorView, ser_validator.
  rewrite de_struct_object; [|by_eval|takes_fields].
  struct_fields. read_uints. by destruct v.
Qed.

Lemma sent_read r : u64 (sent_mempool_size r) -> de_CliSendTransactionResponse (ser_sent r) = Ok r.
Proof.
  intros U. unfold de_CliSendTransactionResponse, ser_sent.
  rewrite de_struct_object; [|by_eval|takes_fields].
  struct_fields. read_uints. by destruct r.
Qed.

(** No value panics the wallet. *)
Lemma cli_decoders_return :
  returns de_CliBalanceResponse /\ returns de_CliSendTransactionResponse /\ returns (de_vec de_CliValidatorView).
Proof.
  split; [|split; [|apply de_vec_returns]]; intros v.
  - unfold de_CliBalanceResponse. struct_returns.
  - unfold de_CliSendTransactionResponse. struct_returns.
  - unfold de_CliValidatorView. struct_returns.
Qed.

(** ** The clients *)

Section clients.
Context {S : Type} `{KvStoreOk S, Sha256Ok, Ed25519, ChainCodecsOk, WasmtimeOk, HexOk, RateLimiter}.
Context `{!Bincode ViewableNote, !BincodeOk ViewableNote, !Bincode Hash32, !BincodeOk Hash32}.
Context `{!BincodeTyped Transaction, !BincodeTyped ContractCallPayload}.
Context `{RpcTexts, !Http S, !HttpOk}.
#[local] Existing Instance http_client.
Implicit Types (st : RpcState S) (L : Ledger).

(** What a client gets, against what the handler does on the same state: the
    transport failed, before or after the handler, or the client has the view
    of the answer, or the code and message of the error object. *)
Definition faithful {A} (view : RpcResponse -> option A) (st : RpcState S)
    (direct : outcome RpcError RpcResponse * RpcState S) (got : outcome ClientError A * RpcState S) : Prop :=
  ((exists message, got.1 = Err (HttpFailed message)) /\ (got.2 = st \/ got.2 = direct.2)) \/
  (got.2 = direct.2 /\
   match direct.1 with
   | Ok response => exists a, view response = Some a /\ got.1 = Ok a
   | Err e => got.1 = Err (RpcFailure (Some (error_code e)) (error_message e))
   | Panic => False
   end).

Lemma error_code_i64 e : as_i64 (JNumber (error_code e)) = Some (error_code e).
Proof. by destruct e. Qed.

(** What the payload of an answer is read as. *)
Lemma read_answer o payload : answers o payload ->
  read_payload payload =
  match o with
  | Ok v => Ok v
  | Err e => Err (RpcFailure (Some (error_code e)) (error_message e))
  | Panic => Panic
  end.
Proof.
  unfold answers, read_payload. destruct o as [v|e|]; [by intros ->| |done].
  intros (-> & error & -> & -> & ->). cbn [mbind option_bind as_str default].
  by rewrite error_code_i64.
Qed.

Lemma client_call {A} (d : Value -> outcome DeError A) view method params q st :
  request_of method params = Some q -> (run_io (serve q) st).1 <> Panic ->
  (forall response, (run_io (serve q) st).1 = Ok response -> exists a,
     d (ser_response response) = Ok a /\ view response = Some a) ->
  faithful view st (run_io (serve q) st) (run_io (cli_rpc_call d method params) st).
Proof.
  intros Q NP D. set (m := (r ← serve q; mret (ser_response r)) : io (RpcState S) RpcError Value).
  assert (dispatch method params = Some m) as Em by (unfold dispatch; by rewrite Q).
  assert (run_io m st = (ser_response <$> (run_io (serve q) st).1, (run_io (serve q) st).2)) as Rm.
  { unfold m. rewrite run_bind. by destruct (run_io (serve q) st) as [[r|e|] st1]. }
  pose proof (http_delivers method params m st Em) as H'. rewrite Rm in H'. cbn [fst snd] in H'.
  specialize (H' ltac:(by destruct (run_io (serve q) st).1)).
  unfold faithful, cli_rpc_call. cbn [rpc_call http_client]. unfold explorer_rpc_call. rewrite !run_bind, run_io_map_err.
  destruct (run_io (http_post (rpc_envelope method params)) st) as [[payload|e|] st']; cbn [map_err fst snd]; [| |done].
  - right. destruct H' as [-> An]. apply read_answer in An.
    rewrite run_lift, An. destruct (run_io (serve q) st) as [[response|e|] st1]; cbn [fst snd] in *;
      [|done|done].
    cbn [fmap outcome_fmap]. rewrite run_lift. split; [done|].
    destruct (D response eq_refl) as (a & -> & Va). by exists a.
  - left. cbn [fst snd]. split; [by exists e|exact H'].
Qed.

(** The three views. *)
Definition balance_view (r : RpcResponse) : option CliBalanceResponse :=
  match r with BalanceResponse b => Some (cli_balance b) | _ => None end.
Definition sent_view (r : RpcResponse) : option RpcSendTransactionResponse :=
  match r with SendTransactionResponse s => Some s | _ => None end.
Definition validators_view (r : RpcResponse) : option (list RpcValidatorView) :=
  match r with ValidatorsResponse vs => Some vs | _ => None end.

(** The answers are values of their types. *)
Definition response_fits (r : RpcResponse) : Prop :=
  match r with
  | BalanceResponse b => u64 (bal_balance b) /\ u64 (bal_nonce b) /\ u64 (bal_note_commitment_count b)
  | SendTransactionResponse s => u64 (sent_mempool_size s)
  | ValidatorsResponse vs => Forall (fun v => u64 (vv_stake v) /\ u64 (vv_locked_until v)) vs
  | _ => True
  end.

Lemma account_view_fits L st a account :
  represents (contents (rpc_storage st)) L -> led_accounts L !! a = Some account ->
  response_fits (BalanceResponse (account_to_rpc a account)).
Proof.
  intros P E. pose proof (table_wf RAccount _ _ a account I (rep_accounts _ _ P) E) as W.
  destruct W as (Wb & Wn & _ & _ & Wv & _). split; [exact Wb|]. split; [exact Wn|].
  unfold vec_ok in Wv. unfold u64. cbn. lia.
Qed.

(** The rate limiter comes first, then the handler. *)
Lemma serve_Ok st q r st1 : run_io (serve q) st = (Ok r, st1) -> exists l,
  run_io (handle q) {| rpc_storage := rpc_storage st; rpc_mempool := rpc_mempool st; rpc_limiter := l |} =
    (Ok r, st1).
Proof.
  unfold serve. rewrite run_bind. unfold check_rate_limit. cbn [run_io].
  destruct (limiter_check (rpc_limiter st)) as [[] l]; [|done]. by exists l.
Qed.

Lemma balance_fits L st text r st1 :
  represents (contents (rpc_storage st)) L ->
  run_io (serve (GetBalanceReq (Ok text))) st = (Ok r, st1) -> exists b,
  r = BalanceResponse b /\ response_fits r.
Proof.
  intros P E. destruct (serve_Ok _ _ _ _ E) as [l El]. cbn [handle] in El.
  unfold parsed in El. rewrite run_bind, run_lift in El. cbn [map_err] in El. rewrite run_bind in El.
  set (st2 := {| rpc_storage := rpc_storage st; rpc_mempool := rpc_mempool st; rpc_limiter := l |}) in *.
  destruct (decode_hex text "address") as [a|e|] eqn:D.
  - rewrite (run_get_balance st2 L text a P D), run_ret in El. injection El as <- _. eexists. split; [done|].
    destruct (led_accounts L !! a) as [account|] eqn:Ea; [by apply (account_view_fits L st a account)|].
    by repeat split.
  - unfold get_balance in El. by rewrite run_bind, run_lift, D in El.
  - by apply decode_hex_not_Panic in D.
Qed.

Lemma validators_fit L st r st1 :
  represents (contents (rpc_storage st)) L ->
  run_io (serve GetValidatorsReq) st = (Ok r, st1) -> exists vs,
  r = ValidatorsResponse vs /\ response_fits r.
Proof.
  intros P E. destruct (serve_Ok _ _ _ _ E) as [l El]. cbn [handle] in El.
  set (st2 := {| rpc_storage := rpc_storage st; rpc_mempool := rpc_mempool st; rpc_limiter := l |}) in *.
  destruct (run_get_validators st2 L P) as (vs & Ev & Pv & _).
  rewrite run_bind, Ev, run_ret in El. injection El as <- _. eexists. split; [done|].
  apply Forall_fmap. rewrite Pv. apply Forall_fmap, Forall_forall. intros [a v] Ev'%elem_of_map_to_list.
  destruct (table_wf RStake _ _ a v I (rep_validators _ _ P) Ev') as (_ & W1 & W2). by split.
Qed.

Lemma sent_fits L st text r st1 :
  represents (contents (rpc_storage st)) L -> routed (rpc_mempool st) -> vec_ok text ->
  Z.of_nat (length (pending st)) + 1 < 2 ^ 64 ->
  run_io (serve (SendTransactionReq (Ok text))) st = (Ok r, st1) -> exists s,
  r = SendTransactionResponse s /\ response_fits r.
Proof.
  intros P R V Sz E. destruct (serve_Ok _ _ _ _ E) as [l El]. cbn [handle] in El.
  unfold parsed in El. rewrite run_bind, run_lift in El. cbn [map_err] in El. rewrite run_bind in El.
  set (st2 := {| rpc_storage := rpc_storage st; rpc_mempool := rpc_mempool st; rpc_limiter := l |}) in *.
  pose proof (send_atomic L st2 text P R V) as At. unfold atomic in At.
  destruct (run_io (send_transaction text) st2) as [[resp|e|] st3]; [|done..].
  destruct At as (b & tx & _ & _ & _ & Ac). rewrite run_ret in El. injection El as <- <-.
  eexists. split; [done|]. cbn [response_fits]. rewrite (acc_size _ _ _ _ _ Ac), (acc_pending _ _ _ _ _ Ac).
  change (pending st2) with (pending st). cbn [length]. unfold u64. lia.
Qed.

(** No typed request panics the node. *)
Lemma serve_returns L st q : represents (contents (rpc_storage st)) L -> routed (rpc_mempool st) ->
  request_typed q -> (run_io (serve q) st).1 <> Panic.
Proof.
  intros P R T. destruct (run_io (serve q) st) as [r st1] eqn:E.
  by apply (serve_effect L st q r st1 P R T) in E as [NP _].
Qed.

(** The three calls, one by one. *)
Lemma balance_faithful L st address :
  represents (contents (rpc_storage st)) L -> routed (rpc_mempool st) ->
  faithful balance_view st (run_io (serve (GetBalanceReq (Ok address))) st)
    (run_io (cli_get_balance address) st).
Proof.
  intros P R. apply client_call.
  - rewrite (request_of_one_text _ (bytes_of "address") GetBalanceReq) by (by do 2 right).
    by rewrite parse_text.
  - by apply (serve_returns L).
  - intros r E. destruct (run_io (serve _) st) as [r' st1] eqn:Er. cbn in E. subst r'.
    destruct (balance_fits L st address r st1 P Er) as (b & -> & U1 & U2 & U3).
    exists (cli_balance b). split; [by apply balance_read|done].
Qed.

Lemma sent_faithful L st hex_tx :
  represents (contents (rpc_storage st)) L -> routed (rpc_mempool st) -> vec_ok hex_tx ->
  Z.of_nat (length (pending st)) + 1 < 2 ^ 64 ->
  faithful sent_view st (run_io (serve (SendTransactionReq (Ok hex_tx))) st)
    (run_io (cli_send_transaction hex_tx) st).
Proof.
  intros P R V Sz. apply client_call.
  - rewrite (request_of_one_text _ (bytes_of "hex_tx") SendTransactionReq) by (by right; left).
    by rewrite parse_text.
  - apply (serve_returns L); [done..|]. split; [done|]. by intros t [= <-].
  - intros r E. destruct (run_io (serve _) st) as [r' st1] eqn:Er. cbn in E. subst r'.
    destruct (sent_fits L st hex_tx r st1 P R V Sz Er) as (s & -> & U).
    exists s. split; [by apply sent_read|done].
Qed.

Lemma validators_faithful L st :
  represents (contents (rpc_storage st)) L -> routed (rpc_mempool st) ->
  faithful validators_view st (run_io (serve GetValidatorsReq) st) (run_io cli_get_validators st).
Proof.
  intros P R. apply client_call; [reflexivity|by apply (serve_returns L)|].
  intros r E. destruct (run_io (serve _) st) as [r' st1] eqn:Er. cbn in E. subst r'.
  destruct (validators_fit L st r st1 P Er) as (vs & -> & U). exists vs. split; [|done].
  cbn [ser_response]. rewrite (de_vec_ser _ _ id); [by rewrite list_fmap_id|].
  eapply Forall_impl; [exact U|]. intros v [U1 U2]. by apply validator_read.
Qed.

(** [C12] Over any transport that delivers or fails, a call of
    the wallet refines the handler it names: either the transport failed, and
    then the handler ran at most once; or the node is left as the handler left
    it and the wallet has exactly its answer, field by field and for every
    integer of its width, or its error code and message.  The field
    [viewing_hint], which only the wallet declares, is always absent. *)
Theorem client_refines_node L st address hex_tx :
  represents (contents (rpc_storage st)) L -> routed (rpc_mempool st) -> vec_ok hex_tx ->
  Z.of_nat (length (pending st)) + 1 < 2 ^ 64 ->
  faithful balance_view st (run_io (serve (GetBalanceReq (Ok address))) st)
    (run_io (cli_get_balance address) st) /\
  faithful sent_view st (run_io (serve (SendTransactionReq (Ok hex_tx))) st)
    (run_io (cli_send_transaction hex_tx) st) /\
  faithful validators_view st (run_io (serve GetValidatorsReq) st) (run_io cli_get_validators st).
Proof.
  intros P R V Sz. split; [by apply (balance_faithful L)|]. split; [by apply (sent_faithful L)|].
  by apply (validators_faithful L).
Qed.
End clients.

(** ** Witnesses *)

Import Concrete.Instances StorageInstances.
#[local] Existing Instances sample_engine sample_engine_ok toy_hex toy_hex_ok toy_limiter.
#[local] Existing Instance http_client.

#[local] Instance toy_texts : RpcTexts := {|
  de_message := fun _ => "invalid"; error_message := fun _ => bytes_of "refused" |}.

(** The payload of an outcome. *)
Definition toy_payload (o : outcome RpcError Value) : outcome string Value :=
  let envelope entry := JObject [(bytes_of "jsonrpc", JString (bytes_of "2.0"));
                                 (bytes_of "id", JNumber 1); entry] in
  match o with
  | Ok v => Ok (envelope (bytes_of "result", v))
  | Err e => Ok (envelope (bytes_of "error", JObject [
      (bytes_of "code", JNumber (error_code e)); (bytes_of "message", JString (error_message e)) ]))
  | Panic => Err "connection closed"
  end.

(** A transport that reads the request and runs its handler. *)
#[local] Instance toy_http : Http (gmap bytes bytes) := {|
  http_post envelope := Io (fun st =>
    match get envelope (bytes_of "method"), get envelope (bytes_of "params") with
    | Some (JString method), Some params =>
        match dispatch method params with
        | Some m => let '(o, st') := run_io m st in (toy_payload o, st')
        | None => (Err "not found", st)
        end
    | _, _ => (Err "not a request", st)
    end) |}.

#[local] Instance toy_http_ok : HttpOk (S := gmap bytes bytes).
Proof.
  split. intros method params m st E NP. cbn [run_io http_post toy_http rpc_envelope].
  change (get (rpc_envelope method params) (bytes_of "method")) with (Some (JString method)).
  change (get (rpc_envelope method params) (bytes_of "params")) with (Some params). cbn iota. rewrite E.
  destruct (run_io m st) as [[v|e|] st'] eqn:R; cbn [toy_payload fst snd] in *; [by split| |done].
  split; [done|]. split; [reflexivity|]. eexists. split; [reflexivity|]. by split.
Qed.

Lemma params_accepted_iff_witness :
  request_of (bytes_of "get_balance") (JArray [JString (bytes_of "0x07")]) =
    Some (GetBalanceReq (Ok (bytes_of "0x07"))).
Proof.
  refine (proj2 (proj1 (params_accepted_iff (bytes_of "get_balance") (bytes_of "address") GetBalanceReq
    (JArray [JString (bytes_of "0x07")]) (bytes_of "0x07") _)) _).
  - right. right. by split.
  - by right.
Defined.

Lemma client_refines_node_witness :
  faithful balance_view node (run_io (serve (GetBalanceReq (Ok (encode_hex sender_key)))) node)
    (run_io (cli_get_balance (encode_hex sender_key)) node) /\
  faithful sent_view node (run_io (serve (SendTransactionReq (Ok (hex_of payment)))) node)
    (run_io (cli_send_transaction (hex_of payment)) node) /\
  faithful validators_view node (run_io (serve GetValidatorsReq) node) (run_io cli_get_validators node).
Proof.
  apply (client_refines_node node_ledger node (encode_hex sender_key) (hex_of payment) node_represents
    node_routed); by vm_compute.
Defined.

(** The wallet reads the funded balance, and the refusal of a used nonce. *)
Definition funded : RpcState (gmap bytes bytes) :=
  {| rpc_storage := rpc_storage node; rpc_mempool := rpc_mempool node; rpc_limiter := 5 |}.

Example balance_seen : (cb_balance <$> (run_io (cli_get_balance (encode_hex sender_key)) funded).1) = Ok 1000.
Proof. vm_compute. reflexivity. Qed.

Example refusal_seen : (run_io (cli_send_transaction (hex_of (sample_tx 2))) funded).1 =
  Err (RpcFailure (Some VALIDATION_ERROR_CODE) (bytes_of "refused")).
Proof. vm_compute. reflexivity. Qed.
