(* ===== verification/Transport.v ===== *)
(** * The two implementations of the client's interface

    A client of a node is written against [RpcClient].  Over any transport
    that delivers or fails, [http_client] refines [direct_client], which runs
    the handlers: [carried] says how the runs of a client over the two are
    related, and is compositional, so that a client's properties proved on the
    handlers hold over HTTP. *)

From Stdlib Require Import Strings.Byte.
From S2P Require Import Prelude Orders Bytes Text Externals Types Hash Crypto Mempool Notes Keys Store Storage Ledger StorageSpec Vm VmSpec Json Api ApiSpec Rpc RpcSpec.
Import DigestAddresses.

Section transport.
Context {S : Type} `{KvStoreOk S, Sha256Ok, Ed25519, ChainCodecsOk, WasmtimeOk, HexOk, RateLimiter}.
Context `{!Bincode ViewableNote, !BincodeOk ViewableNote, !Bincode Hash32, !BincodeOk Hash32}.
Context `{!BincodeTyped Transaction, !BincodeTyped ContractCallPayload}.
Context `{RpcTexts}.
Implicit Types (st : RpcState S) (L : Ledger).

(** ** States *)

(** The same storage and pool. *)
Definition agrees st st' : Prop := rpc_storage st' = rpc_storage st /\ rpc_mempool st' = rpc_mempool st.

#[export] Instance agrees_preorder : PreOrder agrees.
Proof. split; [by split|]. intros a b c [E1 E2] [E3 E4]. split; congruence. Qed.

(** What the calls rely on. *)
Record ready L st : Prop := {
  ready_storage : represents (contents (rpc_storage st)) L;
  ready_pool : routed (rpc_mempool st);
}.

(** The size of the pool stays a [usize] when [n] more come. *)
Definition pool_fits st (n : Z) : Prop := Z.of_nat (length (pending st)) + n < 2 ^ 64.

Lemma pool_fits_agrees st st' n : agrees st st' -> pool_fits st n -> pool_fits st' n.
Proof. intros [_ Em]. unfold pool_fits, pending. by rewrite Em. Qed.

Lemma ready_agrees L st st' : agrees st st' -> ready L st -> ready L st'.
Proof. intros [Es Em] [P R]. split; by rewrite ?Es, ?Em. Qed.

(** ** Runs *)

(** A run over a transport against the direct run: the same, unless the
    transport fails; then the state is as before, up to the limiter, or as the
    direct run leaves it. *)
Definition carried {E A} (lost : string -> E) st (direct over : outcome E A * RpcState S) : Prop :=
  ((exists message, over.1 = Err (lost message)) /\ (agrees st over.2 \/ over.2 = direct.2)) \/
  (direct.1 <> Panic /\ over = direct).

Section carried.
Context {E : Type} (lost : string -> E).

Lemma carried_same {A} st (d : outcome E A * RpcState S) : d.1 <> Panic -> carried lost st d d.
Proof. by right. Qed.

(** After a first part that leaves storage and pool alone. *)
Lemma carried_bind {A B} st (d h : io (RpcState S) E A) (f g : A -> io (RpcState S) E B) :
  carried lost st (run_io d st) (run_io h st) -> agrees st (run_io d st).2 ->
  (forall a st1, run_io d st = (Ok a, st1) -> agrees st st1 ->
     carried lost st1 (run_io (f a) st1) (run_io (g a) st1)) ->
  carried lost st (run_io (d ≫= f) st) (run_io (h ≫= g) st).
Proof.
  intros C A1 F. rewrite !run_bind. destruct (run_io d st) as [r st1] eqn:Ed. cbn [fst snd] in *.
  destruct C as [[[message Em] Es]|[N ->]].
  - left. destruct (run_io h st) as [r' st2]. cbn [fst snd] in *. subst r'.
    split; [by exists message|]. left. destruct Es as [Es|Es]; [exact Es|]. by rewrite Es.
  - cbn [fst] in N. destruct r as [a|e|]; [|by right|done].
    destruct (F a st1 eq_refl A1) as [[Em Es]|C]; [left|by right].
    split; [exact Em|]. destruct Es as [Es|Es]; [left; by etrans|by right].
Qed.

(** After a part of pure code. *)
Lemma carried_bind_lift {A B} st (m : outcome E A) (f g : A -> io (RpcState S) E B) :
  m <> Panic -> (forall a, m = Ok a -> carried lost st (run_io (f a) st) (run_io (g a) st)) ->
  carried lost st (run_io (lift m ≫= f) st) (run_io (lift m ≫= g) st).
Proof.
  intros N F. apply carried_bind; [by apply carried_same|done|]. intros a st1 [= -> <-] _. by apply F.
Qed.

(** Before a part of pure code. *)
Lemma carried_lift {A B} st (d h : io (RpcState S) E A) (f : A -> outcome E B) :
  carried lost st (run_io d st) (run_io h st) -> (forall a, f a <> Panic) ->
  carried lost st (run_io (a ← d; lift (f a)) st) (run_io (a ← h; lift (f a)) st).
Proof.
  rewrite !run_bind. destruct (run_io d st) as [r st1], (run_io h st) as [r' st2].
  intros [[[message Em] Es]|[N Eh]] F; cbn [fst snd] in *.
  - left. subst r'. split; [by exists message|]. cbn [fst snd]. destruct Es as [Es|Es]; [by left|right].
    by destruct r.
  - right. injection Eh as -> ->. destruct r as [a|e|]; [split; [apply F|done]|done..].
Qed.

Lemma carried_map {A B} st (d h : io (RpcState S) E A) (f : A -> B) :
  carried lost st (run_io d st) (run_io h st) ->
  carried lost st (run_io (a ← d; mret (f a)) st) (run_io (a ← h; mret (f a)) st).
Proof. intros C. by apply (carried_lift st d h (fun a => Ok (f a))). Qed.

Lemma carried_map_err {F A} (wrap : E -> F) st (d h : io (RpcState S) E A) :
  carried lost st (run_io d st) (run_io h st) ->
  carried (wrap ∘ lost) st (run_io (io_map_err wrap d) st) (run_io (io_map_err wrap h) st).
Proof.
  rewrite !run_io_map_err. intros [[[message Em] Es]|[N ->]].
  - left. cbn [fst snd]. rewrite Em. split; [by exists message|exact Es].
  - right. split; [by apply map_err_not_Panic|done].
Qed.
End carried.

(** ** The calls *)

Section http.
Context `{!Http S, !HttpOk}.

(** A call to a registered method. *)
Lemma carried_call L st method params q : ready L st -> request_of method params = Some q -> request_typed q ->
  carried HttpFailed st (run_io (rpc_call (RpcClient := direct_client) method params) st)
    (run_io (rpc_call (RpcClient := http_client) method params) st).
Proof.
  intros [P R] Q T. cbn [rpc_call direct_client http_client].
  set (m := (r ← serve q; mret (ser_response r)) : io (RpcState S) RpcError Value).
  assert (dispatch method params = Some m) as Em by (unfold dispatch; by rewrite Q). rewrite Em.
  assert ((run_io m st).1 <> Panic) as N.
  { unfold m. rewrite run_bind. pose proof (serve_returns L st q P R T) as N.
    by destruct (run_io (serve q) st) as [[r|e|] st1]. }
  pose proof (http_delivers method params m st Em N) as D. unfold explorer_rpc_call.
  rewrite run_bind, !run_io_map_err. destruct (run_io m st) as [r st1]. cbn [fst snd] in *.
  destruct (run_io (http_post (rpc_envelope method params)) st) as [[payload|e|] st']; cbn [map_err fst snd];
    [| |done].
  - destruct D as [-> An]. right. split; [by apply map_err_not_Panic|]. rewrite run_lift.
    by rewrite (read_answer _ _ An); destruct r.
  - left. cbn [fst snd]. split; [by exists e|]. destruct D as [->| ->]; [by left|by right].
Qed.
End http.

(** ** The handlers through the interface *)

Lemma direct_run method params q st : request_of method params = Some q ->
  run_io (rpc_call (RpcClient := direct_client) method params) st =
  match run_io (serve q) st with
  | (Ok r, st') => (Ok (ser_response r), st')
  | (Err e, st') => (Err (served_error e), st')
  | (Panic, st') => (Panic, st')
  end.
Proof.
  intros Q. cbn [rpc_call direct_client]. unfold dispatch. rewrite Q. cbn [fmap option_fmap option_map].
  rewrite run_io_map_err, run_bind. by destruct (run_io (serve q) st) as [[r|e|] st1].
Qed.

(** A query leaves storage and pool alone. *)
Lemma direct_query_agrees L st method params q : ready L st -> request_of method params = Some q ->
  request_typed q -> is_submission q = false ->
  agrees st (run_io (rpc_call (RpcClient := direct_client) method params) st).2.
Proof.
  intros [P R] Q T N. rewrite (direct_run _ _ _ _ Q). destruct (run_io (serve q) st) as [r st1] eqn:E.
  apply (serve_effect L st q r st1 P R T) in E as (_ & _ & E). rewrite N, andb_false_r in E.
  rewrite (E eq_refl). by destruct r.
Qed.

(** The methods of the clients. *)
Lemma request_balance a : request_of (bytes_of "get_balance") (JObject [(bytes_of "address", JString a)]) =
  Some (GetBalanceReq (Ok a)).
Proof.
  rewrite (request_of_one_text _ (bytes_of "address") GetBalanceReq) by (by do 2 right). by rewrite parse_text.
Qed.

Lemma request_send t : request_of (bytes_of "send_transaction") (JObject [(bytes_of "hex_tx", JString t)]) =
  Some (SendTransactionReq (Ok t)).
Proof.
  rewrite (request_of_one_text _ (bytes_of "hex_tx") SendTransactionReq) by (by right; left).
  by rewrite parse_text.
Qed.

Lemma typed_balance a : request_typed (GetBalanceReq (Ok a)).
Proof. done. Qed.

Lemma typed_send t : vec_ok t -> request_typed (SendTransactionReq (Ok t)).
Proof. split; [done|]. by intros ? [= <-]. Qed.

(** The balance and the submission of the wallet, on the handlers. *)
Lemma direct_balance L st a : ready L st ->
  run_io (cli_get_balance (H := direct_client) a) st =
  match run_io (serve (GetBalanceReq (Ok a))) st with
  | (Ok (BalanceResponse b), st') => (Ok (cli_balance b), st')
  | (Err e, st') => (Err (served_error e), st')
  | (_, st') => (Panic, st')
  end.
Proof.
  intros [P R]. unfold cli_get_balance, cli_rpc_call. rewrite run_bind, (direct_run _ _ _ _ (request_balance a)).
  destruct (run_io (serve _) st) as [[r|e|] st1] eqn:E; [|done..].
  destruct (balance_fits L st a r st1 P E) as (b & -> & U1 & U2 & U3).
  rewrite run_lift. cbn [ser_response]. by rewrite balance_read.
Qed.

Lemma direct_send L st t : ready L st -> vec_ok t -> pool_fits st 1 ->
  run_io (cli_send_transaction (H := direct_client) t) st =
  match run_io (serve (SendTransactionReq (Ok t))) st with
  | (Ok (SendTransactionResponse s), st') => (Ok s, st')
  | (Err e, st') => (Err (served_error e), st')
  | (_, st') => (Panic, st')
  end.
Proof.
  intros [P R] V Z. unfold cli_send_transaction, cli_rpc_call.
  rewrite run_bind, (direct_run _ _ _ _ (request_send t)).
  destruct (run_io (serve _) st) as [[r|e|] st1] eqn:E; [|done..].
  destruct (sent_fits L st t r st1 P R V Z E) as (s & -> & U).
  rewrite run_lift. cbn [ser_response]. by rewrite sent_read.
Qed.
End transport.

#[export] Existing Instance agrees_preorder.
