(* ===== verification/Peers.v ===== *)
(** * Peer penalties ([src/network/connection.rs], [src/network/node.rs])

    The penalty record of a peer, the table of penalties a node keeps, and the
    decision to accept a peer, shown equal to a decision read off the history
    of what the peers did: a ban after every run of invalid messages, and a
    delay after a disconnection.  The type of peer identifiers ([libp2p]) is a
    parameter. *)

From S2P Require Import Prelude Orders.

(** ** One peer *)

Record ConnectionLimits := {
  max_established_incoming : Z;
  max_established_outgoing : Z;
  reconnect_delay_secs : Z;
  temporary_ban_secs : Z;
  max_invalid_messages : Z;
}.

Definition ConnectionLimits_default : ConnectionLimits := {|
  max_established_incoming := 32; max_established_outgoing := 32; reconnect_delay_secs := 5;
  temporary_ban_secs := 60; max_invalid_messages := 3 |}.

#[global] Instance ConnectionLimits_wf : WellFormed ConnectionLimits := fun l =>
  u64 (max_established_incoming l) /\ u64 (max_established_outgoing l) /\
  u64 (reconnect_delay_secs l) /\ u64 (temporary_ban_secs l) /\ u32 (max_invalid_messages l).

Record PeerPenalty := {
  invalid_messages : Z;
  banned_until_unix : option Z;
  last_disconnect_unix : option Z;
}.

(** [#[derive(Default)]] *)
Definition PeerPenalty_default : PeerPenalty :=
  {| invalid_messages := 0; banned_until_unix := None; last_disconnect_unix := None |}.

Definition register_disconnect (p : PeerPenalty) (now_unix : Z) : PeerPenalty := {|
  invalid_messages := invalid_messages p; banned_until_unix := banned_until_unix p;
  last_disconnect_unix := Some now_unix |}.

Definition can_reconnect (p : PeerPenalty) (now_unix : Z) (limits : ConnectionLimits) : bool :=
  match last_disconnect_unix p with
  | Some last_disconnect => reconnect_delay_secs limits <=? saturating 64 (now_unix - last_disconnect)
  | None => true
  end.

(** The increment is a plain [+= 1] on a [u32]. *)
Definition register_invalid_message `{Profile} {E} (p : PeerPenalty) (now_unix : Z)
    (limits : ConnectionLimits) : outcome E (PeerPenalty * bool) :=
  n ← arith 32 (invalid_messages p + 1);
  if max_invalid_messages limits <=? n then
    Ok ({| invalid_messages := 0;
           banned_until_unix := Some (saturating 64 (now_unix + temporary_ban_secs limits));
           last_disconnect_unix := last_disconnect_unix p |}, true)
  else
    Ok ({| invalid_messages := n; banned_until_unix := banned_until_unix p;
           last_disconnect_unix := last_disconnect_unix p |}, false).

Definition is_banned (p : PeerPenalty) (now_unix : Z) : bool :=
  match banned_until_unix p with
  | Some until => now_unix <? until
  | None => false
  end.

Definition clear_expired_ban (p : PeerPenalty) (now_unix : Z) : PeerPenalty := {|
  invalid_messages := invalid_messages p;
  banned_until_unix :=
    match banned_until_unix p with
    | Some until => if until <=? now_unix then None else Some until
    | None => None
    end;
  last_disconnect_unix := last_disconnect_unix p |}.

(** ** The table of a node *)

Section peers.
Context `{Profile} {PeerId : Type} `{Countable PeerId}.

(** [connection_limits] and [peer_penalties] of [PrimsNode]. *)
Record PeerTable := {
  connection_limits : ConnectionLimits;
  peer_penalties : gmap PeerId PeerPenalty;
}.

(** [self.peer_penalties.entry(..).or_default()] *)
Definition entry_or_default (t : PeerTable) (peer_id : PeerId) : PeerPenalty :=
  default PeerPenalty_default (peer_penalties t !! peer_id).

Definition set_penalty (t : PeerTable) (peer_id : PeerId) (p : PeerPenalty) : PeerTable := {|
  connection_limits := connection_limits t; peer_penalties := <[peer_id := p]> (peer_penalties t) |}.

Definition can_accept_peer (t : PeerTable) (peer_id : PeerId) (now_unix : Z) : bool * PeerTable :=
  let penalty := clear_expired_ban (entry_or_default t peer_id) now_unix in
  (negb (is_banned penalty now_unix) && can_reconnect penalty now_unix (connection_limits t),
   set_penalty t peer_id penalty).

Definition register_peer_disconnect (t : PeerTable) (peer_id : PeerId) (now_unix : Z) : PeerTable :=
  set_penalty t peer_id (register_disconnect (entry_or_default t peer_id) now_unix).

Definition register_peer_invalid_message {E} (t : PeerTable) (peer_id : PeerId) (now_unix : Z) :
  outcome E (bool * PeerTable) :=
  '(penalty, banned) ← register_invalid_message (entry_or_default t peer_id) now_unix
                         (connection_limits t);
  Ok (banned, set_penalty t peer_id penalty).

(** ** Histories *)

(** What happened to a node, with the time of its clock. *)
Inductive peer_event :=
| Asked (peer_id : PeerId) (now_unix : Z)
| Disconnected (peer_id : PeerId) (now_unix : Z)
| Invalid (peer_id : PeerId) (now_unix : Z).

Definition event_time (e : peer_event) : Z :=
  match e with Asked _ t | Disconnected _ t | Invalid _ t => t end.

Definition peer_step (t : PeerTable) (e : peer_event) : outcome False PeerTable :=
  match e with
  | Asked p now => Ok (can_accept_peer t p now).2
  | Disconnected p now => Ok (register_peer_disconnect t p now)
  | Invalid p now => '(_, t') ← register_peer_invalid_message t p now; Ok t'
  end.

Fixpoint peer_run (t : PeerTable) (h : list peer_event) : outcome False PeerTable :=
  match h with
  | [] => Ok t
  | e :: h' => t' ← peer_step t e; peer_run t' h'
  end.

(** The times of a peer's invalid messages and disconnections. *)
Definition invalid_times (p : PeerId) (h : list peer_event) : list Z :=
  omap (fun e => match e with Invalid q t => if decide (q = p) then Some t else None | _ => None end) h.

Definition disconnect_times (p : PeerId) (h : list peer_event) : list Z :=
  omap (fun e => match e with Disconnected q t => if decide (q = p) then Some t else None | _ => None end) h.

(** Invalid messages per ban: a limit of zero bans on every message, as one does. *)
Definition messages_per_ban (limits : ConnectionLimits) : nat :=
  Z.to_nat (Z.max 1 (max_invalid_messages limits)).

(** The time of the last message that completed a run: the last whose number
    is a multiple of [messages_per_ban]. *)
Definition last_ban (limits : ConnectionLimits) (times : list Z) : option Z :=
  let m := messages_per_ban limits in
  let full := (length times / m * m)%nat in
  match full with O => None | S i => times !! i end.

(** The decision as the history gives it. *)
Definition acceptable (limits : ConnectionLimits) (h : list peer_event) (p : PeerId) (now : Z) : Prop :=
  (forall t, last_ban limits (invalid_times p h) = Some t ->
     saturating 64 (t + temporary_ban_secs limits) <= now) /\
  (forall t, last (disconnect_times p h) = Some t -> t + reconnect_delay_secs limits <= now).

(** Events in the order of a clock that does not go back, up to [now]. *)
Definition clocked (h : list peer_event) (now : Z) : Prop :=
  StronglySorted (fun e e' => event_time e <= event_time e') h /\
  Forall (fun e => 0 <= event_time e <= now) h.

Implicit Types (h : list peer_event) (t : PeerTable) (p : PeerId).

Lemma entry_set t p q pen :
  entry_or_default (set_penalty t p pen) q = if decide (p = q) then pen else entry_or_default t q.
Proof.
  unfold entry_or_default, set_penalty. cbn [peer_penalties].
  destruct (decide (p = q)) as [->|N]; [by rewrite lookup_insert_eq|by rewrite lookup_insert_ne].
Qed.

Lemma invalid_times_snoc p h e :
  invalid_times p (h ++ [e]) = invalid_times p h ++
    match e with Invalid q t => if decide (q = p) then [t] else [] | _ => [] end.
Proof. unfold invalid_times. rewrite omap_app. f_equal. cbn. destruct e; try done. by case_decide. Qed.

Lemma disconnect_times_snoc p h e :
  disconnect_times p (h ++ [e]) = disconnect_times p h ++
    match e with Disconnected q t => if decide (q = p) then [t] else [] | _ => [] end.
Proof. unfold disconnect_times. rewrite omap_app. f_equal. cbn. destruct e; try done. by case_decide. Qed.

(** One more message completes a run or leaves the last ban. *)
Lemma last_ban_snoc limits times now :
  let m := messages_per_ban limits in let r := (length times mod m)%nat in
  last_ban limits (times ++ [now]) = (if decide (r + 1 = m)%nat then Some now else last_ban limits times) /\
  (length (times ++ [now]) mod m = if decide (r + 1 = m) then 0 else r + 1)%nat /\ (r < m)%nat.
Proof.
  intros m r. assert (0 < m)%nat as M by (unfold m, messages_per_ban; lia).
  pose proof (Nat.div_mod_eq (length times) m) as D.
  pose proof (Nat.mod_upper_bound (length times) m ltac:(lia)) as B. fold r in D, B.
  set (q := (length times / m)%nat) in *. unfold last_ban. fold m. rewrite length_app. cbn [length].
  destruct (decide (r + 1 = m)%nat) as [E|N].
  - assert (length times + 1 = (q + 1) * m)%nat as L by lia.
    rewrite L, Nat.div_mul, Nat.Div0.mod_mul by lia. rewrite <- L, Nat.add_1_r.
    rewrite lookup_app_r by lia. by rewrite Nat.sub_diag.
  - assert ((length times + 1) / m = q)%nat as ->.
    { symmetry. apply (Nat.div_unique _ m q (r + 1)); lia. }
    assert ((length times + 1) mod m = r + 1)%nat as ->.
    { symmetry. apply (Nat.mod_unique _ m q (r + 1)); lia. }
    fold q. split; [|done]. destruct (q * m)%nat as [|i] eqn:F; [done|].
    apply lookup_app_l. lia.
Qed.

(** The table stands for the history. *)
Record tracks (limits : ConnectionLimits) h t : Prop := {
  tr_limits : connection_limits t = limits;
  tr_count : forall p, invalid_messages (entry_or_default t p) =
    Z.of_nat (length (invalid_times p h) mod messages_per_ban limits);
  tr_disconnect : forall p, last_disconnect_unix (entry_or_default t p) = last (disconnect_times p h);
  tr_ban : forall p,
    let until := (fun at_ => saturating 64 (at_ + temporary_ban_secs limits)) <$>
                 last_ban limits (invalid_times p h) in
    banned_until_unix (entry_or_default t p) = until \/
    banned_until_unix (entry_or_default t p) = None /\
      exists u, until = Some u /\ Exists (fun e => u <= event_time e) h;
}.

Lemma tracks_start limits : tracks limits [] {| connection_limits := limits; peer_penalties := ∅ |}.
Proof.
  split; [done|intros p; cbn..]; [|done|].
  - by rewrite Nat.Div0.mod_0_l.
  - left. unfold last_ban. cbn [length]. by rewrite Nat.Div0.div_0_l.
Qed.

(** A run of invalid messages never overflows its counter. *)
Lemma register_invalid_tracks {E} limits h t p now :
  wf limits -> tracks limits h t -> exists banned t',
    register_peer_invalid_message (E := E) t p now = Ok (banned, t') /\
    tracks limits (h ++ [Invalid p now]) t'.
Proof.
  intros W [El Ec Ed Eb]. destruct W as (_ & _ & _ & _ & Wm).
  destruct (last_ban_snoc limits (invalid_times p h) now) as (Lb & Lm & Lr).
  set (r := (length (invalid_times p h) mod messages_per_ban limits)%nat) in *.
  assert (Z.of_nat (messages_per_ban limits) = Z.max 1 (max_invalid_messages limits)) as M
    by (unfold messages_per_ban; lia).
  unfold register_peer_invalid_message, register_invalid_message. rewrite El, Ec. fold r.
  rewrite arith_fits by (unfold u32 in Wm; lia). cbn [mbind outcome_bind].
  assert ((max_invalid_messages limits <=? Z.of_nat r + 1) =
    bool_decide (r + 1 = messages_per_ban limits)%nat) as ->.
  { destruct (Z.leb_spec (max_invalid_messages limits) (Z.of_nat r + 1));
      [rewrite bool_decide_true|rewrite bool_decide_false]; done || lia. }
  rewrite bool_decide_decide. destruct (decide (r + 1 = messages_per_ban limits)%nat) as [Er|Nr];
    cbn [mbind outcome_bind]; eexists _, _; (split; [reflexivity|]); split; try exact El;
    intros q; rewrite entry_set, ?invalid_times_snoc, ?disconnect_times_snoc, ?app_nil_r;
    destruct (decide (p = q)) as [<-|N]; rewrite ?app_nil_r;
    cbn [invalid_messages banned_until_unix last_disconnect_unix]; auto.
  - by rewrite Lm.
  - left. by rewrite Lb.
  - destruct (Eb q) as [?|(? & u & ? & X)]; [by left|right]. split; [done|].
    exists u. split; [done|]. apply Exists_app. by left.
  - rewrite Lm. lia.
  - rewrite Lb. destruct (Eb p) as [?|(? & u & ? & X)]; [by left|right]. split; [done|].
    exists u. split; [done|]. apply Exists_app. by left.
  - destruct (Eb q) as [?|(? & u & ? & X)]; [by left|right]. split; [done|].
    exists u. split; [done|]. apply Exists_app. by left.
Qed.

Lemma register_disconnect_tracks limits h t p now :
  tracks limits h t -> tracks limits (h ++ [Disconnected p now]) (register_peer_disconnect t p now).
Proof.
  intros [El Ec Ed Eb]. split; [exact El|intros q..]; unfold register_peer_disconnect;
    rewrite entry_set, ?invalid_times_snoc, ?disconnect_times_snoc, ?app_nil_r;
    destruct (decide (p = q)) as [<-|N]; rewrite ?app_nil_r; cbn; auto.
  - by rewrite last_snoc.
  - destruct (Eb p) as [?|(? & u & ? & X)]; [by left|right]. split; [done|].
    exists u. split; [done|]. apply Exists_app. by left.
  - destruct (Eb q) as [?|(? & u & ? & X)]; [by left|right]. split; [done|].
    exists u. split; [done|]. apply Exists_app. by left.
Qed.

Lemma ask_tracks limits h t p now :
  tracks limits h t -> tracks limits (h ++ [Asked p now]) (can_accept_peer t p now).2.
Proof.
  intros [El Ec Ed Eb]. split; [exact El|intros q..]; unfold can_accept_peer; cbn [snd];
    rewrite entry_set, ?invalid_times_snoc, ?disconnect_times_snoc, ?app_nil_r;
    destruct (decide (p = q)) as [<-|N]; cbn [clear_expired_ban invalid_messages
      banned_until_unix last_disconnect_unix]; auto.
  - destruct (Eb p) as [->|(-> & u & E & X)].
    + set (until := _ <$> _). destruct until as [u|]; [|by left].
      destruct (Z.leb_spec u now); [right|by left]. split; [done|]. exists u. split; [done|].
      apply Exists_app. right. by constructor.
    + right. split; [done|]. exists u. split; [done|]. apply Exists_app. by left.
  - destruct (Eb q) as [?|(? & u & ? & X)]; [by left|right]. split; [done|].
    exists u. split; [done|]. apply Exists_app. by left.
Qed.

Lemma peer_run_snoc t h e :
  peer_run t (h ++ [e]) = (peer_run t h ≫= fun t' => peer_step t' e).
Proof.
  revert t. induction h as [|e' h IH]; intros t; cbn.
  - by destruct (peer_step t e).
  - destruct (peer_step t e'); [|done..]. apply IH.
Qed.

(** Every history is tracked, without a panic. *)
Lemma peer_run_tracks limits h : wf limits -> exists t,
  peer_run {| connection_limits := limits; peer_penalties := ∅ |} h = Ok t /\ tracks limits h t.
Proof.
  intros W. induction h as [|e h (t & E & T)] using rev_ind.
  { eexists. split; [done|]. apply tracks_start. }
  rewrite peer_run_snoc, E. cbn [mbind outcome_bind]. destruct e as [p now|p now|p now]; cbn [peer_step].
  - eexists. split; [done|]. by apply ask_tracks.
  - eexists. split; [done|]. by apply register_disconnect_tracks.
  - destruct (register_invalid_tracks (E := False) limits h t p now W T) as (banned & t' & -> & T').
    by exists t'.
Qed.

(** A ban is in force exactly until its end, read off the history. *)
Lemma tracks_banned limits h t p now :
  tracks limits h t -> clocked h now ->
  is_banned (clear_expired_ban (entry_or_default t p) now) now = false <->
  forall at_, last_ban limits (invalid_times p h) = Some at_ ->
    saturating 64 (at_ + temporary_ban_secs limits) <= now.
Proof.
  intros [_ _ _ Eb] [_ C]. unfold is_banned, clear_expired_ban. cbn [banned_until_unix].
  destruct (Eb p) as [->|(-> & u & E & X)].
  - destruct (last_ban limits (invalid_times p h)) as [at_|]; cbn [fmap option_fmap option_map]; [|done].
    destruct (Z.leb_spec (saturating 64 (at_ + temporary_ban_secs limits)) now).
    + split; [|done]. by intros _ ? [= <-].
    + rewrite Z.ltb_ge. split; [lia|]. intros F. specialize (F at_ eq_refl). lia.
  - split; [|done]. intros _ at_ Ea. rewrite Ea in E. cbn in E. injection E as <-.
    apply Exists_exists in X as (e & I & L). rewrite Forall_forall in C. specialize (C e I). lia.
Qed.

Lemma disconnect_times_clocked h now p :
  clocked h now -> forall at_, last (disconnect_times p h) = Some at_ -> 0 <= at_ <= now.
Proof.
  intros [_ C] at_ L. apply last_Some_elem_of in L. unfold disconnect_times in L.
  apply list_elem_of_omap in L as (e & I & E). rewrite Forall_forall in C. specialize (C e I).
  destruct e; try done. case_decide; [|done]. by injection E as <-.
Qed.

Lemma tracks_reconnect limits h t p now :
  tracks limits h t -> clocked h now -> u64 now -> wf limits ->
  can_reconnect (clear_expired_ban (entry_or_default t p) now) now limits = true <->
  forall at_, last (disconnect_times p h) = Some at_ -> at_ + reconnect_delay_secs limits <= now.
Proof.
  intros [_ _ Ed _] C U (_ & _ & Wd & _). unfold u64 in *. unfold can_reconnect, clear_expired_ban.
  cbn [last_disconnect_unix]. rewrite Ed. pose proof (disconnect_times_clocked h now p C) as B.
  destruct (last (disconnect_times p h)) as [at_|]; [|done]. specialize (B at_ eq_refl).
  rewrite Z.leb_le. unfold saturating. split.
  - intros L ? [= <-]. lia.
  - intros F. specialize (F at_ eq_refl). lia.
Qed.
End peers.
Arguments peer_event _ : clear implicits.

(** ** Properties *)

(** [C17] A node accepts a peer exactly when the history says so.
    After any sequence of questions, disconnections and invalid messages of
    any peers, with a clock that does not go back, the table exists (the
    unchecked counter of invalid messages never overflows) and
    [can_accept_peer] answers yes for a peer if and only if its last complete
    run of invalid messages is at least the length of a ban ago and its last
    disconnection at least the reconnect delay ago: what other peers did,
    bans that ran out and earlier questions do not matter. *)
Theorem peer_acceptance `{Profile, Countable PeerId} limits (h : list (peer_event PeerId)) p now :
  wf limits -> clocked h now -> u64 now -> exists t,
    peer_run {| connection_limits := limits; peer_penalties := ∅ |} h = Ok t /\
    ((can_accept_peer t p now).1 = true <-> acceptable limits h p now).
Proof.
  intros W C U. destruct (peer_run_tracks limits h W) as (t & E & T). exists t. split; [done|].
  unfold can_accept_peer, acceptable. cbn [fst]. rewrite (tr_limits _ _ _ T).
  rewrite andb_true_iff, negb_true_iff, (tracks_banned limits h t p now T C).
  by rewrite (tracks_reconnect limits h t p now T C U W).
Qed.

(** ** Witness *)

From S2P Require Import Bytes Externals Types Concrete.
Import Concrete.Instances.

(** Peer 1 sends three invalid messages, peer 2 disconnects. *)
Definition sample_history : list (peer_event Z) :=
  [Invalid 1 100; Asked 1 101; Disconnected 2 102; Invalid 1 103; Invalid 1 104; Asked 1 110].

Example banned_then_accepted :
  match peer_run {| connection_limits := ConnectionLimits_default; peer_penalties := ∅ |} sample_history with
  | Ok t => ((can_accept_peer t 1 163).1, (can_accept_peer t 1 164).1, (can_accept_peer t 2 106).1,
             (can_accept_peer t 2 107).1) = (false, true, false, true)
  | _ => False
  end.
Proof. vm_compute. reflexivity. Qed.

Lemma peer_acceptance_witness : exists t,
  peer_run {| connection_limits := ConnectionLimits_default; peer_penalties := ∅ |} sample_history = Ok t /\
  ((can_accept_peer t 1 164).1 = true <-> acceptable ConnectionLimits_default sample_history 1 164).
Proof.
  apply (peer_acceptance ConnectionLimits_default sample_history 1 164).
  - solve_wf.
  - split; repeat constructor; vm_compute; done.
  - by vm_compute.
Defined.
