(* ===== verification/Config.v ===== *)
(** * Configuration of a node ([src/network/config.rs], [node.rs])

    What a node reads from its environment: the network configuration with
    its defaults, and the identity key, given in a variable or in a file as
    hexadecimal text or as a JSON object.  Variables and files are finite
    maps; the parser of JSON and the key pairs of [libp2p] are classes. *)

From Stdlib Require Import Strings.Byte.
From S2P Require Import Prelude Bytes Text Externals Types Json Peers.

(** ** The environment *)

Abbreviation env := (gmap bytes bytes).
Abbreviation file_system := (gmap bytes bytes).

(** [env::var(name).ok()] *)
Definition env_var (e : env) (name : bytes) : option bytes :=
  value ← e !! name;
  if utf8_valid value then Some value else None.

Definition parse_env (w : Z) (e : env) (name : bytes) (default : Z) : Z :=
  match env_var e name ≫= parse_uint w with
  | Some n => n
  | None => default
  end.

Definition parse_env_usize (e : env) (name : bytes) (default : Z) : Z := parse_env 64 e name default.
Definition parse_env_u64 (e : env) (name : bytes) (default : Z) : Z := parse_env 64 e name default.
Definition parse_env_u32 (e : env) (name : bytes) (default : Z) : Z := parse_env 32 e name default.

Record NetworkConfig := {
  listen_address : bytes;
  seed_nodes : list bytes;
  external_address : option bytes;
  config_limits : ConnectionLimits;
}.

(** [value.split(',').map(str::trim).filter(..).collect()] *)
Definition parse_seed_nodes (value : bytes) : list bytes :=
  filter (fun s => s <> []) (trim <$> split_at x2c value).

Definition NetworkConfig_default (e : env) : NetworkConfig := {|
  listen_address := default (bytes_of "/ip4/0.0.0.0/tcp/7001")
                      (env_var e (bytes_of "PRIMS_LISTEN_ADDRESS"));
  seed_nodes := default [] (parse_seed_nodes <$> env_var e (bytes_of "PRIMS_SEED_NODES"));
  external_address :=
    value ← trim <$> env_var e (bytes_of "PRIMS_EXTERNAL_ADDRESS");
    if decide (value = []) then None else Some value;
  config_limits := {|
    max_established_incoming := parse_env_usize e (bytes_of "PRIMS_MAX_ESTABLISHED_INCOMING") 32;
    max_established_outgoing := parse_env_usize e (bytes_of "PRIMS_MAX_ESTABLISHED_OUTGOING") 32;
    reconnect_delay_secs := parse_env_u64 e (bytes_of "PRIMS_RECONNECT_DELAY_SECS") 5;
    temporary_ban_secs := parse_env_u64 e (bytes_of "PRIMS_TEMPORARY_BAN_SECS") 60;
    max_invalid_messages := parse_env_u32 e (bytes_of "PRIMS_MAX_INVALID_MESSAGES") 3 |} |}.

(** ** Keys in text *)

Inductive KeyError :=
| InvalidHexText (label : bytes) (message : string)
| KeyLength (label : bytes)
| NotUtf8
| InvalidKeyJson (message : string)
| NoKeyField
| KeyFileUnreadable (path : bytes)
| KeyVariableMissing
| InvalidKeypair (message : string)
| EmptyPassphrase
| PassphraseUnreadable (message : string)
| PassphraseMismatch
| DecryptFailed (message : string).

(** [value.trim().strip_prefix("0x").or_else(..).unwrap_or(value.trim())] *)
Definition normalized_hex (value : bytes) : bytes :=
  let trimmed := trim value in
  match strip_prefix (bytes_of "0x") trimmed with
  | Some rest => rest
  | None => default trimmed (strip_prefix (bytes_of "0X") trimmed)
  end.

(** [serde_json::from_str] into a value. *)
Class JsonText := { json_parse : bytes -> outcome string Value }.

(** [get(name).and_then(Value::as_str)] *)
Definition json_str (v : Value) (name : bytes) : option bytes := get v name ≫= as_str.

(** [libp2p::identity::Keypair] *)
Class Identity := {
  keypair : Type;
  ed25519_from_bytes : bytes -> outcome string keypair;
  generate_ed25519 : bytes -> keypair;
}.

Section keys.
Context `{Hex}.

Definition decode_hex_32 (label value : bytes) : outcome KeyError bytes :=
  decoded ← map_err (InvalidHexText label) (hex_decode (normalized_hex value));
  if (length decoded =? 32)%nat then Ok decoded else Err (KeyLength label).

Context `{JsonText}.

(** The fields [secret_key] then [secret_key_hex] of a JSON object. *)
Definition json_secret_key (text : bytes) : outcome KeyError bytes :=
  v ← map_err InvalidKeyJson (json_parse text);
  match json_str v (bytes_of "secret_key") with
  | Some secret_key => decode_hex_32 (bytes_of "secret_key") secret_key
  | None =>
      match json_str v (bytes_of "secret_key_hex") with
      | Some secret_key => decode_hex_32 (bytes_of "secret_key_hex") secret_key
      | None => Err NoKeyField
      end
  end.

Definition key_text (label text : bytes) : outcome KeyError bytes :=
  let trimmed := trim text in
  if starts_with trimmed (bytes_of "{") then json_secret_key trimmed
  else decode_hex_32 label trimmed.

Definition parse_network_secret_key_file_contents (raw : bytes) : outcome KeyError bytes :=
  if utf8_valid raw then key_text (bytes_of "PRIMS_NETWORK_SECRET_KEY_FILE") raw
  else Err NotUtf8.

Context `{Identity}.

(** [random] is what the random generator drew. *)
Definition load_network_identity_keypair (e : env) (fs : file_system) (random : bytes) :
  outcome KeyError keypair :=
  match env_var e (bytes_of "PRIMS_NETWORK_SECRET_KEY_FILE") with
  | Some path =>
      raw ← ok_or (KeyFileUnreadable path) (fs !! path);
      secret ← parse_network_secret_key_file_contents raw;
      map_err InvalidKeypair (ed25519_from_bytes secret)
  | None =>
      match env_var e (bytes_of "PRIMS_NETWORK_SECRET_KEY_HEX") with
      | Some value =>
          secret ← decode_hex_32 (bytes_of "PRIMS_NETWORK_SECRET_KEY_HEX") value;
          map_err InvalidKeypair (ed25519_from_bytes secret)
      | None => Ok (generate_ed25519 random)
      end
  end.
End keys.

(** ** Lemmas *)

Lemma env_var_ascii (e : env) (name value : bytes) :
  e !! name = Some value -> Forall ascii value -> env_var e name = Some value.
Proof. intros E A. unfold env_var. rewrite E. cbn. by rewrite utf8_valid_ascii. Qed.

Lemma env_var_absent (e : env) (name : bytes) : e !! name = None -> env_var e name = None.
Proof. unfold env_var. by intros ->. Qed.

Lemma parse_env_range (w : Z) (e : env) (name : bytes) (d : Z) : 0 <= d < 2 ^ w -> 0 <= parse_env w e name d < 2 ^ w.
Proof.
  intros D. unfold parse_env. destruct (env_var e name ≫= parse_uint w) as [n|] eqn:E; [|done].
  apply bind_Some in E as (v & _ & E). unfold parse_uint in E.
  apply bind_Some in E as (u & _ & E). apply checked_Some in E. lia.
Qed.

(** An address as it can stand in a list of seeds, between blanks. *)
Record seed_text := { seed_before : bytes; seed_address : bytes; seed_after : bytes }.

Definition seed_ok (s : seed_text) : Prop :=
  Forall blank (seed_before s) /\ Forall blank (seed_after s) /\ seed_address s <> [] /\
  Forall (fun b => printable b /\ b <> x2c) (seed_address s).

Definition written (s : seed_text) : bytes := seed_before s ++ seed_address s ++ seed_after s.

Lemma blank_not_comma b : blank b -> b <> x2c.
Proof. intros B ->. unfold blank in B. vm_compute in B. intuition congruence. Qed.

Lemma written_ok s :
  seed_ok s -> trim (written s) = seed_address s /\ (x2c ∉ written s) /\ Forall ascii (written s).
Proof.
  intros (Fb & Fa & N & Ft). apply Forall_and in Ft as [Fp Fc]. split; [by apply trim_padded|].
  assert (forall l, Forall blank l -> x2c ∉ l) as NB.
  { intros l F I. rewrite Forall_forall in F. exact (blank_not_comma _ (F _ I) eq_refl). }
  unfold written. split.
  - rewrite !elem_of_app. intros [I|[I|I]]; [by apply (NB _ Fb)| |by apply (NB _ Fa)].
    rewrite Forall_forall in Fc. by apply (Fc _ I).
  - rewrite !Forall_app. repeat split; (eapply Forall_impl; [exact Fb || exact Fp || exact Fa|]);
      unfold blank, printable, ascii; lia.
Qed.

Lemma join_ascii ps : Forall (Forall ascii) ps -> Forall ascii (join_with x2c ps).
Proof.
  induction 1 as [|p ps P F IH]; [done|]. destruct ps; [done|]. cbn [join_with].
  apply Forall_app. split; [done|]. constructor; [done|exact IH].
Qed.

Lemma parse_seed_nodes_written l :
  Forall seed_ok l -> parse_seed_nodes (join_with x2c (written <$> l)) = seed_address <$> l.
Proof.
  intros F. unfold parse_seed_nodes. destruct (decide (l = [])) as [->|N]; [by vm_compute|].
  rewrite split_at_join_with.
  - clear N. induction F as [|s l S F IH]; [done|]. cbn [fmap list_fmap].
    rewrite (proj1 (written_ok s S)), filter_cons_True by apply S. by rewrite IH.
  - by destruct l.
  - apply Forall_fmap. eapply Forall_impl; [exact F|]. intros s S. apply (written_ok s S).
Qed.

(** The configuration a node starts with, from any
    environment: each limit is a value of its type; a limit whose variable
    holds the decimal text of a value of its type is that value, and a limit
    without variable is its default; a list of addresses, separated by commas
    with any blanks around them, is read back as it was meant, in order. *)
Theorem environment_configures (e : env) :
  wf (config_limits (NetworkConfig_default e)) /\
  (forall (w : Z) (name : bytes) (d n : Z), 0 <= n < 2 ^ w -> e !! name = Some (dec_bytes n) -> parse_env w e name d = n) /\
  (forall (w : Z) (name : bytes) (d : Z), e !! name = None -> parse_env w e name d = d) /\
  (forall l, Forall seed_ok l ->
     e !! bytes_of "PRIMS_SEED_NODES" = Some (join_with x2c (written <$> l)) ->
     seed_nodes (NetworkConfig_default e) = seed_address <$> l).
Proof.
  split; [|split; [|split]].
  - repeat split; cbn [NetworkConfig_default config_limits]; by apply parse_env_range.
  - intros w name d n R E. unfold parse_env.
    rewrite (env_var_ascii e name _ E) by apply dec_bytes_ascii. cbn [mbind option_bind].
    by rewrite parse_dec.
  - intros w name d E. unfold parse_env. by rewrite env_var_absent.
  - intros l F E. cbn [NetworkConfig_default seed_nodes].
    erewrite env_var_ascii; [|exact E|].
    + by apply parse_seed_nodes_written.
    + apply join_ascii, Forall_fmap. eapply Forall_impl; [exact F|]. intros s S. apply (written_ok s S).
Qed.

(** ** Witness *)

#[global] Instance blank_dec b : Decision (blank b).
Proof. unfold blank. apply _. Defined.

#[global] Instance printable_dec b : Decision (printable b).
Proof. unfold printable. apply _. Defined.

#[global] Instance seed_ok_dec s : Decision (seed_ok s).
Proof. unfold seed_ok. apply _. Defined.

Definition sample_seeds : list seed_text := [
  {| seed_before := bytes_of " "; seed_address := bytes_of "/ip4/10.0.0.1/tcp/7001"; seed_after := bytes_of " " |};
  {| seed_before := []; seed_address := bytes_of "/dns/seed/tcp/7001"; seed_after := [] |} ].

Definition sample_env : env :=
  <[bytes_of "PRIMS_SEED_NODES" := bytes_of " /ip4/10.0.0.1/tcp/7001 ,/dns/seed/tcp/7001"]>
  {[ bytes_of "PRIMS_TEMPORARY_BAN_SECS" := bytes_of "90" ]}.

From S2P Require Import Concrete.

Lemma environment_configures_witness :
  wf (config_limits (NetworkConfig_default sample_env)) /\
  temporary_ban_secs (config_limits (NetworkConfig_default sample_env)) = 90 /\
  reconnect_delay_secs (config_limits (NetworkConfig_default sample_env)) = 5 /\
  seed_nodes (NetworkConfig_default sample_env) =
    [bytes_of "/ip4/10.0.0.1/tcp/7001"; bytes_of "/dns/seed/tcp/7001"].
Proof.
  destruct (environment_configures sample_env) as (W & V & D & S). split; [exact W|].
  split; [|split].
  - apply V; [split; vm_compute; done|vm_compute; reflexivity].
  - apply D. vm_compute. reflexivity.
  - apply (S sample_seeds); [by_eval|vm_compute; reflexivity].
Defined.
