(* ===== verification/Gossip.v ===== *)
(** * Messages between nodes ([src/network/message.rs], [gossip.rs], [node.rs], [src/main.rs])

    The messages and their encoding, what a node publishes for its
    transactions, blocks and votes, and what the event loop of a node does
    with a message it receives.  The gossip protocol ([libp2p]) is the class
    [Gossipsub]. *)

From Stdlib Require Import Strings.Byte.
From S2P Require Import Prelude Orders Bytes Text Externals Types Hash Votes Mempool.

(** ** Messages *)

Record NetworkTransaction := {
  ntx_id : bytes;
  ntx_payload : bytes;
}.

Record NetworkBlock := {
  nblk_height : Z;
  nblk_hash : bytes;
  nblk_transactions : list NetworkTransaction;
}.

Record NetworkVote := {
  nvote_height : Z;
  nvote_block_hash : bytes;
  nvote_voter : bytes;
  nvote_approve : bool;
  nvote_signature : bytes;
}.

Inductive Message :=
| Ping
| Pong
| NewTransaction (tx : NetworkTransaction)
| NewBlock (block : NetworkBlock)
| GetBlocks (height : Z)
| Blocks (blocks : list NetworkBlock)
| VoteMessage (vote : NetworkVote).

#[global] Instance NetworkTransaction_wf : WellFormed NetworkTransaction := fun t =>
  vec_ok (ntx_id t) /\ vec_ok (ntx_payload t).

#[global] Instance NetworkBlock_wf : WellFormed NetworkBlock := fun b =>
  u64 (nblk_height b) /\ vec_ok (nblk_hash b) /\ wf (nblk_transactions b).

#[global] Instance NetworkVote_wf : WellFormed NetworkVote := fun v =>
  u64 (nvote_height v) /\ vec_ok (nvote_block_hash v) /\ vec_ok (nvote_voter v) /\
  vec_ok (nvote_signature v).

#[global] Instance Message_wf : WellFormed Message := fun m =>
  match m with
  | Ping | Pong => True
  | NewTransaction tx => wf tx
  | NewBlock b => wf b
  | GetBlocks h => u64 h
  | Blocks bs => wf bs
  | VoteMessage v => wf v
  end.

Section message.
Context `{!Bincode Message}.

Definition to_bytes (m : Message) : outcome string bytes := bincode_serialize m.
Definition from_bytes (b : bytes) : outcome string Message := bincode_deserialize b.
End message.

(** ** Topics *)

Definition BLOCKS_TOPIC_NAME : bytes := bytes_of "prims.blocks".
Definition TRANSACTIONS_TOPIC_NAME : bytes := bytes_of "prims.transactions".
Definition VOTES_TOPIC_NAME : bytes := bytes_of "prims.votes".

(** The topics [build_gossipsub] subscribes to, then the one of [main]. *)
Definition build_gossipsub_topics : list bytes :=
  [BLOCKS_TOPIC_NAME; TRANSACTIONS_TOPIC_NAME; VOTES_TOPIC_NAME].

Definition node_topics : list bytes := build_gossipsub_topics ++ [bytes_of "prims-testnet"].

(** ** Conversions *)

Definition HEX : bytes := bytes_of "0123456789abcdef".

(** [HEX[index] as char] *)
Definition hex_char {E} (index : Z) : outcome E byte := expect (HEX !! Z.to_nat index).

Fixpoint bytes_to_hex {E} (b : bytes) : outcome E bytes :=
  match b with
  | [] => Ok []
  | x :: b' =>
      high ← hex_char (Z.shiftr (byte_val x) 4);
      low ← hex_char (Z.land (byte_val x) 15);
      rest ← bytes_to_hex b';
      Ok (high :: low :: rest)
  end.

Section conversions.
Context `{Sha256, ChainCodecs}.

Definition blockchain_transaction_to_network_transaction {E} (tx : Transaction) :
  outcome E NetworkTransaction :=
  tx_hash ← hash_transaction tx;
  id ← bytes_to_hex tx_hash;
  payload ← expect_ok (bincode_serialize tx);
  Ok {| ntx_id := id; ntx_payload := payload |}.

Definition blockchain_block_to_network_block {E} (block : Block) : outcome E NetworkBlock :=
  block_hash ← hash_block_header (blk_header block);
  hash ← bytes_to_hex block_hash;
  txs ← mapM blockchain_transaction_to_network_transaction (blk_transactions block);
  Ok {| nblk_height := hdr_height (blk_header block); nblk_hash := hash; nblk_transactions := txs |}.

Definition consensus_vote_to_network_vote (v : ConsensusVote) : NetworkVote := {|
  nvote_height := vote_height v; nvote_block_hash := vote_block_hash v;
  nvote_voter := vote_voter v; nvote_approve := vote_approve v;
  nvote_signature := vote_signature v |}.
End conversions.

(** ** Publishing *)

(** [gossipsub.publish(topic, bytes)] *)
Class Gossipsub := {
  swarm : Type;
  message_id : Type;
  gossip_publish : swarm -> bytes -> bytes -> outcome string message_id * swarm;
}.

Inductive PublishError :=
| Encoding (message : string)
| Publish (message : string).

Section publish.
Context `{Sha256, ChainCodecs, !Bincode Message, Gossipsub}.

Definition publish_message (s : swarm) (topic : bytes) (m : Message) :
  outcome PublishError message_id * swarm :=
  match map_err Encoding (to_bytes m) with
  | Ok encoded => let '(r, s') := gossip_publish s topic encoded in (map_err Publish r, s')
  | Err e => (Err e, s)
  | Panic => (Panic, s)
  end.

Definition publish_transaction (s : swarm) (tx : Transaction) :
  outcome PublishError message_id * swarm :=
  match blockchain_transaction_to_network_transaction tx with
  | Ok network_transaction =>
      publish_message s TRANSACTIONS_TOPIC_NAME (NewTransaction network_transaction)
  | Err e => (Err e, s)
  | Panic => (Panic, s)
  end.

Definition publish_proposed_block (s : swarm) (block : Block) :
  outcome PublishError message_id * swarm :=
  match blockchain_block_to_network_block block with
  | Ok network_block => publish_message s BLOCKS_TOPIC_NAME (NewBlock network_block)
  | Err e => (Err e, s)
  | Panic => (Panic, s)
  end.

Definition publish_vote (s : swarm) (v : ConsensusVote) : outcome PublishError message_id * swarm :=
  publish_message s VOTES_TOPIC_NAME (VoteMessage (consensus_vote_to_network_vote v)).
End publish.

(** ** Receiving *)

(** What the event loop prints about a message. *)
Inductive gossip_log :=
| Dispatched
| Undecodable (id : bytes) (message : string)
| Protocol (m : Message)
| RawText (data : bytes)
| RawLatency (published_at_ms received_at_ms latency_ms : Z) (body : bytes).

Section receive.
Context `{ChainCodecs, !Bincode Message}.

Definition separator : byte := x7c.

(** The arm of [main] for [gossipsub::Event::Message], on the pool of the
    node; [now] is the clock, whose failure ends [main].  Bytes that are no
    message are printed as text, in which [from_utf8_lossy] replaces invalid
    sequences: it does not touch the separator nor a valid number before it. *)
Definition on_gossip_message (now : outcome string Z) (mempool : Mempool) (data : bytes) :
  outcome string (gossip_log * Mempool) :=
  match from_bytes data with
  | Ok (NewTransaction network_transaction) =>
      match (bincode_deserialize (ntx_payload network_transaction) : outcome string Transaction) with
      | Ok transaction =>
          mempool' ← add_transaction mempool transaction;
          Ok (Dispatched, mempool')
      | Err error => Ok (Undecodable (ntx_id network_transaction) error, mempool)
      | Panic => Panic
      end
  | Ok decoded_message => Ok (Protocol decoded_message, mempool)
  | Err _ =>
      match split_once separator data with
      | Some (published_at_raw, body) =>
          match parse_uint 128 published_at_raw with
          | Some published_at_ms =>
              received_at_ms ← now;
              let latency_ms := saturating 128 (received_at_ms - published_at_ms) in
              Ok (RawLatency published_at_ms received_at_ms latency_ms body, mempool)
          | None => Ok (RawText data, mempool)
          end
      | None => Ok (RawText data, mempool)
      end
  | Panic => Panic
  end.
End receive.

(** ** Lemmas *)

Lemma hex_char_Ok {E} i : 0 <= i < 16 -> exists c, HEX !! Z.to_nat i = Some c /\ hex_char (E := E) i = Ok c.
Proof.
  intros R. unfold hex_char. destruct (lookup_lt_is_Some_2 HEX (Z.to_nat i)) as [c Ec];
    [change (length HEX) with 16%nat; lia|]. exists c. by rewrite Ec.
Qed.

Lemma HEX_inj i j c : HEX !! i = Some c -> HEX !! j = Some c -> i = j.
Proof.
  assert (NoDup HEX) as N by (apply (bool_decide_unpack _); vm_compute; exact I). intros I J. by eapply NoDup_lookup.
Qed.

Lemma byte_halves x :
  0 <= Z.shiftr (byte_val x) 4 < 16 /\ 0 <= Z.land (byte_val x) 15 < 16 /\
  byte_val x = 16 * Z.shiftr (byte_val x) 4 + Z.land (byte_val x) 15.
Proof.
  pose proof (byte_val_range x) as R. rewrite Z.shiftr_div_pow2 by lia.
  change 15 with (Z.ones 4). rewrite Z.land_ones by lia. change (2 ^ 4) with 16.
  pose proof (Z.mod_pos_bound (byte_val x) 16). pose proof (Z.div_mod (byte_val x) 16).
  split; [split; [apply Z.div_pos; lia|apply Z.div_lt_upper_bound; lia]|lia].
Qed.

(** The hexadecimal text: total, two digits per byte, and injective. *)
Lemma bytes_to_hex_Ok {E} b : exists t,
  bytes_to_hex (E := E) b = Ok t /\ length t = (2 * length b)%nat /\ Forall (fun c => c ∈ HEX) t.
Proof.
  induction b as [|x b (t & Et & L & F)]; [by exists []|]. destruct (byte_halves x) as (Rh & Rl & _).
  destruct (hex_char_Ok (E := E) _ Rh) as (h & Lh & Eh), (hex_char_Ok (E := E) _ Rl) as (l & Ll & El).
  exists (h :: l :: t). cbn [bytes_to_hex]. rewrite Eh, El. cbn [mbind outcome_bind]. rewrite Et.
  split; [done|]. split; [cbn; lia|].
  constructor; [by eapply list_elem_of_lookup_2|]. constructor; [by eapply list_elem_of_lookup_2|done].
Qed.

Lemma bytes_to_hex_cons {E} x b t :
  bytes_to_hex (E := E) (x :: b) = Ok t <-> exists h l r,
    t = h :: l :: r /\ HEX !! Z.to_nat (Z.shiftr (byte_val x) 4) = Some h /\
    HEX !! Z.to_nat (Z.land (byte_val x) 15) = Some l /\ bytes_to_hex (E := E) b = Ok r.
Proof.
  cbn [bytes_to_hex]. unfold hex_char. split.
  - intros (h & Eh%expect_Ok & (l & El%expect_Ok & (r & Er & [= <-])%bind_Ok)%bind_Ok)%bind_Ok.
    by exists h, l, r.
  - intros (h & l & r & -> & -> & -> & Er). cbn [expect mbind outcome_bind]. by rewrite Er.
Qed.

Lemma bytes_to_hex_inj {E E'} b b' t :
  bytes_to_hex (E := E) b = Ok t -> bytes_to_hex (E := E') b' = Ok t -> b = b'.
Proof.
  revert b' t. induction b as [|x b IH]; intros [|x' b'] t Eb Eb'; [done|..].
  - injection Eb as <-. by apply bytes_to_hex_cons in Eb' as (? & ? & ? & ? & _).
  - injection Eb' as <-. by apply bytes_to_hex_cons in Eb as (? & ? & ? & ? & _).
  - apply bytes_to_hex_cons in Eb as (h & l & r & -> & Lh & Ll & Er).
    apply bytes_to_hex_cons in Eb' as (h' & l' & r' & [= <- <- <-] & Lh' & Ll' & Er').
    pose proof (HEX_inj _ _ _ Lh Lh') as Eh. pose proof (HEX_inj _ _ _ Ll Ll') as El.
    destruct (byte_halves x) as (Rh & Rl & V), (byte_halves x') as (Rh' & Rl' & V').
    f_equal; [|by eapply IH]. rewrite <- (byte_of_val x), <- (byte_of_val x'). f_equal. lia.
Qed.

(** The text does not depend on the error type. *)
Lemma bytes_to_hex_any {E E'} b t : bytes_to_hex (E := E) b = Ok t -> bytes_to_hex (E := E') b = Ok t.
Proof.
  revert t. induction b as [|x b IH]; intros t Eb; [by injection Eb as <-|].
  apply bytes_to_hex_cons in Eb as (h & l & r & -> & Lh & Ll & Er). apply bytes_to_hex_cons.
  exists h, l, r. auto.
Qed.

Lemma hash_text_ok {E} `{Sha256Ok} x t : bytes_to_hex (E := E) (sha256 x) = Ok t -> vec_ok t.
Proof.
  destruct (bytes_to_hex_Ok (E := E) (sha256 x)) as (t' & Et & L & _). rewrite Et. intros [= <-].
  unfold vec_ok. rewrite L, sha256_length. lia.
Qed.

(** ** Publishing and receiving *)

Section gossip.
Context `{Sha256Ok, ChainCodecsOk, !Bincode Message, !BincodeOk Message}.

Lemma network_transaction_Ok {E} tx b :
  bincode_serialize tx = Ok b -> exists id,
    bytes_to_hex (E := E) (sha256 b) = Ok id /\
    blockchain_transaction_to_network_transaction (E := E) tx =
      Ok {| ntx_id := id; ntx_payload := b |} /\
    length id = 64%nat.
Proof.
  intros Eb. destruct (bytes_to_hex_Ok (E := E) (sha256 b)) as (id & Ei & L & _). exists id.
  split; [done|]. split; [|by rewrite L, sha256_length].
  unfold blockchain_transaction_to_network_transaction, hash_transaction. rewrite Eb.
  cbn [expect_ok mbind outcome_bind]. by rewrite Ei.
Qed.

(** The network form of a block's transactions. *)
Lemma network_transactions_Ok {E} (txs : list Transaction) :
  Forall wf txs -> exists nts,
    mapM (M := outcome E) blockchain_transaction_to_network_transaction txs = Ok nts /\
    Forall2 (fun tx nt => bincode_serialize tx = Ok (ntx_payload nt) /\
      bytes_to_hex (E := E) (sha256 (ntx_payload nt)) = Ok (ntx_id nt)) txs nts.
Proof.
  induction 1 as [|tx txs W _ (nts & En & F)]; [by exists []|].
  destruct (bincode_total tx W) as [b Eb]. destruct (network_transaction_Ok (E := E) tx b Eb) as (id & Ei & Et & _).
  exists ({| ntx_id := id; ntx_payload := b |} :: nts).
  split; [cbn [mapM]; rewrite Et; cbn [mbind outcome_bind]; rewrite En; done|].
  by constructor.
Qed.

Lemma network_transactions_wf {E} (txs : list Transaction) nts :
  Forall2 (fun tx nt => bincode_serialize tx = Ok (ntx_payload nt) /\
      bytes_to_hex (E := E) (sha256 (ntx_payload nt)) = Ok (ntx_id nt)) txs nts ->
  Forall (fun tx : Transaction => forall b, bincode_serialize tx = Ok b -> vec_ok b) txs ->
  Forall wf nts.
Proof.
  induction 1 as [|tx nt txs nts [Es Ei] _ IH]; intros V; [constructor|].
  apply Forall_cons in V as [Vx V]. constructor; [|by apply IH].
  split; [by eapply hash_text_ok|by apply Vx].
Qed.

Lemma network_transactions_decode {E} (txs : list Transaction) nts :
  Forall2 (fun tx nt => bincode_serialize tx = Ok (ntx_payload nt) /\
      bytes_to_hex (E := E) (sha256 (ntx_payload nt)) = Ok (ntx_id nt)) txs nts ->
  Forall wf txs ->
  mapM (M := outcome string) (fun nt => bincode_deserialize (ntx_payload nt)) nts = Ok txs.
Proof.
  induction 1 as [|tx nt txs nts [Es _] _ IH]; intros W; [done|].
  apply Forall_cons in W as [Wx W]. cbn [mapM]. rewrite (bincode_roundtrip tx _ Wx Es).
  cbn [mbind outcome_bind]. by rewrite (IH W).
Qed.

(** What a node hands to the gossip protocol for a transaction. *)
Lemma transaction_message_Ok tx b :
  bincode_serialize tx = Ok b -> vec_ok b -> exists nt data,
    blockchain_transaction_to_network_transaction (E := PublishError) tx = Ok nt /\
    ntx_payload nt = b /\ to_bytes (NewTransaction nt) = Ok data /\
    from_bytes data = Ok (NewTransaction nt).
Proof.
  intros Eb V. destruct (network_transaction_Ok (E := PublishError) tx b Eb) as (id & _ & En & L).
  assert (wf (NewTransaction {| ntx_id := id; ntx_payload := b |})) as W.
  { split; [|done]. unfold vec_ok. cbn. rewrite L. lia. }
  destruct (bincode_total _ W) as [data Ed]. eexists _, data. split; [done|]. split; [done|].
  split; [exact Ed|]. by apply (bincode_roundtrip _ _ W).
Qed.

Lemma receive_transaction now mempool nt data tx :
  from_bytes data = Ok (NewTransaction nt) -> bincode_deserialize (ntx_payload nt) = Ok tx ->
  routed mempool -> exists mempool',
    on_gossip_message now mempool data = Ok (Dispatched, mempool') /\ routed mempool' /\
    concat (partitions mempool') ≡ₚ tx :: concat (partitions mempool).
Proof.
  intros Ed Et R. destruct (add_transaction_routed (E := string) mempool tx R) as (m & Em & Rm & _).
  exists m. unfold on_gossip_message. rewrite Ed, Et, Em.
  split; [done|]. split; [done|]. by apply (add_transaction_pending (E := string)).
Qed.
End gossip.
