(* ===== verification/GossipSpec.v ===== *)
(** * Properties of the gossip between nodes

    What one node publishes, the others receive: transactions end up in the
    pool, blocks and votes arrive as they were sent.  No data panics the event
    loop; and a transaction received this way skips the checks of the
    submission of file [Api]. *)

From S2P Require Import Prelude Orders Bytes Text Externals Types Hash Crypto Votes Mempool Notes Keys Store Storage Ledger StorageSpec Vm VmSpec Api ApiSpec Gossip.
Import DigestAddresses.

(** The vote a network vote carries. *)
Definition vote_of_network (v : NetworkVote) : ConsensusVote := {|
  vote_height := nvote_height v; vote_block_hash := nvote_block_hash v;
  vote_voter := nvote_voter v; vote_approve := nvote_approve v;
  vote_signature := nvote_signature v |}.

(** [r] is the answer of the protocol to publishing [data]. *)
Definition publishes `{Gossipsub} (s : swarm) (topic data : bytes)
    (r : outcome PublishError message_id * swarm) : Prop :=
  r = let '(answer, s') := gossip_publish s topic data in (map_err Publish answer, s').

Section properties.
Context `{Sha256Ok, ChainCodecsOk, !Bincode Message, !BincodeOk Message, Gossipsub}.

Lemma publish_message_Ok s topic m data :
  to_bytes m = Ok data -> publishes s topic data (publish_message s topic m).
Proof. unfold publishes, publish_message. by intros ->. Qed.

(** Publishing a transaction hands the gossip protocol, on
    a topic every node subscribes to, data that any node receiving it decodes
    to exactly that transaction and adds to its pool, whatever the pool holds. *)
Theorem gossip_delivers s tx b :
  wf tx -> bincode_serialize tx = Ok b -> vec_ok b -> exists data,
    publishes s TRANSACTIONS_TOPIC_NAME data (publish_transaction s tx) /\
    TRANSACTIONS_TOPIC_NAME ∈ node_topics /\
    forall now mempool, routed mempool -> exists mempool',
      on_gossip_message now mempool data = Ok (Dispatched, mempool') /\ routed mempool' /\
      concat (partitions mempool') ≡ₚ tx :: concat (partitions mempool).
Proof.
  intros W Eb V. destruct (transaction_message_Ok tx b Eb V) as (nt & data & En & Ep & Ed & Ef).
  exists data. split; [|split].
  - unfold publish_transaction. rewrite En. by apply publish_message_Ok.
  - by repeat constructor.
  - intros now mempool R. eapply receive_transaction; [exact Ef| |exact R].
    rewrite Ep. by apply (bincode_roundtrip tx b W).
Qed.

(** A published block arrives with its
    height, the hexadecimal hash of its header and all its transactions, in
    order; a published vote arrives as it was cast. The receiver only reports
    them: its pool is unchanged. *)
Theorem published_content_recoverable s block vote :
  wf block -> wf vote ->
  Forall (fun tx : Transaction => forall b, bincode_serialize tx = Ok b -> vec_ok b)
    (blk_transactions block) -> exists nb nv data data',
    publishes s BLOCKS_TOPIC_NAME data (publish_proposed_block s block) /\
    publishes s VOTES_TOPIC_NAME data' (publish_vote s vote) /\
    nblk_height nb = hdr_height (blk_header block) /\
    (h ← hash_block_header (blk_header block); bytes_to_hex h) = Ok (E := Empty_set) (nblk_hash nb) /\
    mapM (M := outcome string) (fun nt => bincode_deserialize (ntx_payload nt))
      (nblk_transactions nb) = Ok (blk_transactions block) /\
    vote_of_network nv = vote /\
    forall now mempool,
      on_gossip_message now mempool data = Ok (Protocol (NewBlock nb), mempool) /\
      on_gossip_message now mempool data' = Ok (Protocol (VoteMessage nv), mempool).
Proof.
  intros W Wv Vp. pose proof W as (Wh & [Vt Ft] & _).
  destruct (network_transactions_Ok (E := PublishError) _ Ft) as (nts & En & F2).
  destruct (bincode_total _ Wh) as [e Ee].
  destruct (bytes_to_hex_Ok (E := PublishError) (sha256 e)) as (id & Ei & L & _).
  set (nb := {| nblk_height := hdr_height (blk_header block); nblk_hash := id; nblk_transactions := nts |}).
  set (nv := consensus_vote_to_network_vote vote).
  assert (wf (NewBlock nb)) as Wn.
  { split; [apply Wh|]. split; [by eapply hash_text_ok|].
    split; [unfold vec_ok in *; cbn; by rewrite <- (Forall2_length _ _ _ F2)|].
    by eapply network_transactions_wf. }
  assert (wf (VoteMessage nv)) as Wnv by apply Wv.
  destruct (bincode_total _ Wn) as [data Ed], (bincode_total _ Wnv) as [data' Ed'].
  exists nb, nv, data, data'.
  assert (blockchain_block_to_network_block (E := PublishError) block = Ok nb) as Eb.
  { unfold blockchain_block_to_network_block, hash_block_header. rewrite Ee.
    cbn [expect_ok mbind outcome_bind]. rewrite Ei. cbn [mbind outcome_bind]. by rewrite En. }
  split; [unfold publish_proposed_block; rewrite Eb; by apply publish_message_Ok|].
  split; [by apply publish_message_Ok|]. split; [done|]. split.
  { unfold hash_block_header. rewrite Ee. cbn [expect_ok mbind outcome_bind].
    by apply (bytes_to_hex_any (E := PublishError)). }
  split; [exact (network_transactions_decode _ _ F2 Ft)|].
  split; [by destruct vote|]. intros now mempool. unfold on_gossip_message, from_bytes.
  by rewrite (bincode_roundtrip _ _ Wn Ed), (bincode_roundtrip _ _ Wnv Ed').
Qed.

(** Whatever data the network delivers, the event loop handles it ([bincode]
    returning): it never panics, it stops only when the clock fails while it
    reads a timed text, and the pool changes in one case only: a message that
    carries a decodable transaction adds that transaction. *)
Theorem gossip_reception_total `{!BincodeTyped Transaction} now mempool data :
  from_bytes data <> Panic -> now <> Panic -> routed mempool ->
  match on_gossip_message now mempool data with
  | Ok (Dispatched, mempool') => routed mempool' /\ exists nt tx,
      from_bytes data = Ok (NewTransaction nt) /\ bincode_deserialize (ntx_payload nt) = Ok tx /\
      concat (partitions mempool') ≡ₚ tx :: concat (partitions mempool)
  | Ok (_, mempool') => mempool' = mempool
  | Err e => now = Err e /\ is_ok (from_bytes data) = false
  | Panic => False
  end.
Proof.
  intros NP NC R. unfold on_gossip_message. destruct (from_bytes data) as [m|e|] eqn:Ed; [|..|done].
  - destruct m as [| |nt| | | |]; try done.
    destruct (bincode_deserialize (A := Transaction) (ntx_payload nt)) as [tx|e|] eqn:Et;
      [|done|by apply bincode_no_panic in Et].
    destruct (receive_transaction now mempool nt data tx Ed Et R) as (m' & Em & R' & Pm).
    unfold on_gossip_message in Em. rewrite Ed, Et in Em. rewrite Em. split; [done|]. by exists nt, tx.
  - destruct (split_once separator data) as [[pre body]|]; [|done].
    destruct (parse_uint 128 pre); [|done]. by destruct now.
Qed.
End properties.

(** The network is not held to the rules of the
    interface: a transaction that is not admissible (a wrong signature, a used
    nonce, an uncovered amount), which a submission refuses, enters the pool
    of every node that receives it from the network. *)
Theorem gossip_skips_validation {S} `{KvStoreOk S, Sha256Ok, Ed25519, ChainCodecsOk, WasmtimeOk}
    `{HexOk, RateLimiter, !Bincode ViewableNote, !BincodeOk ViewableNote, !Bincode Hash32, !BincodeOk Hash32}
    `{!BincodeTyped Transaction, !BincodeTyped ContractCallPayload, !Bincode Message, !BincodeOk Message}
    L (st : RpcState S) tx b :
  represents (contents (rpc_storage st)) L -> routed (rpc_mempool st) ->
  wf tx -> bincode_serialize tx = Ok b -> vec_ok b -> vec_ok (encode_hex b) ->
  tx_type tx <> CallContract -> ~ admissible tx (led_accounts L !! tx_from tx) ->
  is_ok (run_io (send_transaction (encode_hex b)) st).1 = false /\ exists data, forall now, exists mempool',
    on_gossip_message now (rpc_mempool st) data = Ok (Dispatched, mempool') /\
    concat (partitions mempool') ≡ₚ tx :: pending st.
Proof.
  intros P R W Eb V Vh N A. split.
  - apply not_true_iff_false. intros O. apply A.
    by apply (send_iff L st tx b [] P R W Eb Vh (or_introl eq_refl) N).
  - destruct (transaction_message_Ok tx b Eb V) as (nt & data & _ & Ep & _ & Ef).
    exists data. intros now.
    destruct (receive_transaction now (rpc_mempool st) nt data tx Ef) as (m' & Em & _ & Pm);
      [rewrite Ep; by apply (bincode_roundtrip tx b W)|done|]. by exists m'.
Qed.

(** ** Witnesses *)

From S2P Require Import Concrete.
Import Concrete.Instances StorageInstances.

#[local] Existing Instances sample_engine sample_engine_ok toy_hex toy_hex_ok toy_limiter.

Definition c_ntx : codec NetworkTransaction :=
  c_map (fun '(a, b) => Build_NetworkTransaction a b) (fun t => (ntx_id t, ntx_payload t))
    (c_pair c_bytes c_bytes).

Definition c_nblock : codec NetworkBlock :=
  c_map (fun '(a, (b, c)) => Build_NetworkBlock a b c)
    (fun b => (nblk_height b, (nblk_hash b, nblk_transactions b)))
    (c_pair (c_uint 8) (c_pair c_bytes (c_list c_ntx))).

Definition c_nvote : codec NetworkVote :=
  c_map (fun '(a, (b, (c, (d, e)))) => Build_NetworkVote a b c d e)
    (fun v => (nvote_height v, (nvote_block_hash v, (nvote_voter v, (nvote_approve v, nvote_signature v)))))
    (c_pair (c_uint 8) (c_pair c_bytes (c_pair c_bytes (c_pair c_bool c_bytes)))).

Definition c_message : codec Message := {|
  enc := fun m =>
    match m with
    | Ping => le_bytes 4 0
    | Pong => le_bytes 4 1
    | NewTransaction tx => le_bytes 4 2 ++ enc c_ntx tx
    | NewBlock b => le_bytes 4 3 ++ enc c_nblock b
    | GetBlocks h => le_bytes 4 4 ++ enc (c_uint 8) h
    | Blocks bs => le_bytes 4 5 ++ enc (c_list c_nblock) bs
    | VoteMessage v => le_bytes 4 6 ++ enc c_nvote v
    end;
  dec := fun b =>
    '(t, b') ← dec (c_uint 4) b;
    match t with
    | 0 => Some (Ping, b')
    | 1 => Some (Pong, b')
    | 2 => '(x, b'') ← dec c_ntx b'; Some (NewTransaction x, b'')
    | 3 => '(x, b'') ← dec c_nblock b'; Some (NewBlock x, b'')
    | 4 => '(x, b'') ← dec (c_uint 8) b'; Some (GetBlocks x, b'')
    | 5 => '(x, b'') ← dec (c_list c_nblock) b'; Some (Blocks x, b'')
    | 6 => '(x, b'') ← dec c_nvote b'; Some (VoteMessage x, b'')
    | _ => None
    end;
|}.

Lemma c_ntx_ok : CodecOk wf c_ntx.
Proof. solve_codec. Qed.

Lemma c_nblock_ok : CodecOk wf c_nblock.
Proof. pose proof c_ntx_ok. solve_codec. Qed.

Lemma c_nvote_ok : CodecOk wf c_nvote.
Proof. pose proof c_bool_ok. solve_codec. Qed.

(** One variant with a payload. *)
Lemma dec_variant {A B} P (c : codec A) (f : A -> B) x r :
  CodecOk P c -> P x ->
  mbind (M := option) (fun '(y, b) => Some (f y, b)) (dec c (enc c x ++ r)) = Some (f x, r).
Proof. intros C Px. by rewrite (C x r Px). Qed.

Lemma c_message_ok : CodecOk wf c_message.
Proof.
  assert (CodecOk wf (c_list c_nblock)) as L by (apply c_list_ok, c_nblock_ok).
  intros [| |x|x|x|x|x] r W; [done|done|..]; cbn [enc c_message]; rewrite <- app_assoc.
  - exact (dec_variant wf c_ntx NewTransaction x r c_ntx_ok W).
  - exact (dec_variant wf c_nblock NewBlock x r c_nblock_ok W).
  - exact (dec_variant _ (c_uint 8) GetBlocks x r (c_uint_ok 8) W).
  - exact (dec_variant wf (c_list c_nblock) Blocks x r L W).
  - exact (dec_variant wf c_nvote VoteMessage x r c_nvote_ok W).
Qed.

#[local] Instance toy_message : Bincode Message := bincode_of c_message.
#[local] Instance toy_message_ok : BincodeOk Message := bincode_of_ok _ c_message_ok.

(** A protocol that records what is published. *)
#[local] Instance toy_gossip : Gossipsub := {|
  swarm := list (bytes * bytes); message_id := nat;
  gossip_publish := fun s topic data => (Ok (length s), s ++ [(topic, data)]) |}.

Definition no_messages : swarm := [].

Lemma gossip_delivers_witness : exists data,
  publishes no_messages TRANSACTIONS_TOPIC_NAME data (publish_transaction no_messages payment) /\
  TRANSACTIONS_TOPIC_NAME ∈ node_topics /\
  forall now mempool, routed mempool -> exists mempool',
    on_gossip_message now mempool data = Ok (Dispatched, mempool') /\ routed mempool' /\
    concat (partitions mempool') ≡ₚ payment :: concat (partitions mempool).
Proof.
  refine (gossip_delivers no_messages payment (enc c_transaction payment) _ eq_refl _);
    [solve_wf|by vm_compute].
Defined.

Definition sample_vote : ConsensusVote := {|
  vote_height := 3; vote_block_hash := fill 32 1; vote_voter := fill 32 4; vote_approve := true;
  vote_signature := fill 64 2 |}.

Definition payment_block : Block := {|
  blk_header := header_at 3 100; blk_transactions := [payment]; blk_receipts := [] |}.

Lemma published_content_recoverable_witness : exists nb nv data data',
  publishes no_messages BLOCKS_TOPIC_NAME data (publish_proposed_block no_messages payment_block) /\
  publishes no_messages VOTES_TOPIC_NAME data' (publish_vote no_messages sample_vote) /\
  nblk_height nb = 3 /\
  (h ← hash_block_header (blk_header payment_block); bytes_to_hex h) = Ok (E := Empty_set) (nblk_hash nb) /\
  mapM (M := outcome string) (fun nt => bincode_deserialize (ntx_payload nt))
    (nblk_transactions nb) = Ok [payment] /\
  vote_of_network nv = sample_vote /\
  forall now mempool,
    on_gossip_message now mempool data = Ok (Protocol (NewBlock nb), mempool) /\
    on_gossip_message now mempool data' = Ok (Protocol (VoteMessage nv), mempool).
Proof.
  refine (published_content_recoverable no_messages payment_block sample_vote _ _ _);
    [solve_wf|solve_wf|].
  repeat constructor. intros b E%(inj Ok). rewrite <- E. by vm_compute.
Defined.

(** A transaction message and a timed text. *)
Definition payment_message : bytes :=
  enc c_message (NewTransaction {| ntx_id := []; ntx_payload := enc c_transaction payment |}).

Lemma gossip_reception_total_witness : exists mempool',
  on_gossip_message (Ok 9) (with_partition_count 4) payment_message = Ok (Dispatched, mempool') /\
  routed mempool'.
Proof.
  assert (from_bytes payment_message <> Panic) as NP by (vm_compute; discriminate).
  assert ((Ok 9 : outcome string Z) <> Panic) as NC by discriminate.
  pose proof (gossip_reception_total (Ok 9) (with_partition_count 4) payment_message NP NC
    (with_partition_count_routed 4)) as G.
  assert (exists m, on_gossip_message (Ok 9) (with_partition_count 4) payment_message = Ok (Dispatched, m))
    as [m E] by (eexists; vm_compute; reflexivity).
  rewrite E in G. exists m. split; [exact E|apply G].
Defined.

Example timed_text :
  on_gossip_message (Ok 9) (with_partition_count 4) (bytes_of "5|hi") =
  Ok (RawLatency 5 9 4 (bytes_of "hi"), with_partition_count 4).
Proof. vm_compute. reflexivity. Qed.

(** A payment of more than the sender has, never signed. *)
Definition forged : Transaction := {|
  tx_type := Transfer; tx_from := sender_key; tx_to := fill 32 2; tx_amount := 5000; tx_fee := 1;
  tx_nonce := 3; tx_source_shard := 0; tx_destination_shard := 0; tx_signature := fill 64 0;
  tx_data := None |}.

Lemma forged_not_admissible : ~ admissible forged (led_accounts node_ledger !! sender_key).
Proof.
  intros A. pose proof (adm_signature _ _ A) as V.
  assert (verify_transaction forged (tx_from forged) = Ok false) as F by (vm_compute; reflexivity).
  rewrite F in V. discriminate V.
Qed.

Lemma gossip_skips_validation_witness :
  is_ok (run_io (send_transaction (encode_hex (enc c_transaction forged))) node).1 = false /\
  exists data, forall now, exists mempool',
    on_gossip_message now (rpc_mempool node) data = Ok (Dispatched, mempool') /\
    concat (partitions mempool') ≡ₚ forged :: pending node.
Proof.
  refine (gossip_skips_validation node_ledger node forged (enc c_transaction forged) node_represents
    node_routed _ eq_refl _ _ _ forged_not_admissible); [solve_wf|by vm_compute|by vm_compute|done].
Defined.
