(* ===== verification/Start.v ===== *)
(** * Starting a node ([src/network/node.rs], [behaviour.rs], [gossip.rs])

    The behaviours of a node, and [PrimsNode::new]: the identity key, the
    swarm, the addresses it listens on and announces, the seeds it dials.
    The constructors and operations of [libp2p] are the classes [Behaviours]
    and [Swarms]; their laws are [BehavioursOk] and [SwarmsOk]. *)

From Stdlib Require Import Strings.Byte.
From S2P Require Import Prelude Bytes Text Externals Types Peers Config Gossip.

(** ** The libraries *)

(** [gossipsub], [mdns] and [kad]; a topic is its name. *)
Class Behaviours `{Identity} := {
  peer_id : Type;
  peer_id_eq_dec :: EqDecision peer_id;
  peer_id_countable :: Countable peer_id;
  to_peer_id : keypair -> peer_id;
  gossipsub_behaviour : Type;
  gossipsub_new : keypair -> outcome string gossipsub_behaviour;
  subscribe : gossipsub_behaviour -> bytes -> outcome string gossipsub_behaviour;
  unsubscribe : gossipsub_behaviour -> bytes -> gossipsub_behaviour;
  mdns_behaviour : Type;
  mdns_new : peer_id -> outcome string mdns_behaviour;
  kademlia_behaviour : Type;
  kademlia_new : peer_id -> kademlia_behaviour;
}.

Record PrimsBehaviour `{Behaviours} := {
  gossipsub : gossipsub_behaviour;
  mdns : mdns_behaviour;
  kademlia : kademlia_behaviour;
}.

(** The arms of the event loops; the other events are [OtherEvent]. *)
Inductive SwarmEvent :=
| NewListenAddr (address : bytes)
| ConnectionEstablished (peer_id : bytes)
| Subscribed (peer_id subscribed_topic : bytes)
| GossipMessage (data : bytes)
| OtherEvent.

(** [SwarmBuilder] and [Swarm]; [behaviour] and [set_behaviour] are
    [behaviour_mut].  [select_timeout d] is one wait for an event for at most
    [d] milliseconds, and [now] the clock after what was done, in
    milliseconds. *)
Class Swarms `{Behaviours, Gossipsub} := {
  multiaddr : Type;
  parse_multiaddr : bytes -> outcome string multiaddr;
  transport : Type;
  with_tcp : keypair -> outcome string transport;
  build_swarm : transport -> PrimsBehaviour -> swarm;
  behaviour : swarm -> PrimsBehaviour;
  set_behaviour : swarm -> PrimsBehaviour -> swarm;
  swarm_peer_id : swarm -> peer_id;
  listen_on : swarm -> multiaddr -> outcome string unit * swarm;
  add_external_address : swarm -> multiaddr -> swarm;
  dial : swarm -> multiaddr -> outcome string unit * swarm;
  select_timeout : Z -> swarm -> option SwarmEvent * swarm;
  now : swarm -> Z;
}.

(** ** Operations *)

Inductive StartError :=
| StartKey (e : KeyError)
| TransportFailed (message : string)
| BehaviourFailed (message : string)
| BadAddress (text : bytes) (message : string)
| ListenFailed (message : string)
| DialFailed (message : string)
| SubscribeFailed (message : string)
| NodeIo (message : string).

Section behaviours.
Context `{Behaviours}.

Definition build_gossipsub (local_key : keypair) : outcome string gossipsub_behaviour :=
  behaviour ← gossipsub_new local_key;
  behaviour ← subscribe behaviour BLOCKS_TOPIC_NAME;
  behaviour ← subscribe behaviour TRANSACTIONS_TOPIC_NAME;
  behaviour ← subscribe behaviour VOTES_TOPIC_NAME;
  Ok behaviour.

Definition PrimsBehaviour_new (local_key : keypair) (local_peer_id : peer_id) :
  outcome string PrimsBehaviour :=
  gossipsub ← build_gossipsub local_key;
  mdns ← mdns_new local_peer_id;
  Ok {| gossipsub := gossipsub; mdns := mdns; kademlia := kademlia_new local_peer_id |}.
End behaviours.

Section start.
Context `{Hex, JsonText, Swarms}.

(** [connection_limits] and [peer_penalties] are one [PeerTable]. *)
Record PrimsNode := {
  prims_peer_id : peer_id;
  prims_swarm : swarm;
  prims_config : NetworkConfig;
  prims_peers : PeerTable (PeerId := peer_id);
}.

(** [parse()?] of an address of the configuration. *)
Definition address_of (text : bytes) : outcome StartError multiaddr :=
  map_err (BadAddress text) (parse_multiaddr text).

(** The loop over the seeds. *)
Fixpoint dial_seeds (s : swarm) (seeds : list bytes) : outcome StartError swarm :=
  match seeds with
  | [] => Ok s
  | seed :: seeds' =>
      addr ← address_of seed;
      match dial s addr with
      | (Ok _, s') => dial_seeds s' seeds'
      | (Err message, _) => Err (DialFailed message)
      | (Panic, _) => Panic
      end
  end.

(** On an error the swarm is dropped. *)
Definition PrimsNode_new (e : env) (fs : file_system) (random : bytes) (config : NetworkConfig) :
  outcome StartError PrimsNode :=
  local_key ← map_err StartKey (load_network_identity_keypair e fs random);
  t ← map_err TransportFailed (with_tcp local_key);
  b ← map_err BehaviourFailed (PrimsBehaviour_new local_key (to_peer_id local_key));
  let s := build_swarm t b in
  addr ← address_of (listen_address config);
  match listen_on s addr with
  | (Ok _, s) =>
      s ← match external_address config with
          | Some text => addr ← address_of text; Ok (add_external_address s addr)
          | None => Ok s
          end;
      s ← dial_seeds s (seed_nodes config);
      Ok {| prims_peer_id := swarm_peer_id s; prims_swarm := s; prims_config := config;
            prims_peers := {| connection_limits := config_limits config; peer_penalties := ∅ |} |}
  | (Err message, _) => Err (ListenFailed message)
  | (Panic, _) => Panic
  end.
End start.
