(* ===== verification/StartSpec.v ===== *)
(** * Properties of the start of a node

    What a started node is: its identity, its topics, the addresses it uses
    in order, its peers; and why a start fails. *)

From Stdlib Require Import Strings.Byte.
From S2P Require Import Prelude Bytes Text Externals Types Peers Config Gossip Start.

(** ** Laws of the libraries *)

Class BehavioursOk `{Behaviours} := {
  topics : gossipsub_behaviour -> gset bytes;
  gossipsub_new_topics k b : gossipsub_new k = Ok b -> topics b = ∅;
  subscribe_topics b t b' : subscribe b t = Ok b' -> topics b' = topics b ∪ {[t]};
  unsubscribe_topics b t : topics (unsubscribe b t) = topics b ∖ {[t]};
  gossipsub_new_returns k : gossipsub_new k <> Panic;
  subscribe_returns b t : subscribe b t <> Panic;
  mdns_new_returns p : mdns_new p <> Panic;
}.

(** What a swarm was told to do, in order. *)
Inductive swarm_command A :=
| Listen (a : A)
| Announce (a : A)
| Dial (a : A).
Arguments Listen {A}.
Arguments Announce {A}.
Arguments Dial {A}.

Class SwarmsOk `{Swarms} := {
  commands : swarm -> list (swarm_command multiaddr);
  (** A command is carried out, and changes nothing else. *)
  commanded (c : swarm_command multiaddr) (s s' : swarm) : Prop :=
    behaviour s' = behaviour s /\ swarm_peer_id s' = swarm_peer_id s /\ commands s' = commands s ++ [c];
  build_behaviour t b : behaviour (build_swarm t b) = b;
  build_peer k t b : with_tcp k = Ok t -> swarm_peer_id (build_swarm t b) = to_peer_id k;
  build_commands t b : commands (build_swarm t b) = [];
  listen_commanded s a s' : listen_on s a = (Ok tt, s') -> commanded (Listen a) s s';
  announce_commanded s a : commanded (Announce a) s (add_external_address s a);
  dial_commanded s a s' : dial s a = (Ok tt, s') -> commanded (Dial a) s s';
  set_behaviour_behaviour s b : behaviour (set_behaviour s b) = b;
  parse_multiaddr_returns text : parse_multiaddr text <> Panic;
  with_tcp_returns k : with_tcp k <> Panic;
  listen_on_returns s a : (listen_on s a).1 <> Panic;
  dial_returns s a : (dial s a).1 <> Panic;
}.

(** Reading JSON and key pairs returns. *)
Class KeysOk `{JsonText, Identity} : Prop := {
  json_parse_returns text : json_parse text <> Panic;
  ed25519_from_bytes_returns b : ed25519_from_bytes b <> Panic;
}.

(** ** Lemmas *)

(** A [do] block of operations that return. *)
Ltac returns := repeat first
  [ done | apply map_err_not_Panic | apply ok_or_not_Panic | apply bind_not_Panic; [|intros ? _]
  | apply hex_decode_no_panic | apply json_parse_returns | apply ed25519_from_bytes_returns
  | apply gossipsub_new_returns | apply subscribe_returns | apply mdns_new_returns
  | match goal with R : forall _ _, _ <> Panic |- _ => apply R end | case_match ].

Section start.
Context `{HexOk, KeysOk, !Behaviours, !BehavioursOk, !Gossipsub, !Swarms, !SwarmsOk}.

Lemma load_identity_returns e fs random : load_network_identity_keypair e fs random <> Panic.
Proof.
  assert (forall label text, decode_hex_32 label text <> Panic) as D by (intros; unfold decode_hex_32; returns).
  assert (forall label text, key_text label text <> Panic) as T
    by (intros; unfold key_text, json_secret_key; returns).
  unfold load_network_identity_keypair, parse_network_secret_key_file_contents. returns.
Qed.

Lemma PrimsBehaviour_topics key p : 
  match PrimsBehaviour_new key p with
  | Ok b => topics (gossipsub b) = list_to_set build_gossipsub_topics
  | Err _ => True
  | Panic => False
  end.
Proof.
  destruct (PrimsBehaviour_new key p) as [b|e|] eqn:E; [|done|].
  - unfold PrimsBehaviour_new, build_gossipsub in E.
    apply bind_Ok in E as (g & (g0 & E0 & (g1 & E1 & (g2 & E2 & (g3 & E3 & [= <-])%bind_Ok)%bind_Ok)%bind_Ok)%bind_Ok
      & (m & _ & [= <-])%bind_Ok). cbn [gossipsub].
    apply gossipsub_new_topics in E0. apply subscribe_topics in E1, E2, E3.
    rewrite E3, E2, E1, E0. unfold build_gossipsub_topics. cbn [list_to_set]. apply leibniz_equiv. set_solver +.
  - revert E. change (PrimsBehaviour_new key p <> Panic). unfold PrimsBehaviour_new, build_gossipsub. returns.
Qed.

(** The seeds are dialled in order. *)
Lemma dial_seeds_run s seeds :
  match dial_seeds s seeds with
  | Ok s' => behaviour s' = behaviour s /\ swarm_peer_id s' = swarm_peer_id s /\ exists addrs,
      Forall2 (fun text a => parse_multiaddr text = Ok a) seeds addrs /\
      commands s' = commands s ++ (Dial <$> addrs)
  | Err (BadAddress text message) => text ∈ seeds /\ parse_multiaddr text = Err message
  | Err (DialFailed message) => exists text a s1 s2,
      text ∈ seeds /\ parse_multiaddr text = Ok a /\ dial s1 a = (Err message, s2)
  | _ => False
  end.
Proof.
  revert s. induction seeds as [|seed seeds IH]; intros s; cbn [dial_seeds].
  { split; [done|]. split; [done|]. exists []. split; [constructor|]. by rewrite app_nil_r. }
  unfold address_of. destruct (parse_multiaddr seed) as [a|message|] eqn:P; cbn [map_err mbind outcome_bind].
  - pose proof (dial_returns s a) as N. destruct (dial s a) as [[[]|message|] s1] eqn:D;
      [|exists seed, a, s, s1; split; [by left|done]|by destruct N].
    apply dial_commanded in D as (Eb & Ep & Ec). specialize (IH s1).
    destruct (dial_seeds s1 seeds) as [s'|[]|]; try done.
    + destruct IH as (-> & -> & addrs & F & ->). split; [done|]. split; [done|].
      exists (a :: addrs). split; [by constructor|]. rewrite Ec, <- app_assoc. done.
    + destruct IH as [I E]. split; [by right|done].
    + destruct IH as (text & a' & s2 & s3 & I & X). exists text, a', s2, s3. split; [by right|done].
  - split; [by left|done].
  - by apply parse_multiaddr_returns in P.
Qed.

(** ** The start *)

(** The addresses of a configuration, in the order of their use. *)
Definition addresses (config : NetworkConfig) : list (swarm_command bytes) :=
  Listen (listen_address config) :: (Announce <$> option_list (external_address config)) ++
  (Dial <$> seed_nodes config).

Definition carried_out (c : swarm_command bytes) (d : swarm_command multiaddr) : Prop :=
  match c, d with
  | Listen text, Listen a | Announce text, Announce a | Dial text, Dial a => parse_multiaddr text = Ok a
  | _, _ => False
  end.

Definition command_text (c : swarm_command bytes) : bytes :=
  match c with Listen text | Announce text | Dial text => text end.

(** What is built before any address is looked at. *)
Definition built (e : env) (fs : file_system) (random : bytes) (s : swarm) : Prop :=
  exists key t b,
    load_network_identity_keypair e fs random = Ok key /\ with_tcp key = Ok t /\
    PrimsBehaviour_new key (to_peer_id key) = Ok b /\ s = build_swarm t b.

(** A started node. *)
Record started (e : env) (fs : file_system) (random : bytes) (config : NetworkConfig) (n : PrimsNode) : Prop := {
  st_identity : exists key, load_network_identity_keypair e fs random = Ok key /\
    prims_peer_id n = to_peer_id key /\ swarm_peer_id (prims_swarm n) = to_peer_id key;
  st_config : prims_config n = config;
  st_topics : topics (gossipsub (behaviour (prims_swarm n))) = list_to_set build_gossipsub_topics;
  st_commands : Forall2 carried_out (addresses config) (commands (prims_swarm n));
  st_peers p now_unix : (can_accept_peer (prims_peers n) p now_unix).1 = true;
}.

(** The addresses of the configuration, on a swarm just built. *)
Definition use_addresses (s : swarm) (config : NetworkConfig) : outcome StartError swarm :=
  addr ← address_of (listen_address config);
  match listen_on s addr with
  | (Ok _, s) =>
      s ← match external_address config with
          | Some text => addr ← address_of text; Ok (add_external_address s addr)
          | None => Ok s
          end;
      dial_seeds s (seed_nodes config)
  | (Err message, _) => Err (ListenFailed message)
  | (Panic, _) => Panic
  end.

Lemma announce_run s config :
  match match external_address config with
        | Some text => addr ← address_of text; Ok (add_external_address s addr)
        | None => Ok s
        end with
  | Ok s' => behaviour s' = behaviour s /\ swarm_peer_id s' = swarm_peer_id s /\ exists cs,
      Forall2 carried_out (Announce <$> option_list (external_address config)) cs /\
      commands s' = commands s ++ cs
  | Err (BadAddress text message) =>
      external_address config = Some text /\ parse_multiaddr text = Err message
  | _ => False
  end.
Proof.
  destruct (external_address config) as [text|].
  - unfold address_of. destruct (parse_multiaddr text) as [a|m|] eqn:P; cbn [map_err mbind outcome_bind].
    + destruct (announce_commanded s a) as (Eb & Ep & Ec). split; [done|]. split; [done|].
      exists [Announce a]. split; [by repeat constructor|done].
    + by split.
    + by apply parse_multiaddr_returns in P.
  - split; [done|]. split; [done|]. exists []. split; [constructor|]. by rewrite app_nil_r.
Qed.

Lemma use_addresses_run s config :
  match use_addresses s config with
  | Ok s' => behaviour s' = behaviour s /\ swarm_peer_id s' = swarm_peer_id s /\ exists cs,
      Forall2 carried_out (addresses config) cs /\ commands s' = commands s ++ cs
  | Err (BadAddress text message) =>
      text ∈ command_text <$> addresses config /\ parse_multiaddr text = Err message
  | Err (ListenFailed message) => exists a s',
      parse_multiaddr (listen_address config) = Ok a /\ listen_on s a = (Err message, s')
  | Err (DialFailed message) => exists text a s1 s2,
      text ∈ seed_nodes config /\ parse_multiaddr text = Ok a /\ dial s1 a = (Err message, s2)
  | _ => False
  end.
Proof.
  unfold use_addresses, address_of, addresses. rewrite fmap_cons, fmap_app.
  destruct (parse_multiaddr (listen_address config)) as [a|m|] eqn:P; cbn [map_err mbind outcome_bind];
    [|split; [by left|done]|by apply parse_multiaddr_returns in P].
  pose proof (listen_on_returns s a) as N. destruct (listen_on s a) as [[[]|m|] s1] eqn:Ls; [|by exists a, s1|by destruct N].
  apply listen_commanded in Ls as (Lb & Lp & Lc).
  pose proof (announce_run s1 config) as A. unfold address_of in A.
  destruct (match external_address config with Some _ => _ | None => _ end) as [s2|[]|]; try done.
  - destruct A as (Ab & Ap & cs & Fa & Ac). cbn [mbind outcome_bind].
    pose proof (dial_seeds_run s2 (seed_nodes config)) as D. destruct (dial_seeds s2 _) as [s3|[]|]; try done.
    + destruct D as (-> & -> & addrs & F & ->). rewrite Ab, Ap, Lb, Lp. split; [done|]. split; [done|].
      exists (Listen a :: cs ++ (Dial <$> addrs)). split.
      * constructor; [exact P|]. apply Forall2_app; [done|]. by apply Forall2_fmap.
      * by rewrite Ac, Lc, <- !app_assoc.
    + destruct D as [I E]. split; [|done]. right. apply elem_of_app. right.
      rewrite <- list_fmap_compose. apply list_elem_of_fmap. by exists text.
  - destruct A as [E Em]. split; [|done]. right. apply elem_of_app. left. rewrite E. by left.
Qed.

Lemma PrimsNode_new_use e fs random config :
  PrimsNode_new e fs random config =
    (local_key ← map_err StartKey (load_network_identity_keypair e fs random);
     t ← map_err TransportFailed (with_tcp local_key);
     b ← map_err BehaviourFailed (PrimsBehaviour_new local_key (to_peer_id local_key));
     s ← use_addresses (build_swarm t b) config;
     Ok {| prims_peer_id := swarm_peer_id s; prims_swarm := s; prims_config := config;
           prims_peers := {| connection_limits := config_limits config; peer_penalties := ∅ |} |}).
Proof.
  unfold PrimsNode_new, use_addresses.
  destruct (map_err StartKey _) as [key|m|]; try done. cbn [mbind outcome_bind].
  destruct (map_err _ (with_tcp key)) as [t|m|]; try done. cbn [mbind outcome_bind].
  destruct (map_err _ (PrimsBehaviour_new _ _)) as [b|m|]; try done. cbn [mbind outcome_bind].
  destruct (address_of (listen_address config)) as [a|m|]; try done. cbn [mbind outcome_bind].
  destruct (listen_on _ a) as [[[]|m|] s]; try done.
  destruct (match external_address config with Some _ => _ | None => _ end) as [s1|m|]; done.
Qed.

(** What a start gives, or why it failed. *)
Definition start_result e fs random config (r : outcome StartError PrimsNode) : Prop :=
  match r with
  | Ok n => started e fs random config n
  | Err (StartKey err) => load_network_identity_keypair e fs random = Err err
  | Err (BadAddress text message) =>
      (exists s, built e fs random s) /\
      text ∈ command_text <$> addresses config /\ parse_multiaddr text = Err message
  | Err (ListenFailed message) => exists s a s',
      built e fs random s /\ parse_multiaddr (listen_address config) = Ok a /\
      listen_on s a = (Err message, s')
  | Err (DialFailed message) => exists text a s1 s2,
      text ∈ seed_nodes config /\ parse_multiaddr text = Ok a /\ dial s1 a = (Err message, s2)
  | Err (TransportFailed message) => exists key,
      load_network_identity_keypair e fs random = Ok key /\ with_tcp key = Err message
  | Err (BehaviourFailed message) => exists key,
      load_network_identity_keypair e fs random = Ok key /\
      PrimsBehaviour_new key (to_peer_id key) = Err message
  | _ => False
  end.

Lemma start_facts e fs random config : start_result e fs random config (PrimsNode_new e fs random config).
Proof.
  unfold start_result.
  rewrite PrimsNode_new_use. pose proof (load_identity_returns e fs random) as N.
  destruct (load_network_identity_keypair e fs random) as [key|err|] eqn:K; [|done|by destruct N].
  cbn [map_err mbind outcome_bind]. destruct (with_tcp key) as [t|m|] eqn:T; cbn [map_err mbind outcome_bind];
    [|by exists key|by apply with_tcp_returns in T].
  pose proof (PrimsBehaviour_topics key (to_peer_id key)) as B.
  destruct (PrimsBehaviour_new key _) as [b|m|] eqn:Eb; cbn [map_err mbind outcome_bind];
    [|by exists key|done].
  assert (built e fs random (build_swarm t b)) as Bu by (by exists key, t, b).
  pose proof (use_addresses_run (build_swarm t b) config) as U. rewrite build_behaviour, build_commands in U.
  destruct (use_addresses _ config) as [s|[]|]; try done; cbn [mbind outcome_bind];
    [|by split; [eexists|]|by destruct U as (a & s' & U); exists (build_swarm t b), a, s'].
  destruct U as (Ub & Up & cs & F & Uc). rewrite (build_peer key t b T) in Up.
  split; cbn [prims_peer_id prims_swarm prims_config prims_peers]; [by exists key|done|by rewrite Ub|by rewrite Uc|done].
Qed.

(** [C25] A start either fails for a reason that is there, and never
    panics, or gives the node the configuration asks for: its identity is the
    key of the environment, it takes part in the three topics of the protocol
    and no other, it listens, announces and dials exactly the addresses of the
    configuration, in this order, and every peer is acceptable to it. *)
Theorem start_spec e fs random config :
  start_result e fs random config (PrimsNode_new e fs random config).
Proof. apply start_facts. Qed.
End start.

(** ** A concrete network *)

From S2P Require Import Concrete.
Import Concrete.Instances.

Module NetworkInstances.
(** What a toy swarm holds: its parts, its commands, the messages it took, the
    credits of its queues, its clock, and the events to come. *)
Record toy_swarm := {
  toy_key : bytes;
  toy_topics : gset bytes;
  toy_commands : list (swarm_command bytes);
  toy_outbox : list (bytes * bytes);
  toy_credits : Z;
  toy_clock : Z;
  toy_events : list SwarmEvent;
}.

#[export] Instance toy_json : JsonText := {|
  json_parse := fun _ => Err "not JSON"%string |}.

#[export] Instance toy_identity : Identity := {|
  keypair := bytes; ed25519_from_bytes := Ok; generate_ed25519 := fun random => random |}.

#[export] Instance toy_keys_ok : KeysOk.
Proof. by split. Qed.

#[export] Instance toy_behaviours : Behaviours := {|
  peer_id := bytes; to_peer_id := fun k => k;
  gossipsub_behaviour := gset bytes; gossipsub_new := fun _ => Ok ∅;
  subscribe := fun b t => Ok (b ∪ {[t]}); unsubscribe := fun b t => b ∖ {[t]};
  mdns_behaviour := unit; mdns_new := fun _ => Ok tt;
  kademlia_behaviour := unit; kademlia_new := fun _ => tt |}.

#[export] Instance toy_behaviours_ok : BehavioursOk.
Proof.
  refine {| topics := (fun b => b) : gossipsub_behaviour -> gset bytes |}; cbn; try done.
  - by intros _ b [= <-].
  - by intros b t b' [= <-].
Defined.

Definition toy_command (s : toy_swarm) (c : swarm_command bytes) : toy_swarm := {|
  toy_key := toy_key s; toy_topics := toy_topics s; toy_commands := toy_commands s ++ [c];
  toy_outbox := toy_outbox s; toy_credits := toy_credits s; toy_clock := toy_clock s;
  toy_events := toy_events s |}.

(** A publication takes a credit; a wait gives one, and takes its time when
    there is no event. *)
#[export] Instance toy_gossip : Gossipsub := {|
  swarm := toy_swarm; message_id := unit;
  gossip_publish := fun s topic data =>
    if 0 <? toy_credits s then
      (Ok tt, {| toy_key := toy_key s; toy_topics := toy_topics s; toy_commands := toy_commands s;
                 toy_outbox := toy_outbox s ++ [(topic, data)]; toy_credits := toy_credits s - 3;
                 toy_clock := toy_clock s; toy_events := toy_events s |})
    else (Err "AllQueuesFull"%string, s) |}.

Definition toy_wait (milliseconds : Z) (s : toy_swarm) : option SwarmEvent * toy_swarm :=
  (head (toy_events s),
   {| toy_key := toy_key s; toy_topics := toy_topics s; toy_commands := toy_commands s;
      toy_outbox := toy_outbox s; toy_credits := toy_credits s + 1;
      toy_clock := match toy_events s with [] => toy_clock s + Z.max 1 milliseconds | _ => toy_clock s end;
      toy_events := tail (toy_events s) |}).

#[export] Instance toy_swarms : Swarms := {|
  multiaddr := bytes;
  parse_multiaddr := fun text => if starts_with text (bytes_of "/") then Ok text else Err "invalid"%string;
  transport := bytes; with_tcp := Ok;
  build_swarm := fun t (b : PrimsBehaviour) => ({|
    toy_key := t; toy_topics := gossipsub b; toy_commands := []; toy_outbox := []; toy_credits := -4;
    toy_clock := 0;
    toy_events := [NewListenAddr (bytes_of "/a"); OtherEvent; ConnectionEstablished (bytes_of "p")] |}
      : @swarm toy_gossip);
  behaviour := fun s => {| gossipsub := toy_topics s : @gossipsub_behaviour _ toy_behaviours;
                           mdns := tt; kademlia := tt |};
  set_behaviour := fun s (b : PrimsBehaviour) => {|
    toy_key := toy_key s; toy_topics := gossipsub b; toy_commands := toy_commands s;
    toy_outbox := toy_outbox s; toy_credits := toy_credits s; toy_clock := toy_clock s;
    toy_events := toy_events s |};
  swarm_peer_id := toy_key;
  listen_on := fun s a => (Ok tt, toy_command s (Listen a));
  add_external_address := fun s a => toy_command s (Announce a);
  dial := fun s a => (Ok tt, toy_command s (Dial a));
  select_timeout := toy_wait; now := toy_clock |}.

#[export] Instance toy_swarms_ok : SwarmsOk.
Proof.
  refine {| commands := toy_commands : @swarm toy_gossip -> list (swarm_command multiaddr) |}; cbn; try done.
  - by intros t [b [] []].
  - by intros k t b [= <-].
  - by intros s a s' [= <-].
  - by intros s a s' [= <-].
  - by intros s [b [] []].
  - intros text. by destruct (starts_with _ _).
Defined.
End NetworkInstances.
Import NetworkInstances.
#[local] Existing Instances toy_hex toy_hex_ok.

(** A node with its key, two seeds and a public address. *)
Definition start_env : env := {[
  bytes_of "PRIMS_NETWORK_SECRET_KEY_HEX" := toy_hex_encode (fill 32 7);
  bytes_of "PRIMS_SEED_NODES" := bytes_of "/seed, /other";
  bytes_of "PRIMS_EXTERNAL_ADDRESS" := bytes_of " /public " ]}.

Example start_commands :
  (fun n => commands (prims_swarm n)) <$> PrimsNode_new start_env ∅ [] (NetworkConfig_default start_env) =
  Ok [Listen (bytes_of "/ip4/0.0.0.0/tcp/7001"); Announce (bytes_of "/public");
      Dial (bytes_of "/seed"); Dial (bytes_of "/other")].
Proof. vm_compute. reflexivity. Qed.

(** An address that is none. *)
Example bad_seed_refused :
  is_ok (PrimsNode_new (<[bytes_of "PRIMS_SEED_NODES" := bytes_of "seed"]> start_env) ∅ []
    (NetworkConfig_default (<[bytes_of "PRIMS_SEED_NODES" := bytes_of "seed"]> start_env))) = false.
Proof. vm_compute. reflexivity. Qed.

Lemma start_spec_witness : exists n,
  PrimsNode_new start_env ∅ [] (NetworkConfig_default start_env) = Ok n /\
  started start_env ∅ [] (NetworkConfig_default start_env) n.
Proof.
  pose proof (start_spec start_env ∅ [] (NetworkConfig_default start_env)) as R.
  assert (is_ok (PrimsNode_new start_env ∅ [] (NetworkConfig_default start_env)) = true) as O
    by (vm_compute; reflexivity).
  destruct (PrimsNode_new start_env ∅ [] (NetworkConfig_default start_env)) as [n|e|]; [|discriminate O..].
  exists n. exact (conj eq_refl R).
Defined.
