(* ===== verification/Flood.v ===== *)
(** * The load generator of the command line ([flood] in [src/bin/prims-cli.rs])

    The configuration and the start of its node, the three loops that wait for
    events until a deadline, and the loop that publishes a run of signed
    transfers, with its retries.  The clock and the waits are those of the
    class [Swarms]; in the loop that publishes, [poll] is a wait of so many
    milliseconds.  What it prints is not modelled. *)

From Stdlib Require Import Strings.Byte.
From S2P Require Import Prelude Orders Bytes Text Externals Types Hash Crypto Mempool Peers Config Gossip Start StartSpec.

Inductive FloodError :=
| ZeroCount
| NoSeedNode
| FloodStart (e : StartError)
| NoConnection
| FloodSigning (e : CryptoError)
| FloodPublish (e : PublishError).

(** The checks before the node starts, and its configuration. *)
Definition flood_config (e : env) (count : Z) (flood_listen_address : bytes) (flood_seeds : list bytes) :
  outcome FloodError NetworkConfig :=
  if count =? 0 then Err ZeroCount
  else
    let config := NetworkConfig_default e in
    let config := {|
      listen_address := flood_listen_address;
      seed_nodes := if bool_decide (flood_seeds = []) then seed_nodes config else flood_seeds;
      external_address := external_address config; config_limits := config_limits config |} in
    if bool_decide (seed_nodes config = []) then Err NoSeedNode else Ok config.

(** [error.to_string()] *)
Definition publish_error_text (e : PublishError) : bytes :=
  match e with
  | Gossip.Encoding message => bytes_of message
  | Publish message => bytes_of message
  end.

(** The guards of the two arms that try again, with their wait. *)
Definition retry_wait (e : PublishError) (attempts : Z) : option Z :=
  if contains (publish_error_text e) (bytes_of "NoPeersSubscribedToTopic") && (attempts <? 20)
  then Some 250
  else if contains (publish_error_text e) (bytes_of "AllQueuesFull") && (attempts <? 200) then Some 5
  else None.

Section flood.
Context `{Profile, Sha256, Ed25519, ChainCodecs, !Bincode Message, Gossipsub}.
Variable poll : Z -> swarm -> swarm.

(** The inner loop; [None] when [fuel] runs out. *)
Fixpoint publish_loop (fuel : nat) (s : swarm) (tx : Transaction) (attempts : Z) :
  option (outcome FloodError unit * swarm) :=
  match fuel with
  | O => None
  | Datatypes.S fuel' =>
      match publish_transaction s tx with
      | (Ok _, s') => Some (Ok tt, s')
      | (Err error, s') =>
          match retry_wait error attempts with
          | Some milliseconds =>
              match arith (E := FloodError) 32 (attempts + 1) with
              | Ok attempts' => publish_loop fuel' (poll milliseconds s') tx attempts'
              | Err e => Some (Err e, s')
              | Panic => Some (Panic, s')
              end
          | None => Some (Err (FloodPublish error), s')
          end
      | (Panic, s') => Some (Panic, s')
      end
  end.

Definition flood_transfer (sender : KeyPair) (recipient : bytes) (amount nonce : Z) : Transaction := {|
  tx_type := Transfer; tx_from := public_key sender; tx_to := recipient; tx_amount := amount;
  tx_fee := FIXED_TRANSACTION_FEE; tx_nonce := nonce; tx_source_shard := 0; tx_destination_shard := 0;
  tx_signature := []; tx_data := Some (bytes_of "load-test-" ++ dec_bytes nonce) |}.

(** One turn of the outer loop; [entropy] is what the key of the recipient
    drew. *)
Definition flood_turn (fuel : nat) (sender : KeyPair) (start_nonce amount offset : Z) (entropy : bytes)
    (s : swarm) : option (outcome FloodError Transaction * swarm) :=
  match arith (E := FloodError) 64 (start_nonce + offset) with
  | Ok nonce =>
      let tx := flood_transfer sender (public_key (generate_keypair entropy)) amount nonce in
      match map_err FloodSigning (sign_transaction tx (secret_key sender)) with
      | Ok signature =>
          let tx := set_signature tx signature in
          '(r, s') ← publish_loop fuel s tx 0;
          Some (r ≫= fun _ => Ok tx, s')
      | Err e => Some (Err e, s)
      | Panic => Some (Panic, s)
      end
  | Err e => Some (Err e, s)
  | Panic => Some (Panic, s)
  end.

(** The outer loop, for offsets from [offset] on, with the transactions it
    reports as published. *)
Fixpoint flood_loop (fuel : nat) (sender : KeyPair) (start_nonce amount offset : Z)
    (entropies : list bytes) (s : swarm) : option (outcome FloodError unit * list Transaction * swarm) :=
  match entropies with
  | [] => Some (Ok tt, [], s)
  | entropy :: entropies' =>
      '(r, s1) ← flood_turn fuel sender start_nonce amount offset entropy s;
      match r with
      | Ok tx =>
          '(r', txs, s') ← flood_loop fuel sender start_nonce amount (offset + 1) entropies' s1;
          Some (r', tx :: txs, s')
      | Err e => Some (Err e, [], s1)
      | Panic => Some (Panic, [], s1)
      end
  end.

(** The node polls between turns only inside a retry. *)
Definition flood_publish (fuel : nat) (sender_entropy : bytes) (start_nonce amount : Z) (entropies : list bytes)
    (s : swarm) : option (outcome FloodError unit * list Transaction * swarm) :=
  flood_loop fuel (generate_keypair sender_entropy) start_nonce amount 0 entropies s.
End flood.

Section command.
Context `{Profile, Sha256, Ed25519, ChainCodecs, !Bincode Message, Hex, JsonText, Swarms}.

(** [gossipsub.unsubscribe] of the three topics. *)
Definition unsubscribe_all (s : swarm) : swarm :=
  let b := behaviour s in
  set_behaviour s {|
    gossipsub := unsubscribe (unsubscribe (unsubscribe (gossipsub b) BLOCKS_TOPIC_NAME)
                   TRANSACTIONS_TOPIC_NAME) VOTES_TOPIC_NAME;
    mdns := mdns b; kademlia := kademlia b |}.

Definition wait (milliseconds : Z) (s : swarm) : swarm := (select_timeout milliseconds s).2.

(** [while Instant::now() < deadline], with a wait in each turn; whether an
    event ended it. *)
Fixpoint poll_loop (fuel : nat) (milliseconds deadline : Z) (stop : SwarmEvent -> bool) (s : swarm) :
  option (bool * swarm) :=
  match fuel with
  | O => None
  | Datatypes.S fuel' =>
      if now s <? deadline then
        let '(event, s') := select_timeout milliseconds s in
        if default false (stop <$> event) then Some (true, s')
        else poll_loop fuel' milliseconds deadline stop s'
      else Some (false, s)
  end.

Definition is_connection (event : SwarmEvent) : bool :=
  match event with ConnectionEstablished _ => true | _ => false end.

Definition never (_ : SwarmEvent) : bool := false.

(** The command; [draws] are the keys of the recipients.  The transactions it
    reports as published, and the swarm it leaves. *)
Definition flood (fuel : nat) (e : env) (fs : file_system) (random : bytes) (count start_nonce amount : Z)
    (flood_listen_address : bytes) (flood_seeds : list bytes) (sender_entropy : bytes)
    (draws : nat -> bytes) : option (outcome FloodError swarm * list Transaction) :=
  match config ← flood_config e count flood_listen_address flood_seeds;
        map_err FloodStart (PrimsNode_new e fs random config) with
  | Ok node =>
      let s := unsubscribe_all (prims_swarm node) in
      '(connected, s) ← poll_loop fuel 500 (now s + 10000) is_connection s;
      if negb connected then Some (Err NoConnection, [])
      else
        '(_, s) ← poll_loop fuel 250 (now s + 3000) never s;
        '(r, txs, s) ← flood_publish wait fuel sender_entropy start_nonce amount
                         (draws <$> seq 0 (Z.to_nat count)) s;
        match r with
        | Ok _ => '(_, s) ← poll_loop fuel 100 (now s + 2000) never s; Some (Ok s, txs)
        | Err error => Some (Err error, txs)
        | Panic => Some (Panic, txs)
        end
  | Err error => Some (Err error, [])
  | Panic => Some (Panic, [])
  end.
End command.

(** ** Termination and effect *)

Section properties.
Context `{Profile, Sha256Ok, Ed25519Ok, ChainCodecsOk, !Bincode Message, !BincodeOk Message, Gossipsub}.
Variable poll : Z -> swarm -> swarm.

(** Fuel for every retry: at most 200, then the attempt that decides. *)
Definition retry_fuel : nat := 201.

Lemma retry_wait_bound e attempts d : retry_wait e attempts = Some d -> attempts < 200.
Proof.
  unfold retry_wait. intros R. destruct (_ && (attempts <? 20)) eqn:E1.
  - apply andb_true_iff in E1 as [_ E1]. lia.
  - destruct (_ && (attempts <? 200)) eqn:E2; [|done]. apply andb_true_iff in E2 as [_ E2]. lia.
Qed.

Lemma publish_loop_total fuel s tx attempts :
  0 <= attempts -> (Z.to_nat (200 - attempts) < fuel)%nat ->
  exists r s', publish_loop poll fuel s tx attempts = Some (r, s').
Proof.
  revert s attempts. induction fuel as [|fuel IH]; intros s attempts A F; [lia|]. cbn [publish_loop].
  destruct (publish_transaction s tx) as [[id|error|] s']; [by eexists _, _| |by eexists _, _].
  destruct (retry_wait error attempts) as [d|] eqn:R; [|by eexists _, _].
  apply retry_wait_bound in R. rewrite arith_fits by lia. apply IH; lia.
Qed.

(** What the generator means to publish; a nonce past 64 bits wraps, in a build
    without overflow checks. *)
Definition planned_transfer (sender_entropy : bytes) (start_nonce amount : Z) (i : nat) (entropy : bytes) :
  Transaction :=
  flood_transfer (generate_keypair sender_entropy) (public_key_of entropy) amount
    (wrap 64 (start_nonce + Z.of_nat i)).

Definition planned (sender_entropy : bytes) (start_nonce amount : Z) (entropies : list bytes) :
  list Transaction :=
  imap (fun i entropy => signed_by sender_entropy (planned_transfer sender_entropy start_nonce amount i entropy))
    entropies.

(** Publishing a transaction does not panic when the protocol does not. *)
Lemma publish_not_Panic s tx b :
  bincode_serialize tx = Ok b -> vec_ok b -> (forall s topic data, (gossip_publish s topic data).1 <> Panic) ->
  (publish_transaction s tx).1 <> Panic.
Proof.
  intros Eb V G. destruct (transaction_message_Ok tx b Eb V) as (nt & data & En & _ & Ed & _).
  unfold publish_transaction. rewrite En. unfold publish_message. rewrite Ed. cbn [map_err].
  pose proof (G s TRANSACTIONS_TOPIC_NAME data) as N.
  destruct (gossip_publish s TRANSACTIONS_TOPIC_NAME data) as [r s']. by apply map_err_not_Panic.
Qed.

Lemma publish_loop_not_Panic fuel s tx attempts r s' b :
  bincode_serialize tx = Ok b -> vec_ok b -> (forall s topic data, (gossip_publish s topic data).1 <> Panic) ->
  publish_loop poll fuel s tx attempts = Some (r, s') -> 0 <= attempts -> r <> Panic.
Proof.
  intros Eb V G. revert s attempts. induction fuel as [|fuel IH]; intros s attempts E A; [done|].
  cbn [publish_loop] in E. pose proof (publish_not_Panic s tx b Eb V G) as N.
  destruct (publish_transaction s tx) as [[id|error|] s1]; [by injection E as <- _| |done].
  destruct (retry_wait error attempts) as [d|] eqn:R; [|by injection E as <- _].
  apply retry_wait_bound in R. rewrite arith_fits in E by lia. eapply IH; [exact E|lia].
Qed.

(** The transfers are values of their types that fit in memory. *)
Definition plan_ok (sender_entropy : bytes) (start_nonce amount : Z) (offset : nat) (entropies : list bytes) :
  Prop :=
  forall i entropy, entropies !! i = Some entropy ->
    let tx := planned_transfer sender_entropy start_nonce amount (offset + i) entropy in
    wf tx /\ forall b, bincode_serialize (signed_by sender_entropy tx) = Ok b -> vec_ok b.

(** A nonce of the run that does not fit panics a build with overflow checks. *)
Definition overruns (start_nonce n : Z) : Prop := overflow_checks = true /\ 2 ^ 64 < start_nonce + n.

(** The run from an offset on. *)
Lemma flood_loop_run sender_entropy start_nonce amount offset entropies s :
  0 <= start_nonce -> start_nonce + Z.of_nat offset <= 2 ^ 64 \/ overflow_checks = false ->
  plan_ok sender_entropy start_nonce amount offset entropies ->
  (forall s topic data, (gossip_publish s topic data).1 <> Panic) ->
  let n := Z.of_nat (offset + length entropies) in
  exists r txs s',
    flood_loop poll retry_fuel (generate_keypair sender_entropy) start_nonce amount (Z.of_nat offset)
      entropies s = Some (r, txs, s') /\
    (r = Panic -> overruns start_nonce n) /\ (r = Ok tt -> ~ overruns start_nonce n) /\
    txs `prefix_of` imap (fun i entropy => signed_by sender_entropy
      (planned_transfer sender_entropy start_nonce amount (offset + i) entropy)) entropies /\
    (r = Ok tt -> length txs = length entropies).
Proof.
  intros S0 Bd V G. cbv zeta. revert offset s Bd V.
  induction entropies as [|entropy entropies IH]; intros offset s Bd V.
  { exists (Ok tt), [], s. split; [done|]. split; [done|]. rewrite Nat.add_0_r.
    split; [intros _ [C O]; destruct Bd; [lia|congruence]|done]. }
  cbn [length]. cbn [flood_loop]. unfold flood_turn. rewrite arith_spec.
  destruct (overflow_checks && negb (fits 64 (start_nonce + Z.of_nat offset))) eqn:Of.
  { apply andb_true_iff in Of as [C Of%negb_true_iff%fits_false].
    exists Panic, [], s. split; [done|]. split; [intros _; split; [done|lia]|].
    split; [done|]. split; [apply prefix_nil|done]. }
  assert (start_nonce + Z.of_nat (Datatypes.S offset) <= 2 ^ 64 \/ overflow_checks = false) as Bd'.
  { destruct overflow_checks; [|by right]. cbn [andb] in Of. apply negb_false_iff, fits_true in Of. left. lia. }
  clear Of. destruct (V O entropy eq_refl) as [W Vb]. rewrite Nat.add_0_r in W, Vb.
  set (tx := flood_transfer (generate_keypair sender_entropy) (public_key (generate_keypair entropy)) amount
               (wrap 64 (start_nonce + Z.of_nat offset))).
  destruct (signed_by_Ok sender_entropy tx W eq_refl) as (sg & Es & Et & Wt & _).
  change (secret_key (generate_keypair sender_entropy)) with sender_entropy. rewrite Es. cbn [map_err].
  rewrite <- Et. destruct (bincode_total _ Wt) as [b Eb].
  destruct (publish_loop_total retry_fuel s (signed_by sender_entropy tx) 0) as (r & s1 & El); [lia|unfold retry_fuel; lia|].
  pose proof (publish_loop_not_Panic _ _ _ _ _ _ _ Eb (Vb b Eb) G El ltac:(lia)) as N.
  rewrite El. cbn [mbind option_bind]. destruct r as [[]|e|]; [| |done]; cbn [mbind outcome_bind].
  - destruct (IH (Datatypes.S offset) s1) as (r' & txs & s' & E' & N' & N2 & Pf & L'); [done| |].
    { intros i x Ei. specialize (V (Datatypes.S i) x Ei). by rewrite Nat.add_succ_r in V. }
    replace (Z.of_nat offset + 1) with (Z.of_nat (Datatypes.S offset)) by lia. rewrite E'.
    cbn [mbind option_bind]. exists r', (signed_by sender_entropy tx :: txs), s'.
    rewrite Nat.add_succ_r. split; [done|]. split; [done|]. split; [done|].
    cbn [imap]. rewrite Nat.add_0_r. split.
    + apply prefix_cons. erewrite imap_ext; [exact Pf|]. intros i x _. cbn. by rewrite Nat.add_succ_r.
    + intros R. cbn. by rewrite L'.
  - exists (Err e), [], s1. split; [done|]. split; [done|]. split; [done|]. split; [apply prefix_nil|done].
Qed.

(** The publication: what it reports as published is a prefix of the plan. *)
Lemma flood_publish_run sender_entropy start_nonce amount entropies s :
  u64 start_nonce -> plan_ok sender_entropy start_nonce amount 0 entropies ->
  (forall s topic data, (gossip_publish s topic data).1 <> Panic) ->
  let n := Z.of_nat (length entropies) in
  exists r txs s',
    flood_publish poll retry_fuel sender_entropy start_nonce amount entropies s = Some (r, txs, s') /\
    (r = Panic -> overruns start_nonce n) /\ (r = Ok tt -> ~ overruns start_nonce n) /\
    txs `prefix_of` planned sender_entropy start_nonce amount entropies /\
    (r = Ok tt -> txs = planned sender_entropy start_nonce amount entropies).
Proof.
  intros S0 V G. unfold u64 in S0.
  destruct (flood_loop_run sender_entropy start_nonce amount 0 entropies s ltac:(lia) ltac:(left; lia) V G)
    as (r & txs & s' & E & N & N2 & Pf & L).
  exists r, txs, s'. split; [exact E|]. split; [done|]. split; [done|]. split; [exact Pf|].
  intros R. apply prefix_length_eq; [exact Pf|]. rewrite (L R). unfold planned. by rewrite length_imap.
Qed.

(** Each planned transfer is signed by the sender, with its nonce. *)
Lemma planned_signed sender_entropy start_nonce amount entropies i tx :
  plan_ok sender_entropy start_nonce amount 0 entropies ->
  planned sender_entropy start_nonce amount entropies !! i = Some tx ->
  tx_nonce tx = wrap 64 (start_nonce + Z.of_nat i) /\
  tx_from tx = public_key_of sender_entropy /\ verify_transaction tx (tx_from tx) = Ok true.
Proof.
  unfold planned. rewrite list_lookup_imap. intros V E.
  destruct (entropies !! i) as [entropy|] eqn:Ee; [|done]. injection E as <-.
  destruct (signed_by_Ok sender_entropy _ (proj1 (V i entropy Ee)) eq_refl) as (sg & _ & Et & _ & Vt).
  cbn [Nat.add] in Et, Vt. split; [by rewrite Et|]. split; [by rewrite Et|].
  rewrite Et in Vt |- *. exact Vt.
Qed.

(** More fuel changes nothing. *)
Lemma publish_loop_mono fuel fuel' s tx attempts x :
  publish_loop poll fuel s tx attempts = Some x -> (fuel <= fuel')%nat ->
  publish_loop poll fuel' s tx attempts = Some x.
Proof.
  revert fuel' s attempts. induction fuel as [|fuel IH]; intros [|fuel'] s attempts E L; try done; [lia|].
  cbn [publish_loop] in *. destruct (publish_transaction s tx) as [[id|e|] s']; try done.
  destruct (retry_wait e attempts); [|done]. destruct (arith 32 (attempts + 1)); try done.
  apply IH; [done|lia].
Qed.

Lemma flood_loop_mono fuel fuel' sender start_nonce amount offset entropies s x :
  flood_loop poll fuel sender start_nonce amount offset entropies s = Some x -> (fuel <= fuel')%nat ->
  flood_loop poll fuel' sender start_nonce amount offset entropies s = Some x.
Proof.
  intros E L. revert offset s x E. induction entropies as [|entropy entropies IH]; intros offset s x E; [done|].
  cbn [flood_loop] in *.
  destruct (flood_turn poll fuel sender start_nonce amount offset entropy s) as [[r s1]|] eqn:T; [|done].
  assert (flood_turn poll fuel' sender start_nonce amount offset entropy s = Some (r, s1)) as ->.
  { unfold flood_turn in *. destruct (arith 64 _); try done. destruct (map_err _ _); try done.
    destruct (publish_loop poll fuel s _ 0) as [y|] eqn:P; [|done].
    by rewrite (publish_loop_mono _ _ _ _ _ _ P L). }
  cbn [mbind option_bind] in *. destruct r; try done.
  destruct (flood_loop poll fuel _ _ _ _ entropies s1) as [y|] eqn:F; [|done]. by rewrite (IH _ _ _ F).
Qed.
End properties.

(** ** The command *)

(** In every state, waiting long enough moves the clock. *)
Class ClockRuns `{Swarms} : Prop := {
  clock_runs milliseconds s : exists n, now s < now (Nat.iter n (wait milliseconds) s);
}.

Section waits.
Context `{Swarms, !ClockRuns}.

(** A wait among the first states, before the deadline, that was ended by an
    event. *)
Definition stopped (milliseconds deadline : Z) (stop : SwarmEvent -> bool) (s : swarm) : Prop :=
  exists k event, let s_k := Nat.iter k (wait milliseconds) s in
    now s_k < deadline /\ (select_timeout milliseconds s_k).1 = Some event /\ stop event = true.

(** A loop with a deadline ends, with more fuel as well. *)
Definition ends (milliseconds deadline : Z) (stop : SwarmEvent -> bool) (s : swarm) : Prop :=
  exists fuel b s', (b = true -> stopped milliseconds deadline stop s) /\
    forall fuel', (fuel <= fuel')%nat -> poll_loop fuel' milliseconds deadline stop s = Some (b, s').

Lemma ends_wait milliseconds deadline stop s :
  ends milliseconds deadline stop (wait milliseconds s) -> ends milliseconds deadline stop s.
Proof.
  intros (fuel & b & s' & St & R). destruct (Z.ltb_spec (now s) deadline) as [L|L].
  - unfold wait in *. destruct (select_timeout milliseconds s) as [event s1] eqn:E.
    destruct (default false (stop <$> event)) eqn:D.
    + exists 1%nat, true, s1. split.
      * intros _. destruct event as [event|]; [|done]. exists O, event. cbn. by rewrite E.
      * intros [|fuel'] F; [lia|]. cbn [poll_loop]. rewrite (proj2 (Z.ltb_lt _ _) L), E, D. done.
    + exists (Datatypes.S fuel), b, s'. split.
      * intros B. destruct (St B) as (k & event' & X). exists (Datatypes.S k), event'.
        rewrite Nat.iter_succ_r. unfold wait at 2. by rewrite E.
      * intros [|fuel'] F; [lia|]. cbn [poll_loop]. rewrite (proj2 (Z.ltb_lt _ _) L), E, D. apply R. lia.
  - exists 1%nat, false, s. split; [done|]. intros [|fuel'] F; [lia|]. cbn [poll_loop].
    by rewrite (proj2 (Z.ltb_ge _ _) L).
Qed.

Lemma poll_loop_ends milliseconds deadline stop s : ends milliseconds deadline stop s.
Proof.
  remember (Z.to_nat (deadline - now s)) as m eqn:M. revert s M.
  induction (lt_wf m) as [m _ IH]. intros s ->.
  destruct (Z.ltb_spec (now s) deadline) as [L|L].
  - destruct (clock_runs milliseconds s) as [n P].
    assert (ends milliseconds deadline stop (Nat.iter n (wait milliseconds) s)) as E by (eapply IH; [|done]; lia).
    clear P IH L. revert s E. induction n as [|n IHn]; intros s E; [done|].
    apply ends_wait, IHn. by rewrite <- Nat.iter_succ_r.
  - exists 1%nat, false, s. split; [done|]. intros [|fuel'] F; [lia|]. cbn [poll_loop].
    by rewrite (proj2 (Z.ltb_ge _ _) L).
Qed.
End waits.

Section command.
Context `{Profile, Sha256Ok, Ed25519Ok, ChainCodecsOk, !Bincode Message, !BincodeOk Message}.
Context `{HexOk, KeysOk}.
Context `{!Behaviours, !BehavioursOk}.
Context `{!Gossipsub, !Swarms, !SwarmsOk, !ClockRuns}.

(** Enough fuel is any fuel from some point on. *)
Definition enough (result : nat -> option (outcome FloodError swarm * list Transaction)) r txs : Prop :=
  exists fuel, forall fuel', (fuel <= fuel')%nat -> result fuel' = Some (r, txs).

Lemma unsubscribe_all_topics e fs random config n :
  started e fs random config n ->
  topics (gossipsub (behaviour (unsubscribe_all (prims_swarm n)))) = ∅.
Proof.
  intros St. unfold unsubscribe_all. rewrite set_behaviour_behaviour. cbn [gossipsub].
  rewrite !unsubscribe_topics, (st_topics _ _ _ _ _ St). unfold build_gossipsub_topics.
  apply leibniz_equiv. set_solver +.
Qed.

(** What the command did, when it returns [r] and reports [txs]. *)
Record generated e fs random count start_nonce amount address seeds sender_entropy (entropies : list bytes)
    (r : outcome FloodError swarm) (txs : list Transaction) : Prop := {
  gen_returns : r = Panic -> overruns start_nonce count;
  gen_nonces : is_ok r = true -> ~ overruns start_nonce count;
  gen_prefix : txs `prefix_of` planned sender_entropy start_nonce amount entropies;
  gen_success : is_ok r = true -> txs = planned sender_entropy start_nonce amount entropies;
  gen_connected : (is_ok r = true \/ txs <> []) -> count <> 0 /\ exists config n,
    flood_config e count address seeds = Ok config /\ started e fs random config n /\
    let s := unsubscribe_all (prims_swarm n) in
    topics (gossipsub (behaviour s)) = ∅ /\ stopped 500 (now s + 10000) is_connection s;
  gen_signed i tx : txs !! i = Some tx -> tx_nonce tx = wrap 64 (start_nonce + Z.of_nat i) /\
    tx_from tx = public_key_of sender_entropy /\ verify_transaction tx (tx_from tx) = Ok true;
}.

Lemma generated_nothing e fs random count start_nonce amount address seeds sender_entropy entropies error :
  generated e fs random count start_nonce amount address seeds sender_entropy entropies (Err error) [].
Proof. split; [done|done|apply prefix_nil|done|by intros [?|?]|done]. Qed.

Lemma flood_config_Ok e count address seeds :
  match flood_config e count address seeds with
  | Ok _ => count <> 0
  | Err _ => True
  | Panic => False
  end.
Proof.
  unfold flood_config. destruct (Z.eqb_spec count 0); [done|]. by case_bool_decide.
Qed.

Lemma flood_start_returns e fs random count address seeds :
  match config ← flood_config e count address seeds;
        map_err FloodStart (PrimsNode_new e fs random config) with
  | Ok n => count <> 0 /\ exists config,
      flood_config e count address seeds = Ok config /\ started e fs random config n
  | Err _ => True
  | Panic => False
  end.
Proof.
  pose proof (flood_config_Ok e count address seeds) as C.
  destruct (flood_config e count address seeds) as [config|error|]; [|done..]. cbn [mbind outcome_bind].
  pose proof (start_facts e fs random config) as St.
  destruct (PrimsNode_new e fs random config) as [n|error|]; [|done..].
  split; [done|]. by exists config.
Qed.

(** The publication with the last wait, once connected. *)
Lemma flood_connected_run sender_entropy start_nonce amount entropies s :
  u64 start_nonce -> plan_ok sender_entropy start_nonce amount 0 entropies ->
  (forall s topic data, (gossip_publish s topic data).1 <> Panic) ->
  let n := Z.of_nat (length entropies) in
  exists r txs,
    enough (fun fuel =>
      '(_, s) ← poll_loop fuel 250 (now s + 3000) never s;
      '(r, txs, s) ← flood_publish wait fuel sender_entropy start_nonce amount entropies s;
      match r with
      | Ok _ => '(_, s) ← poll_loop fuel 100 (now s + 2000) never s; Some (Ok s, txs)
      | Err error => Some (Err error, txs)
      | Panic => Some (Panic, txs)
      end) r txs /\ (r = Panic -> overruns start_nonce n) /\ (is_ok r = true -> ~ overruns start_nonce n) /\
    txs `prefix_of` planned sender_entropy start_nonce amount entropies /\
    (is_ok r = true -> txs = planned sender_entropy start_nonce amount entropies).
Proof.
  intros S0 V G n. destruct (poll_loop_ends 250 (now s + 3000) never s) as (f1 & b1 & s1 & _ & R1).
  destruct (flood_publish_run wait sender_entropy start_nonce amount entropies s1 S0 V G)
    as (r & txs & s2 & R2 & N & N2 & Pf & D). fold n in N, N2.
  assert (forall fuel, (retry_fuel <= fuel)%nat ->
    flood_publish wait fuel sender_entropy start_nonce amount entropies s1 = Some (r, txs, s2)) as R2'
    by (intros fuel; by apply flood_loop_mono).
  destruct r as [[]|error|].
  - destruct (poll_loop_ends 100 (now s2 + 2000) never s2) as (f3 & b3 & s3 & _ & R3).
    exists (Ok s3), txs.
    split; [|split; [done|split; [intros _; by apply N2|split; [exact Pf|intros _; by apply D]]]].
    exists (Nat.max f1 (Nat.max retry_fuel f3)). intros fuel F. rewrite R1 by lia. cbn [mbind option_bind]. rewrite R2' by lia. cbn [mbind option_bind]. by rewrite R3 by lia.
  - exists (Err error), txs. split; [|split; [done|split; [done|split; [exact Pf|done]]]]. exists (Nat.max f1 retry_fuel). intros fuel F.
    rewrite R1 by lia. cbn [mbind option_bind]. by rewrite R2' by lia.
  - exists Panic, txs.
    split; [|split; [intros _; by apply N|split; [done|split; [exact Pf|done]]]]. exists (Nat.max f1 retry_fuel). intros fuel F.
    rewrite R1 by lia. cbn [mbind option_bind]. by rewrite R2' by lia.
Qed.

Lemma poll_loop_mono fuel fuel' milliseconds deadline stop s x :
  poll_loop fuel milliseconds deadline stop s = Some x -> (fuel <= fuel')%nat ->
  poll_loop fuel' milliseconds deadline stop s = Some x.
Proof.
  revert fuel' s. induction fuel as [|fuel IH]; intros [|fuel'] s E L; try done; [lia|].
  cbn [poll_loop] in *. destruct (now s <? deadline); [|done].
  destruct (select_timeout milliseconds s) as [event s1]. destruct (default false _); [done|]. apply IH; [done|lia].
Qed.

(** One run is enough to know the result. *)
Lemma flood_mono fuel fuel' e fs random count start_nonce amount address seeds sender_entropy draws x :
  flood fuel e fs random count start_nonce amount address seeds sender_entropy draws = Some x ->
  (fuel <= fuel')%nat ->
  flood fuel' e fs random count start_nonce amount address seeds sender_entropy draws = Some x.
Proof.
  unfold flood. intros E L. destruct (config ← _; map_err _ _) as [n|error|]; [|done..].
  destruct (poll_loop fuel 500 _ _ _) as [[b1 s1]|] eqn:E1; [|done].
  rewrite (poll_loop_mono _ _ _ _ _ _ _ E1 L). cbn [mbind option_bind] in *. destruct (negb b1); [done|].
  destruct (poll_loop fuel 250 _ _ _) as [[b2 s2]|] eqn:E2; [|done].
  rewrite (poll_loop_mono _ _ _ _ _ _ _ E2 L). cbn [mbind option_bind] in *. unfold flood_publish in *.
  destruct (flood_loop wait fuel _ _ _ _ _ s2) as [[[r txs] s3]|] eqn:E3; [|done].
  rewrite (flood_loop_mono _ _ _ _ _ _ _ _ _ _ E3 L). cbn [mbind option_bind] in *. destruct r; [|done..].
  destruct (poll_loop fuel 100 _ _ s3) as [[b4 s4]|] eqn:E4; [|done].
  by rewrite (poll_loop_mono _ _ _ _ _ _ _ E4 L).
Qed.

(** The command returns, with enough fuel. *)
Lemma flood_returns e fs random count start_nonce amount address seeds sender_entropy draws :
  let entropies := draws <$> seq 0 (Z.to_nat count) in
  u64 start_nonce -> 0 <= count ->
  plan_ok sender_entropy start_nonce amount 0 entropies ->
  (forall s topic data, (gossip_publish s topic data).1 <> Panic) ->
  exists r txs,
    enough (fun fuel => flood fuel e fs random count start_nonce amount address seeds sender_entropy draws) r txs /\
    generated e fs random count start_nonce amount address seeds sender_entropy entropies r txs.
Proof.
  intros entropies S0 C0 V G. unfold flood.
  pose proof (flood_start_returns e fs random count address seeds) as St.
  destruct (config ← _; map_err _ _) as [n|error|]; [| |done].
  2: { exists (Err error), []. split; [by exists O|apply generated_nothing]. }
  destruct St as (Cn & config & Ec & St). set (s := unsubscribe_all (prims_swarm n)).
  destruct (poll_loop_ends 500 (now s + 10000) is_connection s) as (f1 & [] & s1 & Stop & R1).
  2: { exists (Err NoConnection), []. split; [|apply generated_nothing]. exists f1. intros fuel F.
       by rewrite R1. }
  destruct (flood_connected_run sender_entropy start_nonce amount entropies s1 S0 V G) as (r & txs & [f2 R2] & N & N2 & Pf & D).
  assert (Z.of_nat (length entropies) = count) as Lc by (unfold entropies; rewrite length_fmap, length_seq; lia).
  rewrite Lc in N, N2.
  exists r, txs. split.
  { exists (Nat.max f1 f2). intros fuel F. rewrite R1 by lia. cbn [mbind option_bind negb]. apply R2. lia. }
  split; [done|done|done|done| |].
  - intros _. split; [done|]. exists config, n. split; [done|]. split; [done|].
    split; [by eapply unsubscribe_all_topics|by apply Stop].
  - intros i tx Ei. eapply planned_signed; [exact V|]. destruct Pf as [k ->]. by apply lookup_app_l_Some.
Qed.

(** [C32] The load generator ends: for any environment, any
    first nonce and count of 64 bits, and any events and answers of the
    network, provided waiting moves the clock, the transfers are values that
    fit in memory and the call that publishes returns, the three loops with a
    deadline and the retries of each transaction end, so the command returns.
    It panics only in a build with overflow checks, when the first nonce and
    the count exceed 64 bits, and then it cannot succeed.  It succeeds or
    publishes anything only after a peer was connected within ten seconds of
    the start of a node that takes part in no topic, and then publishes the
    transfers it planned, in order, up to the first it cannot publish: all of
    them when it succeeds, each signed by the sender, with consecutive nonces
    from the given one, modulo 2^64. *)
Theorem flood_terminates e fs random count start_nonce amount address seeds sender_entropy draws :
  let entropies := draws <$> seq 0 (Z.to_nat count) in
  u64 start_nonce -> 0 <= count ->
  plan_ok sender_entropy start_nonce amount 0 entropies ->
  (forall s topic data, (gossip_publish s topic data).1 <> Panic) ->
  exists r txs,
    enough (fun fuel => flood fuel e fs random count start_nonce amount address seeds sender_entropy draws) r txs /\
    generated e fs random count start_nonce amount address seeds sender_entropy entropies r txs.
Proof. apply flood_returns. Qed.
End command.

(** ** Witness *)

From S2P Require Import Concrete GossipSpec.
Import Concrete.Instances NetworkInstances.

#[local] Existing Instances toy_message toy_message_ok toy_hex toy_hex_ok.

#[local] Instance toy_clock_runs : ClockRuns.
Proof.
  split. intros d s. exists (Datatypes.S (length (toy_events s))).
  remember (toy_events s) as evs eqn:E. revert s E. induction evs as [|ev evs IH]; intros s E.
  - cbn. unfold wait. cbn. rewrite <- E. cbn. lia.
  - rewrite Nat.iter_succ_r.
    replace (now s) with (now (wait d s)) by (unfold wait; cbn; by rewrite <- E).
    apply IH. cbn. by rewrite <- E.
Qed.

Definition draw (i : nat) : bytes := fill 32 (Z.of_nat i + 1).

Lemma flood_plan_ok : plan_ok (fill 32 7) 5 42 0 (draw <$> seq 0 2).
Proof.
  intros i entropy E. do 2 (destruct i as [|i]; [injection E as <-; split;
    [solve_wf|intros b Eb; apply (inj Ok) in Eb; rewrite <- Eb; by vm_compute]|]). done.
Qed.

Lemma flood_terminates_witness : exists r txs,
  enough (fun fuel => flood fuel start_env ∅ [] 2 5 42 (bytes_of "/here") [] (fill 32 7) draw) r txs /\
  generated start_env ∅ [] 2 5 42 (bytes_of "/here") [] (fill 32 7) (draw <$> seq 0 2) r txs.
Proof.
  refine (flood_terminates start_env ∅ [] 2 5 42 (bytes_of "/here") [] (fill 32 7) draw _ _ flood_plan_ok _);
    [done..|]. intros s topic data. cbn. by destruct (0 <? _).
Defined.

(** This run connects, retries, and publishes both transfers; without a seed
    nothing starts. *)
Example flood_succeeds :
  (fun x => (is_ok x.1, length x.2)) <$>
    flood 300 start_env ∅ [] 2 5 42 (bytes_of "/here") [] (fill 32 7) draw = Some (true, 2%nat).
Proof. vm_compute. reflexivity. Qed.

Example flood_needs_seeds : flood 0 ∅ ∅ [] 2 5 42 (bytes_of "/here") [] (fill 32 7) draw =
  Some (Err NoSeedNode, []).
Proof. vm_compute. reflexivity. Qed.

(** In this build, with overflow checks, the second nonce after 2^64 - 1
    stops the command. *)
Example flood_overruns :
  (fun x => (match x.1 with Panic => true | _ => false end, length x.2)) <$>
    flood 300 start_env ∅ [] 2 (2 ^ 64 - 1) 42 (bytes_of "/here") [] (fill 32 7) draw = Some (true, 1%nat).
Proof. vm_compute. reflexivity. Qed.
