(* ===== verification/Wallet.v ===== *)
(** * The command-line wallet ([src/bin/prims-cli.rs])

    Key generation and key files, and the commands that build a transaction,
    sign it and submit it to a node.  They are written against the interface
    [RpcClient] of file [Rpc], whose implementations are the node's handlers
    and HTTP.  What the commands print is not modelled.  The [age] encryption
    is a class. *)

From Stdlib Require Import Strings.Byte.
From S2P Require Import Prelude Orders Bytes Text Externals Types Hash Crypto Store Storage Vm Json Api Rpc Config.

(** ** The crates *)

(** [age::encrypt_and_armor] and [decrypt] with a passphrase; [salt] is what
    the random generator drew. *)
Class Age := {
  encrypt_and_armor : bytes -> bytes -> bytes -> outcome string bytes;
  age_decrypt : bytes -> bytes -> outcome string bytes;
}.

(** Decryption inverts encryption, also of a file that ends with a newline;
    the armored text is ASCII and starts with the line of its format. *)
Class AgeOk `{Age} : Prop := {
  age_round_trip : forall p salt plaintext c newline, encrypt_and_armor p salt plaintext = Ok c ->
    newline = [] \/ newline = [x0a] -> age_decrypt p (c ++ newline) = Ok plaintext;
  age_armored : forall p salt plaintext c, encrypt_and_armor p salt plaintext = Ok c ->
    Forall ascii c /\ starts_with c (bytes_of "-----BEGIN AGE ENCRYPTED FILE-----") = true;
}.

(** ** Keys *)

Inductive CliError :=
| Key (e : KeyError)
| KeyFileExists (path : bytes)
| EncryptFailed (message : string)
| Signing (e : CryptoError)
| Encoding (message : string)
| Call (e : ClientError)
| WasmUnreadable (path : bytes)
| EmptyWasm
| EmptyMethod
| ZeroGasLimit
| InvalidParamsJson (message : string).

Record GeneratedKeyOutput := {
  gen_public_key : bytes;
  gen_secret_key : option bytes;
  gen_encrypted_file : option bytes;
}.

Definition is_ascii_hexdigit (b : byte) : bool :=
  in_range 48 57 (byte_val b) || in_range 65 70 (byte_val b) || in_range 97 102 (byte_val b).

Definition looks_like_plaintext_hex_secret (value : bytes) : bool :=
  let normalized := normalized_hex value in
  negb (bool_decide (normalized = [])) && forallb is_ascii_hexdigit normalized.

(** [ciphertext.ends_with('\n')] *)
Definition ends_with_newline (text : bytes) : bool := bool_decide (last text = Some x0a).

Section keys.
Context `{Hex, JsonText, Age}.

Definition decode_hex_vec (label value : bytes) : outcome KeyError bytes :=
  map_err (InvalidHexText label) (hex_decode (normalized_hex value)).

Definition parse_secret_key_material (input : bytes) : outcome KeyError bytes :=
  key_text (bytes_of "secret_key") input.

(** [password] is what the user types. *)
Definition prompt_existing_passphrase (password : outcome string bytes) : outcome KeyError bytes :=
  p ← map_err PassphraseUnreadable password;
  if is_blank p then Err EmptyPassphrase else Ok p.

Definition prompt_new_passphrase (first second : outcome string bytes) : outcome KeyError bytes :=
  a ← map_err PassphraseUnreadable first;
  b ← map_err PassphraseUnreadable second;
  if is_blank a then Err EmptyPassphrase
  else if negb (bool_decide (a = b)) then Err PassphraseMismatch
  else Ok a.

Definition decrypt_secret_key_file (ciphertext : bytes) (password : outcome string bytes) :
  outcome KeyError bytes :=
  passphrase ← prompt_existing_passphrase password;
  plaintext ← map_err DecryptFailed (age_decrypt passphrase ciphertext);
  if utf8_valid plaintext then parse_secret_key_material plaintext else Err NotUtf8.

Definition parse_secret_key_file_contents (raw : bytes) (password : outcome string bytes) :
  outcome KeyError bytes :=
  let trimmed := trim raw in
  if utf8_valid raw && (starts_with trimmed (bytes_of "{") || looks_like_plaintext_hex_secret trimmed)
  then parse_secret_key_material raw
  else decrypt_secret_key_file raw password.

Definition load_secret_key (e : env) (fs : file_system) (password : outcome string bytes) :
  outcome KeyError bytes :=
  match env_var e (bytes_of "PRIMS_SECRET_KEY_FILE") with
  | Some path =>
      raw ← ok_or (KeyFileUnreadable path) (fs !! path);
      parse_secret_key_file_contents raw password
  | None =>
      match env_var e (bytes_of "PRIMS_SECRET_KEY_HEX") with
      | Some value => parse_secret_key_material value
      | None => Err KeyVariableMissing
      end
  end.

(** [create_new]: an existing file is refused; writing succeeds. *)
Definition write_encrypted_secret_key_file (path secret_key : bytes) (first second : outcome string bytes)
    (salt : bytes) : io file_system CliError unit :=
  passphrase ← lift (map_err Key (prompt_new_passphrase first second));
  ciphertext ← lift (map_err EncryptFailed (encrypt_and_armor passphrase salt (hex_encode secret_key)));
  Io (fun fs : file_system =>
    match fs !! path with
    | Some _ => (Err (KeyFileExists path), fs)
    | None =>
        (Ok tt, <[path := ciphertext ++ if ends_with_newline ciphertext then [] else [x0a]]> fs)
    end).

Context `{Ed25519}.

(** [entropy] is what [OsRng] drew for the key. *)
Definition generate_key_command (encrypted_file : option bytes) (entropy : bytes)
    (first second : outcome string bytes) (salt : bytes) : io file_system CliError GeneratedKeyOutput :=
  let pair := generate_keypair entropy in
  match encrypted_file with
  | Some path =>
      write_encrypted_secret_key_file path (secret_key pair) first second salt;;
      mret {| gen_public_key := hex_encode (public_key pair); gen_secret_key := None;
              gen_encrypted_file := Some path |}
  | None =>
      mret {| gen_public_key := hex_encode (public_key pair);
              gen_secret_key := Some (hex_encode (secret_key pair)); gen_encrypted_file := None |}
  end.
End keys.

(** ** Commands *)

Definition DEFAULT_STAKE_DURATION_SECS : Z := 86400.
Definition DEFAULT_CALL_CONTRACT_GAS_LIMIT : Z := 100000.

Record SenderContext := {
  sender_secret_key : bytes;
  sender_public_key : bytes;
  address_hex : bytes;
  next_nonce : Z;
}.

Record TransactionSubmissionOutput := {
  out_from : bytes;
  out_to : bytes;
  out_tx_type : bytes;
  out_stake_duration : option Z;
  out_amount : Z;
  out_fee : Z;
  out_nonce : Z;
  out_source_shard : Z;
  out_destination_shard : Z;
  out_accepted : bool;
  out_tx_hash : bytes;
  out_mempool_size : Z;
}.

Definition tx_type_view (t : TransactionType) : bytes * option Z :=
  match t with
  | Transfer => (bytes_of "Transfer", None)
  | Stake duration => (bytes_of "Stake", Some duration)
  | Unstake => (bytes_of "Unstake", None)
  | PublicToAnon => (bytes_of "PublicToAnon", None)
  | AnonToPublic => (bytes_of "AnonToPublic", None)
  | DeployContract => (bytes_of "DeployContract", None)
  | CallContract => (bytes_of "CallContract", None)
  end.

(** The commands, over any implementation of the interface to a node. *)
Section commands.
Context {W : Type} `{RpcClient W, Sha256, Ed25519, ChainCodecs, Hex}.

Definition call_get_balance (address : bytes) : io W CliError CliBalanceResponse :=
  io_map_err Call (cli_get_balance address).

Definition call_send_transaction (hex_tx : bytes) : io W CliError RpcSendTransactionResponse :=
  io_map_err Call (cli_send_transaction hex_tx).

Definition balance_command (address : bytes) : io W CliError CliBalanceResponse :=
  address_bytes ← lift (map_err Key (decode_hex_vec (bytes_of "address") address));
  call_get_balance (hex_encode address_bytes).

Definition list_validators_command : io W CliError (list RpcValidatorView) :=
  io_map_err Call cli_get_validators.

(** [secret] is the result of [load_secret_key]. *)
Definition load_sender_context (secret : outcome KeyError bytes) :
  io W CliError SenderContext :=
  sk ← lift (map_err Key secret);
  let pk := public_key_of sk in
  let address := hex_encode pk in
  balance ← call_get_balance address;
  mret {| sender_secret_key := sk; sender_public_key := pk; address_hex := address;
          next_nonce := saturating 64 (cb_nonce balance + 1) |}.

Definition unsigned_transaction (sender : SenderContext) (t : TransactionType) (to : bytes)
    (amount source_shard destination_shard : Z) (data : option bytes) : Transaction := {|
  tx_type := t; tx_from := sender_public_key sender; tx_to := to; tx_amount := amount;
  tx_fee := FIXED_TRANSACTION_FEE; tx_nonce := next_nonce sender; tx_source_shard := source_shard;
  tx_destination_shard := destination_shard; tx_signature := []; tx_data := data |}.

Definition submit_transaction (sender : SenderContext) (t : TransactionType) (to : bytes)
    (amount source_shard destination_shard : Z) (data : option bytes) :
  io W CliError TransactionSubmissionOutput :=
  let transaction := unsigned_transaction sender t to amount source_shard destination_shard data in
  signature ← lift (map_err Signing (sign_transaction transaction (sender_secret_key sender)));
  let transaction := set_signature transaction signature in
  tx_bytes ← lift (map_err Encoding (bincode_serialize transaction));
  response ← call_send_transaction (hex_encode tx_bytes);
  mret {| out_from := address_hex sender; out_to := hex_encode to; out_tx_type := (tx_type_view t).1;
          out_stake_duration := (tx_type_view t).2; out_amount := amount;
          out_fee := FIXED_TRANSACTION_FEE; out_nonce := tx_nonce transaction;
          out_source_shard := source_shard; out_destination_shard := destination_shard;
          out_accepted := sent_accepted response; out_tx_hash := sent_tx_hash response;
          out_mempool_size := sent_mempool_size response |}.

Definition send_command (secret : outcome KeyError bytes) (to : bytes) (amount : Z) (anon : bool)
    (source_shard destination_shard : Z) : io W CliError TransactionSubmissionOutput :=
  sender ← load_sender_context secret;
  recipient ← lift (map_err Key (decode_hex_vec (bytes_of "to") to));
  submit_transaction sender (if anon then PublicToAnon else Transfer) recipient amount
    source_shard destination_shard
    (Some (if anon then bytes_of "prims-cli-send-anon" else bytes_of "prims-cli-send")).

Definition stake_command (secret : outcome KeyError bytes) (amount duration : Z) :
  io W CliError TransactionSubmissionOutput :=
  sender ← load_sender_context secret;
  submit_transaction sender (Stake duration) (sender_public_key sender) amount
    DEFAULT_SHARD_ID DEFAULT_SHARD_ID (Some (bytes_of "prims-cli-stake:" ++ dec_bytes duration)).

Definition unstake_command (secret : outcome KeyError bytes) :
  io W CliError TransactionSubmissionOutput :=
  sender ← load_sender_context secret;
  submit_transaction sender Unstake (sender_public_key sender) 0 DEFAULT_SHARD_ID DEFAULT_SHARD_ID
    (Some (bytes_of "prims-cli-unstake")).

(** With the address of the contract in the answer. *)
Definition create_contract_command (secret : outcome KeyError bytes) (fs : file_system)
    (wasm_file : bytes) : io W CliError (bytes * TransactionSubmissionOutput) :=
  sender ← load_sender_context secret;
  code_wasm ← lift (ok_or (WasmUnreadable wasm_file) (fs !! wasm_file));
  if bool_decide (code_wasm = []) then io_err EmptyWasm
  else
    let contract_address := derive_contract_address (sender_public_key sender) code_wasm in
    output ← submit_transaction sender DeployContract contract_address 0 DEFAULT_SHARD_ID
               DEFAULT_SHARD_ID (Some code_wasm);
    mret (contract_address, output).

(** [params_json] is the result of parsing [params] as JSON and serialising
    the value again. *)
Definition call_contract_command (secret : outcome KeyError bytes) (address method : bytes)
    (params_json : outcome string bytes) (gas_limit : Z) :
  io W CliError TransactionSubmissionOutput :=
  sender ← load_sender_context secret;
  address_bytes ← lift (map_err Key (decode_hex_vec (bytes_of "address") address));
  let method := trim method in
  if bool_decide (method = []) then io_err EmptyMethod
  else if gas_limit =? 0 then io_err ZeroGasLimit
  else
    params ← lift (map_err InvalidParamsJson params_json);
    let payload := {| call_method := String.string_of_list_byte method; call_params := params;
                      call_gas_limit := gas_limit |} in
    payload_bytes ← lift (map_err Encoding (bincode_serialize payload));
    submit_transaction sender CallContract address_bytes 0 DEFAULT_SHARD_ID DEFAULT_SHARD_ID
      (Some payload_bytes).

(** The subcommands of [main] that talk to a node. *)
Inductive Commands :=
| CmdBalance (address : bytes)
| CmdSend (to : bytes) (amount : Z) (anon : bool) (source_shard destination_shard : Z)
| CmdStake (amount duration : Z)
| CmdUnstake
| CmdListValidators
| CmdCreateContract (wasm_file : bytes)
| CmdCallContract (address method : bytes) (params_json : outcome string bytes) (gas_limit : Z).

Inductive CommandOutput :=
| BalanceOutput (r : CliBalanceResponse)
| SubmissionOutput (contract_address : option bytes) (r : TransactionSubmissionOutput)
| ValidatorsOutput (r : list RpcValidatorView).

Definition run_command (secret : outcome KeyError bytes) (fs : file_system) (c : Commands) :
  io W CliError CommandOutput :=
  match c with
  | CmdBalance address => r ← balance_command address; mret (BalanceOutput r)
  | CmdSend to amount anon source_shard destination_shard =>
      r ← send_command secret to amount anon source_shard destination_shard;
      mret (SubmissionOutput None r)
  | CmdStake amount duration =>
      r ← stake_command secret amount duration; mret (SubmissionOutput None r)
  | CmdUnstake => r ← unstake_command secret; mret (SubmissionOutput None r)
  | CmdListValidators => r ← list_validators_command; mret (ValidatorsOutput r)
  | CmdCreateContract wasm_file =>
      r ← create_contract_command secret fs wasm_file; mret (SubmissionOutput (Some r.1) r.2)
  | CmdCallContract address method params_json gas_limit =>
      r ← call_contract_command secret address method params_json gas_limit;
      mret (SubmissionOutput None r)
  end.
End commands.
