(* ===== verification/WalletSpec.v ===== *)
(** * Properties of the wallet

    The commands of file [Wallet] run against a node of file [Api]: what a
    command that submits a transaction does to the node, exactly when it
    succeeds, and the keys the wallet writes and reads back. *)

From Stdlib Require Import Strings.Byte.
From S2P Require Import Prelude Orders Bytes Text Externals Types Hash Crypto Validation Mempool Notes Keys Store Storage Ledger StorageSpec Vm VmSpec Json Api ApiSpec Rpc RpcSpec Transport Config Wallet.
Import DigestAddresses.

(** ** Orders *)

(** What a command asks to be submitted. *)
Record order := {
  ord_type : TransactionType;
  ord_to : bytes;
  ord_amount : Z;
  ord_source : Z;
  ord_destination : Z;
  ord_data : option bytes;
}.

Definition order_transaction (sender : SenderContext) (o : order) : Transaction :=
  unsigned_transaction sender (ord_type o) (ord_to o) (ord_amount o) (ord_source o)
    (ord_destination o) (ord_data o).

Definition submits (c : Commands) : bool :=
  match c with CmdBalance _ | CmdListValidators => false | _ => true end.

Section orders.
Context `{Sha256, ChainCodecs, Hex}.

Definition ordered (fs : file_system) (pk : bytes) (c : Commands) : outcome CliError order :=
  match c with
  | CmdSend to amount anon source destination =>
      recipient ← map_err Key (decode_hex_vec (bytes_of "to") to);
      Ok {| ord_type := if anon then PublicToAnon else Transfer; ord_to := recipient;
            ord_amount := amount; ord_source := source; ord_destination := destination;
            ord_data := Some (if anon then bytes_of "prims-cli-send-anon" else bytes_of "prims-cli-send") |}
  | CmdStake amount duration =>
      Ok {| ord_type := Stake duration; ord_to := pk; ord_amount := amount;
            ord_source := DEFAULT_SHARD_ID; ord_destination := DEFAULT_SHARD_ID;
            ord_data := Some (bytes_of "prims-cli-stake:" ++ dec_bytes duration) |}
  | CmdUnstake =>
      Ok {| ord_type := Unstake; ord_to := pk; ord_amount := 0; ord_source := DEFAULT_SHARD_ID;
            ord_destination := DEFAULT_SHARD_ID; ord_data := Some (bytes_of "prims-cli-unstake") |}
  | CmdCreateContract wasm_file =>
      code_wasm ← ok_or (WasmUnreadable wasm_file) (fs !! wasm_file);
      if bool_decide (code_wasm = []) then Err EmptyWasm
      else Ok {| ord_type := Types.DeployContract; ord_to := derive_contract_address pk code_wasm;
                 ord_amount := 0; ord_source := DEFAULT_SHARD_ID; ord_destination := DEFAULT_SHARD_ID;
                 ord_data := Some code_wasm |}
  | CmdCallContract address method params_json gas_limit =>
      address_bytes ← map_err Key (decode_hex_vec (bytes_of "address") address);
      if bool_decide (trim method = []) then Err EmptyMethod
      else if gas_limit =? 0 then Err ZeroGasLimit
      else
        params ← map_err InvalidParamsJson params_json;
        payload ← map_err Encoding (bincode_serialize
          {| call_method := String.string_of_list_byte (trim method); call_params := params;
             call_gas_limit := gas_limit |});
        Ok {| ord_type := CallContract; ord_to := address_bytes; ord_amount := 0;
              ord_source := DEFAULT_SHARD_ID; ord_destination := DEFAULT_SHARD_ID;
              ord_data := Some payload |}
  | _ => Err EmptyMethod
  end.

(** The contract address a command announces. *)
Definition announced (c : Commands) (o : order) : option bytes :=
  match c with CmdCreateContract _ => Some (ord_to o) | _ => None end.
End orders.

Section any_node.
Context {W : Type} `{RpcClient W, Sha256, Ed25519, ChainCodecs, Hex}.

(** Every submitting command: the sender, its order, one submission. *)
Lemma run_submitting secret fs c (st : W) :
  submits c = true ->
  run_io (run_command secret fs c) st =
  run_io (sender ← load_sender_context secret;
          o ← lift (ordered fs (sender_public_key sender) c);
          out ← submit_transaction sender (ord_type o) (ord_to o) (ord_amount o) (ord_source o)
                  (ord_destination o) (ord_data o);
          mret (SubmissionOutput (announced c o) out)) st.
Proof.
  intros Sub. destruct c as [a|to amount anon ss ds|amount d| | |f|a m p g]; try discriminate Sub;
    cbn [run_command send_command stake_command unstake_command create_contract_command
         call_contract_command];
    unfold send_command, stake_command, unstake_command, create_contract_command, call_contract_command;
    rewrite ?run_bind; destruct (run_io (load_sender_context secret) st) as [[sender|e|] s]; try done;
    rewrite ?run_bind, ?run_lift; cbn [ordered announced].
  - destruct (decode_hex_vec _ to); cbn [map_err mbind outcome_bind]; by rewrite ?run_bind.
  - destruct (fs !! f) as [code|]; cbn [ok_or mbind outcome_bind]; [|done].
    case_bool_decide; [done|]. rewrite !run_bind. cbn [ord_type ord_to ord_amount ord_source ord_destination ord_data].
    by destruct (run_io (submit_transaction _ _ _ _ _ _ _) s) as [[]].
  - destruct (decode_hex_vec _ a) as [ab|e|]; cbn [map_err mbind outcome_bind]; [|done..].
    rewrite ?run_bind. case_bool_decide; [done|]. destruct (g =? 0); [done|].
    destruct p as [p|e|]; cbn [map_err mbind outcome_bind]; rewrite ?run_bind, ?run_lift; [|done..].
    cbn [map_err].
    destruct (bincode_serialize _); cbn [map_err mbind outcome_bind]; rewrite ?run_bind, ?run_lift; done.
Qed.

End any_node.

(** ** Submissions *)

Section submissions.
Context {S : Type} `{KvStoreOk S, Sha256Ok, Ed25519Ok, ChainCodecsOk, WasmtimeOk, HexOk, RateLimiter}.
Context `{!Bincode ViewableNote, !BincodeOk ViewableNote, !Bincode Hash32, !BincodeOk Hash32}.
Context `{!BincodeTyped Transaction, !BincodeTyped ContractCallPayload}.

Context `{RpcTexts}.

Implicit Types (st : RpcState S) (L : Ledger).
#[local] Existing Instance direct_client.

Definition with_limiter st (l : limiter) : RpcState S :=
  {| rpc_storage := rpc_storage st; rpc_mempool := rpc_mempool st; rpc_limiter := l |}.

(** The context the wallet builds from the answer of the node. *)
Definition account_nonce L (pk : bytes) : Z := from_option acct_nonce 0 (led_accounts L !! pk).

Definition sender_of L (sk : bytes) : SenderContext := {|
  sender_secret_key := sk; sender_public_key := public_key_of sk;
  address_hex := hex_encode (public_key_of sk);
  next_nonce := saturating 64 (account_nonce L (public_key_of sk) + 1) |}.

(** What the node answers to the two calls of its clients. *)
Lemma serve_balance L st a l :
  represents (contents (rpc_storage st)) L -> limiter_check (rpc_limiter st) = (true, l) -> exists b,
  run_io (serve (GetBalanceReq (Ok (hex_encode a)))) st = (Ok (BalanceResponse b), with_limiter st l) /\
  bal_nonce b = account_nonce L a.
Proof.
  intros P El. unfold serve, handle. rewrite run_bind. unfold check_rate_limit. cbn [run_io]. rewrite El.
  unfold parsed. rewrite run_bind, run_lift. cbn [map_err]. rewrite run_bind.
  erewrite run_get_balance; [|exact P|exact (decode_hex_encode _ _ [] (or_introl eq_refl))].
  eexists. split; [apply run_ret|]. unfold account_nonce. by destruct (led_accounts L !! a).
Qed.

Lemma serve_submission L st tx b l :
  represents (contents (rpc_storage st)) L -> routed (rpc_mempool st) ->
  limiter_check (rpc_limiter st) = (true, l) ->
  wf tx -> bincode_serialize tx = Ok b -> vec_ok (encode_hex b) ->
  let '(r, st') := run_io (serve (SendTransactionReq (Ok (hex_encode b)))) st in
  match r with
  | Ok (SendTransactionResponse resp) => accepted L tx (with_limiter st l) resp st'
  | Ok _ => False
  | Err _ => st' = with_limiter st l /\
      (tx_type tx <> CallContract -> ~ admissible tx (led_accounts L !! tx_from tx))
  | Panic => False
  end.
Proof.
  intros P R El W Eb Sz. unfold serve, handle. rewrite run_bind. unfold check_rate_limit. cbn [run_io]. rewrite El.
  change {| rpc_storage := rpc_storage st; rpc_mempool := rpc_mempool st; rpc_limiter := l |}
    with (with_limiter st l).
  unfold parsed. rewrite run_bind, run_lift. cbn [map_err]. rewrite run_bind.
  pose proof (send_atomic L (with_limiter st l) (encode_hex b) P R Sz) as A.
  pose proof (send_iff L (with_limiter st l) tx b [] P R W Eb Sz (or_introl eq_refl)) as I.
  rewrite app_nil_l in I. unfold atomic in A. unfold encode_hex in *.
  destruct (run_io (send_transaction (hex_encode b)) (with_limiter st l)) as [[resp|e|] st']; [| |done].
  - rewrite run_ret. destruct A as (b' & tx' & D' & Dt' & _ & Ac).
    pose proof (decode_hex_encode b "hex_tx" [] (or_introl eq_refl)) as D. cbn [app] in D.
    unfold encode_hex in D. rewrite D in D'. injection D' as <-.
    rewrite (bincode_roundtrip tx b W Eb) in Dt'. injection Dt' as <-. exact Ac.
  - split; [done|]. intros N Ad. apply (I N) in Ad. done.
Qed.

Lemma serve_refused st q l :
  limiter_check (rpc_limiter st) = (false, l) ->
  run_io (serve q) st = (Err RateLimitExceeded, with_limiter st l).
Proof. intros E. unfold serve, handle. rewrite run_bind. unfold check_rate_limit. cbn [run_io]. by rewrite E. Qed.

Lemma run_load_sender L st sk l1 :
  represents (contents (rpc_storage st)) L -> routed (rpc_mempool st) -> limiter_check (rpc_limiter st) = (true, l1) ->
  run_io (load_sender_context (Ok sk)) st = (Ok (sender_of L sk), with_limiter st l1).
Proof.
  intros P R El. unfold load_sender_context. rewrite run_bind, run_lift. cbn [map_err].
  rewrite run_bind. unfold call_get_balance. rewrite run_io_map_err, (direct_balance L) by by split.
  destruct (serve_balance L st (public_key_of sk) l1 P El) as (b & -> & Nb). cbn [map_err fst snd].
  rewrite run_ret. cbn [cli_balance cb_nonce]. by rewrite Nb.
Qed.

(** The arguments are values of their types, and the text of the transaction
    fits in memory. *)
Definition encodable (sk : bytes) (tx : Transaction) : Prop :=
  wf tx /\ forall b, bincode_serialize (signed_by sk tx) = Ok b -> vec_ok (encode_hex b).

(** What a submission answers. *)
Definition submission_output (sender : SenderContext) (o : order) (resp : RpcSendTransactionResponse) :
  TransactionSubmissionOutput := {|
  out_from := address_hex sender; out_to := hex_encode (ord_to o);
  out_tx_type := (tx_type_view (ord_type o)).1; out_stake_duration := (tx_type_view (ord_type o)).2;
  out_amount := ord_amount o; out_fee := FIXED_TRANSACTION_FEE; out_nonce := next_nonce sender;
  out_source_shard := ord_source o; out_destination_shard := ord_destination o;
  out_accepted := sent_accepted resp; out_tx_hash := sent_tx_hash resp;
  out_mempool_size := sent_mempool_size resp |}.

Lemma run_submit L st sk o l2 :
  represents (contents (rpc_storage st)) L -> routed (rpc_mempool st) -> pool_fits st 1 ->
  limiter_check (rpc_limiter st) = (true, l2) ->
  let sender := sender_of L sk in
  let tx := signed_by sk (order_transaction sender o) in
  encodable sk (order_transaction sender o) ->
  let '(r, st') := run_io (submit_transaction sender (ord_type o) (ord_to o) (ord_amount o)
    (ord_source o) (ord_destination o) (ord_data o)) st in
  match r with
  | Ok out => exists resp,
      out = submission_output sender o resp /\ accepted L tx (with_limiter st l2) resp st'
  | Err _ => st' = with_limiter st l2 /\
      (ord_type o <> CallContract -> ~ admissible tx (led_accounts L !! public_key_of sk))
  | Panic => False
  end.
Proof.
  intros P R Fit El sender tx [W Sz].
  destruct (signed_by_Ok sk (order_transaction sender o) W eq_refl) as (sg & Es & Et & Wt & V).
  fold tx in Et, Wt, V, Sz. destruct (bincode_total tx Wt) as [b Eb].
  unfold submit_transaction. change (unsigned_transaction _ _ _ _ _ _ _) with (order_transaction sender o).
  cbv zeta. change (sender_secret_key sender) with sk. rewrite run_bind, run_lift, Es. cbn [map_err].
  rewrite <- Et. rewrite run_bind, run_lift, Eb. cbn [map_err]. rewrite run_bind.
  unfold call_send_transaction. rewrite run_io_map_err, (direct_send L); [|by split|by apply Sz|done].
  pose proof (serve_submission L st tx b l2 P R El Wt Eb (Sz b Eb)) as G.
  destruct (run_io (serve _) st) as [[resp|e|] st']; cbn [map_err fst snd]; [| |done].
  - destruct resp as [| |resp| | | |]; try done. cbn [map_err fst snd]. rewrite run_ret. exists resp. split; [|exact G].
    by rewrite Et.
  - destruct G as [-> N]. split; [done|]. rewrite Et in N |- *. exact N.
Qed.

(** What an order needs to be accepted: its encoding below the limit, a nonce
    left, and the funds it moves with the fee. *)
Definition payable L (sk : bytes) (o : order) : Prop :=
  let account := led_accounts L !! public_key_of sk in
  let balance := from_option acct_balance 0 account in
  (exists b, bincode_serialize (signed_by sk (order_transaction (sender_of L sk) o)) = Ok b /\
     Z.of_nat (length b) < MAX_TRANSACTION_SIZE_BYTES) /\
  from_option acct_nonce 0 account < 2 ^ 64 - 1 /\
  match ord_type o with
  | Unstake | Types.DeployContract | CallContract => FIXED_TRANSACTION_FEE <= balance
  | _ => 0 < ord_amount o /\ ord_amount o + FIXED_TRANSACTION_FEE <= balance
  end.

Definition deploy_complete (o : order) : Prop :=
  ord_type o = Types.DeployContract ->
  ord_amount o = 0 /\ ord_to o <> [] /\ exists code, ord_data o = Some code /\ code <> [].

Lemma ordered_complete fs pk c o : ordered fs pk c = Ok o -> deploy_complete o.
Proof.
  unfold deploy_complete. intros E T.
  destruct c as [a|to amount [|] ss ds|amount d| | |f|a m p g]; cbn [ordered] in E; outcome_inv; subst; try done.
  - by apply bool_decide_eq_false in Heqb as N; cbn; split; [|split; [intros D; apply (f_equal length) in D;
      unfold derive_contract_address in D; by rewrite sha256_length in D|eauto]].
Qed.

Lemma admissible_payable L m sk o :
  represents m L -> wf (order_transaction (sender_of L sk) o) -> deploy_complete o ->
  ord_type o <> CallContract ->
  admissible (signed_by sk (order_transaction (sender_of L sk) o)) (led_accounts L !! public_key_of sk) <->
  payable L sk o.
Proof.
  intros P W D N. destruct (signed_by_Ok sk _ W eq_refl) as (sg & _ & Et & _ & V). revert V.
  unfold payable. rewrite Et. intros V. set (account := led_accounts L !! public_key_of sk).
  assert (forall a, account = Some a -> u64 (acct_balance a) /\ u64 (acct_nonce a)) as Wa.
  { intros a Ea. pose proof (table_wf RAccount _ _ _ a I (rep_accounts _ _ P) Ea) as (B & Nn & _). done. }
  assert (0 <= tx_amount (order_transaction (sender_of L sk) o)) as A by apply W. cbn in A.
  assert (from_option acct_balance 0 account < 2 ^ 64) as B.
  { destruct account as [a|]; [|done]. apply (Wa a eq_refl). }
  assert ((forall a, account = Some a -> acct_nonce a < saturating 64 (account_nonce L (public_key_of sk) + 1)) <->
          from_option acct_nonce 0 account < 2 ^ 64 - 1) as Nn.
  { unfold account_nonce. fold account. unfold saturating. destruct account as [a|]; cbn [from_option].
    - destruct (Wa a eq_refl) as [_ [? ?]]. split; [intros F; specialize (F a eq_refl); lia|]. intros ? ? [= <-]. lia.
    - split; [lia|done]. }
  split.
  - intros [Sz _ _ Hn Ht]. split; [exact Sz|]. split; [by apply Nn|]. unfold type_rules, fee_covered in Ht.
    cbn in Ht. destruct (ord_type o); try done; tauto.
  - intros (Sz & Hn & Hf). split; [exact Sz|apply public_key_length|exact V|by apply Nn|].
    unfold type_rules, fee_covered. cbn. destruct (ord_type o) eqn:T; try done;
      try (split; [tauto|split; [done|split; [|tauto]]]; lia); try tauto.
    destruct (D T) as (-> & To & code & Ed & Nc). split; [tauto|]. split; [done|]. split; [done|]. eauto.
Qed.

(** A submitting command: the context, the order, the submission. *)
Lemma run_wallet_command L st sk fs c l1 l2 :
  represents (contents (rpc_storage st)) L -> routed (rpc_mempool st) -> pool_fits st 1 ->
  limiter_check (rpc_limiter st) = (true, l1) -> limiter_check l1 = (true, l2) ->
  submits c = true ->
  (forall o, ordered fs (public_key_of sk) c = Ok o -> encodable sk (order_transaction (sender_of L sk) o)) ->
  ordered fs (public_key_of sk) c <> Panic ->
  let '(r, st') := run_io (run_command (Ok sk) fs c) st in
  match r with
  | Ok out => exists o resp,
      ordered fs (public_key_of sk) c = Ok o /\
      out = SubmissionOutput (announced c o) (submission_output (sender_of L sk) o resp) /\
      accepted L (signed_by sk (order_transaction (sender_of L sk) o)) (with_limiter st l2) resp st'
  | Err _ => rpc_storage st' = rpc_storage st /\ rpc_mempool st' = rpc_mempool st /\
      forall o, ordered fs (public_key_of sk) c = Ok o -> ord_type o <> CallContract ->
        ~ admissible (signed_by sk (order_transaction (sender_of L sk) o)) (led_accounts L !! public_key_of sk)
  | Panic => False
  end.
Proof.
  intros P R Fit E1 E2 Sub En NP. rewrite run_submitting by done.
  rewrite run_bind, (run_load_sender L st sk l1 P R E1), run_bind, run_lift.
  change (sender_public_key (sender_of L sk)) with (public_key_of sk).
  destruct (ordered fs (public_key_of sk) c) as [o|e|] eqn:Eo; [|done|done].
  rewrite run_bind. pose proof (run_submit L (with_limiter st l1) sk o l2 P R Fit E2 (En o eq_refl)) as Sb.
  destruct (run_io (submit_transaction _ _ _ _ _ _ _) _) as [[out|e|] st']; [|..|done].
  - destruct Sb as (resp & -> & A). rewrite run_ret. by exists o, resp.
  - destruct Sb as [-> N]. split; [done|]. split; [done|]. by intros ? [= <-].
Qed.

Lemma ordered_not_Panic fs pk c :
  (forall a m p g, c = CmdCallContract a m p g -> p <> Panic /\
     forall x : ContractCallPayload, bincode_serialize x <> Panic) ->
  ordered fs pk c <> Panic.
Proof.
  intros T. destruct c as [a|to amount anon ss ds|amount d| | |f|a m p g]; cbn [ordered]; try done.
  - apply bind_not_Panic; [by apply map_err_not_Panic, map_err_not_Panic, hex_decode_no_panic|done].
  - apply bind_not_Panic; [apply ok_or_not_Panic|]. intros code _. by case_bool_decide.
  - destruct (T _ _ _ _ eq_refl) as [Np Ns].
    apply bind_not_Panic; [by apply map_err_not_Panic, map_err_not_Panic, hex_decode_no_panic|].
    intros ab _. case_bool_decide; [done|]. case_match; [done|].
    apply bind_not_Panic; [by apply map_err_not_Panic|]. intros params _.
    apply bind_not_Panic; [by apply map_err_not_Panic|]. done.
Qed.

(** A limiter that refuses one of the two calls. *)
Definition two_calls_granted (l : limiter) : Prop :=
  exists l1 l2, limiter_check l = (true, l1) /\ limiter_check l1 = (true, l2).

Lemma run_refused L st sk fs c :
  represents (contents (rpc_storage st)) L -> routed (rpc_mempool st) -> pool_fits st 1 -> submits c = true ->
  (forall o, ordered fs (public_key_of sk) c = Ok o -> encodable sk (order_transaction (sender_of L sk) o)) ->
  is_ok (run_io (run_command (Ok sk) fs c) st).1 = true -> two_calls_granted (rpc_limiter st).
Proof.
  intros P R Fit Sub En. rewrite run_submitting, run_bind by done.
  destruct (limiter_check (rpc_limiter st)) as [[|] l1] eqn:E1.
  2: { unfold load_sender_context, call_get_balance. rewrite run_bind, run_lift. cbn [map_err].
       rewrite run_bind, run_io_map_err, (direct_balance L) by by split. by rewrite (serve_refused _ _ _ E1). }
  rewrite (run_load_sender L st sk l1 P R E1), run_bind, run_lift.
  change (sender_public_key (sender_of L sk)) with (public_key_of sk).
  destruct (ordered fs (public_key_of sk) c) as [o|e|] eqn:Eo; [|done..].
  destruct (limiter_check l1) as [[|] l2] eqn:E2; [by exists l1, l2|].
  rewrite run_bind. unfold submit_transaction.
  change (unsigned_transaction _ _ _ _ _ _ _) with (order_transaction (sender_of L sk) o).
  cbv zeta. change (sender_secret_key (sender_of L sk)) with sk.
  destruct (En o eq_refl) as [W Sz]. destruct (signed_by_Ok sk _ W eq_refl) as (sg & Es & Et & Wt & _).
  rewrite Et in Wt, Sz. destruct (bincode_total _ Wt) as [b Eb].
  rewrite run_bind, run_lift, Es. cbn [map_err]. rewrite run_bind, run_lift, Eb. cbn [map_err]. rewrite run_bind.
  unfold call_send_transaction. rewrite run_io_map_err, (direct_send L); [|by split|by apply Sz|done].
  by rewrite (serve_refused (with_limiter st l1) _ _ E2).
Qed.

(** What a command of the wallet that submits a
    transaction does to the node it talks to: on success the node holds
    exactly one more transaction, the one the command line asked for, with the
    sender's next nonce, the fixed fee and a signature that verifies under the
    sender's key, and the output reports it; on failure, for any reason, the
    storage and the pool of the node are as before.  The tool never panics. *)
Theorem wallet_command_effect L st sk fs c l1 l2 :
  represents (contents (rpc_storage st)) L -> routed (rpc_mempool st) -> pool_fits st 1 ->
  limiter_check (rpc_limiter st) = (true, l1) -> limiter_check l1 = (true, l2) ->
  submits c = true ->
  (forall o, ordered fs (public_key_of sk) c = Ok o -> encodable sk (order_transaction (sender_of L sk) o)) ->
  ordered fs (public_key_of sk) c <> Panic ->
  let '(r, st') := run_io (run_command (Ok sk) fs c) st in
  match r with
  | Ok out => exists o tx resp,
      ordered fs (public_key_of sk) c = Ok o /\
      clear_signature tx = order_transaction (sender_of L sk) o /\
      verify_transaction tx (public_key_of sk) = Ok true /\
      pending st' ≡ₚ tx :: pending st /\
      out = SubmissionOutput (announced c o) (submission_output (sender_of L sk) o resp) /\
      sent_accepted resp = true /\ sent_mempool_size resp = Z.of_nat (length (pending st'))
  | Err _ => rpc_storage st' = rpc_storage st /\ rpc_mempool st' = rpc_mempool st
  | Panic => False
  end.
Proof.
  intros P R Fit E1 E2 Sub En NP. pose proof (run_wallet_command L st sk fs c l1 l2 P R Fit E1 E2 Sub En NP) as G.
  destruct (run_io (run_command (Ok sk) fs c) st) as [[out|e|] st']; [|tauto|done].
  destruct G as (o & resp & Eo & -> & A). destruct (En o Eo) as [W _].
  destruct (signed_by_Ok sk _ W eq_refl) as (sg & _ & Et & _ & V).
  exists o, (signed_by sk (order_transaction (sender_of L sk) o)), resp.
  split; [done|]. split; [by rewrite Et|]. split; [exact V|]. split; [apply A|].
  split; [done|]. split; apply A.
Qed.

(** [C11] Exactly when the wallet succeeds, on the
    handlers of a node whose pool has room for one more: a command other than
    a contract call, whose arguments are values of their types that fit in memory, is accepted by
    the node if and only if the rate limiter grants its two calls, its
    arguments make an order, and that order is payable: its encoding is below
    the size limit, the account has a nonce left, and its balance covers the
    amount (which is not zero for a transfer, a stake or a conversion) with
    the fee, or the fee alone for an unstake or a deployment.  No check of
    signature, key, nonce order or deployment fails. *)
Theorem wallet_command_accepted L st sk fs c :
  represents (contents (rpc_storage st)) L -> routed (rpc_mempool st) -> pool_fits st 1 ->
  submits c = true -> (forall a m p g, c <> CmdCallContract a m p g) ->
  (forall o, ordered fs (public_key_of sk) c = Ok o -> encodable sk (order_transaction (sender_of L sk) o)) ->
  is_ok (run_io (run_command (Ok sk) fs c) st).1 = true <->
  two_calls_granted (rpc_limiter st) /\
  exists o, ordered fs (public_key_of sk) c = Ok o /\ payable L sk o.
Proof.
  intros P R Fit Sub NC En.
  assert (ordered fs (public_key_of sk) c <> Panic) as NP.
  { apply ordered_not_Panic. intros a m p g ->. by destruct (NC a m p g). }
  assert (forall o, ordered fs (public_key_of sk) c = Ok o -> ord_type o <> CallContract) as NT.
  { intros o Eo. destruct c as [a|to amount [|] ss ds|amount d| | |f|a m p g]; cbn [ordered] in Eo;
      outcome_inv; subst; try done. by edestruct NC. }
  pose proof (run_refused L st sk fs c P R Fit Sub En) as Rf.
  assert (forall l1 l2, limiter_check (rpc_limiter st) = (true, l1) -> limiter_check l1 = (true, l2) ->
    is_ok (run_io (run_command (Ok sk) fs c) st).1 = true <->
    exists o, ordered fs (public_key_of sk) c = Ok o /\ payable L sk o) as K.
  2: { split; [intros A; destruct (Rf A) as (l1 & l2 & E1 & E2); split; [by exists l1, l2|by apply (K l1 l2)]|].
       intros [(l1 & l2 & E1 & E2) Py]. by apply (K l1 l2). }
  clear Rf. intros l1 l2 E1 E2.
  pose proof (run_wallet_command L st sk fs c l1 l2 P R Fit E1 E2 Sub En NP) as G.
  pose proof (fun o Eo => admissible_payable L _ sk o P (proj1 (En o Eo))
    (ordered_complete fs _ c o Eo) (NT o Eo)) as AP.
  destruct (run_io (run_command (Ok sk) fs c) st) as [[out|e|] st']; [|..|done]; cbn [fst is_ok].
  - destruct G as (o & resp & Eo & _ & A). split; [|done]. intros _. exists o. split; [done|].
    apply (AP o Eo). pose proof (acc_admissible _ _ _ _ _ A) as Ad. destruct (En o Eo) as [W _].
    destruct (signed_by_Ok sk _ W eq_refl) as (sg & _ & Et & _). by rewrite Et in Ad |- *.
  - split; [done|]. intros (o & Eo & Py). destruct G as (_ & _ & N). destruct (N o Eo (NT o Eo)). by apply AP.
Qed.

(** The wallet takes its nonce from the stored
    account, which a submission does not change: two commands in a row, the
    first not a contract call, both succeed, and the pool of the node then
    holds two transactions of the same sender with the same nonce, each
    passing every check of a submission. *)
Theorem wallet_nonce_repeats L st sk fs c1 c2 l1 l2 l3 l4 out1 out2 st1 st2 :
  represents (contents (rpc_storage st)) L -> routed (rpc_mempool st) -> pool_fits st 2 ->
  limiter_check (rpc_limiter st) = (true, l1) -> limiter_check l1 = (true, l2) ->
  limiter_check l2 = (true, l3) -> limiter_check l3 = (true, l4) ->
  submits c1 = true -> submits c2 = true -> (forall a m p g, c1 <> CmdCallContract a m p g) ->
  (forall c o, c = c1 \/ c = c2 -> ordered fs (public_key_of sk) c = Ok o ->
     encodable sk (order_transaction (sender_of L sk) o)) ->
  ordered fs (public_key_of sk) c2 <> Panic ->
  run_io (run_command (Ok sk) fs c1) st = (Ok out1, st1) ->
  run_io (run_command (Ok sk) fs c2) st1 = (Ok out2, st2) ->
  exists tx1 tx2, pending st2 ≡ₚ tx2 :: tx1 :: pending st /\
    tx_from tx1 = public_key_of sk /\ tx_from tx2 = public_key_of sk /\ tx_nonce tx1 = tx_nonce tx2 /\
    admissible tx1 (led_accounts L !! public_key_of sk) /\
    admissible tx2 (led_accounts L !! public_key_of sk).
Proof.
  intros P R Fit E1 E2 E3 E4 Sub1 Sub2 NC En NP2 Ex1 Ex2.
  assert (ordered fs (public_key_of sk) c1 <> Panic) as NP1.
  { apply ordered_not_Panic. intros a m p g ->. by destruct (NC a m p g). }
  assert (pool_fits st 1) as Fit1 by (unfold pool_fits in *; lia).
  pose proof (run_wallet_command L st sk fs c1 l1 l2 P R Fit1 E1 E2 Sub1
    (fun o => En c1 o (or_introl eq_refl)) NP1) as G1.
  rewrite Ex1 in G1. destruct G1 as (o1 & resp1 & Eo1 & _ & A1).
  assert (rpc_storage st1 = rpc_storage st) as Es.
  { pose proof (acc_storage _ _ _ _ _ A1) as As. destruct (En c1 o1 (or_introl eq_refl) Eo1) as [W _].
    destruct (signed_by_Ok sk _ W eq_refl) as (sg & _ & Et & _). rewrite Et in As. cbn in As.
    destruct c1 as [a|to amount [|] ss ds|amount d| | |f|a m p g]; cbn [ordered] in Eo1;
      outcome_inv; subst; try exact As. by edestruct NC. }
  pose proof (acc_limiter _ _ _ _ _ A1) as El. cbn in El.
  assert (represents (contents (rpc_storage st1)) L) as P1 by by rewrite Es.
  assert (limiter_check (rpc_limiter st1) = (true, l3)) as E3' by by rewrite El.
  assert (pool_fits st1 1) as Fit2.
  { unfold pool_fits in *. rewrite (acc_pending _ _ _ _ _ A1). cbn [length]. change (pending (with_limiter st l2)) with (pending st). lia. }
  pose proof (run_wallet_command L st1 sk fs c2 l3 l4 P1 (acc_routed _ _ _ _ _ A1) Fit2 E3' E4 Sub2
    (fun o => En c2 o (or_intror eq_refl)) NP2) as G2.
  rewrite Ex2 in G2. destruct G2 as (o2 & resp2 & Eo2 & _ & A2).
  destruct (En c1 o1 (or_introl eq_refl) Eo1) as [W1 _], (En c2 o2 (or_intror eq_refl) Eo2) as [W2 _].
  destruct (signed_by_Ok sk _ W1 eq_refl) as (sg1 & _ & Et1 & _).
  destruct (signed_by_Ok sk _ W2 eq_refl) as (sg2 & _ & Et2 & _).
  exists (signed_by sk (order_transaction (sender_of L sk) o1)),
    (signed_by sk (order_transaction (sender_of L sk) o2)).
  pose proof (acc_admissible _ _ _ _ _ A1) as Ad1. pose proof (acc_admissible _ _ _ _ _ A2) as Ad2.
  pose proof (acc_pending _ _ _ _ _ A1) as Pe1. pose proof (acc_pending _ _ _ _ _ A2) as Pe2.
  split; [etrans; [exact Pe2|]; by constructor|].
  rewrite Et1 in Ad1. rewrite Et2 in Ad2. rewrite Et1, Et2.
  split; [done|]. split; [done|]. split; [done|]. exact (conj Ad1 Ad2).
Qed.
End submissions.

(** ** Keys *)

Section keys.
Context `{HexOk, AgeOk, JsonText, Ed25519}.

Lemma normalized_hex_text before prefix b after :
  Forall blank before -> Forall blank after ->
  prefix = [] \/ prefix = bytes_of "0x" \/ prefix = bytes_of "0X" ->
  normalized_hex (before ++ (prefix ++ hex_encode b) ++ after) = hex_encode b /\
  trim (before ++ (prefix ++ hex_encode b) ++ after) = prefix ++ hex_encode b.
Proof.
  intros Fb Fa Px.
  assert (Forall printable (prefix ++ hex_encode b)) as Fp.
  { apply Forall_app. split; [by destruct Px as [->|[->| ->]]; repeat constructor|].
    eapply Forall_impl; [apply hex_digit_range|]. unfold printable. tauto. }
  pose proof (trim_padded before _ after Fb Fp Fa) as T. split; [|exact T].
  unfold normalized_hex. rewrite T. destruct Px as [->|[->| ->]].
  - rewrite app_nil_l, strip_0x_hex.
    destruct (strip_prefix (bytes_of "0X") (hex_encode b)) as [r|] eqn:E; [|done].
    apply strip_prefix_Some in E. pose proof (hex_encode_digits b) as F. rewrite E in F. cbn in F.
    by apply Forall_cons in F as [_ [D _]%Forall_cons].
  - by rewrite (proj2 (strip_prefix_Some _ _ (hex_encode b))).
  - destruct (strip_prefix (bytes_of "0x") (bytes_of "0X" ++ hex_encode b)) as [r|] eqn:E; [discriminate E|].
    by rewrite (proj2 (strip_prefix_Some _ _ (hex_encode b))).
Qed.

(** A key as it can be written in a variable or a file. *)
Definition key_written (before prefix k after : bytes) : bytes := before ++ (prefix ++ hex_encode k) ++ after.

Definition key_style (before prefix after : bytes) : Prop :=
  Forall blank before /\ Forall blank after /\
  (prefix = [] \/ prefix = bytes_of "0x" \/ prefix = bytes_of "0X").

Lemma decode_hex_32_text label prefix k :
  prefix = [] \/ prefix = bytes_of "0x" \/ prefix = bytes_of "0X" -> length k = 32%nat ->
  decode_hex_32 label (prefix ++ hex_encode k) = Ok k.
Proof.
  intros Px L. unfold decode_hex_32.
  pose proof (proj1 (normalized_hex_text [] prefix k [] (Forall_nil_2 _) (Forall_nil_2 _) Px)) as N.
  rewrite app_nil_l, app_nil_r in N. rewrite N, hex_decode_encode. cbn [map_err mbind outcome_bind].
  by rewrite L.
Qed.

Lemma not_brace prefix k :
  prefix = [] \/ prefix = bytes_of "0x" \/ prefix = bytes_of "0X" ->
  starts_with (prefix ++ hex_encode k) (bytes_of "{") = false.
Proof.
  intros Px. apply not_true_iff_false. intros (r & E)%starts_with_true.
  destruct Px as [->|[->| ->]]; [|discriminate E..]. rewrite app_nil_l in E.
  pose proof (hex_encode_digits k) as F. rewrite E in F. by apply Forall_cons in F as [D _].
Qed.

Lemma key_written_text label before prefix k after :
  key_style before prefix after -> length k = 32%nat ->
  key_text label (key_written before prefix k after) = Ok k.
Proof.
  intros (Fb & Fa & Px) L. unfold key_text, key_written.
  rewrite (proj2 (normalized_hex_text before prefix k after Fb Fa Px)), not_brace by done.
  by apply decode_hex_32_text.
Qed.

Lemma key_written_ascii before prefix k after :
  key_style before prefix after -> Forall ascii (key_written before prefix k after).
Proof.
  intros (Fb & Fa & Px). unfold key_written. rewrite !Forall_app.
  assert (forall l, Forall blank l -> Forall ascii l) as B.
  { intros l F. eapply Forall_impl; [exact F|]. unfold blank, ascii. lia. }
  split; [auto|]. split; [|auto]. split; [by destruct Px as [->|[->| ->]]; repeat constructor|].
  eapply Forall_impl; [apply hex_digit_range|]. unfold ascii. tauto.
Qed.

(** A plaintext file is recognised as such. *)
Lemma key_file_plaintext before prefix k after password :
  key_style before prefix after -> length k = 32%nat ->
  parse_secret_key_file_contents (key_written before prefix k after) password = Ok k.
Proof.
  intros St L. unfold parse_secret_key_file_contents.
  rewrite utf8_valid_ascii by by apply key_written_ascii.
  pose proof St as (Fb & Fa & Px). cbn [andb].
  unfold key_written at 1 2. rewrite (proj2 (normalized_hex_text before prefix k after Fb Fa Px)).
  assert (looks_like_plaintext_hex_secret (prefix ++ hex_encode k) = true) as ->.
  { unfold looks_like_plaintext_hex_secret.
    pose proof (proj1 (normalized_hex_text [] prefix k [] (Forall_nil_2 _) (Forall_nil_2 _) Px)) as N.
    rewrite app_nil_l, app_nil_r in N. rewrite N. rewrite bool_decide_eq_false_2.
    - cbn [negb andb]. apply forallb_forall. intros d D. apply list_elem_of_In in D.
      pose proof (hex_encode_digits k) as F. rewrite Forall_forall in F. specialize (F d D).
      unfold is_hex_digit in F. unfold is_ascii_hexdigit. apply orb_true_iff in F as [-> | ->]; [done|apply orb_true_r].
    - intros E. pose proof (hex_decode_length _ _ (hex_decode_encode k)) as Lk. rewrite E, L in Lk. done. }
  rewrite orb_true_r. by apply key_written_text.
Qed.

(** An armored file is not mistaken for a plaintext key. *)
Lemma key_file_armored c password :
  Forall ascii c -> starts_with c (bytes_of "-") = true ->
  parse_secret_key_file_contents c password = decrypt_secret_key_file c password.
Proof.
  intros A (r & ->)%starts_with_true. unfold parse_secret_key_file_contents.
  rewrite utf8_valid_ascii by done. change (bytes_of "-" ++ r) with (x2d :: r) in *.
  apply Forall_cons in A as [_ A]. assert (printable x2d) as Pd by (unfold printable; by vm_compute).
  destruct (trim_head x2d r A Pd) as (r1 & E1 & A1). rewrite E1.
  destruct (trim_head x2d r1 A1 Pd) as (r2 & E2 & _).
  unfold looks_like_plaintext_hex_secret, normalized_hex. rewrite E2. done.
Qed.

(** [C29] Every key the tool generates can be loaded again.
    Without a file it is printed, and the printed text, with or without 0x or
    0X and between any blanks, gives back the key from the variable or from a
    plaintext file.  With a new file and a passphrase confirmed that is not
    blank, the key is not printed, only that file is written, and the same
    passphrase gives back the key from it.  The announced public key is that
    of the key. *)
Theorem generated_key_loads (fs : file_system) (entropy salt : bytes) (first second : outcome string bytes) :
  length entropy = 32%nat ->
  (exists out,
     run_io (generate_key_command None entropy first second salt) fs = (Ok out, fs) /\
     gen_public_key out = hex_encode (public_key_of entropy) /\
     gen_secret_key out = Some (hex_encode entropy) /\
     forall before prefix after (e : env) (fs' : file_system) path password,
       key_style before prefix after ->
       let value := key_written before prefix entropy after in
       (env_var e (bytes_of "PRIMS_SECRET_KEY_FILE") = None ->
        e !! bytes_of "PRIMS_SECRET_KEY_HEX" = Some value ->
        load_secret_key e fs' password = Ok entropy) /\
       (env_var e (bytes_of "PRIMS_SECRET_KEY_FILE") = Some path -> fs' !! path = Some value ->
        load_secret_key e fs' password = Ok entropy)) /\
  (forall path p c, fs !! path = None -> is_blank p = false ->
     encrypt_and_armor p salt (hex_encode entropy) = Ok c -> exists out fs',
       run_io (generate_key_command (Some path) entropy (Ok p) (Ok p) salt) fs = (Ok out, fs') /\
       gen_public_key out = hex_encode (public_key_of entropy) /\ gen_secret_key out = None /\
       (forall q, q <> path -> fs' !! q = fs !! q) /\
       forall e : env, env_var e (bytes_of "PRIMS_SECRET_KEY_FILE") = Some path ->
         load_secret_key e fs' (Ok p) = Ok entropy).
Proof.
  intros Le. split.
  - eexists. split; [done|]. split; [done|]. split; [done|].
    intros before prefix after e fs' path password St value. unfold load_secret_key. split.
    + intros -> Ev. rewrite (env_var_ascii e _ value Ev) by by apply key_written_ascii.
      by apply key_written_text.
    + intros -> Ef. rewrite Ef. cbn [ok_or mbind outcome_bind]. by apply key_file_plaintext.
  - intros path p c Nf Bp Ec. unfold generate_key_command, write_encrypted_secret_key_file.
    cbn [generate_keypair secret_key public_key].
    rewrite !run_bind, run_lift. unfold prompt_new_passphrase. cbn [map_err mbind outcome_bind].
    rewrite Bp, bool_decide_true by done. cbn [negb map_err]. rewrite run_bind, run_lift, Ec.
    cbn [map_err run_io]. rewrite Nf. rewrite run_ret. eexists _, _. split; [done|].
    split; [done|]. split; [done|]. split; [intros q Nq; by rewrite lookup_insert_ne|].
    intros e Ee. unfold load_secret_key. rewrite Ee, lookup_insert_eq. cbn [ok_or mbind outcome_bind].
    set (newline := if ends_with_newline c then [] else [x0a]).
    assert (newline = [] \/ newline = [x0a]) as Nl by (unfold newline; case_match; auto).
    destruct (age_armored _ _ _ _ Ec) as [Ac (r & Er)%starts_with_true].
    rewrite key_file_armored.
    + unfold decrypt_secret_key_file, prompt_existing_passphrase. cbn [map_err mbind outcome_bind].
      rewrite Bp. cbn [mbind outcome_bind]. rewrite (age_round_trip _ _ _ _ _ Ec Nl). cbn [map_err mbind outcome_bind].
      assert (key_style [] [] []) as St by by repeat split; auto.
      pose proof (key_written_ascii [] [] entropy [] St) as A. pose proof (fun label => key_written_text label [] [] entropy [] St Le) as T.
      unfold key_written in A, T. rewrite !app_nil_l, app_nil_r in A. rewrite utf8_valid_ascii by done.
      specialize (T (bytes_of "secret_key")). rewrite !app_nil_l, app_nil_r in T. exact T.
    + apply Forall_app. split; [done|]. destruct Nl as [-> | ->]; repeat constructor.
    + apply starts_with_true. rewrite Er. eexists. rewrite <- app_assoc.
      change (bytes_of "-----BEGIN AGE ENCRYPTED FILE-----") with
        (bytes_of "-" ++ bytes_of "----BEGIN AGE ENCRYPTED FILE-----"). by rewrite <- app_assoc.
Qed.
End keys.

(** ** Witnesses *)

From S2P Require Import Concrete.
Import Concrete.Instances StorageInstances.

#[local] Existing Instances toy_texts direct_client.
#[local] Existing Instances sample_engine sample_engine_ok toy_hex toy_hex_ok toy_limiter.

(** The node of file [ApiSpec] and the key of its funded account. *)
Definition sk7 : bytes := fill 32 7.

Definition send_42 : Commands := CmdSend (bytes_of "0x" ++ hex_encode (fill 32 2)) 42 false 0 0.

Definition order_42 : order := {|
  ord_type := Transfer; ord_to := fill 32 2; ord_amount := 42; ord_source := 0; ord_destination := 0;
  ord_data := Some (bytes_of "prims-cli-send") |}.

Lemma ordered_42 : ordered ∅ (public_key_of sk7) send_42 = Ok order_42.
Proof. vm_compute. reflexivity. Qed.

Lemma encodable_42 : encodable sk7 (order_transaction (sender_of node_ledger sk7) order_42).
Proof.
  split; [solve_wf|]. intros b E. apply (inj Ok) in E. rewrite <- E. by vm_compute.
Qed.

Lemma all_encodable_42 o :
  ordered ∅ (public_key_of sk7) send_42 = Ok o ->
  encodable sk7 (order_transaction (sender_of node_ledger sk7) o).
Proof. rewrite ordered_42. intros E. apply (inj Ok) in E. rewrite <- E. apply encodable_42. Qed.

Lemma roomy : pool_fits node 2.
Proof. by vm_compute. Qed.

Lemma roomy_1 : pool_fits node 1.
Proof. by vm_compute. Qed.

Lemma permits : limiter_check (rpc_limiter node) = (true, 19) /\ limiter_check (19 : limiter) = (true, 18) /\
  limiter_check (18 : limiter) = (true, 17) /\ limiter_check (17 : limiter) = (true, 16).
Proof. vm_compute. done. Qed.

Definition after_42 : outcome CliError CommandOutput * RpcState (gmap bytes bytes) :=
  run_io (run_command (Ok sk7) ∅ send_42) node.

Lemma accepted_42 : is_ok after_42.1 = true /\ is_ok (run_io (run_command (Ok sk7) ∅ send_42) after_42.2).1 = true.
Proof. split; vm_compute; reflexivity. Qed.

Lemma wallet_command_effect_witness : exists out st' o tx,
  after_42 = (Ok out, st') /\ ordered ∅ (public_key_of sk7) send_42 = Ok o /\
  clear_signature tx = order_transaction (sender_of node_ledger sk7) o /\
  verify_transaction tx (public_key_of sk7) = Ok true /\ pending st' ≡ₚ tx :: pending node.
Proof.
  destruct permits as (E1 & E2 & _).
  assert (ordered ∅ (public_key_of sk7) send_42 <> Panic) as NP by (rewrite ordered_42; discriminate).
  pose proof (wallet_command_effect node_ledger node sk7 ∅ send_42 19 18 node_represents node_routed roomy_1 E1 E2
    eq_refl all_encodable_42 NP) as G.
  fold after_42 in G. pose proof (proj1 accepted_42) as A. destruct after_42 as [[out|e|] st']; try discriminate A.
  destruct G as (o & tx & resp & Eo & Ec & V & Pe & _). exists out, st', o, tx.
  exact (conj eq_refl (conj Eo (conj Ec (conj V Pe)))).
Defined.

Lemma wallet_command_accepted_witness :
  (two_calls_granted (rpc_limiter node) /\
   exists o, ordered ∅ (public_key_of sk7) send_42 = Ok o /\ payable node_ledger sk7 o) /\
  is_ok (run_io (run_command (Ok sk7) ∅ send_42) (with_limiter node 1)).1 = false.
Proof.
  split.
  - apply (wallet_command_accepted node_ledger node sk7 ∅ send_42 node_represents node_routed roomy_1
      eq_refl ltac:(discriminate) all_encodable_42). exact (proj1 accepted_42).
  - pose proof (wallet_command_accepted node_ledger (with_limiter node 1) sk7 ∅ send_42 node_represents node_routed
      roomy_1 eq_refl ltac:(discriminate) all_encodable_42) as G.
    destruct (is_ok _); [|reflexivity]. destruct (proj1 G eq_refl) as [(l1 & l2 & E1 & E2) _].
    injection E1 as <-. discriminate E2.
Defined.

Lemma wallet_nonce_repeats_witness : exists (st2 : RpcState (gmap bytes bytes)) (tx1 tx2 : Transaction),
  pending st2 ≡ₚ tx2 :: tx1 :: pending node /\ tx_nonce tx1 = tx_nonce tx2.
Proof.
  destruct permits as (E1 & E2 & E3 & E4), accepted_42 as [A1 A2].
  assert (ordered ∅ (public_key_of sk7) send_42 <> Panic) as NP by (rewrite ordered_42; discriminate).
  destruct after_42 as [r1 st1] eqn:R1. cbn [fst snd] in A1, A2. destruct r1 as [out1|e|]; try discriminate A1.
  destruct (run_io (run_command (Ok sk7) ∅ send_42) st1) as [r2 st2] eqn:R2. cbn [fst] in A2.
  destruct r2 as [out2|e|]; try discriminate A2.
  destruct (wallet_nonce_repeats node_ledger node sk7 ∅ send_42 send_42 19 18 17 16 out1 out2 st1 st2
    node_represents node_routed roomy E1 E2 E3 E4 eq_refl eq_refl ltac:(discriminate)
    (fun c o Hc => match Hc with or_introl E => eq_ind_r (fun c => ordered ∅ _ c = Ok o -> _) (all_encodable_42 o) E
                   | or_intror E => eq_ind_r (fun c => ordered ∅ _ c = Ok o -> _) (all_encodable_42 o) E end)
    NP R1 R2) as (tx1 & tx2 & Pe & _ & _ & En & _).
  exists st2, tx1, tx2. exact (conj Pe En).
Defined.

(** An encryption that writes the passphrase and the text in hexadecimal. *)
#[local] Instance toy_age : Age := {|
  encrypt_and_armor := fun p _ plaintext =>
    Ok (bytes_of "-----BEGIN AGE ENCRYPTED FILE-----" ++ hex_encode (p ++ plaintext));
  age_decrypt := fun p c =>
    body ← ok_or "not armored"%string (strip_prefix (bytes_of "-----BEGIN AGE ENCRYPTED FILE-----") c);
    content ← hex_decode (trim body);
    ok_or "wrong passphrase"%string (strip_prefix p content) |}.

#[local] Instance toy_age_ok : AgeOk.
Proof.
  split; intros p salt plaintext c; cbn [encrypt_and_armor age_decrypt toy_age].
  - intros newline E Nl. apply (inj Ok) in E. rewrite <- E, <- app_assoc, (proj2 (strip_prefix_Some _ _ _) eq_refl).
    cbn [ok_or mbind outcome_bind].
    assert (trim (hex_encode (p ++ plaintext) ++ newline) = hex_encode (p ++ plaintext)) as ->.
    { apply (trim_padded [] _ newline); [constructor| |].
      - eapply Forall_impl; [apply hex_digit_range|unfold printable; tauto].
      - destruct Nl as [-> | ->]; [constructor|]. by_eval. }
    rewrite hex_decode_encode. cbn [mbind outcome_bind].
    by rewrite (proj2 (strip_prefix_Some _ _ _) eq_refl).
  - intros E. apply (inj Ok) in E. rewrite <- E. split; [|apply starts_with_app]. apply Forall_app. split; [repeat constructor|].
    eapply Forall_impl; [apply hex_digit_range|]. unfold ascii. tauto.
Qed.

#[local] Instance no_json : JsonText := {|
  json_parse := fun _ => Err "no JSON"%string |}.

Definition key_file_env : env := {[ bytes_of "PRIMS_SECRET_KEY_FILE" := bytes_of "key.age" ]}.

Lemma generated_key_loads_witness : exists out fs',
  run_io (generate_key_command (Some (bytes_of "key.age")) sk7 (Ok (bytes_of "pass")) (Ok (bytes_of "pass")) [])
    (∅ : file_system) = (Ok out, fs') /\
  gen_secret_key out = None /\ load_secret_key key_file_env fs' (Ok (bytes_of "pass")) = Ok sk7.
Proof.
  destruct (generated_key_loads ∅ sk7 [] (Ok []) (Ok []) eq_refl) as [_ G].
  destruct (G (bytes_of "key.age") (bytes_of "pass") _ eq_refl ltac:(vm_compute; reflexivity) eq_refl)
    as (out & fs' & E & _ & N & _ & Ld).
  exists out, fs'. exact (conj E (conj N (Ld key_file_env eq_refl))).
Defined.
