(* ===== verification/WalletRpc.v ===== *)
(** * The wallet over HTTP

    The commands of file [Wallet] are written against the interface
    [RpcClient].  [WalletSpec] proves what they do over [direct_client], which
    runs the handlers; here the commands over [http_client], any transport
    that delivers or fails, refine those, command by command. *)

From Stdlib Require Import Strings.Byte.
From S2P Require Import Prelude Orders Bytes Text Externals Types Hash Crypto Mempool Notes Keys Store Storage Ledger StorageSpec Vm VmSpec Json Api ApiSpec Rpc RpcSpec Transport Config Wallet WalletSpec.
Import DigestAddresses.

Section http.
Context {S : Type} `{KvStoreOk S, Sha256Ok, Ed25519Ok, ChainCodecsOk, WasmtimeOk, HexOk, RateLimiter}.
Context `{!Bincode ViewableNote, !BincodeOk ViewableNote, !Bincode Hash32, !BincodeOk Hash32}.
Context `{!BincodeTyped Transaction, !BincodeTyped ContractCallPayload}.
Context `{RpcTexts, !Http S, !HttpOk}.
Implicit Types (st : RpcState S) (L : Ledger).

(** A transport that failed, as the tool reports it. *)
Definition lost (message : string) : CliError := Call (HttpFailed message).

(** ** The calls *)

(** A call of the tool: the method, its answer read by [decode]. *)
Lemma carried_cli {A} L st method params q (decode : Value -> outcome DeError A) :
  ready L st -> request_of method params = Some q -> request_typed q ->
  (forall v, decode v <> Panic) ->
  carried lost st
    (run_io (io_map_err Call (cli_rpc_call (H := direct_client) decode method params)) st)
    (run_io (io_map_err Call (cli_rpc_call (H := http_client) decode method params)) st).
Proof.
  intros R Q T D. apply (carried_map_err HttpFailed Call). unfold cli_rpc_call.
  apply carried_lift; [by apply (carried_call L st method params q)|].
  intros v. by apply map_err_not_Panic.
Qed.

Lemma carried_balance L st a : ready L st ->
  let d := call_get_balance (H := direct_client) a in
  carried lost st (run_io d st) (run_io (call_get_balance (H := http_client) a) st) /\
  agrees st (run_io d st).2.
Proof.
  intros R. split.
  - by apply (carried_cli L st _ _ _ _ R (request_balance a)), cli_decoders_return.
  - cbv zeta. unfold call_get_balance. rewrite run_io_map_err. unfold cli_get_balance, cli_rpc_call.
    rewrite run_bind.
    pose proof (direct_query_agrees L st _ _ _ R (request_balance a) ltac:(done) eq_refl) as A. revert A.
    by destruct (run_io (rpc_call _ _) st) as [[v|e|] st1].
Qed.

Lemma carried_validators L st : ready L st ->
  carried lost st (run_io (list_validators_command (H := direct_client)) st)
    (run_io (list_validators_command (H := http_client)) st).
Proof. intros R. by apply (carried_cli L st (bytes_of "get_validators") (JObject []) GetValidatorsReq _ R eq_refl), cli_decoders_return. Qed.

Lemma carried_send L st text : ready L st -> vec_ok text ->
  carried lost st (run_io (call_send_transaction (H := direct_client) text) st)
    (run_io (call_send_transaction (H := http_client) text) st).
Proof.
  intros R V. by apply (carried_cli L st _ _ _ _ R (request_send text) (typed_send text V)), cli_decoders_return.
Qed.

(** ** The commands *)

Lemma carried_sender L st sk : ready L st ->
  let d := load_sender_context (H := direct_client) (Ok sk) in
  carried lost st (run_io d st) (run_io (load_sender_context (H := http_client) (Ok sk)) st) /\
  agrees st (run_io d st).2 /\ forall sender st1, run_io d st = (Ok sender, st1) -> sender = sender_of L sk.
Proof.
  intros R. destruct (carried_balance L st (hex_encode (public_key_of sk)) R) as [C A].
  unfold load_sender_context. split; [|split].
  - apply (carried_bind_lift lost st (Ok sk)); [done|]. intros ? [= <-]. by apply carried_map.
  - rewrite run_bind, run_lift. cbn [map_err]. rewrite run_bind. revert A.
    by destruct (run_io (call_get_balance _) st) as [[b|e|] st1].
  - intros sender st1 E. destruct (limiter_check (rpc_limiter st)) as [[] l] eqn:El.
    + pose proof (run_load_sender L st sk l (ready_storage _ _ R) (ready_pool _ _ R) El) as E'.
      unfold load_sender_context in E'. rewrite E in E'. by injection E'.
    + rewrite run_bind, run_lift in E. cbn [map_err] in E. rewrite run_bind in E.
      unfold call_get_balance in E. rewrite run_io_map_err, (direct_balance L) in E by done.
      unfold serve, check_rate_limit in E. rewrite run_bind in E. cbn [run_io] in E. by rewrite El in E.
Qed.

Lemma carried_submit L st sk o : ready L st -> encodable sk (order_transaction (sender_of L sk) o) ->
  let run calls := run_io (submit_transaction (H := calls) (sender_of L sk) (ord_type o) (ord_to o) (ord_amount o)
    (ord_source o) (ord_destination o) (ord_data o)) st in
  carried lost st (run direct_client) (run http_client).
Proof.
  intros R [W Sz] run. subst run. cbv beta.
  destruct (signed_by_Ok sk _ W eq_refl) as (sg & Es & Et & Wt & _). rewrite Et in Wt, Sz.
  destruct (bincode_total _ Wt) as [b Eb]. unfold submit_transaction.
  change (unsigned_transaction _ _ _ _ _ _ _) with (order_transaction (sender_of L sk) o). cbv zeta.
  change (sender_secret_key (sender_of L sk)) with sk. rewrite Es. cbn [map_err].
  apply (carried_bind_lift lost st (Ok sg)); [done|]. intros ? [= <-]. rewrite Eb. cbn [map_err].
  apply (carried_bind_lift lost st (Ok b)); [done|]. intros ? [= <-].
  apply carried_map, (carried_send L); [done|]. by apply Sz.
Qed.

(** [C13] Every command of the wallet, over any transport that
    delivers or fails, refines the same command on the handlers of the node:
    it leaves the node in the same state with the same output, or with the
    code and message of the node's error, unless the transport fails; then the
    tool says so, and the storage and pool of the node are as they were before
    the command or as the command would have left them, so that it is carried
    out at most once.  The tool never panics. *)
Theorem wallet_over_http L st sk fs c :
  represents (contents (rpc_storage st)) L -> routed (rpc_mempool st) ->
  (forall o, ordered fs (public_key_of sk) c = Ok o -> encodable sk (order_transaction (sender_of L sk) o)) ->
  ordered fs (public_key_of sk) c <> Panic ->
  carried lost st (run_io (run_command (H := direct_client) (Ok sk) fs c) st)
    (run_io (run_command (H := http_client) (Ok sk) fs c) st).
Proof.
  intros P R En NP. assert (ready L st) as Rd by by split. destruct (submits c) eqn:Sub.
  - rewrite !run_submitting by done. destruct (carried_sender L st sk Rd) as (Cs & As & Es).
    apply carried_bind; [done..|]. intros sender st1 E A1. rewrite (Es _ _ E). clear sender E.
    change (sender_public_key (sender_of L sk)) with (public_key_of sk).
    apply carried_bind_lift; [done|].
    intros o Eo. apply carried_map, carried_submit; [by eapply ready_agrees|by apply En].
  - destruct c as [a| | | | | |]; try discriminate Sub; cbn [run_command].
    + apply carried_map. unfold balance_command.
      apply carried_bind_lift; [by apply map_err_not_Panic, map_err_not_Panic, hex_decode_no_panic|].
      intros b _. apply (carried_balance L); done.
    + apply carried_map. by apply (carried_validators L).
Qed.
End http.

(** ** Witness *)

From S2P Require Import Concrete.
Import Concrete.Instances StorageInstances.
#[local] Existing Instances sample_engine sample_engine_ok toy_hex toy_hex_ok toy_limiter.
#[local] Existing Instances toy_texts toy_http toy_http_ok.

Lemma wallet_over_http_witness :
  carried lost node (run_io (run_command (H := direct_client) (Ok sk7) ∅ send_42) node)
    (run_io (run_command (H := http_client) (Ok sk7) ∅ send_42) node).
Proof.
  apply (wallet_over_http node_ledger node sk7 ∅ send_42 node_represents node_routed).
  - exact all_encodable_42.
  - rewrite ordered_42. discriminate.
Defined.

(** Over this transport the payment reaches the pool. *)
Example payment_over_http : (fun st => length (pending st))
  (run_io (run_command (H := http_client) (Ok sk7) ∅ send_42) node).2 = 1%nat.
Proof. vm_compute. reflexivity. Qed.
