(* ===== verification/Faucet.v ===== *)
(** * The testnet website and its faucet ([src/bin/prims-explorer.rs])

    The configuration of the faucet from the environment, the transfer it
    submits for a visitor, and what each page shows of the node; the templates
    are in file [Pages].  The site is written against the interface
    [RpcClient] of file [Rpc], whose implementation over HTTP is
    [http_client]. *)

From Stdlib Require Import Strings.Byte.
From S2P Require Import Prelude Orders Bytes Text Externals Types Hash Crypto Store Storage Vm Json Api Rpc Config Wallet.

(** ** Configuration *)

Record FaucetConfig := {
  faucet_secret_key : bytes;
  faucet_public_key : bytes;
  faucet_amount : Z;
  faucet_source_shard : Z;
  faucet_destination_shard : Z;
}.

Inductive FaucetError :=
| FaucetKey (e : KeyError)
| EmptyKey
| InvalidAmount
| InvalidShard (name : bytes)
| FaucetWithoutKey
| FaucetMisconfigured (reason : FaucetError)
| RecipientLength
| FaucetRpc (e : ClientError)
| UnexpectedBalance
| FaucetSigning (e : CryptoError)
| FaucetEncoding (message : string).

(** [None] is the absence of a key. *)
Inductive FaucetMode :=
| Disabled (reason : option FaucetError)
| Enabled (config : FaucetConfig).

(** A variable that has to parse when it is there. *)
Definition parse_or_default (w : Z) (error : FaucetError) (e : env) (name : bytes) (default : Z) :
  outcome FaucetError Z :=
  match env_var e name with
  | Some raw => ok_or error (parse_uint w raw)
  | None => Ok default
  end.

Definition faucet_amount_from_env (e : env) : outcome FaucetError Z :=
  parse_or_default 64 InvalidAmount e (bytes_of "PRIMS_FAUCET_AMOUNT") 100.

Definition shard_from_env (e : env) (name : bytes) : outcome FaucetError Z :=
  parse_or_default 16 (InvalidShard name) e name DEFAULT_SHARD_ID.

Section configuration.
Context `{Hex, JsonText, Ed25519}.

Definition parse_faucet_key_material (input : bytes) : outcome FaucetError bytes :=
  if bool_decide (trim input = []) then Err EmptyKey
  else map_err FaucetKey (key_text (bytes_of "secret_key") input).

Definition load_faucet_secret (e : env) (fs : file_system) : outcome FaucetError (option bytes) :=
  match env_var e (bytes_of "PRIMS_SECRET_KEY_FILE") with
  | Some path =>
      raw ← ok_or (FaucetKey (KeyFileUnreadable path)) (fs !! path);
      if utf8_valid raw then Some <$> parse_faucet_key_material raw else Err (FaucetKey NotUtf8)
  | None =>
      match env_var e (bytes_of "PRIMS_SECRET_KEY_HEX") with
      | Some value => Some <$> parse_faucet_key_material value
      | None => Ok None
      end
  end.

Definition load_faucet_config (e : env) (fs : file_system) : outcome FaucetError (option FaucetConfig) :=
  secret ← load_faucet_secret e fs;
  match secret with
  | None => Ok None
  | Some secret_key =>
      amount ← faucet_amount_from_env e;
      source ← shard_from_env e (bytes_of "PRIMS_FAUCET_SOURCE_SHARD");
      destination ← shard_from_env e (bytes_of "PRIMS_FAUCET_DESTINATION_SHARD");
      Ok (Some {| faucet_secret_key := secret_key; faucet_public_key := public_key_of secret_key;
                  faucet_amount := amount; faucet_source_shard := source;
                  faucet_destination_shard := destination |})
  end.

Definition from_env (e : env) (fs : file_system) : FaucetMode :=
  match load_faucet_config e fs with
  | Ok (Some config) => Enabled config
  | Ok None => Disabled None
  | Err error => Disabled (Some error)
  | Panic => Disabled None
  end.

(** [FaucetMode::amount] *)
Definition mode_amount (e : env) (mode : FaucetMode) : Z :=
  match mode with
  | Disabled _ => match faucet_amount_from_env e with Ok n => n | _ => 100 end
  | Enabled config => faucet_amount config
  end.
End configuration.

(** ** Requests of visitors *)

(** What the pages show of the node; [None] is an inactive faucet. *)
Record HomePage := {
  home_info : outcome ClientError Value;
  home_validators : outcome ClientError Value;
  home_note_commitments : outcome ClientError Value;
  home_faucet_account : option (outcome ClientError Value);
  home_faucet_amount : Z;
}.

Section website.
Context {W : Type} `{RpcClient W, Sha256, Ed25519, ChainCodecs, Hex}.

(** A call of the node whose error is shown. *)
Definition ask_node (method : bytes) (params : Value) : io W FaucetError (outcome ClientError Value) :=
  Io (fun st =>
    match run_io (rpc_call method params) st with
    | (Panic, st') => (Panic, st')
    | (r, st') => (Ok r, st')
    end).

Definition balance_params (address : bytes) : Value := JObject [(bytes_of "address", JString address)].

Definition faucet_transaction (config : FaucetConfig) (recipient : bytes) (current_nonce : Z) :
  Transaction := {|
  tx_type := Transfer; tx_from := faucet_public_key config; tx_to := recipient;
  tx_amount := faucet_amount config; tx_fee := FIXED_TRANSACTION_FEE;
  tx_nonce := saturating 64 (current_nonce + 1); tx_source_shard := faucet_source_shard config;
  tx_destination_shard := faucet_destination_shard config; tx_signature := []; tx_data := None |}.

(** The answer of a paid request. *)
Definition faucet_receipt (config : FaucetConfig) (recipient : bytes) (nonce : Z) (rpc_result : Value) : Value :=
  JObject [
    (bytes_of "from", JString (hex_encode (faucet_public_key config)));
    (bytes_of "to", JString (hex_encode recipient));
    (bytes_of "amount", JNumber (faucet_amount config));
    (bytes_of "fee", JNumber FIXED_TRANSACTION_FEE);
    (bytes_of "nonce", JNumber nonce);
    (bytes_of "source_shard", JNumber (faucet_source_shard config));
    (bytes_of "destination_shard", JNumber (faucet_destination_shard config));
    (bytes_of "rpc_result", rpc_result) ].

Definition submit_faucet_transfer (mode : FaucetMode) (recipient_address : bytes) : io W FaucetError Value :=
  match mode with
  | Disabled None => io_err FaucetWithoutKey
  | Disabled (Some reason) => io_err (FaucetMisconfigured reason)
  | Enabled config =>
      recipient ← lift (map_err FaucetKey (decode_hex_vec (bytes_of "address") recipient_address));
      if negb (length recipient =? 32)%nat then io_err RecipientLength
      else
        let faucet_address := hex_encode (faucet_public_key config) in
        faucet_balance ← io_map_err FaucetRpc
                           (rpc_call (bytes_of "get_balance") (balance_params faucet_address));
        current_nonce ← lift (ok_or UnexpectedBalance
                          (nonce ← get faucet_balance (bytes_of "nonce"); as_u64 nonce));
        let transaction := faucet_transaction config recipient current_nonce in
        signature ← lift (map_err FaucetSigning
                       (sign_transaction transaction (faucet_secret_key config)));
        let transaction := set_signature transaction signature in
        tx_bytes ← lift (map_err FaucetEncoding (bincode_serialize transaction));
        let hex_tx := hex_encode tx_bytes in
        rpc_result ← io_map_err FaucetRpc
                       (rpc_call (bytes_of "send_transaction") (JObject [(bytes_of "hex_tx", JString hex_tx)]));
        mret (faucet_receipt config recipient (tx_nonce transaction) rpc_result)
  end.

Definition home (e : env) (mode : FaucetMode) : io W FaucetError HomePage :=
  info ← ask_node (bytes_of "get_info") (JObject []);
  validators ← ask_node (bytes_of "get_validators") (JObject []);
  notes ← ask_node (bytes_of "get_note_commitments") (JObject []);
  match mode with
  | Disabled _ =>
      mret {| home_info := info; home_validators := validators; home_note_commitments := notes;
              home_faucet_account := None; home_faucet_amount := mode_amount e mode |}
  | Enabled config =>
      account ← ask_node (bytes_of "get_balance") (balance_params (hex_encode (faucet_public_key config)));
      mret {| home_info := info; home_validators := validators; home_note_commitments := notes;
              home_faucet_account := Some account; home_faucet_amount := faucet_amount config |}
  end.

Definition address (query : bytes) : io W FaucetError (outcome ClientError Value) :=
  ask_node (bytes_of "get_balance") (balance_params query).

(** What a visitor can ask: the routes of the site. *)
Inductive route :=
| HomeRoute
| AddressRoute (query : bytes)
| FaucetRoute (recipient_address : bytes).

Definition visit (e : env) (mode : FaucetMode) (r : route) (st : W) : W :=
  match r with
  | HomeRoute => (run_io (home e mode) st).2
  | AddressRoute query => (run_io (address query) st).2
  | FaucetRoute a => (run_io (submit_faucet_transfer mode a) st).2
  end.
End website.
