(* ===== verification/FaucetSpec.v ===== *)
(** * Properties of the faucet

    The configurations the environment can give, what a visitor of the site
    can do to the node, and when a request to the faucet is paid. *)

From Stdlib Require Import Strings.Byte.
From S2P Require Import Prelude Orders Bytes Text Externals Types Hash Crypto Validation Mempool Notes Keys Store Storage Ledger StorageSpec Vm VmSpec Json Api ApiSpec Rpc RpcSpec Transport Config Wallet WalletSpec Faucet.
Import DigestAddresses.

(** ** Configuration *)

Definition config_typed `{Ed25519} (config : FaucetConfig) : Prop :=
  length (faucet_secret_key config) = 32%nat /\
  faucet_public_key config = public_key_of (faucet_secret_key config) /\
  u64 (faucet_amount config) /\ u16 (faucet_source_shard config) /\ u16 (faucet_destination_shard config).

Section configuration.
Context `{HexOk, JsonText, Ed25519}.

Lemma decode_hex_32_length label value k : decode_hex_32 label value = Ok k -> length k = 32%nat.
Proof.
  unfold decode_hex_32. intros E. apply bind_Ok in E as (d & _ & E).
  destruct (Nat.eqb_spec (length d) 32); [|done]. by injection E as <-.
Qed.

Lemma key_text_length label text k : key_text label text = Ok k -> length k = 32%nat.
Proof.
  unfold key_text. case_match; [|apply decode_hex_32_length]. unfold json_secret_key. intros E.
  apply bind_Ok in E as (v & _ & E). case_match; [by eapply decode_hex_32_length|].
  case_match; [by eapply decode_hex_32_length|done].
Qed.

Lemma parse_or_default_range (w : Z) (error : FaucetError) (e : env) (name : bytes) (d n : Z) :
  0 <= d < 2 ^ w -> parse_or_default w error e name d = Ok n -> 0 <= n < 2 ^ w.
Proof.
  unfold parse_or_default. intros D E. case_match; [|by injection E as <-].
  apply ok_or_Ok in E. unfold parse_uint in E. apply bind_Some in E as (u & _ & E).
  apply checked_Some in E. lia.
Qed.

Lemma faucet_secret_length (e : env) (fs : file_system) k :
  load_faucet_secret e fs = Ok (Some k) -> length k = 32%nat.
Proof.
  assert (forall text, parse_faucet_key_material text = Ok k -> length k = 32%nat) as P.
  { intros text E. unfold parse_faucet_key_material in E. case_bool_decide; [done|].
    apply map_err_Ok in E. by eapply key_text_length. }
  unfold load_faucet_secret. intros E. case_match.
  - apply bind_Ok in E as (raw & _ & E). case_match; [|done].
    apply fmap_Ok in E as (k' & E & [= <-]). by eapply P.
  - case_match; [|done]. apply fmap_Ok in E as (k' & E & [= <-]). by eapply P.
Qed.

Lemma load_faucet_config_typed (e : env) (fs : file_system) config :
  load_faucet_config e fs = Ok (Some config) -> config_typed config.
Proof.
  unfold load_faucet_config. intros E. apply bind_Ok in E as ([k|] & Ek & E); [|done].
  apply bind_Ok in E as (n & En & (s1 & E1 & (s2 & E2 & E)%bind_Ok)%bind_Ok). injection E as <-.
  split; [by eapply faucet_secret_length|]. split; [done|]. cbn.
  autounfold with prims. split; [|split]; (eapply parse_or_default_range; [|eassumption]; by vm_compute).
Qed.

(** [C37] The faucet starts in a state of its type: from
    any environment it is disabled, or enabled with a 32-byte key, the public
    key of that key, an amount of 64 bits and shards of 16 bits.  Without a
    key it is disabled.  A key in the variable, written in hexadecimal in any
    of the accepted styles, enables it with that key, and with the default
    amount and shards when their variables are absent. *)
Theorem faucet_configuration (e : env) (fs : file_system) :
  match from_env e fs with
  | Enabled config => config_typed config
  | Disabled _ => 0 <= mode_amount e (from_env e fs) < 2 ^ 64
  end /\
  (e !! bytes_of "PRIMS_SECRET_KEY_FILE" = None -> e !! bytes_of "PRIMS_SECRET_KEY_HEX" = None ->
   from_env e fs = Disabled None) /\
  (forall before prefix k after, key_style before prefix after -> length k = 32%nat ->
   e !! bytes_of "PRIMS_SECRET_KEY_FILE" = None ->
   e !! bytes_of "PRIMS_SECRET_KEY_HEX" = Some (key_written before prefix k after) ->
   e !! bytes_of "PRIMS_FAUCET_AMOUNT" = None -> e !! bytes_of "PRIMS_FAUCET_SOURCE_SHARD" = None ->
   e !! bytes_of "PRIMS_FAUCET_DESTINATION_SHARD" = None ->
   from_env e fs = Enabled {| faucet_secret_key := k; faucet_public_key := public_key_of k;
     faucet_amount := 100; faucet_source_shard := DEFAULT_SHARD_ID;
     faucet_destination_shard := DEFAULT_SHARD_ID |}).
Proof.
  split; [|split].
  - unfold from_env. assert (0 <= mode_amount e (Disabled None) < 2 ^ 64) as M.
    { cbn. destruct (faucet_amount_from_env e) as [n| |] eqn:En; [|done..].
      by eapply (parse_or_default_range 64 _ e _ 100). }
    destruct (load_faucet_config e fs) as [[config|]| |] eqn:E; try exact M.
    by eapply load_faucet_config_typed.
  - intros Nf Nh. unfold from_env, load_faucet_config, load_faucet_secret.
    by rewrite !env_var_absent.
  - intros before prefix k after St Lk Nf Eh Na Ns Nd.
    unfold from_env, load_faucet_config, load_faucet_secret.
    rewrite (env_var_absent e _ Nf), (env_var_ascii e _ _ Eh) by by apply key_written_ascii.
    unfold parse_faucet_key_material, faucet_amount_from_env, shard_from_env, parse_or_default.
    rewrite (env_var_absent e _ Na), (env_var_absent e _ Ns), (env_var_absent e _ Nd).
    rewrite bool_decide_eq_false_2.
    + by rewrite (key_written_text _ before prefix k after St Lk).
    + destruct St as (Fb & Fa & Px). unfold key_written.
      rewrite (proj2 (normalized_hex_text before prefix k after Fb Fa Px)). intros E.
      apply (f_equal length) in E. pose proof (hex_decode_length _ _ (hex_decode_encode k)) as L.
      rewrite length_app, L, Lk in E. cbn in E. lia.
Qed.
End configuration.

(** ** Visitors *)

Definition faucet_order (config : FaucetConfig) (recipient : bytes) : order := {|
  ord_type := Transfer; ord_to := recipient; ord_amount := faucet_amount config;
  ord_source := faucet_source_shard config; ord_destination := faucet_destination_shard config;
  ord_data := None |}.

Lemma faucet_transaction_wf `{Ed25519Ok} config recipient n :
  config_typed config -> length recipient = 32%nat -> 0 <= n -> wf (faucet_transaction config recipient n).
Proof.
  intros (Lk & Epk & A & S1 & S2) Lr N0. unfold faucet_transaction. rewrite Epk.
  assert (forall b : bytes, length b = 32%nat -> vec_ok b) as V by (intros b E; unfold vec_ok; rewrite E; by vm_compute).
  assert (u64 (saturating 64 (n + 1))) as N.
  { unfold saturating. autounfold with prims. lia. }
  assert (vec_ok ([] : bytes)) as V0 by by vm_compute.
  assert (u64 FIXED_TRANSACTION_FEE) as F by by vm_compute.
  by repeat (split; [first [done|by apply V, public_key_length|by apply V]|]).
Qed.

(** The faucet can sign and encode any transfer. *)
Lemma faucet_signs `{Ed25519Ok, ChainCodecsOk} config recipient n :
  config_typed config -> length recipient = 32%nat -> 0 <= n ->
  let tx := faucet_transaction config recipient n in
  exists sg b, sign_transaction tx (faucet_secret_key config) = Ok sg /\
    signed_by (faucet_secret_key config) tx = set_signature tx sg /\
    bincode_serialize (set_signature tx sg) = Ok b /\ wf (set_signature tx sg).
Proof.
  intros T Lr N tx. pose proof (faucet_transaction_wf config recipient n T Lr N) as W.
  assert (tx_from tx = public_key_of (faucet_secret_key config)) as F by apply T.
  destruct (signed_by_Ok _ _ W F) as (sg & Es & Et & Wt & _). fold tx in Es, Et, Wt. rewrite Et in Wt.
  destruct (bincode_total _ Wt) as [b Eb]. by exists sg, b.
Qed.

Section visitors.
Context {S : Type} `{KvStoreOk S, Sha256Ok, Ed25519Ok, ChainCodecsOk, WasmtimeOk, HexOk, RateLimiter}.
Context `{!Bincode ViewableNote, !BincodeOk ViewableNote, !Bincode Hash32, !BincodeOk Hash32}.
Context `{!BincodeTyped Transaction, !BincodeTyped ContractCallPayload}.
Context `{RpcTexts}.

Implicit Types (st : RpcState S) (L : Ledger).

(** The transfer of the configured amount to a 32-byte address. *)
Definition faucet_payment L (config : FaucetConfig) (recipient : bytes) : Transaction :=
  signed_by (faucet_secret_key config)
    (order_transaction (sender_of L (faucet_secret_key config)) (faucet_order config recipient)).

(** The text of each payment fits in memory. *)
Definition payments_encodable L (config : FaucetConfig) : Prop :=
  forall recipient b, length recipient = 32%nat ->
    bincode_serialize (faucet_payment L config recipient) = Ok b -> vec_ok (encode_hex b).

Lemma faucet_ordered L config recipient : config_typed config ->
  order_transaction (sender_of L (faucet_secret_key config)) (faucet_order config recipient) =
  faucet_transaction config recipient (account_nonce L (public_key_of (faucet_secret_key config))).
Proof. intros (_ & Epk & _). unfold faucet_transaction. by rewrite Epk. Qed.

Lemma account_nonce_range m L pk : represents m L -> 0 <= account_nonce L pk < 2 ^ 64.
Proof.
  intros P. unfold account_nonce. destruct (led_accounts L !! pk) as [a|] eqn:Ea; [|done].
  by destruct (table_wf RAccount _ _ _ a I (rep_accounts _ _ P) Ea) as (_ & N & _).
Qed.

Lemma faucet_order_wf m L config recipient :
  represents m L -> config_typed config -> length recipient = 32%nat ->
  wf (order_transaction (sender_of L (faucet_secret_key config)) (faucet_order config recipient)).
Proof.
  intros P T Lr. rewrite faucet_ordered by done.
  apply faucet_transaction_wf; [done..|]. by apply (account_nonce_range m).
Qed.

(** The nonce in the answer of the node. *)
Lemma balance_nonce L st a v st1 : ready L st ->
  run_io (rpc_call (RpcClient := direct_client) (bytes_of "get_balance") (balance_params (hex_encode a))) st =
    (Ok v, st1) ->
  (nonce ← get v (bytes_of "nonce"); as_u64 nonce) = Some (account_nonce L a).
Proof.
  intros [P R]. unfold balance_params. rewrite (direct_run _ _ _ _ (request_balance _)).
  destruct (limiter_check (rpc_limiter st)) as [[|] l] eqn:El; [|by rewrite (serve_refused _ _ _ El)].
  destruct (serve_balance L st a l P El) as (b & -> & Nb). intros [= <- <-]. cbn [ser_response].
  change (get (ser_balance b) (bytes_of "nonce")) with (Some (JNumber (bal_nonce b))).
  cbn [mbind option_bind as_u64]. rewrite Nb. apply checked_Some.
  split; [done|]. by apply (account_nonce_range _ L a P).
Qed.

(** What a request to the faucet does, on the handlers of the node. *)
Lemma run_faucet L st config text :
  represents (contents (rpc_storage st)) L -> routed (rpc_mempool st) -> config_typed config ->
  payments_encodable L config ->
  let '(r, st') := run_io (submit_faucet_transfer (H := direct_client) (Enabled config) text) st in
  match r with
  | Ok receipt => exists recipient l resp,
      decode_hex_vec (bytes_of "address") text = Ok recipient /\ length recipient = 32%nat /\
      (forall l1 l2, limiter_check (rpc_limiter st) = (true, l1) -> limiter_check l1 = (true, l2) -> l = l2) /\
      receipt = faucet_receipt config recipient (tx_nonce (faucet_payment L config recipient))
                  (ser_response (SendTransactionResponse resp)) /\
      accepted L (faucet_payment L config recipient) (with_limiter st l) resp st'
  | Err e => agrees st st' /\
      (forall recipient l1 l2, decode_hex_vec (bytes_of "address") text = Ok recipient ->
         length recipient = 32%nat ->
         limiter_check (rpc_limiter st) = (true, l1) -> limiter_check l1 = (true, l2) ->
         ~ admissible (faucet_payment L config recipient)
             (led_accounts L !! public_key_of (faucet_secret_key config)))
  | Panic => False
  end.
Proof.
  intros P R T En. pose proof T as (_ & Epk & _). unfold submit_faucet_transfer.
  rewrite run_bind, run_lift.
  destruct (decode_hex_vec (bytes_of "address") text) as [recipient|e|] eqn:Ed; cbn [map_err];
    [|done|by apply (map_err_not_Panic (InvalidHexText (bytes_of "address")) (hex_decode (normalized_hex text))
        (hex_decode_no_panic _)) in Ed].
  destruct (Nat.eqb_spec (length recipient) 32) as [Lr|Lr]; cbn [negb].
  2: { cbn. split; [done|]. by intros ? ? ? [= <-]. }
  rewrite run_bind, run_io_map_err, Epk.
  pose proof (balance_nonce L st (public_key_of (faucet_secret_key config))) as Bn. revert Bn.
  unfold balance_params. rewrite (direct_run _ _ _ _ (request_balance _)). intros Bn.
  destruct (limiter_check (rpc_limiter st)) as [[|] l1] eqn:E1.
  2: { rewrite (serve_refused _ _ _ E1). cbn [map_err]. by split. }
  destruct (serve_balance L st (public_key_of (faucet_secret_key config)) l1 P E1) as (b & Eb & _).
  rewrite Eb in Bn |- *. cbn [map_err fst snd].
  rewrite run_bind, run_lift, (Bn _ _ (Build_ready _ _ P R) eq_refl). cbn [ok_or].
  destruct (faucet_signs config recipient _ T Lr (proj1 (account_nonce_range _ L (public_key_of (faucet_secret_key config)) P))) as (sg & b' & Es & Et & Eb' & Wt).
  pose proof (faucet_ordered L config recipient T) as Eo.
  assert (set_signature (faucet_transaction config recipient
    (account_nonce L (public_key_of (faucet_secret_key config)))) sg = faucet_payment L config recipient) as Ep.
  { unfold faucet_payment. by rewrite Eo, Et. }
  cbv zeta. rewrite run_bind, run_lift, Es. cbn [map_err]. rewrite Ep in Eb', Wt |- *.
  rewrite run_bind, run_lift, Eb'. cbn [map_err]. rewrite run_bind, run_io_map_err.
  rewrite (direct_run _ _ _ _ (request_send _)).
  destruct (limiter_check l1) as [[|] l2] eqn:E2.
  2: { rewrite (serve_refused (with_limiter st l1) _ _ E2). cbn [map_err fst snd].
       split; [done|]. intros ? ? ? _ _ [= <-]. congruence. }
  pose proof (serve_submission L (with_limiter st l1) _ b' l2 P R E2 Wt Eb' (En _ _ Lr Eb')) as G.
  destruct (run_io (serve _) (with_limiter st l1)) as [[resp|e|] st']; [| |done]; cbn [map_err fst snd].
  - destruct resp as [| |resp| | | |]; try done. rewrite run_ret. exists recipient, l2, resp.
    split; [done|]. split; [done|]. split; [congruence|]. by split.
  - destruct G as [-> N]. split; [done|]. intros ? ? ? [= <-] _ _ _.
    assert (tx_from (faucet_payment L config recipient) = public_key_of (faucet_secret_key config)) as F
      by (rewrite <- Ep; exact Epk).
    rewrite F in N. apply N. by rewrite <- Ep.
Qed.

(** What a payment is, and what its acceptance changes. *)
Lemma payment_of m L config recipient :
  represents m L -> config_typed config -> length recipient = 32%nat ->
  let tx := faucet_payment L config recipient in
  clear_signature tx = faucet_transaction config recipient (account_nonce L (faucet_public_key config)) /\
  verify_transaction tx (faucet_public_key config) = Ok true /\
  tx_from tx = public_key_of (faucet_secret_key config) /\ tx_type tx = Transfer.
Proof.
  intros P T Lr. pose proof T as (_ & Epk & _). pose proof (faucet_order_wf m L config recipient P T Lr) as W.
  destruct (signed_by_Ok _ _ W eq_refl) as (sg & _ & Et & _ & V). cbv zeta. unfold faucet_payment.
  rewrite Epk, <- (faucet_ordered L config recipient T). split; [by rewrite Et|]. split; [exact V|].
  by rewrite Et.
Qed.

Lemma accepted_payment L st config recipient l resp st' :
  represents (contents (rpc_storage st)) L -> config_typed config -> length recipient = 32%nat ->
  accepted L (faucet_payment L config recipient) (with_limiter st l) resp st' ->
  pending st' ≡ₚ faucet_payment L config recipient :: pending st /\ rpc_storage st' = rpc_storage st /\
  rpc_limiter st' = l.
Proof.
  intros P T Lr A. destruct (payment_of _ L config recipient P T Lr) as (_ & _ & _ & Et).
  pose proof (acc_storage _ _ _ _ _ A) as As. rewrite Et in As.
  split; [apply A|]. split; [exact As|]. apply A.
Qed.

(** The faucet is off, or works with a configuration of its type. *)
Definition mode_ok L (mode : FaucetMode) : Prop :=
  match mode with
  | Enabled config => config_typed config /\ payments_encodable L config
  | Disabled _ => True
  end.

Definition payments L (mode : FaucetMode) (recipients : list bytes) : list Transaction :=
  match mode with
  | Enabled config => faucet_payment L config <$> recipients
  | Disabled _ => []
  end.

Definition is_faucet (r : route) : bool := match r with FaucetRoute _ => true | _ => false end.

(** The storage is unchanged, and the pool has at most [n] more payments. *)
Definition paid L (mode : FaucetMode) (n : nat) st st' : Prop :=
  rpc_storage st' = rpc_storage st /\ routed (rpc_mempool st') /\
  exists recipients, pending st' ≡ₚ payments L mode recipients ++ pending st /\
    Forall (fun a => length a = 32%nat) recipients /\ (length recipients <= n)%nat.

Lemma paid_agrees L mode n st st' : ready L st -> agrees st st' -> paid L mode n st st'.
Proof.
  intros [_ R] [Es Em]. split; [done|]. split; [by rewrite Em|]. exists []. split; [|split; [done|cbn; lia]].
  unfold pending. rewrite Em. by destruct mode.
Qed.

Lemma paid_trans L mode n1 n2 st1 st2 st3 :
  paid L mode n1 st1 st2 -> paid L mode n2 st2 st3 -> paid L mode (n2 + n1) st1 st3.
Proof.
  intros (Es1 & _ & l1 & P1 & F1 & N1) (Es2 & R2 & l2 & P2 & F2 & N2).
  split; [congruence|]. split; [done|]. exists (l2 ++ l1). split; [|split; [by apply Forall_app|]].
  - etrans; [exact P2|]. rewrite P1. destruct mode; cbn [payments]; [done|]. by rewrite fmap_app, <- app_assoc.
  - rewrite length_app. lia.
Qed.

(** A request to the faucet, on the handlers. *)
Lemma direct_pays L st config text : ready L st -> mode_ok L (Enabled config) ->
  paid L (Enabled config) 1 st
    (run_io (submit_faucet_transfer (H := direct_client) (Enabled config) text) st).2.
Proof.
  intros Rd [T En]. pose proof Rd as [P R]. pose proof (run_faucet L st config text P R T En) as G.
  destruct (run_io (submit_faucet_transfer (Enabled config) text) st) as [[receipt|x|] st']; [|..|done].
  - destruct G as (recipient & l & resp & _ & Lr & _ & _ & A). cbn [snd].
    destruct (accepted_payment L st config recipient l resp st' P T Lr A) as (Pe & As & _).
    split; [exact As|]. split; [apply A|]. exists [recipient].
    split; [exact Pe|split; [by repeat constructor|cbn; lia]].
  - apply paid_agrees; [done|apply G].
Qed.

(** ** Over HTTP *)

Section http.
Context `{!Http S, !HttpOk}.

(** A query over HTTP leaves storage and pool alone. *)
Lemma http_query L st method params q : ready L st -> request_of method params = Some q ->
  request_typed q -> is_submission q = false ->
  agrees st (run_io (rpc_call (RpcClient := http_client) method params) st).2.
Proof.
  intros R Q T N. pose proof (direct_query_agrees L st method params q R Q T N) as A.
  destruct (carried_call L st method params q R Q T) as [[_ [E|E]]|[_ E]]; [exact E|by rewrite E..].
Qed.

(** One call of a page, and the calls after it. *)
Lemma ask_then {B} L st method params q (f : outcome ClientError Value -> io (RpcState S) FaucetError B) :
  ready L st -> request_of method params = Some q -> request_typed q -> is_submission q = false ->
  (forall r st1, ready L st1 -> agrees st1 (run_io (f r) st1).2) ->
  agrees st (run_io (ask_node (H := http_client) method params ≫= f) st).2.
Proof.
  intros R Q T N F. pose proof (http_query L st method params q R Q T N) as A.
  rewrite run_bind. unfold ask_node. cbn [run_io].
  destruct (run_io (rpc_call method params) st) as [r st1]. cbn [snd] in A.
  pose proof (ready_agrees L st st1 A R) as R1. destruct r; [| |exact A]; (etrans; [exact A|by apply F]).
Qed.

Lemma home_agrees L st (e : env) mode : ready L st ->
  agrees st (run_io (home (H := http_client) e mode) st).2.
Proof.
  intros R. unfold home.
  apply (ask_then L st (bytes_of "get_info") (JObject []) GetInfoReq _ R eq_refl I eq_refl). clear R st. intros info st R.
  apply (ask_then L st (bytes_of "get_validators") (JObject []) GetValidatorsReq _ R eq_refl I eq_refl). clear R st. intros validators st R.
  apply (ask_then L st (bytes_of "get_note_commitments") (JObject []) GetNoteCommitmentsReq _ R eq_refl I eq_refl). clear R st. intros notes st R.
  destruct mode as [reason|config]; [done|].
  by apply (ask_then L st _ _ _ _ R (request_balance (hex_encode (faucet_public_key config))) (typed_balance _) eq_refl).
Qed.

Lemma address_agrees L st query : ready L st -> agrees st (run_io (address (H := http_client) query) st).2.
Proof.
  intros R. pose proof (http_query L st _ _ _ R (request_balance query) (typed_balance _) eq_refl) as A.
  unfold address, ask_node. cbn [run_io]. unfold balance_params. by destruct (run_io (rpc_call _ _) st) as [[v|x|] st1].
Qed.

(** The faucet over HTTP does what it does on the handlers, or nothing. *)
Lemma carried_faucet L st config text : ready L st -> config_typed config -> payments_encodable L config ->
  carried (FaucetRpc ∘ HttpFailed) st
    (run_io (submit_faucet_transfer (H := direct_client) (Enabled config) text) st)
    (run_io (submit_faucet_transfer (H := http_client) (Enabled config) text) st).
Proof.
  intros R T En. pose proof T as (_ & Epk & _). unfold submit_faucet_transfer.
  apply carried_bind_lift; [by apply map_err_not_Panic, map_err_not_Panic, hex_decode_no_panic|].
  intros recipient _. destruct (Nat.eqb_spec (length recipient) 32) as [Lr|Lr]; cbn [negb].
  2: { by apply carried_same. }
  apply carried_bind.
  - by apply (carried_map_err HttpFailed FaucetRpc), (carried_call L st _ _ _ R (request_balance _)).
  - rewrite run_io_map_err. by apply (direct_query_agrees L st _ _ _ R (request_balance _)).
  - intros v st1 E A1. pose proof (ready_agrees L st st1 A1 R) as R1. rewrite run_io_map_err in E.
    destruct (run_io (rpc_call _ _) st) as [r0 st0] eqn:E0. cbn [fst snd] in E.
    destruct r0 as [v0|?|]; [|done..]. injection E as -> ->. rewrite Epk in E0.
    rewrite (balance_nonce L st _ v st1 R E0). cbn [ok_or].
    apply (carried_bind_lift _ st1 (Ok _)); [done|]. intros ? [= <-].
    destruct (faucet_signs config recipient _ T Lr (proj1 (account_nonce_range _ L (public_key_of (faucet_secret_key config)) (ready_storage _ _ R))))
      as (sg & b & Es & Et & Eb & _). cbv zeta. rewrite Es. cbn [map_err].
    apply (carried_bind_lift _ st1 (Ok sg)); [done|]. intros ? [= <-]. rewrite Eb. cbn [map_err].
    apply (carried_bind_lift _ st1 (Ok b)); [done|]. intros ? [= <-].
    apply carried_map, (carried_map_err HttpFailed FaucetRpc).
    apply (carried_call L st1 _ _ _ R1 (request_send _)), typed_send, (En recipient b Lr).
    unfold faucet_payment. by rewrite faucet_ordered, Et.
Qed.

(** One visit. *)
Lemma visit_effect L (e : env) mode r st : ready L st -> mode_ok L mode ->
  paid L mode (if is_faucet r then 1 else 0)%nat st (visit (H := http_client) e mode r st).
Proof.
  intros R M. destruct r as [|query|text]; cbn [visit is_faucet].
  - by apply paid_agrees, (home_agrees L).
  - by apply paid_agrees, (address_agrees L).
  - destruct mode as [[reason|]|config]; [by apply paid_agrees..|].
    destruct (carried_faucet L st config text R (proj1 M) (proj2 M)) as [[_ [A| ->]]|[_ ->]];
      [by apply paid_agrees|by apply direct_pays..].
Qed.

(** [C28] What visitors can do to the node, over any transport that delivers
    or fails: after any sequence of requests to the site, with any addresses,
    the storage of the node is unchanged and its pool has gained only
    transfers signed by the faucet, each of the configured amount to a 32-byte
    address and with the one nonce that follows the stored nonce of the
    faucet, at most one for each request to the faucet; nothing when the
    faucet is disabled. *)
Theorem website_effect L (e : env) mode (rs : list route) st :
  represents (contents (rpc_storage st)) L -> routed (rpc_mempool st) -> mode_ok L mode ->
  let st' := foldl (fun st r => visit (H := http_client) e mode r st) st rs in
  rpc_storage st' = rpc_storage st /\ routed (rpc_mempool st') /\
  exists recipients, pending st' ≡ₚ payments L mode recipients ++ pending st /\
    Forall (fun a => length a = 32%nat) recipients /\
    (length recipients <= length (filter (fun r => is_faucet r = true) rs))%nat.
Proof.
  intros P R M. cbv zeta. change (paid L mode (length (filter (fun r => is_faucet r = true) rs)) st
    (foldl (fun st r => visit (H := http_client) e mode r st) st rs)).
  assert (ready L st) as Rd by by split. clear P R. revert st Rd.
  induction rs as [|r rs IH]; intros st Rd; cbn [foldl].
  - by apply paid_agrees.
  - pose proof (visit_effect L e mode r st Rd M) as V.
    assert (ready L (visit (H := http_client) e mode r st)) as Rd1.
    { split; [rewrite (proj1 V); apply Rd|apply V]. }
    pose proof (paid_trans _ _ _ _ _ _ _ V (IH _ Rd1)) as G.
    rewrite filter_cons. destruct (is_faucet r) eqn:F; case_decide; [|done..|];
      cbn [length]; [by rewrite Nat.add_comm in G|by rewrite Nat.add_0_r in G].
Qed.
End http.

(** ** Exactly when the faucet pays *)

#[local] Existing Instance direct_client.

(** [C36] Exactly when the faucet pays, on the handlers of a node
    whose database holds a ledger, with a configuration of values of their
    types whose payments fit in memory: when the limiter grants the two calls of a request, it succeeds if and only
    if the text of the address decodes to 32 bytes and the transfer to it is
    payable by the account of the faucet.  It then adds to the pool exactly the
    signed transfer of the configured amount to that address, with the nonce
    that follows the stored one, and leaves the storage, and so the account, as
    it was; otherwise pool and storage are unchanged.  As the account is
    unchanged, the same request, granted two more calls, succeeds again and
    adds the same transaction a second time. *)
Theorem faucet_pays L st config text l1 l2 :
  represents (contents (rpc_storage st)) L -> routed (rpc_mempool st) -> config_typed config ->
  payments_encodable L config ->
  limiter_check (rpc_limiter st) = (true, l1) -> limiter_check l1 = (true, l2) ->
  let request := submit_faucet_transfer (Enabled config) text in
  let '(r, st') := run_io request st in
  (is_ok r = true <-> exists recipient, decode_hex_vec (bytes_of "address") text = Ok recipient /\
     length recipient = 32%nat /\ payable L (faucet_secret_key config) (faucet_order config recipient)) /\
  (is_ok r = false -> agrees st st') /\
  (is_ok r = true -> exists recipient, decode_hex_vec (bytes_of "address") text = Ok recipient /\
     let tx := faucet_payment L config recipient in
     clear_signature tx = faucet_transaction config recipient (account_nonce L (faucet_public_key config)) /\
     verify_transaction tx (faucet_public_key config) = Ok true /\
     pending st' ≡ₚ tx :: pending st /\ rpc_storage st' = rpc_storage st /\
     forall l3 l4, limiter_check l2 = (true, l3) -> limiter_check l3 = (true, l4) ->
     let '(r2, st2) := run_io request st' in
     is_ok r2 = true /\ pending st2 ≡ₚ tx :: tx :: pending st /\ rpc_storage st2 = rpc_storage st).
Proof.
  intros P R T En E1 E2 request. pose proof (run_faucet L st config text P R T En) as G.
  fold request in G.
  assert (forall recipient, length recipient = 32%nat ->
    admissible (faucet_payment L config recipient) (led_accounts L !! public_key_of (faucet_secret_key config)) <->
    payable L (faucet_secret_key config) (faucet_order config recipient)) as AP.
  { intros recipient Lr. by eapply admissible_payable; [exact P|by eapply faucet_order_wf|..]. }
  destruct (run_io request st) as [[receipt|x|] st']; [|..|done].
  - destruct G as (recipient & l & resp & Ed & Lr & El & _ & A). specialize (El l1 l2 E1 E2). subst l.
    destruct (payment_of _ L config recipient P T Lr) as (Ec & Ev & Ef & Et).
    destruct (accepted_payment L st config recipient _ resp st' P T Lr A) as (Pe & Es & El).
    split; [split; [|done]|split; [done|]].
    { intros _. exists recipient. split; [done|]. split; [done|]. apply (AP recipient Lr). rewrite <- Ef. apply A. }
    intros _. exists recipient. split; [done|]. split; [exact Ec|]. split; [exact Ev|].
    split; [exact Pe|]. split; [exact Es|]. intros l3 l4 E3 E4.
    assert (represents (contents (rpc_storage st')) L) as P' by by rewrite Es.
    pose proof (run_faucet L st' config text P' (acc_routed _ _ _ _ _ A) T En) as G2. fold request in G2.
    destruct (run_io request st') as [[receipt2|x|] st2]; [|..|done].
    + destruct G2 as (recipient' & l' & resp' & Ed' & _ & _ & _ & A2). rewrite Ed in Ed'. injection Ed' as <-.
      destruct (accepted_payment L st' config recipient _ resp' st2 P' T Lr A2) as (Pe2 & Es2 & _).
      split; [done|]. split; [etrans; [exact Pe2|]; by constructor|congruence].
    + destruct G2 as (_ & N). rewrite El in N. exfalso. apply (N recipient l3 l4 Ed Lr E3 E4).
      rewrite <- Ef. apply A.
  - destruct G as (Ag & N). split; [split; [done|]|by split].
    intros (recipient & Ed & Lr & Py). exfalso. by apply (N recipient l1 l2 Ed Lr E1 E2), AP.
Qed.
End visitors.

(** ** Witnesses *)

From S2P Require Import Concrete.
Import Concrete.Instances StorageInstances.

#[local] Existing Instances sample_engine sample_engine_ok toy_hex toy_hex_ok toy_limiter no_json.
#[local] Existing Instances toy_texts toy_http toy_http_ok direct_client.

Definition sample_faucet : FaucetConfig := {|
  faucet_secret_key := sk7; faucet_public_key := public_key_of sk7; faucet_amount := 100;
  faucet_source_shard := 0; faucet_destination_shard := 0 |}.

Lemma sample_faucet_typed : config_typed sample_faucet.
Proof. repeat split; vm_compute; reflexivity || discriminate. Qed.

Lemma transfer_length tx :
  tx_type tx = Transfer -> length (tx_from tx) = 32%nat -> length (tx_to tx) = 32%nat ->
  length (tx_signature tx) = 64%nat -> tx_data tx = None -> length (enc c_transaction tx) = 185%nat.
Proof.
  intros T F R Sg D. unfold c_transaction, c_map, c_pair, c_bytes, c_uint, c_option, c_tx_type.
  cbn [enc fst snd]. rewrite T, D, !length_app, !le_bytes_length, F, R, Sg. reflexivity.
Qed.

Lemma sample_encodable : payments_encodable node_ledger sample_faucet.
Proof.
  intros recipient b Lr E. unfold faucet_payment in E.
  pose proof (faucet_order_wf _ node_ledger sample_faucet recipient node_represents sample_faucet_typed Lr) as W.
  destruct (signed_by_Ok sk7 _ W eq_refl) as (sg & Es & Et & _).
  change (faucet_secret_key sample_faucet) with sk7 in *. rewrite Et in E. apply (inj Ok) in E.
  pose proof (hex_decode_length _ _ (hex_decode_encode b)) as Lh.
  assert (length sg = 64%nat) as Ls.
  { unfold sign_transaction in Es. apply bind_Ok in Es as (m & _ & Eg). apply (inj Ok) in Eg.
    rewrite <- Eg. apply signature_length. }
  assert (length b = 185%nat) as Lb.
  { rewrite <- E. apply transfer_length; [reflexivity|apply public_key_length|exact Lr|exact Ls|reflexivity]. }
  unfold vec_ok, encode_hex. rewrite Lh, Lb. reflexivity.
Qed.

Definition faucet_visits : list route := [
  HomeRoute; FaucetRoute (bytes_of "0x" ++ hex_encode (fill 32 2)); AddressRoute (bytes_of "zz");
  FaucetRoute (hex_encode (fill 31 2)) ].

Lemma website_effect_witness :
  let st' := foldl (fun st r => visit (H := http_client) ∅ (Enabled sample_faucet) r st) node faucet_visits in
  rpc_storage st' = rpc_storage node /\ routed (rpc_mempool st') /\
  exists recipients, pending st' ≡ₚ payments node_ledger (Enabled sample_faucet) recipients ++ pending node /\
    Forall (fun a => length a = 32%nat) recipients /\
    (length recipients <= length (filter (fun r => is_faucet r = true) faucet_visits))%nat.
Proof.
  exact (website_effect node_ledger ∅ (Enabled sample_faucet) faucet_visits node node_represents node_routed
    (conj sample_faucet_typed sample_encodable)).
Defined.

Definition faucet_text : bytes := hex_encode (fill 32 2).

Lemma faucet_pays_witness : exists tx st' st2,
  run_io (submit_faucet_transfer (Enabled sample_faucet) faucet_text) node = st' /\
  run_io (submit_faucet_transfer (Enabled sample_faucet) faucet_text) st'.2 = st2 /\
  is_ok st'.1 = true /\ is_ok st2.1 = true /\ pending st2.2 ≡ₚ tx :: tx :: pending node /\
  clear_signature tx = faucet_transaction sample_faucet (fill 32 2) 2.
Proof.
  destruct permits as (E1 & E2 & E3 & E4).
  pose proof (faucet_pays node_ledger node sample_faucet faucet_text 19 18 node_represents node_routed
    sample_faucet_typed sample_encodable E1 E2) as G.
  assert (is_ok (run_io (submit_faucet_transfer (Enabled sample_faucet) faucet_text) node).1 = true) as A
    by (vm_compute; reflexivity).
  assert (decode_hex_vec (bytes_of "address") faucet_text = Ok (fill 32 2)) as D by (vm_compute; reflexivity).
  assert (account_nonce node_ledger (faucet_public_key sample_faucet) = 2) as N by (vm_compute; reflexivity).
  cbv zeta in G. destruct (run_io (submit_faucet_transfer (Enabled sample_faucet) faucet_text) node) as [r st'] eqn:R1.
  cbn [fst] in A. destruct G as (_ & _ & G). destruct (G A) as (recipient & Ed & Ec & _ & _ & _ & G2).
  rewrite D in Ed. apply (inj Ok) in Ed. specialize (G2 17 16 E3 E4). rewrite N in Ec.
  destruct (run_io (submit_faucet_transfer (Enabled sample_faucet) faucet_text) st') as [r2 st2] eqn:R2.
  destruct G2 as (A2 & Pe & _).
  exists (faucet_payment node_ledger sample_faucet recipient), (r, st'), (r2, st2).
  split; [exact eq_refl|]. split; [exact R2|]. split; [exact A|]. split; [exact A2|]. split; [exact Pe|].
  rewrite Ed. exact Ec.
Defined.

Definition faucet_env : env := {[ bytes_of "PRIMS_SECRET_KEY_HEX" := hex_encode sk7 ]}.

Lemma faucet_configuration_witness : from_env faucet_env ∅ = Enabled sample_faucet.
Proof.
  destruct (faucet_configuration faucet_env ∅) as (_ & _ & G).
  assert (key_style [] [] []) as St by by repeat split; auto.
  apply (G [] [] sk7 [] St eq_refl eq_refl); vm_compute; reflexivity.
Defined.
