(* ===== verification/Pages.v ===== *)
(** * The pages of the testnet website ([src/bin/prims-explorer.rs])

    The three HTML templates, what each route fills in, and why a text cannot
    change the markup.  In the literals of the templates a backquote stands
    for a double quote.  [askama] escapes the texts it inserts: its escaping
    is a class, and so are the renderings of answers and errors as text. *)

From Stdlib Require Import Strings.Byte.
From S2P Require Import Prelude Orders Bytes Text Externals Types Hash Crypto Store Storage Vm Json Api Rpc Config Wallet WalletSpec Faucet FaucetSpec.

(** ** Templates *)

(** What [askama] does to a text in a template with the extension [html]. *)
Class Html := { askama_escape : bytes -> bytes }.

(** The characters that delimit tags and attribute values. *)
Definition markup (b : byte) : Prop := b = x3c \/ b = x3e \/ b = x22 \/ b = x27.

#[global] Instance markup_dec b : Decision (markup b).
Proof. unfold markup. apply _. Defined.

(** The documented guarantee: they are escaped. *)
Class HtmlOk `{Html} : Prop := {
  escape_no_markup t : Forall (fun b => ~ markup b) (askama_escape t);
}.

(** A piece of a template: literal, [{{ text }}], or [{{ number }}]. *)
Inductive segment :=
| Lit (literal : bytes)
| Expr (text : bytes)
| Num (n : Z).

Definition html (source : string) : bytes :=
  (fun b => if decide (b = x60) then x22 else b) <$> bytes_of source.

Definition render_segment `{Html} (s : segment) : bytes :=
  match s with
  | Lit literal => literal
  | Expr text => askama_escape text
  | Num n => dec_bytes n
  end.

(** [Template::render] *)
Definition render `{Html} (t : list segment) : bytes := mjoin (render_segment <$> t).

Record HomeTemplate := {
  ht_rpc_url : bytes;
  ht_faucet_enabled : bool;
  ht_faucet_status : bytes;
  ht_faucet_sender_address : bytes;
  ht_faucet_amount : Z;
  ht_faucet_account_json : bytes;
  ht_info_json : bytes;
  ht_validators_json : bytes;
  ht_note_commitments_json : bytes;
}.

Record AddressTemplate := {
  at_rpc_url : bytes;
  at_address : bytes;
  at_balance_json : bytes;
}.

Record FaucetTemplate := {
  ft_rpc_url : bytes;
  ft_address : bytes;
  ft_success : bool;
  ft_status_message : bytes;
  ft_response_json : bytes;
}.

Definition home_template (t : HomeTemplate) : list segment :=
  [Lit (html "
<!DOCTYPE html>
<html lang=`fr`>
<head>
    <meta charset=`utf-8`>
    <title>Prims Testnet</title>
    <style>
        body { font-family: -apple-system, BlinkMacSystemFont, sans-serif; max-width: 1040px; margin: 40px auto; padding: 0 16px; line-height: 1.55; color: #1f2328; }
        h1, h2, h3 { margin-bottom: 0.4em; }
        .card { border: 1px solid #d0d7de; border-radius: 14px; padding: 18px; margin: 18px 0; background: #fff; }
        .grid { display: grid; grid-template-columns: repeat(auto-fit, minmax(320px, 1fr)); gap: 18px; }
        input[type=`text`] { width: 100%; padding: 10px; box-sizing: border-box; margin: 8px 0 12px; border: 1px solid #d0d7de; border-radius: 10px; }
        button { padding: 10px 14px; cursor: pointer; border: 1px solid #d0d7de; border-radius: 10px; background: #f6f8fa; }
        pre { white-space: pre-wrap; word-break: break-word; background: #f6f8fa; padding: 12px; border-radius: 10px; overflow-x: auto; }
        code { background: #f6f8fa; padding: 2px 6px; border-radius: 6px; }
        .muted { color: #59636e; }
        .ok { color: #0a7f3f; font-weight: 600; }
        .warn { color: #9a6700; font-weight: 600; }
    </style>
</head>
<body>
    <h1>Prims Testnet</h1>
    <p class=`muted`>
        Site web simple pour le testnet Prims : informations du nœud, recherche de solde, instructions de démarrage et faucet de test.
    </p>

    <div class=`card`>
        <h2>État du service</h2>
        <p>Endpoint RPC utilisé : <strong>");
   Expr (ht_rpc_url t);
   Lit (html "</strong></p>
        <p>Montant du faucet : <strong>");
   Num (ht_faucet_amount t);
   Lit (html "</strong> token(s) de test par demande.</p>
        ")] ++
  (if ht_faucet_enabled t then
   [Lit (html "
        <p class=`ok`>Faucet actif</p>
        <p class=`muted`>Adresse publique du faucet : <code>");
   Expr (ht_faucet_sender_address t);
   Lit (html "</code></p>
        <h3>État du compte faucet</h3>
        <pre>");
   Expr (ht_faucet_account_json t);
   Lit (html "</pre>
        ")]
  else
   [Lit (html "
        <p class=`warn`>Faucet désactivé</p>
        <pre>");
   Expr (ht_faucet_status t);
   Lit (html "</pre>
        ")]) ++
  [Lit (html "
    </div>

    <div class=`card`>
        <h2>Instructions testnet</h2>
        <ol>
            <li>Démarrer le nœud principal Prims et laisser l’API RPC disponible sur <code>127.0.0.1:7002</code> ou sur l’URL définie dans <code>PRIMS_RPC_URL</code>.</li>
            <li>Démarrer ce site web avec <code>cargo run --bin prims-explorer</code>.</li>
            <li>Utiliser une adresse publique Ed25519 hexadécimale sur 32 octets pour consulter le solde ou demander des tokens de test.</li>
            <li>Pour activer le faucet, définir <code>PRIMS_SECRET_KEY_FILE</code> ou <code>PRIMS_SECRET_KEY_HEX</code> avant de lancer le site. Il est recommandé d’utiliser un fichier local hors dépôt.</li>
            <li>Optionnel : régler <code>PRIMS_FAUCET_AMOUNT</code>, <code>PRIMS_FAUCET_SOURCE_SHARD</code> et <code>PRIMS_FAUCET_DESTINATION_SHARD</code>.</li>
        </ol>
        <p class=`muted`>
            Sécurité : ne jamais commiter de clé privée, mot de passe, token GitHub ou fichier sensible dans le dépôt.
        </p>
    </div>

    <div class=`grid`>
        <div class=`card`>
            <h2>Recherche de solde</h2>
            <form action=`/address` method=`get`>
                <label for=`address`>Adresse publique</label>
                <input id=`address` name=`address` type=`text` placeholder=`Adresse hexadécimale 32 octets` required>
                <button type=`submit`>Voir le solde</button>
            </form>
        </div>

        <div class=`card`>
            <h2>Faucet testnet</h2>
            <form action=`/faucet` method=`post`>
                <label for=`faucet-address`>Adresse destinataire</label>
                <input id=`faucet-address` name=`address` type=`text` placeholder=`Adresse hexadécimale 32 octets` required>
                <button type=`submit`>Recevoir ");
   Num (ht_faucet_amount t);
   Lit (html " token(s) de test</button>
            </form>
            <p class=`muted`>
                Le faucet construit une transaction <code>Transfer</code> signée, puis l’envoie au nœud via <code>send_transaction</code>.
            </p>
        </div>
    </div>

    <div class=`grid`>
        <div class=`card`>
            <h2>Informations du nœud</h2>
            <pre>");
   Expr (ht_info_json t);
   Lit (html "</pre>
        </div>

        <div class=`card`>
            <h2>Validateurs</h2>
            <pre>");
   Expr (ht_validators_json t);
   Lit (html "</pre>
        </div>
    </div>

    <div class=`card`>
        <h2>Commitments anonymes</h2>
        <pre>");
   Expr (ht_note_commitments_json t);
   Lit (html "</pre>
    </div>
</body>
</html>
")].

Definition address_template (t : AddressTemplate) : list segment :=
  [Lit (html "
<!DOCTYPE html>
<html lang=`fr`>
<head>
    <meta charset=`utf-8`>
    <title>Prims Testnet - Adresse</title>
    <style>
        body { font-family: -apple-system, BlinkMacSystemFont, sans-serif; max-width: 960px; margin: 40px auto; padding: 0 16px; line-height: 1.55; color: #1f2328; }
        .card { border: 1px solid #d0d7de; border-radius: 14px; padding: 18px; margin: 18px 0; background: #fff; }
        pre { white-space: pre-wrap; word-break: break-word; background: #f6f8fa; padding: 12px; border-radius: 10px; overflow-x: auto; }
        a { text-decoration: none; }
        .muted { color: #59636e; }
    </style>
</head>
<body>
    <p><a href=`/`>← Retour à l’accueil</a></p>
    <h1>Solde d’une adresse</h1>
    <p class=`muted`>Endpoint RPC utilisé : <strong>");
   Expr (at_rpc_url t);
   Lit (html "</strong></p>

    <div class=`card`>
        <h2>Adresse</h2>
        <pre>");
   Expr (at_address t);
   Lit (html "</pre>
    </div>

    <div class=`card`>
        <h2>Réponse RPC get_balance</h2>
        <pre>");
   Expr (at_balance_json t);
   Lit (html "</pre>
    </div>
</body>
</html>
")].

Definition faucet_template (t : FaucetTemplate) : list segment :=
  [Lit (html "
<!DOCTYPE html>
<html lang=`fr`>
<head>
    <meta charset=`utf-8`>
    <title>Prims Testnet - Faucet</title>
    <style>
        body { font-family: -apple-system, BlinkMacSystemFont, sans-serif; max-width: 960px; margin: 40px auto; padding: 0 16px; line-height: 1.55; color: #1f2328; }
        .card { border: 1px solid #d0d7de; border-radius: 14px; padding: 18px; margin: 18px 0; background: #fff; }
        pre { white-space: pre-wrap; word-break: break-word; background: #f6f8fa; padding: 12px; border-radius: 10px; overflow-x: auto; }
        a { text-decoration: none; }
        .muted { color: #59636e; }
        .ok { color: #0a7f3f; font-weight: 600; }
        .warn { color: #9a6700; font-weight: 600; }
    </style>
</head>
<body>
    <p><a href=`/`>← Retour à l’accueil</a></p>
    <h1>Résultat du faucet</h1>
    <p class=`muted`>Endpoint RPC utilisé : <strong>");
   Expr (ft_rpc_url t);
   Lit (html "</strong></p>

    <div class=`card`>
        <h2>Adresse destinataire</h2>
        <pre>");
   Expr (ft_address t);
   Lit (html "</pre>
    </div>

    <div class=`card`>
        <h2>Statut</h2>
        ")] ++
  (if ft_success t then
   [Lit (html "
        <p class=`ok`>Demande traitée</p>
        ")]
  else
   [Lit (html "
        <p class=`warn`>Demande refusée</p>
        ")]) ++
  [Lit (html "
        <pre>");
   Expr (ft_status_message t);
   Lit (html "</pre>
    </div>

    <div class=`card`>
        <h2>Détails</h2>
        <pre>");
   Expr (ft_response_json t);
   Lit (html "</pre>
    </div>
</body>
</html>
")].

(** ** What the routes fill in *)

(** Values and errors as text: [serde_json::to_string_pretty] and the messages
    built by [format!]. *)
Class PageTexts := {
  pretty : Value -> bytes;
  payload_text : bytes;
  de_error_text : DeError -> bytes;
  faucet_error_text : FaucetError -> bytes;
}.

Section pages.
Context `{PageTexts, Hex, Html}.

Definition i64_text (n : Z) : bytes := if n <? 0 then bytes_of "-" ++ dec_bytes (- n) else dec_bytes n.

(** The error of [rpc_call]. *)
Definition client_error_text (e : ClientError) : bytes :=
  match e with
  | HttpFailed message => bytes_of message
  | RpcFailure code message =>
      bytes_of "RPC error " ++ from_option i64_text (bytes_of "?") code ++ bytes_of ": " ++ message
  | UnexpectedPayload => payload_text
  | Undecodable e => de_error_text e
  end.

(** No page is made of a panic. *)
Definition pretty_json_or_error (result : outcome ClientError Value) : bytes :=
  match result with
  | Ok value => pretty value
  | Err error => bytes_of "Erreur: " ++ client_error_text error
  | Panic => []
  end.

(** The [reason] of a disabled faucet. *)
Definition disabled_reason (reason : option FaucetError) : bytes :=
  match reason with
  | None => bytes_of "Aucune clé faucet fournie : définis PRIMS_SECRET_KEY_FILE ou PRIMS_SECRET_KEY_HEX pour activer le service de distribution de tokens de test."
  | Some error => bytes_of "Configuration faucet invalide : " ++ faucet_error_text error
  end.

Definition failure_text (error : FaucetError) : bytes :=
  match error with
  | FaucetWithoutKey => disabled_reason None
  | FaucetMisconfigured reason => disabled_reason (Some reason)
  | FaucetRpc e => client_error_text e
  | _ => faucet_error_text error
  end.

Definition home_fields (rpc_url : bytes) (mode : FaucetMode) (p : HomePage) : HomeTemplate := {|
  ht_rpc_url := rpc_url;
  ht_faucet_enabled := match mode with Enabled _ => true | Disabled _ => false end;
  ht_faucet_status := match mode with
    | Disabled reason => disabled_reason reason
    | Enabled _ => bytes_of "Faucet actif"
    end;
  ht_faucet_sender_address := match mode with
    | Disabled _ => []
    | Enabled config => hex_encode (faucet_public_key config)
    end;
  ht_faucet_amount := home_faucet_amount p;
  ht_faucet_account_json := match home_faucet_account p with
    | None => bytes_of "Faucet inactif"
    | Some account => pretty_json_or_error account
    end;
  ht_info_json := pretty_json_or_error (home_info p);
  ht_validators_json := pretty_json_or_error (home_validators p);
  ht_note_commitments_json := pretty_json_or_error (home_note_commitments p) |}.

Definition address_fields (rpc_url query : bytes) (answer : outcome ClientError Value) :
  AddressTemplate := {|
  at_rpc_url := rpc_url; at_address := query; at_balance_json := pretty_json_or_error answer |}.

(** The outcome of the transfer: a value, or an error. *)
Definition faucet_fields (rpc_url recipient : bytes) (result : FaucetError + Value) : FaucetTemplate :=
  let '(success, status_message, response_json) :=
    match result with
    | inr value => (true, bytes_of "Transaction faucet construite, signée et envoyée au nœud.", pretty value)
    | inl error => (false, bytes_of "Le faucet n’a pas pu envoyer la transaction.", failure_text error)
    end in
  {| ft_rpc_url := rpc_url; ft_address := recipient; ft_success := success;
     ft_status_message := status_message; ft_response_json := response_json |}.
End pages.

Section respond.
Context {W : Type} `{RpcClient W, Sha256, Ed25519, ChainCodecs, Hex, PageTexts, Html}.

(** The handlers of the routes, with the page each returns. *)
Definition respond (rpc_url : bytes) (e : env) (mode : FaucetMode) (r : route) : io W FaucetError bytes :=
  match r with
  | HomeRoute =>
      p ← home e mode;
      mret (render (home_template (home_fields rpc_url mode p)))
  | AddressRoute query =>
      answer ← address query;
      mret (render (address_template (address_fields rpc_url query answer)))
  | FaucetRoute recipient =>
      result ← Io (fun st =>
        match run_io (submit_faucet_transfer mode recipient) st with
        | (Ok value, st') => (Ok (inr value), st')
        | (Err error, st') => (Ok (inl error), st')
        | (Panic, st') => (Panic, st')
        end);
      mret (render (faucet_template (faucet_fields rpc_url recipient result)))
  end.
End respond.

(** ** The markup of a page *)

Definition skeleton (page : bytes) : bytes := filter markup page.

(** The page of a route with empty texts. *)
Definition plain_page `{Html} (r : route) (flag : bool) : bytes :=
  match r with
  | HomeRoute => render (home_template {|
      ht_rpc_url := []; ht_faucet_enabled := flag; ht_faucet_status := []; ht_faucet_sender_address := [];
      ht_faucet_amount := 0; ht_faucet_account_json := []; ht_info_json := []; ht_validators_json := [];
      ht_note_commitments_json := [] |})
  | AddressRoute _ => render (address_template {| at_rpc_url := []; at_address := []; at_balance_json := [] |})
  | FaucetRoute _ => render (faucet_template {|
      ft_rpc_url := []; ft_address := []; ft_success := flag; ft_status_message := []; ft_response_json := [] |})
  end.

Section skeletons.
Context `{HtmlOk}.

Lemma skeleton_app a b : skeleton (a ++ b) = skeleton a ++ skeleton b.
Proof. apply filter_app. Qed.

Lemma skeleton_num n : skeleton (dec_bytes n) = [].
Proof.
  apply filter_none. eapply Forall_impl; [apply dec_bytes_digits|]. intros x R M.
  destruct M as [-> | [-> | [-> | ->]]]; cbv in R; by destruct R.
Qed.

(** The literals of a template, which are all its markup. *)
Definition literals (t : list segment) : bytes :=
  mjoin ((fun s => match s with Lit literal => literal | _ => [] end) <$> t).

Lemma skeleton_render t : skeleton (render t) = skeleton (literals t).
Proof.
  induction t as [|s t IH]; [done|].
  change (render (s :: t)) with (render_segment s ++ render t).
  change (literals (s :: t)) with (match s with Lit literal => literal | _ => [] end ++ literals t).
  rewrite !skeleton_app, IH. f_equal.
  destruct s; cbn [render_segment]; [done|apply filter_none, escape_no_markup|apply skeleton_num].
Qed.

Lemma literals_app t u : literals (t ++ u) = literals t ++ literals u.
Proof. unfold literals. by rewrite fmap_app, join_app. Qed.

(** Same flag, same literals. *)
Lemma home_literals t u : ht_faucet_enabled t = ht_faucet_enabled u ->
  literals (home_template t) = literals (home_template u).
Proof. intros E. unfold home_template. rewrite E. by destruct (ht_faucet_enabled u). Qed.

Lemma faucet_literals t u : ft_success t = ft_success u ->
  literals (faucet_template t) = literals (faucet_template u).
Proof. intros E. unfold faucet_template. rewrite E. by destruct (ft_success u). Qed.
End skeletons.

Section safety.
Context {W : Type} `{RpcClient W, Sha256, Ed25519Ok, ChainCodecsOk, HexOk, PageTexts, HtmlOk}.
Implicit Types (st : W).

(** The library that makes the calls returns. *)
Definition calls_return : Prop := forall method params st, (run_io (rpc_call method params) st).1 <> Panic.

Lemma ask_returns method params st : calls_return -> exists r st',
  run_io (ask_node method params) st = (Ok r, st').
Proof.
  intros C. specialize (C method params st). unfold ask_node. cbn [run_io].
  destruct (run_io (rpc_call method params) st) as [[v|x|] st1]; [by eexists _, _..|done].
Qed.

Lemma home_runs e mode st : calls_return -> exists p, run_io (home e mode) st = (Ok p, visit e mode HomeRoute st).
Proof.
  intros C. cbn [visit]. unfold home.
  do 3 (rewrite run_bind; edestruct ask_returns as (? & ? & ->); [exact C|]).
  destruct mode as [reason|config]; [by eexists|].
  rewrite run_bind. edestruct ask_returns as (? & ? & ->); [exact C|]. by eexists.
Qed.

Definition mode_typed (mode : FaucetMode) : Prop :=
  match mode with Enabled config => config_typed config | Disabled _ => True end.

(** After a part that cannot panic. *)
Lemma bind_returns {A B} (m : io W FaucetError A) (f : A -> io W FaucetError B) st :
  (run_io m st).1 <> Panic -> (forall a st', (run_io m st).1 = Ok a -> (run_io (f a) st').1 <> Panic) ->
  (run_io (m ≫= f) st).1 <> Panic.
Proof. rewrite run_bind. destruct (run_io m st) as [[a|e|] st']; auto. Qed.

Lemma call_returns method params st : calls_return ->
  (run_io (io_map_err FaucetRpc (rpc_call method params)) st).1 <> Panic.
Proof. intros C. rewrite run_io_map_err. by apply map_err_not_Panic, C. Qed.

Lemma submit_returns mode text st : calls_return -> mode_typed mode ->
  (run_io (submit_faucet_transfer mode text) st).1 <> Panic.
Proof.
  intros C T. destruct mode as [[reason|]|config]; [done..|]. unfold submit_faucet_transfer.
  apply bind_returns; [by apply map_err_not_Panic, map_err_not_Panic, hex_decode_no_panic|].
  intros recipient st1 _. destruct (Nat.eqb_spec (length recipient) 32) as [Lr|]; [|done]. cbn [negb].
  apply bind_returns; [by apply call_returns|]. intros balance st2 _.
  apply bind_returns; [by apply ok_or_not_Panic|]. intros n st3 En.
  rewrite run_lift in En. cbn [fst] in En. apply ok_or_Ok, bind_Some in En as (v & _ & En).
  destruct v as [| |i| | | |]; try discriminate En. apply checked_Some in En as [-> N].
  destruct (faucet_signs config recipient i T Lr (proj1 N)) as (sg & b & Es & _ & Eb & _).
  cbv zeta. rewrite Es. apply bind_returns; [done|]. intros ? st4 [= <-]. rewrite Eb.
  apply bind_returns; [done|]. intros ? st5 [= <-].
  by apply bind_returns; [apply call_returns|].
Qed.

(** What decides between the variants of a page. *)
Definition page_flag (e : env) (mode : FaucetMode) (r : route) st : bool :=
  match r with
  | HomeRoute => match mode with Enabled _ => true | Disabled _ => false end
  | AddressRoute _ => false
  | FaucetRoute recipient => is_ok (run_io (submit_faucet_transfer mode recipient) st).1
  end.

(** [C35] No text can change the markup of a page.  Every
    request gets a page, whatever the node answers; and its tags and the
    quotes of its attributes are those of the same page with empty texts,
    whatever the visitor wrote in the address, whatever the node answered or
    the environment holds: only the state of the faucet, for the home page,
    and the success of a transfer choose between two fixed skeletons. *)
Theorem pages_not_injectable rpc_url e mode r st : calls_return -> mode_typed mode -> exists page,
  run_io (respond rpc_url e mode r) st = (Ok page, visit e mode r st) /\
  skeleton page = skeleton (plain_page r (page_flag e mode r st)).
Proof.
  intros C T. destruct r as [|query|recipient]; unfold respond, plain_page, page_flag; rewrite run_bind.
  - destruct (home_runs e mode st C) as [p E]. rewrite E, run_ret. eexists. split; [done|].
    rewrite !skeleton_render. f_equal. by apply home_literals.
  - unfold visit, address.
    destruct (ask_returns (bytes_of "get_balance") (balance_params query) st C) as (answer & st' & ->).
    rewrite run_ret. eexists. split; [done|]. by rewrite !skeleton_render.
  - cbn [run_io visit]. pose proof (submit_returns mode recipient st C T) as N.
    destruct (run_io (submit_faucet_transfer mode recipient) st) as [[value|error|] st']; [| |done];
      rewrite run_ret; (eexists; split; [done|]; rewrite !skeleton_render; f_equal; by apply faucet_literals).
Qed.
End safety.

(** ** Witness *)

From S2P Require Import Ledger StorageSpec Concrete.
Import Concrete.Instances StorageInstances.

#[local] Existing Instances toy_hex toy_hex_ok no_json.

(** Numeric character references. *)
Definition toy_reference (b : byte) : bytes :=
  if decide (markup b \/ b = x26) then bytes_of "&#" ++ dec_bytes (byte_val b) ++ bytes_of ";" else [b].

#[local] Instance toy_html : Html := {| askama_escape := mbind toy_reference |}.

#[local] Instance toy_html_ok : HtmlOk.
Proof.
  split. intros t. cbn [askama_escape toy_html]. induction t as [|b t IH]; [constructor|].
  change (mbind toy_reference (b :: t)) with (toy_reference b ++ mbind toy_reference t).
  apply Forall_app. split; [|exact IH]. unfold toy_reference. case_decide as M.
  - apply Forall_app. split; [by_eval|]. apply Forall_app. split; [|by_eval].
    eapply Forall_impl; [apply dec_bytes_digits|]. intros x R X.
    destruct X as [-> | [-> | [-> | ->]]]; cbv in R; by destruct R.
  - constructor; [tauto|constructor].
Qed.

#[local] Instance toy_page_texts : PageTexts := {|
  pretty := fun v => match v with JString t => t | _ => bytes_of "{}" end;
  payload_text := bytes_of "Unexpected JSON-RPC payload"; de_error_text := fun _ => [];
  faucet_error_text := fun _ => bytes_of "refused" |}.

Definition script : bytes := bytes_of "</pre><script>alert(1)</script>".

(** A node that answers every call with a script. *)
#[local] Instance hostile_client : RpcClient unit := {| rpc_call := fun _ _ => mret (JString script) |}.

Definition rpc_location : bytes := bytes_of "http://127.0.0.1:7002".

Lemma pages_not_injectable_witness : exists page st',
  run_io (respond rpc_location ∅ (Enabled sample_faucet) (AddressRoute script)) tt = (Ok page, st') /\
  skeleton page = skeleton (plain_page (AddressRoute []) false) /\
  contains page script = false /\ contains page (bytes_of "&#60;script&#62;") = true.
Proof.
  destruct (pages_not_injectable rpc_location ∅ (Enabled sample_faucet) (AddressRoute script) tt)
    as (page & E & K).
  - intros method params st. discriminate.
  - exact sample_faucet_typed.
  - exists page, (visit ∅ (Enabled sample_faucet) (AddressRoute script) tt).
    refine (conj E (conj K _)).
    assert ((fun o => match o with Ok p => (contains p script, contains p (bytes_of "&#60;script&#62;")) | _ => (true, false) end)
      (run_io (respond rpc_location ∅ (Enabled sample_faucet) (AddressRoute script)) tt).1 = (false, true)) as G
      by (vm_compute; reflexivity).
    rewrite E in G. injection G as G1 G2. exact (conj G1 G2).
Defined.
