(* ===== verification/Ceremony.v ===== *)
(** * The trusted-setup ceremony ([src/bin/prims-setup.rs])

    The state of a ceremony, its transcript of hashed contributions, the seed
    of the parameters, and the commands on the output directory.  The clock
    and the random generator are arguments; the file system is a finite map
    whose operations do not fail; JSON and the Groth16 generator are classes. *)

From Stdlib Require Import Strings.Byte.
From S2P Require Import Prelude Orders Bytes Externals Types Hash Store Notes ZkTransfer Gossip.

(** ** The crates *)

(** [serde_json] on one type; a writer has written some bytes also when it
    fails. *)
Class Json (A : Type) := {
  to_json : A -> bytes * outcome string unit;
  from_json : bytes -> outcome string A;
}.

Class JsonOk (A : Type) `{Json A} : Prop := {
  json_total : forall x : A, (to_json x).2 = Ok tt;
  json_roundtrip : forall x : A, from_json (to_json x).1 = Ok x;
}.

(** [Groth16::generate_random_parameters_with_reduction] with
    [StdRng::from_seed(seed)], and [serialize_compressed] of the keys. *)
Class SetupBackend := {
  setup_proving_key : Type;
  setup_verifying_key : Type;
  setup_vk : setup_proving_key -> setup_verifying_key;
  generate_parameters : ZkTransferCircuit -> bytes -> outcome string setup_proving_key;
  serialize_pk : setup_proving_key -> bytes * outcome string unit;
  serialize_vk : setup_verifying_key -> bytes * outcome string unit;
}.

(** The output directory: file names and contents. *)
Abbreviation dir := (gmap bytes bytes).

(** ** Data *)

Definition STATE_FILE_NAME : bytes := bytes_of "ceremony_state.json".
Definition METADATA_FILE_NAME : bytes := bytes_of "setup_metadata.json".
Definition PROVING_KEY_FILE_NAME : bytes := bytes_of "groth16_proving_key.bin".
Definition VERIFYING_KEY_FILE_NAME : bytes := bytes_of "groth16_verifying_key.bin".

Record CeremonyContribution := {
  con_index : Z;
  con_contributor : bytes;
  contributed_at_unix : Z;
  entropy_digest_hex : bytes;
  transcript_digest_hex : bytes;
}.

Record CeremonyState := {
  cer_version : Z;
  ceremony_kind : bytes;
  curve : bytes;
  circuit : bytes;
  contributions : list CeremonyContribution;
  last_transcript_digest_hex : bytes;
  created_at_unix : Z;
  updated_at_unix : Z;
}.

Record SetupMetadata := {
  set_version : Z;
  set_ceremony_kind : bytes;
  set_curve : bytes;
  proving_system : bytes;
  transcript_final_digest_hex : bytes;
  contribution_count : Z;
  contributor_names : list bytes;
  proving_key_file : bytes;
  verifying_key_file : bytes;
  circuit_metadata : ZkTransferSetupCircuitMetadata;
  generated_at_unix : Z;
  set_notes : list bytes;
}.

Inductive CeremonyError :=
| InvalidClock (message : string)
| ReadFailed (path : bytes)
| DecodeFailed (path : bytes) (message : string)
| WriteFailed (path : bytes) (message : string)
| AlreadyInitialised
| ArtifactsExist
| InvalidSetupCircuit (e : ZkTransferSetupError.t)
| SetupFailed (message : string)
| NoContribution.

(** [{byte:02x}] for every byte *)
Definition hex_digit (d : Z) : byte := default x00 (HEX !! Z.to_nat d).

Fixpoint hex_encode (b : bytes) : bytes :=
  match b with
  | [] => []
  | x :: b' => hex_digit (byte_val x / 16) :: hex_digit (byte_val x mod 16) :: hex_encode b'
  end.

(** [usize::to_le_bytes] *)
Definition usize_le_bytes (n : Z) : bytes := le_bytes 8 n.

Section ceremony.
Context `{Sha256}.

Definition digest_bytes (parts : list bytes) : bytes := sha256 (concat parts).

Definition empty_transcript_digest : bytes := digest_bytes [bytes_of "prims-zk-setup-empty-transcript"].

(** [now] is the clock, [organizer_entropy] what [OsRng] drew. *)
Definition build_initial_state (organizer organizer_entropy : bytes) (now : Z) : CeremonyState :=
  let entropy_digest := digest_bytes
    [bytes_of "prims-zk-setup-initial-entropy"; organizer; organizer_entropy] in
  let transcript_digest := digest_bytes
    [bytes_of "prims-zk-setup-transcript"; empty_transcript_digest; entropy_digest; organizer;
     usize_le_bytes 0] in
  {| cer_version := 1;
     ceremony_kind := bytes_of "simplified-participatory-trusted-setup";
     curve := bytes_of "BLS12-381";
     circuit := bytes_of "ZkTransferCircuit(1 input, 2 outputs, reference shape)";
     contributions := [
       {| con_index := 0; con_contributor := organizer; contributed_at_unix := now;
          entropy_digest_hex := hex_encode entropy_digest;
          transcript_digest_hex := hex_encode transcript_digest |}];
     last_transcript_digest_hex := hex_encode transcript_digest;
     created_at_unix := now; updated_at_unix := now |}.

Definition append_contribution (state : CeremonyState) (contributor fresh_entropy : bytes) (now : Z) :
  CeremonyState :=
  let index := Z.of_nat (length (contributions state)) in
  let previous_digest_hex :=
    if bool_decide (contributions state = []) then hex_encode empty_transcript_digest
    else last_transcript_digest_hex state in
  let entropy_digest := digest_bytes
    [bytes_of "prims-zk-setup-contribution"; contributor; fresh_entropy; previous_digest_hex] in
  let transcript_digest := digest_bytes
    [bytes_of "prims-zk-setup-transcript"; previous_digest_hex; entropy_digest; contributor;
     usize_le_bytes index] in
  {| cer_version := cer_version state; ceremony_kind := ceremony_kind state; curve := curve state;
     circuit := circuit state;
     contributions := contributions state ++ [
       {| con_index := index; con_contributor := contributor; contributed_at_unix := now;
          entropy_digest_hex := hex_encode entropy_digest;
          transcript_digest_hex := hex_encode transcript_digest |}];
     last_transcript_digest_hex := hex_encode transcript_digest;
     created_at_unix := created_at_unix state; updated_at_unix := now |}.

Definition derive_final_seed (state : CeremonyState) : bytes :=
  digest_bytes
    [bytes_of "prims-zk-setup-final-seed"; last_transcript_digest_hex state;
     usize_le_bytes (Z.of_nat (length (contributions state)))].

(** ** The commands *)

Definition exists_file (path : bytes) : io dir CeremonyError bool :=
  Io (fun d => (Ok (bool_decide (is_Some (d !! path))), d)).

(** [File::create] truncates the file, then the value is written. *)
Definition write_with {A} (encode : A -> bytes * outcome string unit) (path : bytes) (value : A) :
  io dir CeremonyError unit :=
  Io (fun d => (map_err (WriteFailed path) (encode value).2, <[path := (encode value).1]> d)).

Definition read_file (path : bytes) : io dir CeremonyError bytes :=
  Io (fun d => (ok_or (ReadFailed path) (d !! path), d)).

Context `{!Json CeremonyState, !Json SetupMetadata, !SetupBackend}.

Definition write_json_pretty {A} `{Json A} (path : bytes) (value : A) : io dir CeremonyError unit :=
  write_with to_json path value.

Definition read_state : io dir CeremonyError CeremonyState :=
  content ← read_file STATE_FILE_NAME;
  lift (map_err (DecodeFailed STATE_FILE_NAME) (from_json content)).

Definition clock (now : outcome string Z) : io dir CeremonyError Z :=
  lift (map_err InvalidClock now).

Definition cmd_init (organizer : bytes) (force : bool) (now : outcome string Z)
    (organizer_entropy : bytes) : io dir CeremonyError unit :=
  already ← exists_file STATE_FILE_NAME;
  if (already : bool) && negb force then io_err AlreadyInitialised
  else
    t ← clock now;
    write_json_pretty STATE_FILE_NAME (build_initial_state organizer organizer_entropy t).

Definition cmd_contribute (contributor : bytes) (now : outcome string Z) (fresh_entropy : bytes) :
  io dir CeremonyError unit :=
  state ← read_state;
  t ← clock now;
  let updated_state := append_contribution state contributor fresh_entropy t in
  write_json_pretty STATE_FILE_NAME updated_state;;
  lift (ok_or NoContribution (last (contributions updated_state)));;
  mret tt.

Definition setup_notes : list bytes := [
  bytes_of "Setup simplifié de démonstration : à remplacer plus tard par une cérémonie multi-parties plus robuste.";
  bytes_of "Les paramètres produits sont liés à la forme de circuit de référence actuelle (1 entrée, 2 sorties).";
  bytes_of "Aucune entropie brute n'est écrite sur disque ; seuls des digests SHA-256 de transcript sont conservés." ].

Definition build_metadata (state : CeremonyState) (m : ZkTransferSetupCircuitMetadata) (now : Z) :
  SetupMetadata := {|
  set_version := 1; set_ceremony_kind := ceremony_kind state; set_curve := curve state;
  proving_system := bytes_of "Groth16";
  transcript_final_digest_hex := last_transcript_digest_hex state;
  contribution_count := Z.of_nat (length (contributions state));
  contributor_names := con_contributor <$> contributions state;
  proving_key_file := PROVING_KEY_FILE_NAME; verifying_key_file := VERIFYING_KEY_FILE_NAME;
  circuit_metadata := m; generated_at_unix := now; set_notes := setup_notes |}.

Definition cmd_finalize (force : bool) (now : outcome string Z) : io dir CeremonyError unit :=
  state ← read_state;
  pk_exists ← exists_file PROVING_KEY_FILE_NAME;
  vk_exists ← exists_file VERIFYING_KEY_FILE_NAME;
  meta_exists ← exists_file METADATA_FILE_NAME;
  if negb force && (pk_exists || vk_exists || meta_exists) then io_err ArtifactsExist
  else
    let seed := derive_final_seed state in
    setup ← lift (map_err InvalidSetupCircuit build_reference_zk_transfer_setup_circuit);
    proving_key ← lift (map_err SetupFailed (generate_parameters setup.1 seed));
    let verifying_key := setup_vk proving_key in
    write_with serialize_pk PROVING_KEY_FILE_NAME proving_key;;
    write_with serialize_vk VERIFYING_KEY_FILE_NAME verifying_key;;
    t ← clock now;
    write_json_pretty METADATA_FILE_NAME (build_metadata state setup.2 t).

(** The command line ([main]); [Inspect] only prints. *)
Inductive Commands :=
| Init (organizer : bytes) (force : bool) (now : outcome string Z) (entropy : bytes)
| Contribute (contributor : bytes) (now : outcome string Z) (entropy : bytes)
| Finalize (force : bool) (now : outcome string Z)
| Inspect.

Definition run_command (c : Commands) : io dir CeremonyError unit :=
  match c with
  | Init organizer force now entropy => cmd_init organizer force now entropy
  | Contribute contributor now entropy => cmd_contribute contributor now entropy
  | Finalize force now => cmd_finalize force now
  | Inspect => read_state;; mret tt
  end.

(** A sequence of commands, each whatever the previous ones answered. *)
Definition run_commands (cs : list Commands) (d : dir) : dir :=
  foldl (fun d c => (run_io (run_command c) d).2) d cs.
End ceremony.

#[global] Arguments STATE_FILE_NAME : simpl never.
#[global] Arguments METADATA_FILE_NAME : simpl never.
#[global] Arguments PROVING_KEY_FILE_NAME : simpl never.
#[global] Arguments VERIFYING_KEY_FILE_NAME : simpl never.

(** ** Hexadecimal text *)

Lemma hex_encode_Ok {E} b : bytes_to_hex (E := E) b = Ok (hex_encode b).
Proof.
  induction b as [|x b IH]; [done|]. apply bytes_to_hex_cons.
  pose proof (byte_val_range x) as R.
  assert (0 <= byte_val x / 16 < 16) as Rh by (split; [apply Z.div_pos; lia|apply Z.div_lt_upper_bound; lia]).
  pose proof (Z.mod_pos_bound (byte_val x) 16 ltac:(lia)) as Rl.
  destruct (hex_char_Ok (E := E) _ Rh) as (h & Lh & _), (hex_char_Ok (E := E) _ Rl) as (l & Ll & _).
  exists h, l, (hex_encode b). cbn [hex_encode]. unfold hex_digit. rewrite Lh, Ll.
  rewrite Z.shiftr_div_pow2 by lia. change 15 with (Z.ones 4). rewrite Z.land_ones by lia. auto.
Qed.

Lemma hex_encode_length b : length (hex_encode b) = (2 * length b)%nat.
Proof. induction b as [|x b IH]; [done|]. cbn [hex_encode length]. lia. Qed.

Lemma hex_encode_inj b b' : hex_encode b = hex_encode b' -> b = b'.
Proof.
  intros E. apply (bytes_to_hex_inj (E := Empty_set) (E' := Empty_set) _ _ (hex_encode b)).
  - apply hex_encode_Ok.
  - rewrite E. apply hex_encode_Ok.
Qed.

(** ** The transcript binds the contributions *)

Section transcript.
Context `{Sha256Ok}.

(** A contribution: who, the drawn entropy, and the time. *)
Definition contribution_step (s : CeremonyState) (c : bytes * bytes * Z) : CeremonyState :=
  append_contribution s c.1.1 c.1.2 c.2.

Definition ceremony (o e : bytes) (t : Z) (cs : list (bytes * bytes * Z)) : CeremonyState :=
  foldl contribution_step (build_initial_state o e t) cs.

(** What is hashed: the entropy and the transcript of the organizer, of each
    contribution, and the seed. *)
Definition initial_entropy_payload (o e : bytes) : bytes :=
  concat [bytes_of "prims-zk-setup-initial-entropy"; o; e].

Definition entropy_payload (c e prev : bytes) : bytes :=
  concat [bytes_of "prims-zk-setup-contribution"; c; e; prev].

Definition transcript_payload (prev ed c : bytes) (i : Z) : bytes :=
  concat [bytes_of "prims-zk-setup-transcript"; prev; ed; c; usize_le_bytes i].

Definition seed_payload (digest : bytes) (n : Z) : bytes :=
  concat [bytes_of "prims-zk-setup-final-seed"; digest; usize_le_bytes n].

Definition step_payloads (s : CeremonyState) (c : bytes * bytes * Z) : list bytes :=
  let prev := last_transcript_digest_hex s in
  let ep := entropy_payload c.1.1 c.1.2 prev in
  [ep; transcript_payload prev (sha256 ep) c.1.1 (Z.of_nat (length (contributions s)))].

Fixpoint steps_payloads (s : CeremonyState) (cs : list (bytes * bytes * Z)) : list bytes :=
  match cs with
  | [] => []
  | c :: cs' => step_payloads s c ++ steps_payloads (contribution_step s c) cs'
  end.

Definition ceremony_payloads (o e : bytes) (t : Z) (cs : list (bytes * bytes * Z)) : list bytes :=
  let ep := initial_entropy_payload o e in
  [ep; transcript_payload empty_transcript_digest (sha256 ep) o 0] ++
  steps_payloads (build_initial_state o e t) cs.

(** The payload of [derive_final_seed]. *)
Definition final_payload (s : CeremonyState) : bytes :=
  seed_payload (last_transcript_digest_hex s) (Z.of_nat (length (contributions s))).

Lemma steps_payloads_snoc s cs c :
  steps_payloads s (cs ++ [c]) = steps_payloads s cs ++ step_payloads (foldl contribution_step s cs) c.
Proof.
  revert s. induction cs as [|c' cs IH]; intros s; cbn [steps_payloads app foldl]; [by rewrite app_nil_r|].
  rewrite IH. by rewrite app_assoc.
Qed.

Lemma ceremony_snoc o e t cs c : ceremony o e t (cs ++ [c]) = contribution_step (ceremony o e t cs) c.
Proof. unfold ceremony. by rewrite foldl_app. Qed.

Lemma ceremony_length o e t cs : length (contributions (ceremony o e t cs)) = Datatypes.S (length cs).
Proof.
  induction cs as [|c cs IH] using rev_ind; [done|].
  rewrite ceremony_snoc. cbn [contribution_step append_contribution contributions].
  rewrite !length_app, IH. cbn [length]. lia.
Qed.

Lemma ceremony_nonempty o e t cs : contributions (ceremony o e t cs) <> [].
Proof. intros E. pose proof (ceremony_length o e t cs) as L. by rewrite E in L. Qed.

Lemma ceremony_last_nil o e t :
  last_transcript_digest_hex (ceremony o e t []) =
  hex_encode (sha256 (transcript_payload empty_transcript_digest
    (sha256 (initial_entropy_payload o e)) o 0)).
Proof. done. Qed.

Lemma ceremony_last_snoc o e t cs c :
  last_transcript_digest_hex (ceremony o e t (cs ++ [c])) =
  hex_encode (sha256 (transcript_payload (last_transcript_digest_hex (ceremony o e t cs))
    (sha256 (entropy_payload c.1.1 c.1.2 (last_transcript_digest_hex (ceremony o e t cs))))
    c.1.1 (Z.of_nat (Datatypes.S (length cs))))).
Proof.
  rewrite ceremony_snoc. unfold contribution_step, append_contribution.
  cbn [last_transcript_digest_hex]. rewrite bool_decide_eq_false_2 by apply ceremony_nonempty.
  by rewrite ceremony_length.
Qed.

Lemma ceremony_last_width o e t cs : length (last_transcript_digest_hex (ceremony o e t cs)) = 64%nat.
Proof.
  destruct cs as [|c cs] using rev_ind; rewrite ?ceremony_last_nil, ?ceremony_last_snoc, hex_encode_length,
    sha256_length; done.
Qed.

Lemma usize_le_bytes_inj i j : u64 i -> u64 j -> usize_le_bytes i = usize_le_bytes j -> i = j.
Proof. autounfold with prims. intros Ri Rj. apply le_bytes_inj; simpl; lia. Qed.

Lemma transcript_payload_index prev ed c i prev' ed' c' i' :
  u64 i -> u64 i' -> transcript_payload prev ed c i = transcript_payload prev' ed' c' i' -> i = i'.
Proof.
  intros Ri Ri'. unfold transcript_payload. cbn [concat]. rewrite !app_nil_r, !app_assoc.
  intros [_ E]%app_inj_2; [|by unfold usize_le_bytes; rewrite !le_bytes_length]. by apply usize_le_bytes_inj.
Qed.

Lemma transcript_payload_inj prev ed c i prev' ed' c' i' :
  u64 i -> u64 i' -> length prev = length prev' -> length ed = length ed' ->
  transcript_payload prev ed c i = transcript_payload prev' ed' c' i' ->
  prev = prev' /\ ed = ed' /\ c = c'.
Proof.
  intros Ri Ri' Lp Le E. pose proof (transcript_payload_index _ _ _ _ _ _ _ _ Ri Ri' E) as <-.
  unfold transcript_payload in E. cbn [concat] in E. rewrite !app_nil_r in E.
  apply app_inv_head in E. apply app_inj_1 in E as [-> E]; [|done].
  apply app_inj_1 in E as [-> E]; [|done]. by apply app_inv_tail in E.
Qed.

Lemma entropy_payload_inj c e e' prev :
  entropy_payload c e prev = entropy_payload c e' prev -> e = e'.
Proof.
  unfold entropy_payload. cbn [concat]. rewrite app_nil_r.
  by intros ?%app_inv_head%app_inv_head%app_inv_tail.
Qed.

Lemma initial_entropy_payload_inj o e e' :
  initial_entropy_payload o e = initial_entropy_payload o e' -> e = e'.
Proof.
  unfold initial_entropy_payload. cbn [concat]. rewrite !app_nil_r. by intros ?%app_inv_head%app_inv_head.
Qed.

Lemma ceremony_payloads_snoc o e t cs c :
  ceremony_payloads o e t (cs ++ [c]) =
  ceremony_payloads o e t cs ++ step_payloads (ceremony o e t cs) c.
Proof. unfold ceremony_payloads. rewrite steps_payloads_snoc. by rewrite app_assoc. Qed.

Lemma step_payloads_eq o e t cs c :
  step_payloads (ceremony o e t cs) c =
  let prev := last_transcript_digest_hex (ceremony o e t cs) in
  let ep := entropy_payload c.1.1 c.1.2 prev in
  [ep; transcript_payload prev (sha256 ep) c.1.1 (Z.of_nat (Datatypes.S (length cs)))].
Proof. unfold step_payloads. by rewrite ceremony_length. Qed.

#[local] Ltac payload_in :=
  rewrite ?ceremony_payloads_snoc, ?step_payloads_eq; unfold ceremony_payloads;
  rewrite ?elem_of_app, ?elem_of_cons; auto 7.

(** The last digest determines the whole history. *)
Lemma last_digest_binding o e t cs o' e' t' cs' :
  Z.of_nat (length cs) < 2 ^ 64 - 1 -> Z.of_nat (length cs') < 2 ^ 64 - 1 ->
  collision_free sha256 (ceremony_payloads o e t cs ++ ceremony_payloads o' e' t' cs') ->
  last_transcript_digest_hex (ceremony o e t cs) = last_transcript_digest_hex (ceremony o' e' t' cs') ->
  o = o' /\ e = e' /\ cs.*1 = cs'.*1.
Proof.
  revert cs'. induction cs as [|c cs IH] using rev_ind; intros cs' R R' C;
    (destruct cs' as [|c' cs' _] using rev_ind);
    rewrite ?ceremony_last_nil, ?ceremony_last_snoc; intros E%hex_encode_inj%C; try payload_in.
  - apply transcript_payload_inj in E as (_ & E & ->); [|by autounfold with prims..|by rewrite !sha256_length].
    apply C in E; [|payload_in..]. by apply initial_entropy_payload_inj in E as ->.
  - apply transcript_payload_index in E; autounfold with prims; rewrite ?length_app in *; simpl in *; lia.
  - apply transcript_payload_index in E; autounfold with prims; rewrite ?length_app in *; simpl in *; lia.
  - rewrite length_app in R, R'. simpl in R, R'.
    apply transcript_payload_inj in E as (El & E & Ec);
      [|autounfold with prims; lia..|by rewrite !ceremony_last_width|by rewrite !sha256_length].
    destruct (IH cs') as (-> & -> & Ecs); [lia|lia| |exact El|].
    { eapply collision_free_subset; [|exact C]. intros x. rewrite !ceremony_payloads_snoc, !elem_of_app.
      intuition. }
    apply C in E; [|payload_in..]. rewrite El, Ec in E. apply entropy_payload_inj in E.
    split; [done|]. split; [done|]. rewrite !fmap_app, Ecs. f_equal. simpl. f_equal.
    destruct c as [[? ?] ?], c' as [[? ?] ?]. simpl in *. by subst.
Qed.

(** [C19] The transcript commits to the whole ceremony: if
    two ceremonies, of at most [2^64 - 1] contributions each, derive the same
    seed for their parameters and SHA-256 has no collision on what they hash,
    then the organizer and the entropy drawn for it are the same, and so are
    the number of contributions, their order, the contributors and the
    entropies drawn for them; only the times can differ. *)
Theorem transcript_binding o e t cs o' e' t' cs' :
  let s := ceremony o e t cs in let s' := ceremony o' e' t' cs' in
  Z.of_nat (length cs) < 2 ^ 64 - 1 -> Z.of_nat (length cs') < 2 ^ 64 - 1 ->
  collision_free sha256
    (final_payload s :: final_payload s' :: ceremony_payloads o e t cs ++ ceremony_payloads o' e' t' cs') ->
  derive_final_seed s = derive_final_seed s' ->
  o = o' /\ e = e' /\ cs.*1 = cs'.*1.
Proof.
  intros s s' R R' C E. apply (last_digest_binding o e t cs o' e' t' cs'); [exact R|exact R'| |].
  { eapply collision_free_subset; [|exact C]. set_solver. }
  assert (final_payload s = final_payload s') as Ef by (apply C; [set_solver..|exact E]).
  unfold final_payload, seed_payload in Ef. cbn [concat] in Ef. rewrite !app_nil_r in Ef.
  apply app_inv_head in Ef. apply app_inj_1 in Ef as [Ef _]; [done|].
  by subst s s'; rewrite !ceremony_last_width.
Qed.
End transcript.

(** ** The commands *)

Section commands.
Context `{Sha256Ok} `{!Json CeremonyState, !Json SetupMetadata, !JsonOk CeremonyState, !JsonOk SetupMetadata}.
Context `{!SetupBackend}.

(** A list of contributions whose digests anyone can recompute from the
    recorded names and entropy digests, with its last digest. *)
Inductive valid_chain : bytes -> list CeremonyContribution -> Prop :=
| chain_start digest ed c :
    length ed = 32%nat -> entropy_digest_hex c = hex_encode ed -> con_index c = 0 ->
    transcript_digest_hex c = digest ->
    digest = hex_encode (sha256 (transcript_payload empty_transcript_digest ed (con_contributor c) 0)) ->
    valid_chain digest [c]
| chain_next digest prev cs ed c :
    valid_chain prev cs ->
    length ed = 32%nat -> entropy_digest_hex c = hex_encode ed ->
    con_index c = Z.of_nat (length cs) ->
    transcript_digest_hex c = digest ->
    digest = hex_encode (sha256 (transcript_payload prev ed (con_contributor c) (con_index c))) ->
    valid_chain digest (cs ++ [c]).

Definition valid_state (s : CeremonyState) : Prop :=
  valid_chain (last_transcript_digest_hex s) (contributions s).

(** The state the next command reads. *)
Definition stored (d : dir) (s : CeremonyState) : Prop :=
  exists b, d !! STATE_FILE_NAME = Some b /\ from_json b = Ok s.

Definition sound_dir (d : dir) : Prop := forall s, stored d s -> valid_state s.

(** What a command that does not overwrite a ceremony does to it. *)
Definition extends (d d' : dir) : Prop :=
  forall s, stored d s -> exists s', stored d' s' /\ contributions s `prefix_of` contributions s'.

Definition overwrites (c : Commands) : bool :=
  match c with Init _ force _ _ => force | _ => false end.

Lemma build_initial_valid o e t : valid_state (build_initial_state o e t).
Proof.
  eapply (chain_start _ (digest_bytes [bytes_of "prims-zk-setup-initial-entropy"; o; e])); try done.
  apply sha256_length.
Qed.

Lemma append_valid s c e t : valid_state s -> valid_state (append_contribution s c e t).
Proof.
  intros V. unfold valid_state, append_contribution. cbn [contributions last_transcript_digest_hex].
  rewrite bool_decide_eq_false_2.
  2: { intros E. unfold valid_state in V. rewrite E in V. inversion V. by eapply app_cons_not_nil. }
  eapply (chain_next _ _ _ (digest_bytes
    [bytes_of "prims-zk-setup-contribution"; c; e; last_transcript_digest_hex s])); try done.
  apply sha256_length.
Qed.

Lemma stored_insert d (s s' : CeremonyState) :
  stored (<[STATE_FILE_NAME := (to_json s).1]> d) s' <-> s' = s.
Proof.
  unfold stored. rewrite lookup_insert_eq. split.
  - intros (b & [= <-] & E). rewrite json_roundtrip in E. by injection E.
  - intros ->. eauto using json_roundtrip.
Qed.

Lemma stored_insert_ne d k b s : k <> STATE_FILE_NAME -> stored (<[k := b]> d) s <-> stored d s.
Proof. intros N. unfold stored. by rewrite lookup_insert_ne. Qed.

Lemma run_read_state d : exists r,
  run_io read_state d = (r, d) /\ forall s, r = Ok s <-> stored d s.
Proof.
  exists (run_io read_state d).1. unfold read_state, stored. rewrite run_bind. cbn.
  destruct (d !! STATE_FILE_NAME) as [b|]; cbn.
  2: { split; [done|]. intros s. split; [done|]. by intros (? & ? & _). }
  split; [done|]. intros s.
  rewrite map_err_Ok. naive_solver.
Qed.

Lemma run_write_json {A} `{Json A, !JsonOk A} path (v : A) d :
  run_io (write_json_pretty path v) d = (Ok tt, <[path := (to_json v).1]> d).
Proof. unfold write_json_pretty, write_with. cbn. by rewrite json_total. Qed.

(** A stage of [cmd_finalize] leaves the state file alone. *)
Definition spares_state {A} (m : io dir CeremonyError A) : Prop :=
  forall d s, stored (run_io m d).2 s <-> stored d s.

Lemma spares_bind {A B : Type} (m : io dir CeremonyError A) (f : A -> io dir CeremonyError B) :
  spares_state m -> (forall a, spares_state (f a)) -> spares_state (m ≫= f).
Proof.
  intros Hm Hf d s. rewrite run_bind. specialize (Hm d s).
  destruct (run_io m d) as [[a|e|] d']; simpl in *; [|done..]. etrans; [apply Hf|done].
Qed.

Lemma spares_lift {A} (m : outcome CeremonyError A) : spares_state (lift m).
Proof. done. Qed.

Lemma spares_write {A} (encode : A -> bytes * outcome string unit) path v :
  path <> STATE_FILE_NAME -> spares_state (write_with encode path v).
Proof. intros N d s. cbn. by apply stored_insert_ne. Qed.

Lemma spares_read_state : spares_state read_state.
Proof. intros d s. by destruct (run_read_state d) as (r & -> & _). Qed.

Lemma spares_finalize (force : bool) (now : outcome string Z) : spares_state (cmd_finalize force now).
Proof.
  unfold cmd_finalize. apply spares_bind; [apply spares_read_state|]. intros st.
  do 3 (apply spares_bind; [done|]; intros ?). case_match; [done|].
  apply spares_bind; [done|]. intros x. apply spares_bind; [done|]. intros pk.
  do 2 (apply spares_bind; [by apply spares_write|]; intros ?).
  apply spares_bind; [done|]. intros tm. by apply spares_write.
Qed.

Lemma unaffected d (P : Prop) : sound_dir d -> sound_dir d /\ (P -> extends d d).
Proof. intros Sd. split; [done|]. intros _ s Hs. by exists s. Qed.

Lemma run_command_sound c d :
  sound_dir d -> sound_dir (run_io (run_command c) d).2 /\
  (overwrites c = false -> extends d (run_io (run_command c) d).2).
Proof.
  intros Sd. destruct c as [o force now e|c now e|force now|]; cbn [run_command overwrites].
  - unfold cmd_init. rewrite run_bind. cbn. destruct (_ && _) eqn:G; cbn; [by apply unaffected|].
    destruct now as [t|m|]; cbn; [|by apply unaffected..].
    split; [intros s ->%stored_insert; apply build_initial_valid|].
    intros ->. rewrite andb_true_r in G. apply bool_decide_eq_false in G.
    intros s (b & L & _). rewrite L in G. destruct G. by eexists.
  - unfold cmd_contribute. rewrite run_bind. destruct (run_read_state d) as (r & -> & Hr).
    destruct r as [s|?|]; cbn; [|by apply unaffected..].
    destruct now as [t|m|]; cbn; [|by apply unaffected..].
    rewrite json_total, last_snoc. cbn. split.
    + intros s' ->%stored_insert. apply append_valid, Sd, Hr. done.
    + intros _ s' Hs'. apply Hr in Hs' as [= <-]. eexists. split; [by apply stored_insert|].
      cbn. by eexists.
  - split; [intros s Hs%spares_finalize; by apply Sd|].
    intros _ s Hs. exists s. split; [by apply spares_finalize|done].
  - rewrite run_bind. destruct (run_read_state d) as (r & -> & Hr).
    destruct r; cbn; by apply unaffected.
Qed.

(** [C33] Any sequence of the commands, whatever each of them
    answers, started in a directory whose state file is a valid transcript or
    absent, leaves a directory whose state file is a valid transcript: indices
    count from 0, and each digest is recomputable from the previous one, the
    recorded entropy digest, name and index.  Unless an [init --force] is
    among them, the ceremony that was there is still there, its contributions
    unchanged at the head of the list. *)
Theorem transcript_public (cs : list Commands) (d : dir) :
  sound_dir d ->
  sound_dir (run_commands cs d) /\
  (Forall (fun c => overwrites c = false) cs -> extends d (run_commands cs d)).
Proof.
  unfold run_commands. revert d. induction cs as [|c cs IH]; intros d Sd; cbn [foldl].
  { by apply unaffected. }
  destruct (run_command_sound c d Sd) as [S1 E1], (IH _ S1) as [S2 E2]. split; [done|].
  intros [Oc Ocs]%Forall_cons s Hs. destruct (E1 Oc s Hs) as (s1 & Hs1 & P1).
  destruct (E2 Ocs s1 Hs1) as (s2 & Hs2 & P2). exists s2. split; [done|]. by etrans.
Qed.

(** The seed, recomputed from the published metadata. *)
Definition seed_of_metadata (m : SetupMetadata) : bytes :=
  sha256 (seed_payload (transcript_final_digest_hex m) (contribution_count m)).

Lemma run_write_with {A : Type} (encode : A -> bytes * outcome string unit) (path : bytes) (v : A) d d' :
  run_io (write_with encode path v) d = (Ok tt, d') ->
  (encode v).2 = Ok tt /\ d' = <[path := (encode v).1]> d.
Proof. cbn. intros [= E <-]. by apply map_err_Ok in E. Qed.

(** What a successful [finalize] leaves on disk is
    a function of public data: the proving key it wrote is the serialisation
    of the parameters generated from a seed that anyone recomputes from the
    two fields [transcript_final_digest_hex] and [contribution_count] of the
    metadata file it wrote (and so are the trapdoors of the parameters), for
    the ceremony of the state file. *)
Theorem finalize_publishes_seed (force : bool) (now : outcome string Z) (d d' : dir) :
  run_io (cmd_finalize force now) d = (Ok tt, d') ->
  exists s setup m pk,
    stored d s /\ build_reference_zk_transfer_setup_circuit = Ok setup /\
    d' !! METADATA_FILE_NAME = Some (to_json m).1 /\ from_json (to_json m).1 = Ok m /\
    contributor_names m = con_contributor <$> contributions s /\
    generate_parameters setup.1 (seed_of_metadata m) = Ok pk /\
    d' !! PROVING_KEY_FILE_NAME = Some (serialize_pk pk).1 /\
    d' !! VERIFYING_KEY_FILE_NAME = Some (serialize_vk (setup_vk pk)).1.
Proof.
  unfold cmd_finalize. rewrite run_bind. destruct (run_read_state d) as (r & -> & Hr).
  destruct r as [s| |]; [|discriminate..]. rewrite run_bind. cbn [run_io exists_file].
  rewrite run_bind. cbn [run_io exists_file]. rewrite run_bind. cbn [run_io exists_file].
  destruct (_ && _); [discriminate|].
  rewrite run_bind, run_lift.
  destruct build_reference_zk_transfer_setup_circuit as [setup| |] eqn:Ec; [|discriminate..].
  cbn [map_err]. rewrite run_bind, run_lift.
  destruct (generate_parameters setup.1 (derive_final_seed s)) as [pk| |] eqn:Eg; [|discriminate..].
  cbn [map_err]. rewrite run_bind. destruct (run_io (write_with serialize_pk _ _) d) as [r1 d1] eqn:E1.
  destruct r1 as [[]| |]; [|discriminate..]. apply run_write_with in E1 as [_ ->].
  rewrite run_bind. destruct (run_io (write_with serialize_vk _ _) _) as [r2 d2] eqn:E2.
  destruct r2 as [[]| |]; [|discriminate..]. apply run_write_with in E2 as [_ ->].
  rewrite run_bind. unfold clock. rewrite run_lift. destruct now as [t| |]; [|discriminate..].
  cbn [map_err]. rewrite run_write_json. intros [= <-].
  exists s, setup, (build_metadata s setup.2 t), pk.
  repeat split; try done.
  - by apply Hr.
  - by rewrite lookup_insert_eq.
  - apply json_roundtrip.
  - by rewrite lookup_insert_ne, lookup_insert_ne, lookup_insert_eq.
  - by rewrite lookup_insert_ne, lookup_insert_eq.
Qed.
End commands.

(** ** Witnesses *)

From S2P Require Import Concrete.
Import Concrete.Instances.

(** A text format for any countable type: the bits of its code. *)
Fixpoint pos_bits (p : positive) : bytes :=
  match p with
  | xH => []
  | xO p' => x30 :: pos_bits p'
  | xI p' => x31 :: pos_bits p'
  end.

Fixpoint bits_pos (b : bytes) : positive :=
  match b with
  | [] => xH
  | x :: b' => if bool_decide (x = x31) then xI (bits_pos b') else xO (bits_pos b')
  end.

Lemma bits_pos_bits p : bits_pos (pos_bits p) = p.
Proof. induction p; cbn; by rewrite ?IHp. Qed.

Definition json_of_countable (A : Type) `{Countable A} : Json A := {|
  to_json := fun x => (pos_bits (encode x), Ok tt);
  from_json := fun b => ok_or "invalid"%string (decode (bits_pos b));
|}.

Lemma json_of_countable_ok (A : Type) `{Countable A} : @JsonOk A (json_of_countable A).
Proof.
  split; [done|]. intros x. cbn. by rewrite bits_pos_bits, decode_encode.
Qed.

#[global] Instance contribution_eq_dec : EqDecision CeremonyContribution.
Proof. solve_decision. Defined.

#[global] Instance contribution_countable : Countable CeremonyContribution.
Proof.
  refine (inj_countable' (fun c => (con_index c, con_contributor c, contributed_at_unix c,
      entropy_digest_hex c, transcript_digest_hex c))
    (fun '(i, n, t, e, d) => {| con_index := i; con_contributor := n; contributed_at_unix := t;
       entropy_digest_hex := e; transcript_digest_hex := d |}) _).
  by intros [].
Defined.

#[global] Instance ceremony_state_eq_dec : EqDecision CeremonyState.
Proof. solve_decision. Defined.

#[global] Instance ceremony_state_countable : Countable CeremonyState.
Proof.
  refine (inj_countable' (fun s => (cer_version s, ceremony_kind s, curve s, circuit s, contributions s,
      last_transcript_digest_hex s, created_at_unix s, updated_at_unix s))
    (fun '(v, k, c, ci, l, d, t, u) => {| cer_version := v; ceremony_kind := k; curve := c;
       circuit := ci; contributions := l; last_transcript_digest_hex := d; created_at_unix := t;
       updated_at_unix := u |}) _).
  by intros [].
Defined.

#[global] Instance circuit_metadata_eq_dec : EqDecision ZkTransferSetupCircuitMetadata.
Proof. solve_decision. Defined.

#[global] Instance circuit_metadata_countable : Countable ZkTransferSetupCircuitMetadata.
Proof.
  refine (inj_countable' (fun m => (meta_input_count m, meta_output_count m, merkle_path_len m,
      tree_leaf_count m, meta_fee m))
    (fun '(i, o, l, t, f) => {| meta_input_count := i; meta_output_count := o;
       merkle_path_len := l; tree_leaf_count := t; meta_fee := f |}) _).
  by intros [].
Defined.

#[global] Instance setup_metadata_eq_dec : EqDecision SetupMetadata.
Proof. solve_decision. Defined.

#[global] Instance setup_metadata_countable : Countable SetupMetadata.
Proof.
  refine (inj_countable' (fun m => (set_version m, set_ceremony_kind m, set_curve m, proving_system m,
      transcript_final_digest_hex m, contribution_count m, contributor_names m,
      (proving_key_file m, verifying_key_file m, circuit_metadata m, generated_at_unix m, set_notes m)))
    (fun '(v, k, c, p, d, n, ns, (pf, vf, m, t, l)) => {| set_version := v; set_ceremony_kind := k;
       set_curve := c; proving_system := p; transcript_final_digest_hex := d; contribution_count := n;
       contributor_names := ns; proving_key_file := pf; verifying_key_file := vf;
       circuit_metadata := m; generated_at_unix := t; set_notes := l |}) _).
  by intros [].
Defined.

Definition state_json : Json CeremonyState := json_of_countable CeremonyState.
Definition metadata_json : Json SetupMetadata := json_of_countable SetupMetadata.
#[local] Existing Instances state_json metadata_json.

Lemma state_json_ok : JsonOk CeremonyState.
Proof. apply json_of_countable_ok. Qed.

Lemma metadata_json_ok : JsonOk SetupMetadata.
Proof. apply json_of_countable_ok. Qed.
#[local] Existing Instances state_json_ok metadata_json_ok.

(** Parameters that are the seed. *)
#[local] Instance seed_backend : SetupBackend := {|
  setup_proving_key := bytes; setup_verifying_key := bytes; setup_vk := fun pk => pk;
  generate_parameters := fun _ seed => Ok seed;
  serialize_pk := fun pk => (pk, Ok tt); serialize_vk := fun vk => (vk, Ok tt);
|}.

Definition alice_part : bytes * bytes * Z := (bytes_of "alice", repeat x07 32, 5).

Definition org : bytes := bytes_of "org".

Definition sample_commands : list Commands :=
  [Init org false (Ok 3) (repeat x01 32);
   Contribute (bytes_of "alice") (Ok 5) (repeat x07 32)].

Definition sample_dir : dir := run_commands sample_commands ∅.

Lemma transcript_binding_witness :
  derive_final_seed (ceremony org (repeat x01 32) 3 [alice_part]) =
    derive_final_seed (ceremony org (repeat x01 32) 4 [alice_part]) /\
  (org = org /\ repeat x01 32 = repeat x01 32 /\ ([alice_part].*1 : list (bytes * bytes)) = [alice_part].*1).
Proof.
  split; [vm_compute; reflexivity|].
  refine (transcript_binding org (repeat x01 32) 3 [alice_part] org (repeat x01 32) 4 [alice_part]
            _ _ _ _); [reflexivity|reflexivity|by_eval|vm_compute; reflexivity].
Defined.

Lemma transcript_public_witness :
  sound_dir (run_commands sample_commands ∅) /\
  (Forall (fun c => overwrites c = false) sample_commands -> extends ∅ (run_commands sample_commands ∅)).
Proof.
  refine (transcript_public sample_commands ∅ _). intros s (b & L & _). discriminate L.
Defined.

Lemma finalize_publishes_seed_witness : exists d' m,
  run_io (cmd_finalize false (Ok 9)) sample_dir = (Ok tt, d') /\
  d' !! METADATA_FILE_NAME = Some (to_json m).1 /\
  d' !! PROVING_KEY_FILE_NAME = Some (seed_of_metadata m).
Proof.
  destruct (run_io (cmd_finalize false (Ok 9)) sample_dir) as [r d'] eqn:E.
  assert (r = Ok tt) as ->.
  { change r with (r, d').1. rewrite <- E. vm_compute. reflexivity. }
  destruct (finalize_publishes_seed false (Ok 9) sample_dir d' E)
    as (s & setup & m & pk & _ & _ & Lm & _ & _ & [= <-] & Lp & _).
  exists d', m. exact (conj eq_refl (conj Lm Lp)).
Defined.
