(* ===== verification/Node.v ===== *)
(** * The node ([src/main.rs])

    The composition of the parts: a node serves the requests of its interface
    and handles the events of its network, on one storage and one pool.  The
    settings it reads, its initial state, the event loop of [main], and the
    demonstration message it publishes.  A request is one step: the only
    points where its handler waits are its last two commands to the pool, and
    an event between them shows only in the pool size it reports.  The files
    below the storage and the server are the record [machine]; the terminal is
    not modelled. *)

From Stdlib Require Import Strings.Byte.
From S2P Require Import Prelude Orders Bytes Text Externals Types Hash Crypto Mempool Store Storage Vm Api Peers Config Gossip Start.

(** ** Settings *)

Record NodeSettings := {
  rpc_bind_address : bytes;
  storage_path : bytes;
  publish_text : option bytes;
}.

Definition node_settings (e : env) : NodeSettings := {|
  rpc_bind_address := default (bytes_of "127.0.0.1:7002") (env_var e (bytes_of "PRIMS_RPC_ADDRESS"));
  storage_path := default (bytes_of "./data/prims-rocksdb") (env_var e (bytes_of "PRIMS_DB_PATH"));
  publish_text := env_var e (bytes_of "PRIMS_PUBLISH_MESSAGE") |}.

(** ** Events *)

(** What the node answers or prints. *)
Inductive node_log :=
| Answered (r : outcome RpcError RpcResponse)
| Announced (published_at_ms : Z) (payload : bytes)
| AnnounceFailed (message : string)
| Gossiped (l : gossip_log)
| Printed.

Definition testnet_topic : bytes := bytes_of "prims-testnet".

(** [format!("{}|{}", published_at_ms, message)] *)
Definition announcement (published_at_ms : Z) (message : bytes) : bytes :=
  dec_bytes published_at_ms ++ separator :: message.

Section node.
Context {S : Type} `{Sha256, Ed25519, ChainCodecs, KvStore S, Wasmtime, Hex, RateLimiter}.
Context `{!Bincode Message, Gossipsub}.

Record NodeState := {
  node_rpc : RpcState S;
  node_swarm : swarm;
  message_sent : bool;
}.

(** [main] up to its loop: the interface and the loop share the pool. *)
Definition node_start (storage : S) (mempool : Mempool) (s : swarm) : NodeState := {|
  node_rpc := RpcState_new storage mempool; node_swarm := s; message_sent := false |}.

(** The arm for [gossipsub::Event::Subscribed]; the hash of an [IdentTopic] is
    its name. *)
Definition on_subscribed (publish_message : option bytes) (now : outcome string Z)
    (subscribed_topic : bytes) (n : NodeState) : outcome string (node_log * NodeState) :=
  if negb (message_sent n) && bool_decide (subscribed_topic = testnet_topic) then
    match publish_message with
    | Some message =>
        published_at_ms ← now;
        let payload := announcement published_at_ms message in
        match gossip_publish (node_swarm n) testnet_topic payload with
        | (Ok _, s') =>
            Ok (Announced published_at_ms payload,
                {| node_rpc := node_rpc n; node_swarm := s'; message_sent := true |})
        | (Err e, s') =>
            Ok (AnnounceFailed e,
                {| node_rpc := node_rpc n; node_swarm := s'; message_sent := message_sent n |})
        | (Panic, _) => Panic
        end
    | None => Ok (Printed, n)
    end
  else Ok (Printed, n).

Definition with_pool (n : NodeState) (mempool : Mempool) : NodeState := {|
  node_rpc := {| rpc_storage := rpc_storage (node_rpc n); rpc_mempool := mempool;
                 rpc_limiter := rpc_limiter (node_rpc n) |};
  node_swarm := node_swarm n; message_sent := message_sent n |}.

(** One turn of the loop. *)
Definition on_swarm_event (publish_message : option bytes) (now : outcome string Z) (event : SwarmEvent)
    (n : NodeState) : outcome string (node_log * NodeState) :=
  match event with
  | Subscribed _ subscribed_topic => on_subscribed publish_message now subscribed_topic n
  | GossipMessage data =>
      '(l, mempool) ← on_gossip_message now (rpc_mempool (node_rpc n)) data;
      Ok (Gossiped l, with_pool n mempool)
  | NewListenAddr _ | ConnectionEstablished _ | OtherEvent => Ok (Printed, n)
  end.

(** What happens to a node: a request, or an event the swarm returns, in the
    state it is left in and at the time of the clock. *)
Inductive NodeEvent :=
| Rpc (q : RpcRequest)
| Swarm (now : outcome string Z) (polled : swarm) (event : SwarmEvent).

Definition node_step (publish_message : option bytes) (ev : NodeEvent) (n : NodeState) :
  outcome string (node_log * NodeState) :=
  match ev with
  | Rpc q =>
      match run_io (serve q) (node_rpc n) with
      | (Panic, _) => Panic
      | (r, rpc) =>
          Ok (Answered r, {| node_rpc := rpc; node_swarm := node_swarm n; message_sent := message_sent n |})
      end
  | Swarm now polled event =>
      on_swarm_event publish_message now event
        {| node_rpc := node_rpc n; node_swarm := polled; message_sent := message_sent n |}
  end.

(** The life of a node, with what it reported; an error ends [main]. *)
Fixpoint node_run (publish_message : option bytes) (evs : list NodeEvent) (n : NodeState) :
  list node_log * outcome string NodeState :=
  match evs with
  | [] => ([], Ok n)
  | ev :: evs' =>
      match node_step publish_message ev n with
      | Ok (l, n') => let '(ls, r) := node_run publish_message evs' n' in (l :: ls, r)
      | Err e => ([], Err e)
      | Panic => ([], Panic)
      end
  end.
End node.

Arguments NodeState S {_ _}.
Arguments Build_NodeState {S _ _}.

(** ** Setup *)

Section setup.
Context {S : Type} `{Sha256, Ed25519, ChainCodecs, KvStore S, Wasmtime, Hex, RateLimiter}.
Context `{!Bincode Message, JsonText, Swarms}.

(** [node.swarm.behaviour_mut().gossipsub.subscribe(&topic)?] *)
Definition subscribe_topic (s : swarm) (topic : bytes) : outcome StartError swarm :=
  let b := behaviour s in
  g ← map_err SubscribeFailed (subscribe (gossipsub b) topic);
  Ok (set_behaviour s {| gossipsub := g; mdns := mdns b; kademlia := kademlia b |}).

(** The operating system: creating the directory of the database, opening it,
    the parallelism, and binding the server. *)
Record machine := {
  create_parent : bytes -> outcome string unit;
  open_storage : bytes -> outcome string S;
  parallelism : nat;
  bind_server : bytes -> outcome string unit;
}.

(** [main] until it has a pool. *)
Definition main_storage (m : machine) (e : env) (fs : file_system) (random : bytes) :
  outcome StartError (PrimsNode * S) :=
  node ← PrimsNode_new e fs random (NetworkConfig_default e);
  let storage_path := storage_path (node_settings e) in
  map_err NodeIo (create_parent m storage_path);;
  storage ← map_err NodeIo (open_storage m storage_path);
  Ok (node, storage).

(** A [?] of [main] after [Mempool::new].  The pool owns the runtime of its
    tasks, and [main] runs inside the runtime of [#[tokio::main]]: the error
    drops the first runtime, here or in the task of the server that shares the
    pool, on a thread of the second, and [tokio] panics when a runtime is
    dropped where blocking is not allowed. *)
Definition owning_pool {E A} (r : outcome E A) : outcome E A :=
  match r with
  | Err _ => Panic
  | r => r
  end.

(** [main] from there up to its loop. *)
Definition main_server (m : machine) (e : env) (node : PrimsNode) (storage : S) :
  outcome StartError (NodeState S) :=
  let mempool := with_partition_count (parallelism m) in
  map_err NodeIo (bind_server m (rpc_bind_address (node_settings e)));;
  s ← subscribe_topic (prims_swarm node) testnet_topic;
  Ok (node_start storage mempool s).

Definition main_setup (m : machine) (e : env) (fs : file_system) (random : bytes) :
  outcome StartError (NodeState S) :=
  '(node, storage) ← main_storage m e fs random;
  owning_pool (main_server m e node storage).

(** [main], for the events that come. *)
Definition main (m : machine) (e : env) (fs : file_system) (random : bytes) (evs : list NodeEvent) :
  outcome StartError (list node_log * outcome string (NodeState S)) :=
  n ← main_setup m e fs random;
  let '(ls, r) := node_run (publish_text (node_settings e)) evs n in
  Ok (ls, owning_pool r).
End setup.

Arguments machine S : clear implicits.
