(* ===== verification/NodeSpec.v ===== *)
(** * Properties of the node

    The invariant of a node's life under any requests and any network
    traffic, with an exact account of its pool; the demonstration message,
    from the node that publishes it to those that receive it; the program from
    its environment to its life; and the traffic of the load generator, from
    its command line to the pools of the nodes. *)

From Stdlib Require Import Strings.Byte.
From S2P Require Import Prelude Orders Bytes Text Externals Types Hash Crypto Mempool Notes Keys Store Storage Ledger StorageSpec Vm VmSpec Api ApiSpec Peers Config Gossip GossipSpec Start StartSpec Flood Node.
Import DigestAddresses.

(** ** What a life does to the ledger *)

(** Everything but the roots and slots of contracts. *)
Definition chain_part (L : Ledger) :=
  ((led_blocks L, led_heights L, led_transactions L, led_accounts L, led_validators L),
   (led_notes L, led_hints L, led_roots L, ctr_code_wasm <$> led_contracts L)).

Section node.
Context {S : Type} `{KvStoreOk S, Sha256Ok, Ed25519, ChainCodecsOk, WasmtimeOk, HexOk, RateLimiter}.
Context `{!Bincode ViewableNote, !BincodeOk ViewableNote, !Bincode Hash32, !BincodeOk Hash32}.
Context `{!BincodeTyped Transaction, !BincodeTyped ContractCallPayload}.
Context `{!Bincode Message, !BincodeOk Message, Gossipsub}.
Implicit Types (st : RpcState S) (L : Ledger) (n : NodeState S).

Lemma batch_chain_part a w L :
  chain_part (run_io (spec (CommitContractStorageBatch a w)) L).2 = chain_part L.
Proof.
  cbn [spec]. case_bool_decide; [done|]. rewrite run_bind, require_spec.
  destruct (led_contracts L !! a) as [c|] eqn:E; [|done]. cbn. unfold chain_part. cbn. do 2 f_equal.
  rewrite fmap_insert. cbn. apply insert_id. by rewrite lookup_fmap, E.
Qed.

(** An accepted submission leaves the chain part alone. *)
Lemma accepted_chain_part L tx st resp st' :
  represents (contents (rpc_storage st)) L -> accepted L tx st resp st' -> exists L',
    represents (contents (rpc_storage st')) L' /\ chain_part L' = chain_part L.
Proof.
  intros P A. pose proof (acc_storage _ _ _ _ _ A) as C. destruct (tx_type tx).
  1-6: exists L; by rewrite C.
  destruct C as (out & L' & P' & C). destruct (call_writes _ _ _ _ C) as [w E].
  exists L'. split; [done|]. subst L'. apply batch_chain_part.
Qed.

Lemma chain_part_accounts L L' : chain_part L' = chain_part L -> led_accounts L' = led_accounts L.
Proof. by injection 1. Qed.

(** ** What an event adds to the pool *)

(** The transaction a message carries. *)
Definition received_tx (data : bytes) : list Transaction :=
  match from_bytes data with
  | Ok (NewTransaction nt) =>
      match (bincode_deserialize (ntx_payload nt) : outcome string Transaction) with
      | Ok tx => [tx]
      | _ => []
      end
  | _ => []
  end.

(** The transaction a request submits. *)
Definition submitted_tx (q : RpcRequest) : list Transaction :=
  match q with
  | SendTransactionReq (Ok text) =>
      match decode_hex text "hex_tx" with
      | Ok b => match (bincode_deserialize b : outcome string Transaction) with Ok tx => [tx] | _ => [] end
      | _ => []
      end
  | _ => []
  end.

Definition contribution (ev : NodeEvent) (l : node_log) : list Transaction :=
  match ev, l with
  | Swarm _ _ (GossipMessage data), _ => received_tx data
  | Rpc q, Answered (Ok _) => submitted_tx q
  | _, _ => []
  end.

(** A request was answered by the rules: what it submitted is admissible. *)
Definition answered_by_rules L (ev : NodeEvent) (l : node_log) : Prop :=
  match ev, l with
  | Rpc q, Answered (Ok _) => Forall (fun tx => admissible tx (led_accounts L !! tx_from tx)) (submitted_tx q)
  | _, _ => True
  end.

(** The events of an environment whose libraries return. *)
Definition event_typed (ev : NodeEvent) : Prop :=
  match ev with
  | Rpc q => request_typed q
  | Swarm now _ event =>
      now <> Panic /\ match event with GossipMessage data => from_bytes data <> Panic | _ => True end
  end.

Definition clock_fails (ev : NodeEvent) : Prop :=
  match ev with Swarm (Err _) _ _ => True | _ => False end.

Definition pool_of n : list Transaction := pending (node_rpc n).

(** The invariant of a node that started with the ledger [L]. *)
Record node_ok L n : Prop := {
  ok_ledger : exists L', represents (contents (rpc_storage (node_rpc n))) L' /\ chain_part L' = chain_part L;
  ok_routed : routed (rpc_mempool (node_rpc n));
}.

Lemma chain_part_admissible L L' tx : chain_part L' = chain_part L ->
  admissible tx (led_accounts L' !! tx_from tx) -> admissible tx (led_accounts L !! tx_from tx).
Proof. by intros ->%chain_part_accounts. Qed.

(** A submission that is answered. *)
Lemma serve_submitted L st q r st' :
  represents (contents (rpc_storage st)) L -> routed (rpc_mempool st) -> request_typed q ->
  run_io (serve q) st = (Ok r, st') -> is_submission q = true -> exists tx resp st1,
    submitted_tx q = [tx] /\ rpc_storage st1 = rpc_storage st /\ pending st1 = pending st /\
    accepted L tx st1 resp st'.
Proof.
  intros P R T E Q. destruct q as [|p0|p| | | |]; try done. destruct T as [N U].
  unfold serve, handle in E. rewrite run_bind in E. unfold check_rate_limit in E. cbn [run_io] in E.
  destruct (limiter_check (rpc_limiter st)) as [[] l]; [|done].
  set (st1 := {| rpc_storage := rpc_storage st; rpc_mempool := rpc_mempool st; rpc_limiter := l |}) in *.
  unfold parsed in E. rewrite run_bind, run_lift in E. destruct p as [text|e|]; [|done..].
  cbn [map_err] in E. rewrite run_bind in E.
  pose proof (send_atomic L st1 text P R (U text eq_refl)) as A. unfold atomic in A.
  destruct (run_io (send_transaction text) st1) as [[resp|e|] s]; [|done..].
  destruct A as (b & tx & Eb & Et & _ & A). rewrite run_ret in E. injection E as _ <-.
  exists tx, resp, st1. cbn [submitted_tx]. by rewrite Eb, Et.
Qed.

Lemma submitted_only q : is_submission q = false -> submitted_tx q = [].
Proof. by destruct q. Qed.

(** A request. *)
Lemma rpc_step L publish q n :
  node_ok L n -> request_typed q -> exists l n',
    node_step publish (Rpc q) n = Ok (l, n') /\ node_ok L n' /\
    pool_of n' ≡ₚ contribution (Rpc q) l ++ pool_of n /\ answered_by_rules L (Rpc q) l.
Proof.
  intros [(L1 & P & C) R] T. cbn [node_step]. destruct (run_io (serve q) (node_rpc n)) as [r rpc] eqn:E.
  pose proof (serve_effect L1 _ q r rpc P R T E) as (NP & _ & Q).
  destruct (is_ok r && is_submission q) eqn:O.
  - apply andb_true_iff in O as [O Sq]. destruct r as [resp|e|]; [|done..].
    destruct (serve_submitted L1 _ q resp rpc P R T E Sq) as (tx & sent & st1 & Es & Est & Ep & A).
    destruct (accepted_chain_part L1 tx st1 sent rpc) as (L2 & P2 & C2); [by rewrite Est|done|].
    eexists _, _. split; [done|]. cbn [contribution answered_by_rules]. rewrite Es. split; [split|split].
    + exists L2. split; [exact P2|]. by rewrite C2.
    + apply A.
    + unfold pool_of. cbn [node_rpc app]. rewrite <- Ep. apply A.
    + constructor; [|done]. eapply chain_part_admissible; [exact C|]. apply A.
  - specialize (Q eq_refl). subst rpc.
    assert (forall l, (forall resp, l = Answered (Ok resp) -> submitted_tx q = []) -> exists n',
      Ok (E := string) (l, {| node_rpc := {| rpc_storage := rpc_storage (node_rpc n);
        rpc_mempool := rpc_mempool (node_rpc n); rpc_limiter := snd (limiter_check (rpc_limiter (node_rpc n))) |};
        node_swarm := node_swarm n; message_sent := message_sent n |}) = Ok (l, n') /\
      node_ok L n' /\ pool_of n' ≡ₚ contribution (Rpc q) l ++ pool_of n /\ answered_by_rules L (Rpc q) l) as G.
    { intros l Nl. eexists. split; [done|]. split; [split; [by exists L1|exact R]|].
      destruct l as [[resp| |]| | | |]; try by split.
      cbn [contribution answered_by_rules]. by rewrite (Nl resp eq_refl). }
    destruct r as [resp|e|]; [| |done]; eexists; apply G; [|done].
    intros _ _. apply submitted_only. exact O.
Qed.

(** A message, with an exact account of the pool. *)
Lemma gossip_reception now mempool data :
  from_bytes data <> Panic -> now <> Panic -> routed mempool ->
  match on_gossip_message now mempool data with
  | Ok (_, mempool') => routed mempool' /\
      concat (partitions mempool') ≡ₚ received_tx data ++ concat (partitions mempool)
  | Err e => now = Err e
  | Panic => False
  end.
Proof.
  intros NP NC R. destruct (from_bytes data) as [m|e|] eqn:Ed; [|..|done].
  - destruct m as [| |nt| | | |]; try by (unfold on_gossip_message, received_tx; rewrite Ed).
    destruct (bincode_deserialize (A := Transaction) (ntx_payload nt)) as [tx|e|] eqn:Et.
    + destruct (receive_transaction now mempool nt data tx Ed Et R) as (m' & -> & R' & Pm).
      unfold received_tx. by rewrite Ed, Et.
    + unfold on_gossip_message, received_tx. by rewrite Ed, Et.
    + by apply bincode_no_panic in Et.
  - unfold on_gossip_message, received_tx. rewrite Ed.
    destruct (split_once separator data) as [[pre body]|]; [|done].
    destruct (parse_uint 128 pre); [|done]. by destruct now.
Qed.

(** An event of the network. *)
Lemma swarm_step L publish now polled event n :
  (forall s topic data, (gossip_publish s topic data).1 <> Panic) ->
  node_ok L n -> event_typed (Swarm now polled event) ->
  match node_step publish (Swarm now polled event) n with
  | Ok (l, n') => node_ok L n' /\ pool_of n' ≡ₚ contribution (Swarm now polled event) l ++ pool_of n
  | Err _ => clock_fails (Swarm now polled event)
  | Panic => False
  end.
Proof.
  intros G [(L1 & P & C) R] [Nn Nd]. cbn [node_step].
  destruct event as [a|p|p topic|data|]; cbn [on_swarm_event];
    try (split; [split; [by exists L1|done]|done]).
  - unfold on_subscribed. cbn [message_sent node_swarm node_rpc].
    destruct (negb _ && _); [|split; [split; [by exists L1|done]|done]].
    destruct publish as [message|]; [|split; [split; [by exists L1|done]|done]].
    destruct now as [ms|e|]; [|done|done]. cbn [mbind outcome_bind].
    pose proof (G polled testnet_topic (announcement ms message)) as NP.
    destruct (gossip_publish polled testnet_topic (announcement ms message)) as [[id|e|] s'];
      [split; [split; [by exists L1|done]|done]..|done].
  - cbn [node_rpc]. pose proof (gossip_reception now (rpc_mempool (node_rpc n)) data Nd Nn R) as E.
    destruct (on_gossip_message now (rpc_mempool (node_rpc n)) data) as [[l mempool]|e|]; [|by rewrite E|done].
    cbn [mbind outcome_bind]. split.
    + split; [by exists L1|]. apply E.
    + exact (proj2 E).
Qed.

(** The whole life. *)
Lemma node_run_ok L publish evs n :
  (forall s topic data, (gossip_publish s topic data).1 <> Panic) ->
  node_ok L n -> Forall event_typed evs ->
  let '(ls, r) := node_run publish evs n in
  Forall2 (answered_by_rules L) (take (length ls) evs) ls /\
  match r with
  | Ok n' => node_ok L n' /\ length ls = length evs /\
      pool_of n' ≡ₚ concat (zip_with contribution evs ls) ++ pool_of n
  | Err _ => exists ev, evs !! length ls = Some ev /\ clock_fails ev
  | Panic => False
  end.
Proof.
  intros G. revert n. induction evs as [|ev evs IH]; intros n I T; [split; [by apply Forall2_nil|by split]|].
  apply Forall_cons in T as [Te T]. cbn [node_run].
  assert (match node_step publish ev n with
    | Ok (l, n') => node_ok L n' /\ pool_of n' ≡ₚ contribution ev l ++ pool_of n /\ answered_by_rules L ev l
    | Err _ => clock_fails ev
    | Panic => False
    end) as A.
  { destruct ev as [q|now polled event].
    - by destruct (rpc_step L publish q n I Te) as (l & n' & -> & A).
    - pose proof (swarm_step L publish now polled event n G I Te) as A.
      destruct (node_step publish (Swarm now polled event) n) as [[l n']|e|]; [|done..].
      destruct A. by destruct l. }
  destruct (node_step publish ev n) as [[l n1]|e|]; [|split; [by apply Forall2_nil|by exists ev]|done].
  destruct A as (I1 & P1 & A1). specialize (IH n1 I1 T).
  destruct (node_run publish evs n1) as [ls r]. destruct IH as [F IH]. cbn [length take].
  split; [by constructor|]. destruct r as [n'|e|]; [|exact IH|done].
  destruct IH as (I' & Len & P'). split; [done|]. split; [by rewrite Len|].
  cbn [zip_with concat]. rewrite P', P1. solve_Permutation.
Qed.

(** [C7] The life of a node, whatever requests and network traffic
    it gets and in whatever order.  It never panics and ends only when the
    clock fails.  Its database is the one it started with, but for the slots
    and roots that contract calls write: no block is added, no account
    changes, no transaction is ever executed.  Its pool is exactly what it was
    and one transaction for each accepted submission and for each transaction
    received, nothing else and nothing lost; and a submission is accepted only
    when it is admissible for the accounts of the start. *)
Theorem node_life L publish evs n :
  (forall s topic data, (gossip_publish s topic data).1 <> Panic) ->
  represents (contents (rpc_storage (node_rpc n))) L -> routed (rpc_mempool (node_rpc n)) ->
  Forall event_typed evs ->
  let '(ls, r) := node_run publish evs n in
  Forall2 (answered_by_rules L) (take (length ls) evs) ls /\
  match r with
  | Ok n' => length ls = length evs /\
      (exists L', represents (contents (rpc_storage (node_rpc n'))) L' /\ chain_part L' = chain_part L) /\
      pool_of n' ≡ₚ concat (zip_with contribution evs ls) ++ pool_of n
  | Err _ => exists ev, evs !! length ls = Some ev /\ clock_fails ev
  | Panic => False
  end.
Proof.
  intros G P R T. pose proof (node_run_ok L publish evs n G) as A.
  destruct (node_run publish evs n) as [ls r].
  destruct A as [F A]; [by split; [exists L|]|done|]. split; [done|].
  destruct r as [n'|e|]; [|done..]. destruct A as ([Ex _] & Len & Pe). done.
Qed.
End node.

(** ** From the environment to the life of the node *)

Section boot.
Context {S : Type} `{KvStoreOk S, Sha256Ok, Ed25519, ChainCodecsOk, WasmtimeOk, HexOk, RateLimiter}.
Context `{!Bincode ViewableNote, !BincodeOk ViewableNote, !Bincode Hash32, !BincodeOk Hash32}.
Context `{!BincodeTyped Transaction, !BincodeTyped ContractCallPayload}.
Context `{!Bincode Message, !BincodeOk Message, KeysOk}.
Context `{!Behaviours, !BehavioursOk}.
Context `{!Gossipsub, !Swarms, !SwarmsOk}.





End boot.

(** ** The demonstration message *)

Definition announced (ls : list node_log) : list (Z * bytes) :=
  omap (fun l => match l with Announced ms payload => Some (ms, payload) | _ => None end) ls.

Section announcement.
Context {S : Type} `{Sha256, Ed25519, ChainCodecs, KvStore S, Wasmtime, Hex, RateLimiter}.
Context `{!Bincode Message, Gossipsub}.
Implicit Types (n : NodeState S).

(** The clock of an event is a [u128]. *)
Definition clocked_event (ev : NodeEvent) : Prop :=
  match ev with Swarm (Ok ms) _ _ => 0 <= ms < 2 ^ 128 | _ => True end.

Lemma step_announces publish ev n l n' :
  node_step publish ev n = Ok (l, n') ->
  match l with
  | Announced ms payload => message_sent n = false /\ message_sent n' = true /\
      (clocked_event ev -> 0 <= ms < 2 ^ 128) /\
      exists message, publish = Some message /\ payload = announcement ms message
  | _ => message_sent n' = message_sent n
  end.
Proof.
  destruct ev as [q|now polled event]; cbn [node_step].
  - destruct (run_io (serve q) (node_rpc n)) as [[resp|e|] rpc]; [|..|done]; by intros [= <- <-].
  - destruct event as [a|p|p topic|data|]; cbn [on_swarm_event]; try by intros [= <- <-].
    + unfold on_subscribed. cbn [message_sent node_swarm node_rpc].
      destruct (message_sent n) eqn:M; cbn [negb andb]; [by intros [= <- <-]|].
      case_bool_decide; [|by intros [= <- <-]].
      destruct publish as [message|]; [|by intros [= <- <-]].
      destruct now as [ms|e|]; [|done..]. cbn [mbind outcome_bind].
      destruct (gossip_publish polled testnet_topic (announcement ms message)) as [[id|e|] s'];
        [|..|done]; intros [= <- <-]; cbn [message_sent]; [|done].
      split; [done|]. split; [done|]. split; [done|]. by exists message.
    + intros ([l' mempool] & E & [= <- <-])%bind_Ok. done.
Qed.

Lemma run_announces publish evs n :
  Forall clocked_event evs ->
  (length (announced (node_run publish evs n).1) <= if message_sent n then 0 else 1)%nat /\
  Forall (fun a => 0 <= a.1 < 2 ^ 128 /\ exists message, publish = Some message /\ a.2 = announcement a.1 message)
    (announced (node_run publish evs n).1).
Proof.
  revert n. induction evs as [|ev evs IH]; intros n C; cbn [node_run].
  { split; [|constructor]. cbn. lia. }
  apply Forall_cons in C as [Ce C].
  destruct (node_step publish ev n) as [[l n1]|e|] eqn:E; [|by split; [cbn; lia|constructor]..].
  apply step_announces in E. destruct (IH n1 C) as [B F].
  destruct (node_run publish evs n1) as [ls r]. cbn [fst] in *.
  destruct l as [a|ms payload|e|l|];
    [by rewrite E in B| |by rewrite E in B..].
  destruct E as (M & M1 & R & X). rewrite M1 in B. rewrite M.
  change (announced (Announced ms payload :: ls)) with ((ms, payload) :: announced ls).
  split; [cbn [length]; lia|].
  constructor; [|done]. split; [by apply R|done].
Qed.

(** A receiver that does not take the text for a message. *)
Lemma announcement_received ms message e now mempool :
  0 <= ms < 2 ^ 128 -> from_bytes (announcement ms message) = Err e ->
  on_gossip_message (Ok now) mempool (announcement ms message) =
  Ok (RawLatency ms now (saturating 128 (now - ms)) message, mempool).
Proof.
  intros R E. unfold on_gossip_message. rewrite E. unfold announcement at 1.
  rewrite split_once_fresh, parse_dec; [done|done|].
  intros I. pose proof (dec_bytes_digits ms) as D. rewrite Forall_forall in D. apply D in I.
  destruct I as [_ I]. change (byte_val separator) with 124 in I. lia.
Qed.

(** The demonstration message of a node: in its whole
    life it publishes at most one, and none without a text to publish.  Every
    node that receives the data, and does not take it for a message of the
    protocol, reads back exactly the time of publication and the text,
    even when the text has the separator itself, reports the latency between
    the two clocks, zero when the clock of the receiver is behind, and leaves
    its pool alone. *)
Theorem announcement_roundtrip publish evs n :
  Forall clocked_event evs ->
  let published := announced (node_run publish evs n).1 in
  (length published <= if publish is Some _ then 1 else 0)%nat /\
  forall ms payload, (ms, payload) ∈ published -> exists message, publish = Some message /\
    forall e now mempool, 0 <= now < 2 ^ 128 -> from_bytes payload = Err e ->
    on_gossip_message (Ok now) mempool payload =
    Ok (RawLatency ms now (Z.max 0 (now - ms)) message, mempool).
Proof.
  intros C. destruct (run_announces publish evs n C) as [B F]. cbv zeta. rewrite Forall_forall in F. split.
  - destruct publish; [by destruct (message_sent n); lia|].
    destruct (announced _) as [|a l]; [done|]. destruct (F a) as (_ & m & [=] & _). by left.
  - intros ms payload I. destruct (F _ I) as (R & m & -> & E). cbn [fst snd] in *. subst payload. exists m.
    split; [done|]. intros e now mempool Rn E. rewrite (announcement_received _ _ _ _ _ R E).
    unfold saturating. do 3 f_equal. lia.
Qed.
End announcement.

(** ** The load generator and the nodes *)

Section load.
Context {S : Type} `{KvStoreOk S, Sha256Ok, Ed25519Ok, ChainCodecsOk, WasmtimeOk, HexOk, RateLimiter}.
Context `{!Bincode ViewableNote, !BincodeOk ViewableNote, !Bincode Hash32, !BincodeOk Hash32}.
Context `{!BincodeTyped Transaction, !BincodeTyped ContractCallPayload}.
Context `{!Bincode Message, !BincodeOk Message, Gossipsub, Profile}.

(** What a network has taken to deliver: a publication it accepts is recorded,
    one it refuses is not, and waiting publishes nothing. *)
Record records (poll : Z -> swarm -> swarm) (outbox : swarm -> list (bytes * bytes)) : Prop := {
  records_publish s topic data : let '(r, s') := gossip_publish s topic data in
    r <> Panic /\ outbox s' = outbox s ++ (if is_ok r then [(topic, data)] else []);
  records_wait d s : outbox (poll d s) = outbox s;
}.

(** A message that carries the transaction. *)
Definition carries (tx : Transaction) (data : bytes) : Prop :=
  received_tx data = [tx] /\ from_bytes data <> Panic.

Variables (poll : Z -> swarm -> swarm) (outbox : swarm -> list (bytes * bytes)).
Hypothesis network : records poll outbox.

Lemma network_returns s topic data : (gossip_publish s topic data).1 <> Panic.
Proof.
  pose proof (records_publish _ _ network s topic data) as G.
  destruct (gossip_publish s topic data) as [r s']. exact (proj1 G).
Qed.

(** One transaction: sent once when the publication succeeds, else never. *)
Lemma publish_loop_records tx b : wf tx -> bincode_serialize tx = Ok b -> vec_ok b -> exists data,
  carries tx data /\ forall fuel s attempts r s', publish_loop poll fuel s tx attempts = Some (r, s') ->
  outbox s' = outbox s ++ (if is_ok r then [(TRANSACTIONS_TOPIC_NAME, data)] else []).
Proof.
  intros W Eb V. destruct (transaction_message_Ok tx b Eb V) as (nt & data & En & Ep & Ed & Ef).
  exists data. split.
  { split; [|by rewrite Ef]. unfold received_tx. rewrite Ef, Ep. by rewrite (bincode_roundtrip tx b W Eb). }
  induction fuel as [|fuel IH]; intros s attempts r s' E; [done|]. cbn [publish_loop] in E.
  unfold publish_transaction in E. rewrite En in E. unfold publish_message in E. rewrite Ed in E.
  cbn [map_err] in E. pose proof (records_publish _ _ network s TRANSACTIONS_TOPIC_NAME data) as G.
  destruct (gossip_publish s TRANSACTIONS_TOPIC_NAME data) as [[id|e|] s1]; cbn [map_err is_ok] in *;
    [injection E as <- <-; exact (proj2 G)| |by destruct (proj1 G)].
  destruct G as [_ G]. rewrite app_nil_r in G. destruct (retry_wait _ _).
  - destruct (arith _ _) as [attempts'|x|]; [|injection E as <- <-; by rewrite G, app_nil_r..].
    rewrite (IH _ _ _ _ E). by rewrite (records_wait _ _ network), G.
  - injection E as <- <-. by rewrite G, app_nil_r.
Qed.

(** The run: what it reports is what the network took. *)
Lemma flood_loop_records fuel sender_entropy start_nonce amount entropies offset s r txs s' :
  plan_ok sender_entropy start_nonce amount offset entropies ->
  flood_loop poll fuel (generate_keypair sender_entropy) start_nonce amount (Z.of_nat offset) entropies s
    = Some (r, txs, s') -> exists datas,
  Forall2 carries txs datas /\ outbox s' = outbox s ++ (pair TRANSACTIONS_TOPIC_NAME <$> datas).
Proof.
  intros V. revert offset s r txs s' V.
  induction entropies as [|entropy entropies IH]; intros offset s r txs s' V E.
  { injection E as _ <- <-. exists []. split; [constructor|by rewrite app_nil_r]. }
  cbn [flood_loop] in E. unfold flood_turn in E. rewrite arith_spec in E.
  destruct (overflow_checks && _).
  { injection E as _ <- <-. exists []. split; [constructor|by rewrite app_nil_r]. }
  destruct (V O entropy eq_refl) as [W Vb]. rewrite Nat.add_0_r in W, Vb.
  unfold planned_transfer in W, Vb. change (public_key_of entropy) with (public_key (generate_keypair entropy)) in *.
  destruct (signed_by_Ok sender_entropy _ W eq_refl) as (sg & Es & Et & Wt & _).
  change (secret_key (generate_keypair sender_entropy)) with sender_entropy in E. rewrite Es in E.
  cbn [map_err] in E. rewrite <- Et in E. destruct (bincode_total _ Wt) as [b Eb].
  destruct (publish_loop_records _ b Wt Eb (Vb b Eb)) as (data & Cd & Rd).
  destruct (publish_loop poll fuel s _ 0) as [[r1 s1]|] eqn:El; [|done].
  apply Rd in El. cbn [mbind option_bind] in E.
  destruct r1 as [[]|e|]; cbn [mbind outcome_bind is_ok] in *.
  - replace (Z.of_nat offset + 1) with (Z.of_nat (Datatypes.S offset)) in E by lia.
    destruct (flood_loop poll fuel _ start_nonce amount (Z.of_nat (Datatypes.S offset)) entropies s1)
      as [[[r' txs'] s2]|] eqn:E2; [|done]. injection E as _ <- <-.
    apply IH in E2 as (datas & F & O).
    + exists (data :: datas). split; [by constructor|]. by rewrite O, El, <- app_assoc.
    + intros i x Ei. specialize (V (Datatypes.S i) x Ei). by rewrite Nat.add_succ_r in V.
  - injection E as _ <- <-. exists []. by rewrite El.
  - injection E as _ <- <-. exists []. by rewrite El.
Qed.

Lemma carried txs datas : Forall2 carries txs datas -> concat (received_tx <$> datas) = txs.
Proof. induction 1 as [|tx data txs datas [E _] _ IH]; [done|]. cbn. by rewrite E, IH. Qed.

Lemma deliveries_contribute now polled ds ls : length ls = length ds ->
  zip_with contribution ((fun d => Swarm now polled (GossipMessage d)) <$> ds) ls = received_tx <$> ds.
Proof.
  revert ls. induction ds as [|d ds IH]; intros [|l ls] Len; try done. cbn. f_equal. apply IH. by injection Len.
Qed.

(** A node that gets messages carrying transactions takes them all. *)
Lemma deliveries_taken L publish now polled (n : NodeState S) txs datas ds :
  represents (contents (rpc_storage (node_rpc n))) L -> routed (rpc_mempool (node_rpc n)) ->
  Forall2 carries txs datas -> ds ≡ₚ datas -> exists ls n',
    node_run publish ((fun d => Swarm (Ok now) polled (GossipMessage d)) <$> ds) n = (ls, Ok n') /\
    pool_of n' ≡ₚ txs ++ pool_of n.
Proof.
  intros P R F D. set (evs := (fun d => Swarm (Ok now) polled (GossipMessage d)) <$> ds).
  pose proof (node_run_ok L publish evs n network_returns) as A.
  assert (Forall event_typed evs) as T.
  { apply Forall_fmap. rewrite D. clear D ds evs A.
    induction F as [|tx data txs datas [_ N] _ IH]; [constructor|]. by constructor. }
  destruct (node_run publish evs n) as [ls r]. destruct A as [_ A]; [by split; [exists L|]|done|].
  destruct r as [n'|e|]; [| |done].
  - destruct A as (_ & Len & Pe). exists ls, n'. split; [done|].
    unfold evs in Pe, Len. rewrite length_fmap in Len. rewrite deliveries_contribute in Pe by done.
    rewrite Pe, <- (carried _ _ F). f_equiv. clear -D. induction D; cbn; [done|by f_equiv|solve_Permutation|by etrans].
  - destruct A as (ev & Ee & C). unfold evs in Ee. rewrite list_lookup_fmap in Ee.
    destruct (ds !! _); [|done]. by injection Ee as <-.
Qed.

End load.

Section command.
Context {S : Type} `{KvStoreOk S, Sha256Ok, Ed25519Ok, ChainCodecsOk, WasmtimeOk, HexOk, RateLimiter}.
Context `{!Bincode ViewableNote, !BincodeOk ViewableNote, !Bincode Hash32, !BincodeOk Hash32}.
Context `{!BincodeTyped Transaction, !BincodeTyped ContractCallPayload}.
Context `{!Bincode Message, !BincodeOk Message, KeysOk, Profile}.
Context `{!Behaviours, !BehavioursOk}.
Context `{!Gossipsub, !Swarms, !SwarmsOk, !ClockRuns}.

(** Only publications are recorded, on a swarm that starts empty. *)
Record records_swarm (outbox : swarm -> list (bytes * bytes)) : Prop := {
  rec_network : records wait outbox;
  rec_build t b : outbox (build_swarm t b) = [];
  rec_behaviour s b : outbox (set_behaviour s b) = outbox s;
  rec_listen s a : outbox (listen_on s a).2 = outbox s;
  rec_announce s a : outbox (add_external_address s a) = outbox s;
  rec_dial s a : outbox (dial s a).2 = outbox s;
}.

Variable outbox : swarm -> list (bytes * bytes).
Hypothesis recorded : records_swarm outbox.

Lemma dial_seeds_outbox s seeds s' : dial_seeds s seeds = Ok s' -> outbox s' = outbox s.
Proof.
  revert s. induction seeds as [|seed seeds IH]; intros s E; [by injection E as <-|]. cbn [dial_seeds] in E.
  apply bind_Ok in E as (a & _ & E). pose proof (rec_dial _ recorded s a) as D.
  destruct (dial s a) as [[[]|m|] s1]; [|done..]. cbn [snd] in D. by rewrite (IH _ E).
Qed.

Lemma start_outbox e fs random config n : PrimsNode_new e fs random config = Ok n -> outbox (prims_swarm n) = [].
Proof.
  rewrite PrimsNode_new_use.
  intros (key & _ & (t & _ & (b & _ & (s & E & [= <-])%bind_Ok)%bind_Ok)%bind_Ok)%bind_Ok. cbn [prims_swarm].
  rewrite <- (rec_build _ recorded t b). unfold use_addresses in E. apply bind_Ok in E as (a & _ & E).
  pose proof (rec_listen _ recorded (build_swarm t b) a) as Ls.
  destruct (listen_on _ a) as [[[]|m|] s1]; [|done..]. cbn [snd] in Ls. rewrite <- Ls.
  apply bind_Ok in E as (s2 & E2 & E). rewrite (dial_seeds_outbox _ _ _ E).
  destruct (external_address config) as [text|]; [|by injection E2 as <-].
  apply bind_Ok in E2 as (a2 & _ & [= <-]). apply (rec_announce _ recorded).
Qed.

Lemma poll_loop_outbox fuel milliseconds deadline stop s b s' :
  poll_loop fuel milliseconds deadline stop s = Some (b, s') -> outbox s' = outbox s.
Proof.
  revert s. induction fuel as [|fuel IH]; intros s E; [done|]. cbn [poll_loop] in E.
  destruct (now s <? deadline); [|by injection E as _ <-].
  pose proof (records_wait _ _ (rec_network _ recorded) milliseconds s) as W. unfold wait in W.
  destruct (select_timeout milliseconds s) as [event s1]. cbn [snd] in W.
  destruct (default false _); [by injection E as _ <-|]. by rewrite (IH _ E).
Qed.

(** A command that succeeds leaves a swarm that took what it reports. *)
Lemma flood_records fuel e fs random count start_nonce amount address seeds sender_entropy draws s' txs :
  let entropies := draws <$> seq 0 (Z.to_nat count) in
  plan_ok sender_entropy start_nonce amount 0 entropies ->
  flood fuel e fs random count start_nonce amount address seeds sender_entropy draws = Some (Ok s', txs) ->
  exists datas, Forall2 carries txs datas /\ outbox s' = pair TRANSACTIONS_TOPIC_NAME <$> datas.
Proof.
  intros entropies V E. unfold flood in E.
  destruct (config ← _; map_err _ _) as [n|error|] eqn:En; [|done..].
  apply bind_Ok in En as (config & _ & En%map_err_Ok). apply start_outbox in En.
  set (s := unsubscribe_all (prims_swarm n)) in *.
  assert (outbox s = []) as Es by (unfold s, unsubscribe_all; by rewrite (rec_behaviour _ recorded)).
  destruct (poll_loop fuel 500 _ _ s) as [[[] s1]|] eqn:E1; [|done..]. cbn [mbind option_bind negb] in E.
  destruct (poll_loop fuel 250 _ _ s1) as [[b2 s2]|] eqn:E2; [|done]. cbn [mbind option_bind] in E.
  fold entropies in E. unfold flood_publish in E.
  destruct (flood_loop wait fuel _ _ _ 0 entropies s2) as [[[r txs'] s3]|] eqn:E3; [|done].
  cbn [mbind option_bind] in E. destruct r as [[]|error|]; [|done..].
  destruct (poll_loop fuel 100 _ _ s3) as [[b4 s4]|] eqn:E4; [|done]. cbn [mbind option_bind] in E.
  injection E as <- <-. apply poll_loop_outbox in E1, E2, E4.
  apply (flood_loop_records wait outbox (rec_network _ recorded) fuel sender_entropy start_nonce amount entropies 0) in E3
    as (datas & F & O); [|done].
  exists datas. split; [done|]. by rewrite E4, O, E2, E1, Es.
Qed.

(** [C26] From the command line of the load generator to the
    pools of the nodes, for any first nonce and count of 64 bits and transfers
    that fit in memory, provided waiting moves the clock.  The command returns: with an error, or with success,
    or, only in a build with overflow checks and when the first nonce and the
    count exceed 64 bits, with a panic.  When it succeeds, what it reports as
    published is all it planned and exactly what the network took from it,
    from its start and in spite of the retries: each transfer once.  Any node
    that receives these messages, in any order, ends up with exactly these
    transfers more in its pool, whatever the accounts are. *)
Theorem flood_fills_pools e fs random count start_nonce amount address seeds sender_entropy draws :
  let entropies := draws <$> seq 0 (Z.to_nat count) in
  u64 start_nonce -> 0 <= count -> plan_ok sender_entropy start_nonce amount 0 entropies ->
  exists r txs,
    enough (fun fuel => flood fuel e fs random count start_nonce amount address seeds sender_entropy draws) r txs /\
    (r = Panic -> overflow_checks = true /\ 2 ^ 64 < start_nonce + count) /\
    forall s', r = Ok s' -> txs = planned sender_entropy start_nonce amount entropies /\ exists datas,
      outbox s' = pair TRANSACTIONS_TOPIC_NAME <$> datas /\ length datas = length txs /\
      forall L publish now polled (n : NodeState S) ds,
        represents (contents (rpc_storage (node_rpc n))) L -> routed (rpc_mempool (node_rpc n)) ->
        ds ≡ₚ datas -> exists ls n',
          node_run publish ((fun d => Swarm (Ok now) polled (GossipMessage d)) <$> ds) n = (ls, Ok n') /\
          pool_of n' ≡ₚ txs ++ pool_of n.
Proof.
  intros entropies S0 C0 V.
  destruct (flood_returns e fs random count start_nonce amount address seeds sender_entropy draws S0 C0 V
    (network_returns _ _ (rec_network _ recorded))) as (r & txs & En & Gn).
  exists r, txs. split; [exact En|]. split; [apply (gen_returns _ _ _ _ _ _ _ _ _ _ _ _ Gn)|].
  intros s' ->. split; [by apply (gen_success _ _ _ _ _ _ _ _ _ _ _ _ Gn)|].
  destruct En as [fuel En]. specialize (En fuel (le_n _)).
  destruct (flood_records _ _ _ _ _ _ _ _ _ _ _ _ _ V En) as (datas & F & O).
  exists datas. split; [exact O|]. split; [symmetry; by eapply Forall2_length|].
  intros L publish now polled n ds P R D. by eapply (deliveries_taken wait outbox (rec_network _ recorded)).
Qed.
End command.

(** ** Witnesses *)

From S2P Require Import Concrete.
Import Concrete.Instances StorageInstances.

#[local] Existing Instances sample_engine sample_engine_ok toy_hex toy_hex_ok toy_limiter.
#[local] Existing Instances toy_message toy_message_ok.

(** A network whose queues are full for a while, and what it has taken: each
    publication takes a credit, and each wait gives one. *)
#[local] Instance busy_network : Gossipsub := {|
  swarm := Z * list (bytes * bytes); message_id := unit;
  gossip_publish := fun s topic data =>
    if 0 <? s.1 then (Ok tt, (s.1 - 3, s.2 ++ [(topic, data)])) else (Err "AllQueuesFull"%string, s) |}.

Definition network_poll (_ : Z) (s : @swarm busy_network) : @swarm busy_network := (s.1 + 1, s.2).
Definition network_outbox (s : @swarm busy_network) : list (bytes * bytes) := s.2.
Definition quiet : @swarm busy_network := (1, []).

Lemma network_records : records network_poll network_outbox.
Proof.
  split; [|done]. intros s topic data. cbn. destruct (0 <? s.1); cbn; [done|]. by rewrite app_nil_r.
Qed.

Definition sample_node : NodeState (gmap bytes bytes) := {|
  node_rpc := node; node_swarm := quiet; message_sent := false |}.

(** A query, a submission, a transaction of the network that no submission
    could bring, a text, and a subscription. *)
Definition forged_message : bytes :=
  enc c_message (NewTransaction {| ntx_id := []; ntx_payload := enc c_transaction forged |}).

Definition sample_life : list NodeEvent := [
  Rpc GetInfoReq; Rpc (SendTransactionReq (Ok (hex_of payment)));
  Swarm (Ok 3) quiet (GossipMessage forged_message); Swarm (Ok 9) quiet (GossipMessage (bytes_of "5|hi"));
  Swarm (Ok 12) quiet (Subscribed [] testnet_topic); Swarm (Err "clock"%string) quiet OtherEvent ].

Definition demo_text : option bytes := Some (bytes_of "a|b").

Lemma sample_life_typed : Forall event_typed sample_life.
Proof.
  repeat constructor; try discriminate; [intros text [= <-]; by vm_compute|vm_compute; discriminate..].
Qed.

Lemma node_life_witness : exists ls n',
  node_run demo_text sample_life sample_node = (ls, Ok n') /\
  pool_of n' ≡ₚ concat (zip_with contribution sample_life ls) ++ pool_of sample_node /\
  concat (zip_with contribution sample_life ls) = [payment; forged].
Proof.
  pose proof (node_life node_ledger demo_text sample_life sample_node (network_returns _ _ network_records)
    node_represents node_routed sample_life_typed) as G.
  assert (is_ok (node_run demo_text sample_life sample_node).2 = true /\
    concat (zip_with contribution sample_life (node_run demo_text sample_life sample_node).1) = [payment; forged])
    as [O C] by (split; vm_compute; reflexivity).
  destruct (node_run demo_text sample_life sample_node) as [ls [n'|e|]]; [|discriminate O..].
  exists ls, n'. destruct G as (_ & _ & _ & G). exact (conj eq_refl (conj G C)).
Defined.

Lemma announcement_roundtrip_witness : exists payload,
  announced (node_run demo_text sample_life sample_node).1 = [(12, payload)] /\
  on_gossip_message (Ok 30) (with_partition_count 4) payload =
    Ok (RawLatency 12 30 18 (bytes_of "a|b"), with_partition_count 4).
Proof.
  destruct (announcement_roundtrip demo_text sample_life sample_node) as [_ G].
  { repeat constructor; done. }
  assert (announced (node_run demo_text sample_life sample_node).1 = [(12, bytes_of "12|a|b")]) as E
    by (vm_compute; reflexivity).
  exists (bytes_of "12|a|b"). split; [exact E|].
  destruct (G 12 (bytes_of "12|a|b")) as (m & Em & R); [rewrite E; by left|].
  injection Em as <-.
  assert (from_bytes (bytes_of "12|a|b") = Err "io error: unexpected end of file"%string) as F
    by (vm_compute; reflexivity).
  assert (0 <= 30 < 2 ^ 128) as B by lia.
  pose proof (R _ 30 (with_partition_count 4) B F) as X.
  change (Z.max 0 (30 - 12)) with 18 in X. exact X.
Defined.

(** The program on a machine whose database is that of [node]. *)
Import NetworkInstances.

Definition sample_machine : machine (gmap bytes bytes) := {|
  create_parent := fun _ => Ok tt; open_storage := fun _ => Ok node_db; parallelism := 4;
  bind_server := fun _ => Ok tt |}.


Definition polled_swarm : @swarm toy_gossip := {|
  toy_key := []; toy_topics := ∅; toy_commands := []; toy_outbox := []; toy_credits := 0; toy_clock := 0;
  toy_events := [] |}.

Definition first_events : list (@NodeEvent toy_gossip) := [
  Rpc GetInfoReq; Swarm (Ok 3) polled_swarm (GossipMessage forged_message);
  Rpc (SendTransactionReq (Ok (hex_of payment))) ].



(** A machine whose port is taken. *)
Definition busy_machine : machine (gmap bytes bytes) := {|
  create_parent := create_parent sample_machine; open_storage := open_storage sample_machine;
  parallelism := parallelism sample_machine; bind_server := fun _ => Err "address in use"%string |}.

Example port_in_use : main busy_machine start_env ∅ [] first_events = Panic.
Proof. vm_compute. reflexivity. Qed.

(** The run of [flood_succeeds], and a node that receives it backwards. *)
#[local] Existing Instance toy_clock_runs.

Lemma toy_records : records_swarm (toy_outbox : @swarm toy_gossip -> list (bytes * bytes)).
Proof.
  split; try done. split; [|done]. intros s topic data. cbn. destruct (0 <? _); cbn; [done|].
  by rewrite app_nil_r.
Qed.

Definition sample_toy_node : @NodeState (gmap bytes bytes) _ toy_gossip :=
  node_start node_db (with_partition_count 4) polled_swarm.

Lemma flood_fills_pools_witness : exists s' txs datas ls n',
  flood 300 start_env ∅ [] 2 5 42 (bytes_of "/here") [] (fill 32 7) draw = Some (Ok s', txs) /\
  txs = planned (fill 32 7) 5 42 (draw <$> seq 0 2) /\
  toy_outbox s' = pair TRANSACTIONS_TOPIC_NAME <$> datas /\
  node_run None ((fun d => Swarm (Ok 3) polled_swarm (GossipMessage d)) <$> reverse datas) sample_toy_node =
    (ls, Ok n') /\
  pool_of n' ≡ₚ txs ++ pool_of sample_toy_node.
Proof.
  destruct (flood_fills_pools (S := gmap bytes bytes)
    (toy_outbox : @swarm toy_gossip -> list (bytes * bytes)) toy_records start_env ∅ [] 2 5 42
    (bytes_of "/here") [] (fill 32 7) draw ltac:(done) ltac:(done) flood_plan_ok)
    as (r & txs & [fuel En] & G).
  assert ((fun x => is_ok x.1) <$> flood 300 start_env ∅ [] 2 5 42 (bytes_of "/here") [] (fill 32 7) draw = Some true)
    as O by (vm_compute; reflexivity).
  destruct (flood 300 start_env ∅ [] 2 5 42 (bytes_of "/here") [] (fill 32 7) draw) as [[[s'|e|] txs']|] eqn:Er;
    [|discriminate O..].
  pose proof (flood_mono _ (Nat.max fuel 300) _ _ _ _ _ _ _ _ _ _ _ Er ltac:(lia)) as Er'.
  rewrite En in Er' by lia. injection Er' as -> ->.
  destruct (proj2 G s' eq_refl) as (Et & datas & Od & _ & D).
  destruct (D node_ledger None 3 polled_swarm sample_toy_node (reverse datas) node_represents
    ltac:(apply with_partition_count_routed) (reverse_Permutation _)) as (ls & n' & Ern & Pe).
  exists s', txs', datas, ls, n'. exact (conj eq_refl (conj Et (conj Od (conj Ern Pe)))).
Defined.
